(* ===== verification/_CoqProject ===== *)
-Q . S2P
Prelude.v
Txn.v
PyFloat.v
PyText.v
PyStr.v
PyDecimal.v
AuditLog.v
Causal.v
CausalFacts.v
CausalProps.v
Atms.v
AtmsFacts.v
AtmsCascade.v
AtmsProps.v
AtmsCausal.v
EventTypes.v
EventLog.v
EventLogFacts.v
EventLogProps.v
Policy.v
Governor.v
GovernorProps.v
OutboxRelay.v
OutboxProps.v
Quotas.v
QuotasFacts.v
QuotasProps.v
CircuitBreaker.v
CircuitBreakerProps.v
ToolGovernance.v
A2A.v
A2AProps.v
Survivorship.v
EventBus.v
Inventory.v
GoodsReceipt.v
StockReturns.v
Kitting.v
Valuation.v
InventoryFacts.v
InventoryProps.v
InventoryRuns.v
ReturnsProps.v
ReceiptProps.v
KittingProps.v
Revenue.v
RevenueFacts.v
RevenueProps.v
Locks.v
LocksProps.v
DeadLetter.v
DeadLetterProps.v
Periodisation.v
PeriodisationProps.v
SourceMode.v
SourceModeProps.v
MemoryStore.v
GarbageCollector.v
GcFacts.v
GcProps.v
MemoryFacts.v
MemorySteps.v
SagaLog.v
MemoryProps.v
Signing.v
SigningProps.v
Agreements.v
AgreementsProps.v
Resolver.v
ResolverProps.v
Rebates.v
RebatesProps.v
PurchaseOrders.v
PurchaseOrdersProps.v
RebateOrders.v
Pricing.v
TrustDial.v
TrustDialProps.v
Identity.v
IdentityProps.v
