(* ===== verification/Prelude.v ===== *)
(** * Verification of the Neuro-Cognitive Engine (NCE)

    NCE ([src/nce/]) is a Python server that keeps an organisation's memory:
    agents store facts and a causal graph of the infrastructure in PostgreSQL and
    MongoDB, every change leaves a signed, hash-chained event, side effects leave
    through an outbox, and what an agent may do is bounded by quotas, tool switches,
    an autonomy policy and sharing grants.  On the engine run business modules, such
    as an inventory, revenue recognition and supplier agreements.  This library
    models the parts that carry the program's own decisions, as pure functions and
    explicit state passing, and proves what they guarantee.  Source paths are
    relative to the repository.

    ** The parts, and the files that model them

    The engine:

    - Causal reasoning: [src/nce/causal/correlation.py].  [Causal] (data,
      traversals, the do-operator, impact scoring), [CausalFacts] (the
      traversals compute reachability and simple paths), [CausalProps].
    - Truth maintenance: [src/nce/atms.py].  [Atms] (the engine), [AtmsFacts] (its
      proof search decides derivability), [AtmsCascade] (the worklist of
      deprecation), [AtmsProps], [AtmsCausal] (the engine built from a causal
      graph agrees with the causal engine).
    - Event log: [src/nce/event_log.py], [src/nce/event_types.py].  [EventTypes],
      [EventLog] (validation, sequence numbers, signatures, the Merkle chain,
      the verifiers), [EventLogFacts] (the chain and the log's invariant),
      [EventLogProps].
    - Autonomy gate: [src/nce/autonomy/policy.py], [src/nce/autonomy/governor.py].
      [Policy], [Governor] (kill switch, idempotency, approval queue, audit),
      [GovernorProps].
    - Outbox relay: [src/nce/outbox_relay.py].  [OutboxRelay], [OutboxProps].
    - Event bus: [src/nce/events/bus.py], [src/nce/events/emit.py].  [EventBus].
    - Quotas: [src/nce/quotas.py] and [manage_quotas] of
      [src/nce/orchestrators/namespace.py].  [Quotas], [QuotasFacts],
      [QuotasProps].
    - Provider resilience: the circuit breaker, retry policy and retry loop of
      [src/nce/providers/base.py].  [CircuitBreaker], [CircuitBreakerProps].
    - Tool governance: [src/nce/tool_governance.py].  [ToolGovernance].
    - Sharing grants: [src/nce/a2a.py], [src/nce/a2a_mcp_handlers.py] and the
      token check of [src/nce/a2a_server.py].  [A2A], [A2AProps].
    - Entity resolution: [src/nce/entity_resolution/].  [Survivorship] (field
      survivorship), [Resolver] (normalisers, ranking, the merge queue and its
      handlers), [ResolverProps].
    - Locks: [src/nce/redis_lock.py], [src/nce/cron_lock.py].  [Locks],
      [LocksProps].
    - Dead letters: [src/nce/dead_letter_queue.py] and the failure handling of
      [src/nce/tasks.py].  [DeadLetter], [DeadLetterProps].
    - Source modes: [src/nce/source_mode/] and the parity check of
      [src/nce/vertical_modules/sales/source_mode.py].  [SourceMode],
      [SourceModeProps].
    - Memory stores: the saga of [src/nce/orchestrators/memory.py], the indexing
      worker of [src/nce/tasks.py], recovery in [src/nce/cron.py].  [MemoryStore],
      [MemoryFacts] (the system as a step relation and its invariant),
      [MemorySteps] (every step keeps it), [SagaLog] (the log's rows against the
      runs), [MemoryProps].
    - Garbage collector: [src/nce/garbage_collector.py].  [GarbageCollector],
      [GcFacts] (keyset pagination, effects), [GcProps].
    - Signing service: [src/nce/signing_service/].  [Signing] (the transports),
      [SigningProps].
    - Identity: agent tokens ([src/nce/jwt_auth.py], [NamespaceContext] of
      [src/nce/auth.py]), principal bindings ([src/nce/principal_bindings/]) and
      [get_me_context], [put_me_context] of [src/nce/me_app.py].  [Identity],
      [IdentityProps].
    - Trust dial: [src/nce/trust_dial.py], with the decisions it measures
      ([src/nce/decision_feedback.py]) and the register it reports to
      ([src/nce/degradation.py]).  [TrustDial], [TrustDialProps].
    - Pricing: [src/nce/pricing/] (price tiers, the sales price, exchange rates) and the
      best bids of [src/nce/vertical_modules/procurement/bids.py].  [Pricing].

    The business modules, under [src/nce/vertical_modules/]:

    - Inventory, [inventory/]: [Inventory] (stock, ledger, reservations),
      [GoodsReceipt], [StockReturns], [Kitting], [Valuation]; [InventoryFacts] (the
      relation every transaction respects), [InventoryRuns] (programs run
      forwards), [InventoryProps], [ReturnsProps], [ReceiptProps], [KittingProps].
    - Recurring revenue, [economy/recurring.py]: [Revenue], [RevenueFacts] (the
      schedule's arithmetic), [RevenueProps].
    - Periodisation, [economy/ngaap.py]: [Periodisation], [PeriodisationProps].
    - Agreements, [agreements/] ([extract.py], [authoring.py], [review.py],
      [signing.py], [graph.py]): [Agreements], [AgreementsProps].  What they
      entitle to ([coverage.py], [kickback.py], [compliance.py]): [Rebates],
      [RebatesProps].
    - Procurement, [procurement/] ([po_line.py], [po.py] from the submission on,
      [transports.py], the submitting tool of [mcp_handlers.py]):
      [PurchaseOrders], [PurchaseOrdersProps]; [RebateOrders] joins it with the
      agreements.

    Definitions keep the names of the functions they translate.  Python's library is
    modelled as far as the code uses it: [PyFloat] (binary64), [PyDecimal] (the
    28-digit decimal context, numbers in JSON), [PyText] and [PyStr] (strings, JSON,
    dates, UUIDs).
    [Txn] is the transaction monad, [AuditLog] the interface to the event log; this
    file holds errors, loops, sorting, iteration order and list lemmas.

    ** How the parts interact

    The autonomy gate, the grants and the memory saga append to the event log inside
    their caller's transaction.  They do so through the class [AuditLog]; their
    theorems are proved against its laws, and [EventLogProps] shows that the
    event log satisfies them.  The truth maintenance engine is built from a
    causal graph: [evaluate_atms_intervention_impacted] states that the two
    agree.  The inventory publishes through the event bus, which appends to the
    outbox that the relay drains; graph writes pass the ownership guard.  Revenue
    recognition keeps its marks in the table of idempotency keys it shares with the
    autonomy gate.  Agreements are signed through the class [SignTransport], which
    both transports of the signing service implement; the audit of a rebate reads
    the agreements whose row is [auto_green] and finds their vendor through the resolver of
    entity resolution.  Submitting a purchase order composes the autonomy
    gate, whose mutation places the order with a transport and moves the lines, the
    event bus that announces each line, and the audit of a rebate: what the
    transport was given outlives a rollback and is returned beside the result.  The
    breaker, the tool cache and the quotas are shared by concurrent callers, which the theorems treat as
    arbitrary interleavings.

    ** Conventions

    - A failing call is a value of [result E A]; the error type of each part has
      a constructor per exception the code distinguishes.
    - A database transaction takes the committed state and returns the new one;
      an exception rolls back, so [Err] carries no state.  State that outlives an
      exception (Redis counters, a breaker, a cache, a transport's sessions, rows
      of another transaction) is returned beside the result.
    - Concurrency is made of committed steps.  Where code reads and later writes
      without a lock, the step takes the outdated state it [seen] as well, or what
      other transactions commit meanwhile: [between] in kitting, reviews and
      updates of order lines, [seen] in recorded signatures, [other] in triage and
      flips.  A saga's run is a state machine whose step is one call, so that other
      runs, the collector and recovery act between any two.  A transaction of
      its own takes effect at one instant.
    - A call to Redis, MongoDB or PostgreSQL that can fail is [Answered], [NotSent]
      or [ReplyLost]: it may have taken effect although the caller sees an error.
      A process that stops takes no more steps.
    - Clocks are integers handed to each call; floats are binary64; money is an
      integer number of hundredths in the database and a decimal in the code.
    - Text is made of 8-bit characters, read as code points below 256.
    - SHA-256, HMAC, the JCS encoder, [jsonb] and its equality, trigram similarity,
      numbers read from text, tenacity, [math.exp], PyJWT, numeric
      columns and their text, the file system of key files, registered handlers and everything else outside [src/] is a
      parameter.  A theorem that relies on documented behaviour of one names it as a
      hypothesis and has a witness with a concrete function.
    - Sets and dicts iterate in the order of a [PyIter], about which nothing is
      assumed, so that no theorem depends on an order Python leaves open.

    ** What the theorems show

    - Causal: the traversals are exactly reachability and simple paths within the
      depth; [mutilate] is the do-operator; [evaluate] returns every affected
      node, ordered by its score.
    - Truth maintenance: the iterative search terminates and decides least
      fixpoint derivability, deprecation leaves exactly the beliefs derivable
      without the retracted one, sequences of calls keep the engine's indexes.
    - Event log: every reachable log verifies; edited and truncated logs are
      detected; an anchor fixes history, unless SHA-256 collides on the very strings
      the two chains hash; signatures of stored events verify; rows respect their
      parameter contracts.
    - Autonomy: an action is executed at most once per idempotency key under any
      retries, never without consent when policy denies it, and a repeat changes
      nothing.
    - Outbox: an enqueued event is always pending, acknowledged once or
      dead-lettered once; poisoned events are set aside.
    - Quotas: one call of the Redis path does what the PostgreSQL path does, but for
      the named leaks of failing Redis calls; on the PostgreSQL path the ledger
      balances across charges and rollbacks.
    - Resilience: an open circuit admits nothing until its timeout, the retry loop
      makes a bounded number of attempts and returns the last outcome.
    - Tool governance: in production a decision is never older than the staleness
      bound; when it may refuse to answer.
    - Grants: revocation is final, a grant covers only delegated namespaces.
    - Entity resolution: the winner of a field is the first candidate no other
      beats; [resolve] returns the best-scored nodes; a queued merge is decided at
      most once.
    - Locks: two holders never share a job and namespace while their leases run.
    - Dead letters: a failing job is parked once at its limit, an entry is handed
      out at most once, stored payloads hide secrets at every depth.
    - Source modes: a flip to native-only is backed by a window of comparisons in
      which the parity check, whatever it compares, found nothing, and afterwards the
      other side is not used.
    - Memory: whatever calls fail, memories keep their documents and finished sagas
      their memory, event and outbox row, but for four exceptions: a commit that was
      not acknowledged, an indexing worker whose cache write failed, a commit later
      than the collector's age, memories of no namespace.  Recovery completes what it
      lists; a collection pass that finds an old document removes exactly the garbage
      it sees, up to its cap.
    - Signing: a document is signed by the code that was sent, and guesses are
      bounded.
    - Inventory: each stock row moves by what the append-only ledger records; a
      transfer, a receipt, a return and a kit do exactly what they say, once.
    - Revenue and periodisation: a contract's year is recognised once and adds up;
      every bucket of a period balances to the hundredth, its shares within a little
      more than half a hundredth.
    - Agreements: terms become binding for money only by a reviewer's confirmation
      or a signature that covers exactly them, unless they replace the signed terms
      while the signature is being recorded; a rebate is approved only within the
      ceiling of the one such agreement that governs the supplier; a kickback sums
      the ledger and takes the highest tier reached.
    - Procurement: an order leaves only with consent, and with a rebate only if such
      an agreement covers it, whatever its dates; once per key, except for orders whose
      transaction failed afterwards; for every line; a line's status follows its
      machine, from its own status or from one a caller claims to be its own.
    - Identity: under the protected prefix the application sees only authenticated
      callers; a principal is the token's own; while the database answers one process,
      what it remembers is in the table and what it deleted is forgotten; the table is
      not asked (see [database_ignored]).
    - Trust dial: the tier in force is the one a person last set; a status never
      grants more; the register counts every call.
    - Pricing: which price applies, and that exchange rates come from the source.

    Lemmas and examples such as [premise_reported_not_flipped],
    [cache_failure_dangles] or [terms_swapped_during_signing] are concrete runs where
    the code departs from its documentation or intent.

    ** Loops, fuel and bounds

    [while k body s d] runs a Python [while] for at most [2^k] turns.  Each use
    has a fuel computed from its input (the number of nodes for traversals, the
    size of the dependency index for the cascade, width to the depth for path
    and proof searches, the number of rows for pagination and the collector's
    cascade), and the theorems of the part show that the loop ends within it, so
    that the default [d] is never returned.  [tenacity_loop] takes as many turns as
    attempts are allowed.  Theorems about money bound it where the 28-digit decimal
    context would round: schedules are exact below 10^25 hundredths; periodisation is
    proved below 10^21 kroner, where its products can already need more than 28
    digits: [near] bounds what the second rounding does, and [rounded] says when there
    is none.

    ** What is not modelled

    SQL execution, row-level security beyond its effect on the saga log, network and
    process I/O, metrics and log text; the mTLS checks of the grants; key storage;
    and the remaining packages of [src/nce/]: semantic search, extraction, temporal
    queries and replay, the other vertical modules, administration
    routes and the tool registry.  Purchase orders are modelled from their lines on:
    drafting (bids, ranking, total cost) is not.  Candidates for extension, in order:
    billing runs and price rules, drafting of orders, shredding of memories, temporal
    parsing and decay. *)
From stdpp Require Export base tactics option list gmap strings fin_maps fin_sets fin_map_dom sets.
From Stdlib Require Export ZArith Lia Sorted.

(** ** Errors as values *)
Inductive result (E A : Type) : Type :=
  | Ok (a : A)
  | Err (e : E).
Arguments Ok {E A} a.
Arguments Err {E A} e.

Global Instance result_ret E : MRet (result E) := λ A x, Ok x.
Global Instance result_bind E : MBind (result E) := λ A B f m,
  match m with Ok a => f a | Err e => Err e end.
Global Instance result_fmap E : FMap (result E) := λ A B f m,
  match m with Ok a => Ok (f a) | Err e => Err e end.

Definition raise {E A} (e : E) : result E A := Err e.
Definition ensure {E} (b : bool) (e : E) : result E unit := if b then Ok () else Err e.

Lemma bind_Ok {E A B} (m : result E A) (f : A → result E B) b :
  m ≫= f = Ok b ↔ ∃ a, m = Ok a ∧ f a = Ok b.
Proof. split; [destruct m as [a|e]; [by exists a|done]|]. by intros (a & -> & ?). Qed.

Lemma ensure_Ok {E} b (e : E) u : ensure b e = Ok u ↔ b = true.
Proof. unfold ensure. by destruct b, u. Qed.

Lemma ensure_bind {E A} b (e : E) (f : unit → result E A) y :
  ensure b e ≫= f = Ok y ↔ b = true ∧ f () = Ok y.
Proof. unfold ensure. destruct b; simpl; naive_solver. Qed.

(** Two equations with one left-hand side: equate the right-hand sides. *)
Ltac same_lhs :=
  repeat match goal with
  | H : ?x = _, H' : ?x = _ |- _ => rewrite H in H'; injection H' as H' || discriminate H'
  end; simplify_eq.

(** Break up the disjunctions, conjunctions and existentials of the context;
    [by_cases_mem] then closes membership goals, one direction at a time. *)
Ltac break :=
  repeat match goal with
  | H : _ ∨ _ |- _ => destruct H
  | H : _ ∧ _ |- _ => destruct H
  | H : ∃ _, _ |- _ => destruct H
  end.
Ltac by_cases_mem := split; intros; break; simplify_eq; try congruence; try done; eauto 10.

(** ** While loops

    [while_fuel k body s] runs the loop body at most [2^k] times.  The body
    returns [inl s'] to go round again and [inr r] to leave the loop, so a
    Python [while] with its early exits is one body.  The doubling keeps the
    fuel logarithmic, which is what makes the loops evaluate by [vm_compute]. *)
Section while.
Context {S R : Type} (body : S → S + R).

Fixpoint while_fuel (k : nat) (s : S) : S + R :=
  match k with
  | 0 => body s
  | Datatypes.S k' =>
      match while_fuel k' s with
      | inl s' => while_fuel k' s'
      | inr r => inr r
      end
  end.

(** [loops n s r]: started in [s] the loop exits with [r] after exactly [n]
    runs of the body. *)
Inductive loops : nat → S → R → Prop :=
  | loops_exit s r : body s = inr r → loops 1 s r
  | loops_next n s s' r : body s = inl s' → loops n s' r → loops (1 + n) s r.

(** [iterates n s s']: [n] runs of the body lead from [s] to [s']. *)
Inductive iterates : nat → S → S → Prop :=
  | iterates_0 s : iterates 0 s s
  | iterates_S n s s' s'' : body s = inl s' → iterates n s' s'' → iterates (1 + n) s s''.

Lemma iterates_trans n m s1 s2 s3 :
  iterates n s1 s2 → iterates m s2 s3 → iterates (n + m) s1 s3.
Proof. induction 1; simpl; eauto using iterates. Qed.

Lemma iterates_one s s' : body s = inl s' → iterates 1 s s'.
Proof. eauto using iterates. Qed.

Lemma iterates_loops n m s s' r : iterates n s s' → loops m s' r → loops (n + m) s r.
Proof. induction 1; simpl; eauto using loops. Qed.

Lemma while_fuel_iterates k s s' :
  while_fuel k s = inl s' → iterates (2 ^ k) s s'.
Proof.
  revert s s'; induction k as [|k IH]; intros s s' H; simpl in *.
  - eauto using iterates.
  - destruct (while_fuel k s) as [s1|] eqn:E; [|done].
    rewrite Nat.add_0_r. eauto using iterates_trans.
Qed.

Lemma loops_split n m s r :
  loops n s r → n ≤ m ∨ ∃ s', iterates m s s' ∧ loops (n - m) s' r.
Proof.
  intros H; revert m; induction H as [s r H|n s s' r H Hl IH]; intros m.
  - destruct m; [right|left; lia]. exists s; split; [constructor|]. by constructor.
  - destruct m as [|m].
    + right. exists s. split; [constructor|]. rewrite Nat.sub_0_r. by econstructor.
    + destruct (IH m) as [?|(s'' & Hi & Hl')]; [left; lia|right].
      exists s''. split; [by econstructor|]. by replace (1 + n - Datatypes.S m) with (n - m) by lia.
Qed.

Lemma iterates_det n s s1 s2 : iterates n s s1 → iterates n s s2 → s1 = s2.
Proof.
  intros H; revert s2; induction H as [|n s s1' s1 Hb _ IH]; intros s2 Hi;
    inversion Hi; simplify_eq; same_lhs; auto.
Qed.

Lemma loops_iterates_absurd n m s s' r : loops n s r → iterates m s s' → m < n.
Proof.
  intros Hl; revert m s'; induction Hl as [s r H|n s s1 r H Hl IH]; intros m s' Hi;
    inversion Hi; simplify_eq; same_lhs; try lia.
  match goal with H : iterates _ _ _ |- _ => apply IH in H end. lia.
Qed.

Lemma while_fuel_result k s r : while_fuel k s = inr r → ∃ n, loops n s r.
Proof.
  revert s; induction k as [|k IH]; intros s H; simpl in *; [eauto using loops|].
  destruct (while_fuel k s) as [s1|] eqn:E; simplify_eq; eauto.
  apply while_fuel_iterates in E. destruct (IH _ H) as [n Hn].
  eauto using iterates_loops.
Qed.

Lemma loops_det n m s r r' : loops n s r → loops m s r' → r = r'.
Proof.
  intros H; revert m; induction H; intros m Hm; inversion Hm; simplify_eq; same_lhs; eauto.
Qed.

(** Enough fuel returns the loop's result. *)
Lemma while_fuel_enough k n s r : loops n s r → n ≤ 2 ^ k → while_fuel k s = inr r.
Proof.
  intros Hl Hk. destruct (while_fuel k s) as [s'|r'] eqn:E.
  - apply while_fuel_iterates in E. pose proof (loops_iterates_absurd _ _ _ _ _ Hl E). lia.
  - destruct (while_fuel_result _ _ _ E) as [m Hm]. by rewrite (loops_det _ _ _ _ _ Hl Hm).
Qed.

(** Total correctness of a loop: an invariant and a measure that decreases. *)
Lemma loops_total (I : S → Prop) (Q : R → Prop) (μ : S → nat) s :
  (∀ s, I s → match body s with inl s' => I s' ∧ μ s' < μ s | inr r => Q r end) →
  I s → ∃ n r, loops n s r ∧ n ≤ 1 + μ s ∧ Q r.
Proof.
  intros Hstep. remember (μ s) as m eqn:Hm. revert s Hm.
  induction (lt_wf m) as [m _ IH]; intros s -> HI.
  specialize (Hstep s HI). destruct (body s) as [s'|r] eqn:E.
  - destruct Hstep as [HI' Hlt].
    destruct (IH _ Hlt s' eq_refl HI') as (n & r & Hl & Hn & HQ).
    exists (1 + n), r. split_and!; [by econstructor|lia|done].
  - exists 1, r. split_and!; [by constructor|lia|done].
Qed.

Lemma while_total (I : S → Prop) (Q : R → Prop) (μ : S → nat) k s :
  (∀ s, I s → match body s with inl s' => I s' ∧ μ s' < μ s | inr r => Q r end) →
  I s → 1 + μ s ≤ 2 ^ k → ∃ r, while_fuel k s = inr r ∧ Q r.
Proof.
  intros Hstep HI Hk. destruct (loops_total I Q μ s Hstep HI) as (n & r & Hl & Hn & HQ).
  exists r. split; [|done]. eapply while_fuel_enough; [done|lia].
Qed.
End while.

(** [while k body s d]: the loop's result, [d] if the fuel runs out (each use
    proves that it does not). *)
Definition while {S R} (k : nat) (body : S → S + R) (s : S) (d : R) : R :=
  match while_fuel body k s with inr r => r | inl _ => d end.

(** Fuel exponent for at most [n] iterations. *)
Definition fuel_for (n : nat) : nat := Datatypes.S (Nat.log2 n).

Lemma fuel_for_enough n : n ≤ 2 ^ fuel_for n.
Proof.
  unfold fuel_for. destruct n as [|n]; [lia|].
  pose proof (Nat.log2_spec (Datatypes.S n)). lia.
Qed.

Lemma fuel_for_pow b n : b ^ n ≤ 2 ^ (n * fuel_for b).
Proof.
  rewrite Nat.mul_comm, Nat.pow_mul_r. apply Nat.pow_le_mono_l, fuel_for_enough.
Qed.

Lemma while_spec {S R} k (body : S → S + R) s d (I : S → Prop) (Q : R → Prop) μ :
  (∀ s, I s → match body s with inl s' => I s' ∧ μ s' < μ s | inr r => Q r end) →
  I s → 1 + μ s ≤ 2 ^ k → Q (while k body s d).
Proof.
  intros H1 H2 H3. destruct (while_total body I Q μ k s H1 H2 H3) as (r & Hr & HQ).
  unfold while. by rewrite Hr.
Qed.

Lemma while_loops {S R} k (body : S → S + R) s d n r :
  loops body n s r → n ≤ 2 ^ k → while k body s d = r.
Proof. intros. unfold while. by erewrite while_fuel_enough. Qed.

(** ** Iteration order

    Python iterates a [set] or [frozenset] in an order the language does not
    specify, and a [dict] in insertion order, which a [gmap] forgets.  The
    development is parametric in both: every theorem holds for every order. *)
Class PyIter := {
  set_iter : gset string → list string;
  set_iter_perm s : set_iter s ≡ₚ elements s;
  dict_iter {A} : gmap string A → list (string * A);
  dict_iter_perm {A} (m : gmap string A) : dict_iter m ≡ₚ map_to_list m
}.

(** One such order, for the concrete runs. *)
Definition canonical_iter : PyIter.
Proof.
  refine {| set_iter := elements; dict_iter A m := map_to_list m |}; intros; reflexivity.
Defined.

Section iter_facts.
Context `{PyIter}.

Lemma elem_of_set_iter s x : x ∈ set_iter s ↔ x ∈ s.
Proof. by rewrite set_iter_perm, elem_of_elements. Qed.

Lemma NoDup_set_iter s : NoDup (set_iter s).
Proof. rewrite set_iter_perm. apply NoDup_elements. Qed.

Lemma elem_of_dict_iter {A} (m : gmap string A) k x : (k, x) ∈ dict_iter m ↔ m !! k = Some x.
Proof. by rewrite dict_iter_perm, elem_of_map_to_list. Qed.

Lemma NoDup_dict_iter_keys {A} (m : gmap string A) : NoDup (dict_iter m).*1.
Proof. rewrite dict_iter_perm. apply NoDup_fst_map_to_list. Qed.
End iter_facts.

(** ** Sorting

    [sorted(xs, key=...)] and [list.sort]: a stable insertion sort by a boolean
    comparison of keys. *)
Section sorted_by.
Context {A : Type} (leb : A → A → bool).

Fixpoint insert_by (x : A) (l : list A) : list A :=
  match l with
  | [] => [x]
  | y :: l' => if leb x y then x :: y :: l' else y :: insert_by x l'
  end.

Definition sorted_by (l : list A) : list A := foldr insert_by [] l.

Lemma insert_by_perm x l : insert_by x l ≡ₚ x :: l.
Proof.
  induction l as [|y l IH]; simpl; [done|]. destruct (leb x y); [done|].
  rewrite IH. by apply Permutation_swap.
Qed.

Lemma sorted_by_perm l : sorted_by l ≡ₚ l.
Proof. induction l as [|x l IH]; simpl; [done|]. by rewrite insert_by_perm, IH. Qed.

Lemma elem_of_sorted_by x l : x ∈ sorted_by l ↔ x ∈ l.
Proof. by rewrite sorted_by_perm. Qed.

Lemma length_sorted_by l : length (sorted_by l) = length l.
Proof. by rewrite sorted_by_perm. Qed.

Lemma sorted_by_sorted l :
  (∀ x y, leb x y = true ∨ leb y x = true) →
  Sorted (λ x y, leb x y = true) (sorted_by l).
Proof.
  intros Htot. induction l as [|x l IH]; simpl; [constructor|].
  induction IH as [|y l' Hs IHs Hhd]; simpl; [repeat constructor|].
  destruct (leb x y) eqn:E; [by repeat constructor|].
  assert (leb y x = true) by (destruct (Htot x y); congruence).
  constructor; [done|]. destruct Hhd as [|z l'' Hyz]; simpl; [by constructor|].
  destruct (leb x z); by constructor.
Qed.
End sorted_by.

Lemma StronglySorted_split {A} (R : A → A → Prop) l1 l2 :
  StronglySorted R (l1 ++ l2) → StronglySorted R l1 ∧ ∀ x y, x ∈ l1 → y ∈ l2 → R x y.
Proof.
  induction l1 as [|x l1 IH]; simpl; intros H.
  - split; [constructor|]. by intros ?? ?%elem_of_nil.
  - inversion H as [|? ? Hs Hall]; subst. destruct (IH Hs) as [Hs1 Hr]. split.
    + constructor; [done|]. by apply Forall_app in Hall as [??].
    + intros a b [->|Ha]%elem_of_cons Hb; [|auto].
      rewrite Forall_forall in Hall. apply Hall, elem_of_app. by right.
Qed.

(** String order of Python ([str] compares by code points). *)
Fixpoint str_compare (s t : string) : comparison :=
  match s, t with
  | EmptyString, EmptyString => Eq
  | EmptyString, _ => Lt
  | _, EmptyString => Gt
  | String a s', String b t' =>
      match (Ascii.N_of_ascii a ?= Ascii.N_of_ascii b)%N with
      | Eq => str_compare s' t'
      | c => c
      end
  end.
Definition str_leb (s t : string) : bool :=
  match str_compare s t with Gt => false | _ => true end.

(** Tuple comparison: first components decide, the second break ties. *)
Definition lex_compare (c d : comparison) : comparison :=
  match c with Eq => d | _ => c end.
Fixpoint list_compare {A} (cmp : A → A → comparison) (l k : list A) : comparison :=
  match l, k with
  | [], [] => Eq
  | [], _ => Lt
  | _, [] => Gt
  | x :: l', y :: k' => lex_compare (cmp x y) (list_compare cmp l' k')
  end.
Definition leb_of (c : comparison) : bool := match c with Gt => false | _ => true end.

Lemma str_compare_antisym s t : str_compare s t = CompOpp (str_compare t s).
Proof.
  revert t; induction s as [|a s IH]; intros [|b t]; simpl; try done.
  rewrite N.compare_antisym. destruct (Ascii.N_of_ascii b ?= Ascii.N_of_ascii a)%N; simpl; auto.
Qed.

Lemma str_leb_total s t : str_leb s t = true ∨ str_leb t s = true.
Proof.
  unfold str_leb. rewrite str_compare_antisym. destruct (str_compare t s); simpl; auto.
Qed.

Lemma list_compare_antisym {A} (cmp : A → A → comparison) l k :
  (∀ x y, cmp x y = CompOpp (cmp y x)) → list_compare cmp l k = CompOpp (list_compare cmp k l).
Proof.
  intros Hc. revert k; induction l as [|x l IH]; intros [|y k]; simpl; try done.
  rewrite (Hc x y), (IH k). destruct (cmp y x); simpl; auto.
Qed.

(** ** Small library facts shared by the components *)

(** *** Tables: lists of rows with a key *)
Lemma key_inj {A B} (f : A → B) l x y :
  NoDup (f <$> l) → x ∈ l → y ∈ l → f x = f y → x = y.
Proof.
  induction l as [|z l IH]; [by intros _ ?%elem_of_nil|].
  rewrite fmap_cons. intros [Hz Hl]%NoDup_cons. rewrite !elem_of_cons.
  intros [->|H] [->|H'] E; auto; exfalso; apply Hz; [rewrite E|rewrite <- E];
    by apply list_elem_of_fmap_2.
Qed.

Lemma NoDup_fmap_filter {A B} (f : A → B) (p : A → bool) l :
  NoDup (f <$> l) → NoDup (f <$> List.filter p l).
Proof.
  induction l as [|x l IH]; [done|]. rewrite fmap_cons. intros [Hx Hl]%NoDup_cons. cbn [List.filter].
  destruct (p x); [|auto]. rewrite fmap_cons. apply NoDup_cons. split; [|auto].
  intros (y & E & Hy)%list_elem_of_fmap. apply Hx. rewrite E.
  apply list_elem_of_fmap_2. apply list_elem_of_In, filter_In in Hy as [Hy _]. by apply list_elem_of_In.
Qed.

Lemma NoDup_snoc {A} (l : list A) x : NoDup l → x ∉ l → NoDup (l ++ [x]).
Proof. intros. apply NoDup_app. split_and!; [done| |apply NoDup_singleton]. set_solver. Qed.

Lemma elem_of_filter_b {A} (p : A → bool) l x : x ∈ List.filter p l ↔ x ∈ l ∧ p x = true.
Proof. by rewrite !list_elem_of_In, filter_In. Qed.

Lemma filter_fmap {A B} (f : A → B) (p : B → bool) l :
  List.filter p (f <$> l) = f <$> List.filter (λ x, p (f x)) l.
Proof.
  induction l as [|x l IH]; [done|]. rewrite fmap_cons. cbn [List.filter].
  rewrite IH. by destruct (p (f x)).
Qed.

Lemma sorted_by_fmap {A B} (f : A → B) (leb : B → B → bool) (leb' : A → A → bool) l :
  (∀ x y, leb (f x) (f y) = leb' x y) → sorted_by leb (f <$> l) = f <$> sorted_by leb' l.
Proof.
  intros H. assert (∀ x k, insert_by leb (f x) (f <$> k) = f <$> insert_by leb' x k) as Hi.
  { intros x k. induction k as [|y k IH]; [done|]. rewrite fmap_cons. cbn [insert_by].
    rewrite H, IH. by destruct (leb' x y). }
  induction l as [|x l IH]; [done|]. unfold sorted_by in *. rewrite fmap_cons. cbn [foldr]. by rewrite IH, Hi.
Qed.

(** *** Automation

    [row_solver] discharges membership and distinctness side conditions on
    tables. *)
Create HintDb rows.
Create Rewrite HintDb rows.
#[export] Hint Resolve list_elem_of_fmap_2 list_elem_of_lookup_2 NoDup_fmap_filter NoDup_snoc : rows.
#[export] Hint Rewrite @elem_of_sorted_by @elem_of_filter_b @length_sorted_by @length_fmap
  @list_elem_of_singleton : rows.
Ltac row_solver := autorewrite with rows in *; break; eauto 6 with rows.


(** Rule induction for histories: what every step preserves holds throughout. *)
Lemma rtc_preserves {A} (R : A → A → Prop) (P : A → Prop) x y :
  (∀ x y, P x → R x y → P y) → rtc R x y → P x → P y.
Proof. intros Hstep. induction 1; eauto. Qed.

Lemma elem_of_default_lookup {A} (m : gmap string (list A)) k x :
  x ∈ default [] (m !! k) ↔ ∃ l, m !! k = Some l ∧ x ∈ l.
Proof.
  destruct (m !! k) as [l|]; simpl; [naive_solver|].
  split; [by intros ?%elem_of_nil|naive_solver].
Qed.

Lemma forallb_elem {A} (f : A → bool) l : forallb f l = true ↔ ∀ x, x ∈ l → f x = true.
Proof. rewrite forallb_forall. by setoid_rewrite list_elem_of_In. Qed.

Lemma existsb_elem {A} (f : A → bool) l : existsb f l = true ↔ ∃ x, x ∈ l ∧ f x = true.
Proof. rewrite existsb_exists. by setoid_rewrite list_elem_of_In. Qed.
