(* ===== verification/Txn.v ===== *)
(** * Txn: database transactions as a state and error monad

    [tx S E A] is a program that runs inside one transaction on a database of
    type [S]: it returns the new state and a value, or an exception, which
    carries no state because the transaction rolls back. *)
From S2P Require Import Prelude.

Definition tx (S E A : Type) : Type := S → result E (S * A).

#[global] Instance tx_ret S E : MRet (tx S E) := λ A a s, Ok (s, a).
#[global] Instance tx_bind S E : MBind (tx S E) := λ A B f m s,
  match m s with Ok (s', a) => f a s' | Err e => Err e end.

Section tx.
Context {S E : Type}.

Definition gets {A} (f : S → A) : tx S E A := λ s, Ok (s, f s).
Definition modify (f : S → S) : tx S E () := λ s, Ok (f s, ()).
Definition fail {A} (e : E) : tx S E A := λ _, Err e.
Definition lift {A} (r : result E A) : tx S E A := λ s, match r with Ok a => Ok (s, a) | Err e => Err e end.

(** A Python [for] loop whose body may raise. *)
Fixpoint tx_for {A B} (l : list A) (f : A → tx S E B) : tx S E (list B) :=
  match l with
  | [] => mret []
  | x :: l => y ← f x; ys ← tx_for l f; mret (y :: ys)
  end.

Lemma tx_bind_Ok {A B} (m : tx S E A) (f : A → tx S E B) s s' b :
  (m ≫= f) s = Ok (s', b) ↔ ∃ s1 a, m s = Ok (s1, a) ∧ f a s1 = Ok (s', b).
Proof.
  unfold mbind, tx_bind. split.
  - destruct (m s) as [[s1 a]|]; [by eauto|done].
  - by intros (s1 & a & -> & ?).
Qed.

Lemma tx_ret_Ok {A} (a b : A) s s' : (mret a : tx S E A) s = Ok (s', b) ↔ s = s' ∧ a = b.
Proof. split; [by intros [= -> ->]|by intros [-> ->]]. Qed.

Lemma gets_Ok {A} (f : S → A) s s' a : gets f s = Ok (s', a) ↔ s = s' ∧ f s = a.
Proof. split; [by intros [= -> <-]|by intros [<- <-]]. Qed.

Lemma modify_Ok (f : S → S) s s' u : modify f s = Ok (s', u) ↔ f s = s'.
Proof. destruct u. split; [by intros [= ->]|by intros <-]. Qed.

Lemma fail_Ok {A} e s s' (a : A) : fail e s = Ok (s', a) ↔ False.
Proof. by split. Qed.

Lemma lift_Ok {A} (r : result E A) s s' a : lift r s = Ok (s', a) ↔ s = s' ∧ r = Ok a.
Proof. unfold lift. destruct r; naive_solver. Qed.

(** *** Running forwards *)
Lemma tx_run {A B} {m : tx S E A} {f : A → tx S E B} {s s1 a} : m s = Ok (s1, a) → (m ≫= f) s = f a s1.
Proof. unfold mbind, tx_bind. by intros ->. Qed.
Lemma tx_stop {A B} {m : tx S E A} {f : A → tx S E B} {s e} : m s = Err e → (m ≫= f) s = Err e.
Proof. unfold mbind, tx_bind. by intros ->. Qed.
Lemma lift_run {A B} {r : result E A} {f : A → tx S E B} {s a} : r = Ok a → (lift r ≫= f) s = f a s.
Proof. by intros ->. Qed.

(** ** What a program does to the state

    [respects R m]: every successful run of [m] relates the states before and
    after by [R].  For a preorder it is closed under sequencing and loops. *)
Definition respects (R : relation S) {A} (m : tx S E A) : Prop :=
  ∀ s s' a, m s = Ok (s', a) → R s s'.

Section respects.
Context (R : relation S) `{!PreOrder R}.

Lemma respects_ret {A} (a : A) : respects R (mret a).
Proof. by intros s s' b [-> _]%tx_ret_Ok. Qed.
Lemma respects_bind {A B} (m : tx S E A) (f : A → tx S E B) :
  respects R m → (∀ a, respects R (f a)) → respects R (m ≫= f).
Proof. intros Hm Hf s s' b (s1 & a & H1 & H2)%tx_bind_Ok. etrans; [by eapply Hm|by eapply Hf]. Qed.
Lemma respects_gets {A} (f : S → A) : respects R (gets f).
Proof. by intros s s' b [-> _]%gets_Ok. Qed.
Lemma respects_fail {A} e : respects R (@fail A e).
Proof. by intros s s' b ?. Qed.
Lemma respects_lift {A} (r : result E A) : respects R (lift r).
Proof. by intros s s' b [-> _]%lift_Ok. Qed.
Lemma respects_modify (f : S → S) : (∀ s, R s (f s)) → respects R (modify f).
Proof. by intros Hf s s' b <-%modify_Ok. Qed.
Lemma respects_for {A B} (l : list A) (f : A → tx S E B) :
  (∀ x, respects R (f x)) → respects R (tx_for l f).
Proof.
  intros Hf. induction l as [|x l IH]; simpl; [apply respects_ret|].
  apply respects_bind; [done|]. intros y. apply respects_bind; [done|]. intros ys. apply respects_ret.
Qed.
End respects.
End tx.

(** Split a goal [respects R m] along the program; statements [respect] knows
    nothing about remain, after the hints of [tx]. *)
Create HintDb tx.
Ltac respect :=
  repeat lazymatch goal with
  | |- respects _ (_ ≫= _) => apply respects_bind; [apply _| |intros ?]
  | |- respects _ (mret _) => apply respects_ret; apply _
  | |- respects _ (gets _) => apply respects_gets; apply _
  | |- respects _ (fail _) => apply respects_fail
  | |- respects _ (lift _) => apply respects_lift; apply _
  | |- respects _ (tx_for _ _) => apply respects_for; [apply _|intros ?]
  | |- respects _ (match ?x with _ => _ end) => destruct x
  end; eauto with tx.

(** Take a successful run apart, one statement at a time. *)
Ltac inv_tx :=
  repeat match goal with
  | H : (_ ≫= _) _ = Ok _ |- _ => apply tx_bind_Ok in H as (? & ? & ? & ?)
  | H : mret _ _ = Ok _ |- _ => apply tx_ret_Ok in H as [? ?]; simplify_eq
  | H : gets _ _ = Ok _ |- _ => apply gets_Ok in H as [? ?]; simplify_eq
  | H : modify _ _ = Ok _ |- _ => apply modify_Ok in H
  | H : fail _ _ = Ok _ |- _ => by apply fail_Ok in H
  | H : lift _ _ = Ok _ |- _ => apply lift_Ok in H as [? ?]; simplify_eq
  end.
