(* ===== verification/PyFloat.v ===== *)
(** * PyFloat: Python's [float] as IEEE 754 binary64

    The executable specification floats of the Standard Library ([SpecFloat])
    at precision 53 and maximal exponent 1024: every operation rounds to
    nearest even, as CPython's do.  [math.exp] is a C-library function, so the
    components that use it take it as a parameter. *)
From S2P Require Import Prelude.
From Stdlib Require Export SpecFloat.
From stdpp Require Import decidable.

Abbreviation float := spec_float.
Definition prec : Z := 53.
Definition emax : Z := 1024.

Definition fadd : float → float → float := SFadd prec emax.
Definition fsub : float → float → float := SFsub prec emax.
Definition fmul : float → float → float := SFmul prec emax.
Definition fdiv : float → float → float := SFdiv prec emax.
Definition fneg : float → float := SFopp.

(** [float(n)] of an integer, and an integer's true division by another. *)
Definition of_Z (n : Z) : float := binary_normalize prec emax n 0 false.
Definition of_ratio (n d : Z) : float := fdiv (of_Z n) (of_Z d).

Definition fltb (x y : float) : bool := SFltb x y.
Definition fleb (x y : float) : bool := SFleb x y.
Definition feqb (x y : float) : bool := SFeqb x y.

(** [max(x, y)] and [min(x, y)] keep the first argument unless the second is
    strictly better; a NaN never is. *)
Definition py_max (x y : float) : float := if fltb x y then y else x.
Definition py_min (x y : float) : float := if fltb y x then y else x.

(** [sum] of a list of floats: the running sum and what rounding lost of it. *)
Definition sum_step (s : float * float) (x : float) : float * float :=
  let '(total, lost) := s in
  let t := fadd total x in
  (t, fadd lost (if fleb (SFabs x) (SFabs total) then fadd (fsub total t) x else fadd (fsub x t) total)).
Definition is_finite_nonzero (x : float) : bool := match x with S754_finite _ _ _ => true | _ => false end.
Definition py_sum (l : list float) : float :=
  let '(total, lost) := foldl sum_step (of_Z 0, of_Z 0) l in if is_finite_nonzero lost then fadd total lost else total.

Definition is_nan (x : float) : bool := match x with S754_nan => true | _ => false end.

Global Instance float_eq_dec : EqDecision float.
Proof. solve_decision. Defined.

(** ** Comparison facts *)
Lemma fltb_compare x y : fltb x y = true ↔ SFcompare x y = Some Lt.
Proof. unfold fltb, SFltb. destruct (SFcompare x y) as [[]|]; naive_solver. Qed.

Lemma fleb_compare x y :
  fleb x y = true ↔ SFcompare x y = Some Lt ∨ SFcompare x y = Some Eq.
Proof. unfold fleb, SFleb. destruct (SFcompare x y) as [[]|]; naive_solver. Qed.

Lemma fltb_fleb x y : fltb x y = true → fleb x y = true.
Proof. rewrite fltb_compare, fleb_compare. auto. Qed.

Lemma fcompare_swap x y :
  SFcompare x y = CompOpp <$> SFcompare y x.
Proof.
  destruct x as [[]|[]| |[] mx ex], y as [[]|[]| |[] my ey]; simpl; try done;
    rewrite (Z.compare_antisym ey ex);
    destruct (ey ?= ex)%Z; simpl; try done;
    rewrite (Pos.compare_cont_antisym my mx Eq); by destruct (Pos.compare_cont Eq my mx).
Qed.

Lemma fcompare_refl x : is_nan x = false → SFcompare x x = Some Eq.
Proof.
  destruct x as [[]|[]| |[] m e]; simpl; try done;
    rewrite Z.compare_refl; by rewrite Pos.compare_cont_refl.
Qed.

Lemma fleb_refl x : is_nan x = false → fleb x x = true.
Proof. intros. rewrite fleb_compare, fcompare_refl; auto. Qed.

Lemma fleb_or_fltb x y :
  is_nan x = false → is_nan y = false → fleb x y = true ∨ fltb y x = true.
Proof.
  intros Hx Hy. rewrite fleb_compare, fltb_compare, (fcompare_swap y x).
  destruct (SFcompare x y) as [[]|] eqn:E; simpl; auto.
  destruct x as [[]|[]| |[] mx ex], y as [[]|[]| |[] my ey]; simpl in *; try done;
    destruct (ex ?= ey)%Z; done.
Qed.

(** A clamp [max(lo, min(hi, x))] lies between its bounds, NaN included. *)
Lemma py_clamp lo hi x :
  is_nan lo = false → is_nan hi = false → fleb lo hi = true →
  fleb lo (py_max lo (py_min hi x)) = true ∧ fleb (py_max lo (py_min hi x)) hi = true.
Proof.
  intros Hlo Hhi Hle. unfold py_max, py_min.
  destruct (fltb x hi) eqn:E1.
  - destruct (fltb lo x) eqn:E2; auto using fltb_fleb, fleb_refl.
  - destruct (fltb lo hi) eqn:E2; auto using fltb_fleb, fleb_refl.
Qed.

(** ** The order of the floats

    Away from NaN, comparing floats is comparing keys: the class and sign, then
    exponent and mantissa, mirrored for negatives. *)
Definition fkey (x : float) : Z * Z * Z :=
  (match x with
   | S754_zero _ | S754_nan => (0, 0, 0)
   | S754_infinity s => (if s then -2 else 2, 0, 0)
   | S754_finite s m e => if s then (-1, -e, -Zpos m) else (1, e, Zpos m)
   end)%Z.
Definition key_lt (a b : Z * Z * Z) : Prop :=
  (a.1.1 < b.1.1 ∨ a.1.1 = b.1.1 ∧ (a.1.2 < b.1.2 ∨ a.1.2 = b.1.2 ∧ a.2 < b.2))%Z.

Lemma key_lt_trans a b c : key_lt a b → key_lt b c → key_lt a c.
Proof. unfold key_lt. lia. Qed.
Lemma key_lt_irrefl a : ¬ key_lt a a.
Proof. unfold key_lt. lia. Qed.
Lemma key_total a b : key_lt a b ∨ a = b ∨ key_lt b a.
Proof.
  destruct a as [[a1 a2] a3], b as [[b1 b2] b3]; unfold key_lt; simpl.
  destruct (decide (a1 = b1)) as [->|]; [|lia]. destruct (decide (a2 = b2)) as [->|]; [|lia].
  destruct (decide (a3 = b3)) as [->|]; [auto|lia].
Qed.

Lemma fltb_key x y :
  is_nan x = false → is_nan y = false → fltb x y = true ↔ key_lt (fkey x) (fkey y).
Proof.
  intros Hx Hy. rewrite fltb_compare. unfold key_lt.
  destruct x as [[]|[]| |[] m e], y as [[]|[]| |[] m' e']; simpl in *; try done;
    try (split; [done|lia]); try (split; [lia|done]);
    destruct (Z.compare_spec e e'); simpl; try (split; [done|lia]); try (split; [lia|done]);
    change (Pos.compare_cont Eq m m') with (Pos.compare m m');
    destruct (Pos.compare_spec m m'); simpl; (split; [|]); intros; try done; lia.
Qed.
