(* ===== verification/PyText.v ===== *)
(** * PyText: the text functions of Python's standard library that the program uses

    [str.strip], [bytes.hex], JSON values with [json.dumps(sort_keys=True)], and
    [datetime.isoformat] of a UTC instant.  Strings are sequences of 8-bit
    characters, read as code points below 256. *)
From S2P Require Import Prelude.
From stdpp Require Import pretty.
From Stdlib Require Import Ascii.

(** ** Characters *)
Definition char_code (c : ascii) : N := N_of_ascii c.
Definition in_range (lo hi : N) (c : ascii) : bool :=
  ((lo <=? char_code c) && (char_code c <=? hi))%N.

(** [str.isspace] below 256: tab to carriage return, the four separators, space,
    next line and no-break space. *)
Definition is_space (c : ascii) : bool :=
  in_range 9 13 c || in_range 28 32 c || in_range 133 133 c || in_range 160 160 c.

Fixpoint lstrip (s : string) : string :=
  match s with
  | EmptyString => EmptyString
  | String c s' => if is_space c then lstrip s' else s
  end.
Fixpoint string_rev (s : string) (acc : string) : string :=
  match s with
  | EmptyString => acc
  | String c s' => string_rev s' (String c acc)
  end.
Definition strip (s : string) : string :=
  string_rev (lstrip (string_rev (lstrip s) EmptyString)) EmptyString.

(** ** [bytes.hex] *)
Definition hex_digit (n : N) : ascii :=
  ascii_of_N (if (n <? 10)%N then 48 + n else 87 + n).
Fixpoint to_hex (s : string) : string :=
  match s with
  | EmptyString => EmptyString
  | String c s' => String (hex_digit (char_code c / 16)) (String (hex_digit (char_code c mod 16)) (to_hex s'))
  end.

(** ** JSON

    A [float] carries the text [float.__repr__] gives it. *)
#[warnings="-register-all"]
Inductive json :=
  | JNull
  | JBool (b : bool)
  | JInt (z : Z)
  | JFloat (repr : string)
  | JStr (s : string)
  | JArr (l : list json)
  | JObj (l : list (string * json)).

Definition backslash : ascii := ascii_of_N 92.
Definition dquote : string := String (ascii_of_N 34) EmptyString.

(** [ensure_ascii=True]: everything outside the printable ASCII range, the
    double quote and the backslash are escaped. *)
Definition short_escape (k : N) : string := String backslash (String (ascii_of_N k) EmptyString).
Definition escape_char (c : ascii) : string :=
  let n := char_code c in
  if (n =? 34)%N then short_escape 34
  else if (n =? 92)%N then short_escape 92
  else if (n =? 10)%N then short_escape 110
  else if (n =? 13)%N then short_escape 114
  else if (n =? 9)%N then short_escape 116
  else if (n =? 12)%N then short_escape 102
  else if (n =? 8)%N then short_escape 98
  else if in_range 32 126 c then String c EmptyString
  else (short_escape 117 +:+ "00" +:+
        String (hex_digit (n / 16)) (String (hex_digit (n mod 16)) EmptyString)).
Fixpoint escape (s : string) : string :=
  match s with
  | EmptyString => EmptyString
  | String c s' => escape_char c +:+ escape s'
  end.
Definition quoted (s : string) : string := dquote +:+ escape s +:+ dquote.

Definition by_key (p q : string * string) : bool := str_leb p.1 q.1.

(** [json.dumps(v, sort_keys=True)] with the default separators. *)
Fixpoint json_dumps (v : json) : string :=
  match v with
  | JNull => "null"
  | JBool true => "true"
  | JBool false => "false"
  | JInt z => pretty z
  | JFloat r => r
  | JStr s => quoted s
  | JArr l => "[" +:+ String.concat ", " (map json_dumps l) +:+ "]"
  | JObj l =>
      "{" +:+
      String.concat ", "
        (map (λ kv, quoted kv.1 +:+ ": " +:+ kv.2)
             (sorted_by by_key (map (λ kv, (kv.1, json_dumps kv.2)) l))) +:+
      "}"
  end.

(** [dict.get] on an object. *)
Definition json_get (k : string) (l : list (string * json)) : option json :=
  snd <$> List.find (λ kv, String.eqb kv.1 k) l.
(** A [dict] in insertion order: [d.get(k)] and [d[k] = v]. *)
Definition dict_get {A} (k : string) (d : list (string * A)) : option A := snd <$> List.find (λ kv, String.eqb kv.1 k) d.
Fixpoint dict_set {A} (k : string) (v : A) (d : list (string * A)) : list (string * A) :=
  match d with
  | [] => [(k, v)]
  | (k', v') :: d => if String.eqb k' k then (k, v) :: d else (k', v') :: dict_set k v d
  end.
Definition json_keys (l : list (string * json)) : list string := l.*1.

(** ** Time stamps *)
Record datetime := Datetime {
  dt_us : Z;                  (* wall-clock microseconds since the epoch *)
  dt_utcoffset : option Z     (* [None]: naive *)
}.

(** The UTC instant, a naive value being read as UTC. *)
Definition utc_us (d : datetime) : Z := dt_us d - default 0%Z (dt_utcoffset d).

(** ** [datetime.isoformat] of a UTC instant in microseconds since the epoch

    Days are converted by eras of 400 years (146097 days). *)
Definition civil_from_days (days : Z) : Z * Z * Z :=
  (let z := days + 719468 in
   let era := z / 146097 in
   let doe := z - era * 146097 in
   let yoe := (doe - doe / 1460 + doe / 36524 - doe / 146096) / 365 in
   let doy := doe - (365 * yoe + yoe / 4 - yoe / 100) in
   let mp := (5 * doy + 2) / 153 in
   let d := doy - (153 * mp + 2) / 5 + 1 in
   let m := if mp <? 10 then mp + 3 else mp - 9 in
   let y := yoe + era * 400 + (if m <=? 2 then 1 else 0) in
   (y, m, d))%Z.

Fixpoint pad_left (n : nat) (s : string) : string :=
  match n with
  | 0 => s
  | S n' => if (String.length s <? n)%nat then "0" +:+ pad_left n' s else s
  end.
Definition digits (width : nat) (z : Z) : string := pad_left width (pretty z).

Definition isoformat_utc (us : Z) : string :=
  let secs := (us / 1000000)%Z in
  let micro := (us mod 1000000)%Z in
  let '(y, m, d) := civil_from_days (secs / 86400) in
  let sod := (secs mod 86400)%Z in
  digits 4 y +:+ "-" +:+ digits 2 m +:+ "-" +:+ digits 2 d +:+ "T" +:+
  digits 2 (sod / 3600) +:+ ":" +:+ digits 2 ((sod / 60) mod 60) +:+ ":" +:+ digits 2 (sod mod 60) +:+
  (if decide (micro = 0%Z) then "" else "." +:+ digits 6 micro) +:+ "+00:00".

Example isoformat_epoch : isoformat_utc 0 = "1970-01-01T00:00:00+00:00".
Proof. vm_compute. reflexivity. Qed.
Example isoformat_leap : isoformat_utc 1709210096000123 = "2024-02-29T12:34:56.000123+00:00".
Proof. vm_compute. reflexivity. Qed.
Example dumps_sorts :
  json_dumps (JObj [("b", JArr [JInt (-3); JNull]); ("a", JStr "x")]) =
  "{" +:+ quoted "a" +:+ ": " +:+ quoted "x" +:+ ", " +:+ quoted "b" +:+ ": [-3, null]}".
Proof. vm_compute. reflexivity. Qed.
Example strip_both : strip "  ab c " = "ab c".
Proof. vm_compute. reflexivity. Qed.

Lemma dict_get_set {A} k k' (v : A) d : dict_get k' (dict_set k v d) = if String.eqb k k' then Some v else dict_get k' d.
Proof.
  unfold dict_get. induction d as [|[k1 v1] d IH]; cbn.
  - by destruct (String.eqb_spec k k').
  - destruct (String.eqb_spec k1 k) as [->|Hk]; cbn.
    + by destruct (String.eqb_spec k k').
    + destruct (String.eqb_spec k1 k') as [->|Hk']; cbn; [|exact IH].
      destruct (String.eqb_spec k k') as [->|]; [congruence|reflexivity].
Qed.
Lemma json_get_set k k' v d : json_get k' (dict_set k v d) = if String.eqb k k' then Some v else json_get k' d.
Proof. apply dict_get_set. Qed.
