(* ===== verification/PyStr.v ===== *)
(** * PyStr: [uuid.UUID], case, substrings and compact JSON

    The text functions of Python's standard library that several components
    share: parsing a UUID, upper- and lower-casing, substrings and the JSON encoder
    without spaces. *)
From S2P Require Import Prelude PyText.
From stdpp Require Import pretty.
From Stdlib Require Import Ascii.

(** ** [uuid.UUID(text)]

    The canonical text of the UUID, or nothing when the constructor raises
    [ValueError].  (The leniency of [int(hex, 16)] for underscores, signs and
    spaces is left out.) *)
Fixpoint drop_chars (n : nat) (s : string) : string :=
  match n, s with
  | S n, String _ s => drop_chars n s
  | _, _ => s
  end.
Fixpoint remove_all (fuel : nat) (p s : string) : string :=
  match fuel, s with
  | S fuel, String c s' => if String.prefix p s then remove_all fuel p (drop_chars (String.length p) s)
                           else String c (remove_all fuel p s')
  | _, _ => s
  end.
Definition py_remove (p s : string) : string := remove_all (String.length s) p s.
Definition is_brace (c : ascii) : bool := (char_code c =? 123)%N || (char_code c =? 125)%N.
Fixpoint lstrip_braces (s : string) : string :=
  match s with
  | EmptyString => EmptyString
  | String c s' => if is_brace c then lstrip_braces s' else s
  end.
Definition strip_braces (s : string) : string :=
  string_rev (lstrip_braces (string_rev (lstrip_braces s) EmptyString)) EmptyString.
Definition lower_hex (c : ascii) : option ascii :=
  if in_range 48 57 c || in_range 97 102 c then Some c
  else if in_range 65 70 c then Some (ascii_of_N (char_code c + 32)) else None.
Fixpoint lower_hexes (s : string) : option string :=
  match s with
  | EmptyString => Some EmptyString
  | String c s => c' ← lower_hex c; s' ← lower_hexes s; Some (String c' s')
  end.
Definition dashed (h : string) : string :=
  String.substring 0 8 h +:+ "-" +:+ String.substring 8 4 h +:+ "-" +:+ String.substring 12 4 h +:+ "-" +:+
  String.substring 16 4 h +:+ "-" +:+ String.substring 20 12 h.
Definition UUID (text : string) : option string :=
  let hex := py_remove "-" (strip_braces (py_remove "uuid:" (py_remove "urn:" text))) in
  if Nat.eqb (String.length hex) 32 then dashed <$> lower_hexes hex else None.

(** ** [str.upper] below 256

    Upper-casing shifts the small letters of ASCII and Latin-1 and writes a sharp
    s as two letters.  The micro sign and the small y with diaeresis, whose
    capitals lie outside this range, are left as they are. *)
Definition upper_char (c : ascii) : string :=
  let n := char_code c in
  if in_range 97 122 c || (in_range 224 254 c && negb (n =? 247)%N) then String (ascii_of_N (n - 32)) EmptyString
  else if (n =? 223)%N then "SS"
  else String c EmptyString.
Fixpoint upper (s : string) : string :=
  match s with
  | EmptyString => EmptyString
  | String c s => upper_char c +:+ upper s
  end.

(** [str.lower] below 256. *)
Definition lower_char (c : ascii) : ascii :=
  if in_range 65 90 c || (in_range 192 222 c && negb (char_code c =? 215)%N) then ascii_of_N (char_code c + 32) else c.
Fixpoint lower (s : string) : string :=
  match s with EmptyString => EmptyString | String c s => String (lower_char c) (lower s) end.
Fixpoint replace_char (a b : ascii) (s : string) : string :=
  match s with
  | EmptyString => EmptyString
  | String c s => String (if Ascii.eqb c a then b else c) (replace_char a b s)
  end.
(** [sub in s]. *)
Fixpoint contains (sub s : string) : bool :=
  String.prefix sub s || match s with EmptyString => false | String _ s => contains sub s end.
Definition is_digit (c : ascii) : bool := in_range 48 57 c.

(** An optional text argument: absent, a string, or something else. *)
Inductive text_arg := NoText | SomeText (s : string) | NotText.

(** ** [json.dumps(v, sort_keys=True, separators=(",", ":"))] *)
Fixpoint json_dumps_compact (v : json) : string :=
  match v with
  | JNull => "null"
  | JBool true => "true"
  | JBool false => "false"
  | JInt z => pretty z
  | JFloat r => r
  | JStr s => quoted s
  | JArr l => "[" +:+ String.concat "," (map json_dumps_compact l) +:+ "]"
  | JObj l =>
      "{" +:+
      String.concat ","
        (map (λ kv, quoted kv.1 +:+ ":" +:+ kv.2)
             (sorted_by by_key (map (λ kv, (kv.1, json_dumps_compact kv.2)) l))) +:+
      "}"
  end.

(** ** JSON values in a condition, and their text

    [str(v)] of what is neither text nor an integer is some text. *)
Definition json_truthy (v : json) : bool :=
  match v with
  | JNull => false | JBool b => b | JInt z => negb (z =? 0)%Z | JFloat r => negb (bool_decide (r ∈ ["0.0"; "-0.0"]%string))
  | JStr s => negb (String.eqb s "") | JArr l => negb (bool_decide (length l = 0%nat)) | JObj l => negb (bool_decide (length l = 0%nat))
  end.
Definition json_str (py_str : json → string) (v : json) : string := match v with JStr s => s | JInt z => pretty z | _ => py_str v end.

Example upper_ascii : upper "po-7a" = "PO-7A".
Proof. reflexivity. Qed.

(** ** A canonical UUID is its own normal form *)
Fixpoint all_chars (P : ascii → Prop) (s : string) : Prop :=
  match s with EmptyString => True | String c s => P c ∧ all_chars P s end.
Lemma all_chars_weaken (P Q : ascii → Prop) s : (∀ c, P c → Q c) → all_chars P s → all_chars Q s.
Proof. intros HPQ. induction s; simpl; naive_solver. Qed.

Lemma prefix_other c p a s : a ≠ c → String.prefix (String c p) (String a s) = false.
Proof. intros Ha. cbn [String.prefix]. by destruct (ascii_dec c a) as [->|_]. Qed.
Lemma remove_all_absent fuel c p s : all_chars (λ a, a ≠ c) s → remove_all fuel (String c p) s = s.
Proof.
  revert s; induction fuel as [|fuel IH]; intros [|a s] H; try done. destruct H as [Ha Hs]. cbn [remove_all].
  by rewrite prefix_other, IH.
Qed.
Lemma remove_dash fuel h t :
  all_chars (λ a, a ≠ "-"%char) h → (String.length h < fuel)%nat →
  remove_all fuel "-" (h +:+ String "-" t) = h +:+ remove_all (fuel - S (String.length h)) "-" t.
Proof.
  revert fuel; induction h as [|a h IH]; intros fuel Hh Hf; simpl in Hh, Hf; (destruct fuel as [|fuel]; [lia|]).
  - change ("" +:+ ?x) with x. cbn [remove_all]. assert (String.prefix "-" (String "-" t) = true) as -> by (cbn; by destruct t).
    simpl. by rewrite Nat.sub_0_r.
  - destruct Hh as [Ha Hh]. change (String a h +:+ ?x) with (String a (h +:+ x)). cbn [remove_all].
    rewrite prefix_other by done. f_equal. rewrite IH by (done || lia). done.
Qed.

Definition is_hex (c : ascii) : Prop := lower_hex c = Some c.
Lemma lower_hex_hex c c' : lower_hex c = Some c' → is_hex c'.
Proof.
  unfold is_hex, lower_hex. destruct (in_range 48 57 c || in_range 97 102 c) eqn:E; [intros [= <-]; by rewrite E|].
  destruct (in_range 65 70 c) eqn:E2; [|done]. intros [= <-]. unfold in_range in *.
  apply andb_true_iff in E2 as [H1%N.leb_le H2%N.leb_le]. unfold char_code. rewrite N_ascii_embedding by (unfold char_code in *; lia).
  fold (char_code c). rewrite orb_true_intro; [done|]. right. apply andb_true_iff. split; apply N.leb_le; lia.
Qed.
Lemma lower_hexes_hex s s' : lower_hexes s = Some s' → all_chars is_hex s' ∧ String.length s' = String.length s.
Proof.
  revert s'; induction s as [|c s IH]; intros s'; simpl; [by intros [= <-]|].
  destruct (lower_hex c) as [c'|] eqn:Ec; simpl; [|done]. destruct (lower_hexes s) as [t|]; simpl; [|done].
  intros [= <-]. destruct (IH _ eq_refl) as [H1 H2]. simpl. rewrite H2. split; [|done]. split; [|done].
  by eapply lower_hex_hex.
Qed.
Lemma lower_hexes_same s : all_chars is_hex s → lower_hexes s = Some s.
Proof. induction s as [|c s IH]; [done|]. intros [Hc Hs]. simpl. unfold is_hex in Hc. by rewrite Hc, IH. Qed.
Lemma hex_plain c : is_hex c → c ≠ "-"%char ∧ c ≠ "u"%char ∧ is_brace c = false.
Proof.
  intros Hc. repeat split; [by intros ->..|]. unfold is_hex, lower_hex, is_brace, in_range in *.
  destruct (N.eqb_spec (char_code c) 123) as [E|_]; [by rewrite E in Hc|].
  by destruct (N.eqb_spec (char_code c) 125) as [E|_]; [rewrite E in Hc|].
Qed.
Lemma string_rev_rev s a b : string_rev (string_rev s a) b = string_rev a (s +:+ b).
Proof. revert a b; induction s as [|c s IH]; intros a b; simpl; [done|]. by rewrite IH. Qed.
Lemma string_rev_chars P s a : all_chars P s → all_chars P a → all_chars P (string_rev s a).
Proof. revert a; induction s as [|c s IH]; intros a; simpl; [done|]. intros [? ?] ?. by apply IH. Qed.
Lemma string_app_nil s : s +:+ "" = s.
Proof. induction s as [|c s IH]; [done|]. change (String c s +:+ "") with (String c (s +:+ "")). by rewrite IH. Qed.
Lemma lstrip_braces_same s : all_chars (λ c, is_brace c = false) s → lstrip_braces s = s.
Proof. destruct s as [|c s]; [done|]. intros [Hc _]. simpl. by rewrite Hc. Qed.
Lemma strip_braces_same s : all_chars (λ c, is_brace c = false) s → strip_braces s = s.
Proof.
  intros H. unfold strip_braces. rewrite (lstrip_braces_same s), lstrip_braces_same; [|by apply string_rev_chars|done].
  rewrite string_rev_rev. apply string_app_nil.
Qed.

(** The five groups of a UUID. *)
Lemma dashed_groups h :
  String.length h = 32%nat →
  ∃ a b c d e, h = a +:+ b +:+ c +:+ d +:+ e ∧
    dashed h = a +:+ String "-" (b +:+ String "-" (c +:+ String "-" (d +:+ String "-" e))) ∧
    String.length a = 8%nat ∧ String.length b = 4%nat ∧ String.length c = 4%nat ∧ String.length d = 4%nat ∧ String.length e = 12%nat.
Proof.
  intros Hh. exists (String.substring 0 8 h), (String.substring 8 4 h), (String.substring 12 4 h),
    (String.substring 16 4 h), (String.substring 20 12 h).
  revert Hh. do 32 (destruct h as [|? h]; [done|]). destruct h; [|done]. intros _. split_and!; reflexivity.
Qed.

Lemma all_chars_split P s t : all_chars P (s +:+ t) → all_chars P s ∧ all_chars P t.
Proof. induction s as [|c s IH]; [done|]. change (String c s +:+ t) with (String c (s +:+ t)). simpl. naive_solver. Qed.
Lemma all_chars_join P s t : all_chars P s → all_chars P t → all_chars P (s +:+ t).
Proof. induction s as [|c s IH]; [done|]. change (String c s +:+ t) with (String c (s +:+ t)). simpl. naive_solver. Qed.
Lemma length_app_string s t : String.length (s +:+ t) = (String.length s + String.length t)%nat.
Proof. induction s as [|c s IH]; [done|]. change (String c s +:+ t) with (String c (s +:+ t)). simpl. by rewrite IH. Qed.

Lemma UUID_canonical text u : UUID text = Some u → UUID u = Some u.
Proof.
  unfold UUID at 1. destruct (Nat.eqb_spec (String.length (py_remove "-" (strip_braces (py_remove "uuid:" (py_remove "urn:" text))))) 32) as [Hlen|_]; [|done].
  destruct (lower_hexes _) as [h|] eqn:Eh; [|done]. intros [= <-].
  apply lower_hexes_hex in Eh as [Hhex Hl]. rewrite Hlen in Hl. clear Hlen text.
  destruct (dashed_groups h Hl) as (a & b & c & d & e & Hh & Hd & La & Lb & Lc & Ld & Le).
  pose proof Hhex as Hall. rewrite Hh in Hall. repeat (apply all_chars_split in Hall as [? Hall]).
  assert (∀ P : ascii → Prop, (∀ x, is_hex x → P x) → P "-"%char → all_chars P (dashed h)) as Hchars.
  { intros P HP Hdash. rewrite Hd. repeat (apply all_chars_join; [by eapply all_chars_weaken|split; [done|]]). by eapply all_chars_weaken. }
  assert (String.length (dashed h) = 36)%nat as Hlen.
  { rewrite Hd. repeat (rewrite length_app_string; simpl). by rewrite La, Lb, Lc, Ld, Le. }
  unfold UUID, py_remove.
  rewrite (remove_all_absent _ "u" "rn:") by (apply Hchars; [intros x Hx; apply (hex_plain x Hx)|done]).
  rewrite (remove_all_absent _ "u" "uid:") by (apply Hchars; [intros x Hx; apply (hex_plain x Hx)|done]).
  rewrite strip_braces_same by (apply Hchars; [intros x Hx; apply (hex_plain x Hx)|done]).
  assert (remove_all (String.length (dashed h)) "-" (dashed h) = h) as ->.
  { rewrite Hlen, Hd, Hh.
    assert (∀ s, all_chars is_hex s → all_chars (λ x, x ≠ "-"%char) s) as Hnd
      by (intros s; apply all_chars_weaken; intros x Hx; apply (hex_plain x Hx)).
    do 4 (rewrite remove_dash by (auto || lia)). by rewrite remove_all_absent by auto. }
  rewrite Hl. simpl. by rewrite lower_hexes_same.
Qed.

(** ** Stripping twice is stripping once *)
Lemma lstrip_suffix s : ∃ u, s = u +:+ lstrip s.
Proof.
  induction s as [|c s [u IH]]; [by exists ""|]. simpl. destruct (is_space c); [|by exists ""].
  exists (String c u). change (String c u +:+ ?x) with (String c (u +:+ x)). by rewrite <- IH.
Qed.
Lemma lstrip_head s : match lstrip s with String c _ => is_space c = false | EmptyString => True end.
Proof. induction s as [|c s IH]; simpl; [done|]. by destruct (is_space c) eqn:E. Qed.
Lemma lstrip_same s : match s with String c _ => is_space c = false | EmptyString => True end → lstrip s = s.
Proof. destruct s as [|c s]; [done|]. simpl. by intros ->. Qed.
Lemma string_rev_acc s a : string_rev s a = string_rev s "" +:+ a.
Proof.
  revert a; induction s as [|c s IH]; intros a; [done|]. simpl. rewrite (IH (String c a)), (IH (String c "")).
  generalize (string_rev s ""). intros t. induction t as [|x t IHt]; [done|].
  change (String x t +:+ ?y) with (String x (t +:+ y)). by rewrite IHt.
Qed.
Lemma string_rev_app a b : string_rev (a +:+ b) "" = string_rev b "" +:+ string_rev a "".
Proof.
  rewrite <- (string_rev_acc b).
  enough (∀ t, string_rev (a +:+ b) t = string_rev b (string_rev a t)) as H by apply H.
  induction a as [|c a IH]; intros t; [done|].
  change (String c a +:+ b) with (String c (a +:+ b)). simpl. apply IH.
Qed.
Lemma string_rev_invol s : string_rev (string_rev s "") "" = s.
Proof. rewrite string_rev_rev. apply string_app_nil. Qed.
Lemma strip_strip s : strip (strip s) = strip s.
Proof.
  unfold strip at 1 3. set (a := lstrip s). set (b := string_rev (lstrip (string_rev a "")) "").
  assert (lstrip b = b) as Hb.
  { apply lstrip_same. destruct (lstrip_suffix (string_rev a "")) as [u Hu].
    assert (a = b +:+ string_rev u "") as Ha.
    { rewrite <- (string_rev_invol a), Hu at 1. by rewrite string_rev_app. }
    pose proof (lstrip_head s) as Hh. fold a in Hh. rewrite Ha in Hh. by destruct b. }
  change (strip s) with b. rewrite Hb. unfold b at 1. rewrite string_rev_invol.
  rewrite (lstrip_same (lstrip (string_rev a ""))); [done|]. apply lstrip_head.
Qed.
