(* ===== verification/PyDecimal.v ===== *)
(** * PyDecimal: Python's [decimal.Decimal] in its default context

    A finite decimal is a coefficient and an exponent; the context keeps 28
    digits and rounds half to even, as [decimal.DefaultContext] does.  Signed
    zeros, infinities and NaN are not represented: the program refuses them
    where a decimal comes in.  A database column [NUMERIC(p, s)] holds an integer
    number of units of [10^-s]. *)
From S2P Require Import Prelude PyText PyStr.
From stdpp Require Import pretty.
From Stdlib Require Import Ascii.
Local Open Scope Z_scope.

Record decimal := Dec { coef : Z; dexp : Z }.

#[global] Instance decimal_eq_dec : EqDecision decimal.
Proof. solve_decision. Defined.

Definition PREC : Z := 28.

(** Number of decimal digits of [n], by doubling then searching the logarithm. *)
Fixpoint digits_from (fuel : nat) (n k : Z) : Z :=
  match fuel with
  | O => k
  | S fuel => if n <? 10 ^ k then k else digits_from fuel n (k + 1)
  end.
Definition num_digits (n : Z) : Z :=
  let n := Z.abs n in digits_from (S (Z.to_nat (Z.log2 n))) n (Z.log2 n * 3 / 10).

(** Divide a natural number by [10^k], rounding. *)
Inductive rounding := ROUND_HALF_UP | ROUND_HALF_EVEN | ROUND_FLOOR | ROUND_DOWN.
Definition round_nat (r : rounding) (n k : Z) : Z :=
  let q := n / 10 ^ k in
  let twice := 2 * (n mod 10 ^ k) in
  match r with
  | ROUND_HALF_UP => if 10 ^ k <=? twice then q + 1 else q
  | ROUND_HALF_EVEN =>
      if 10 ^ k <? twice then q + 1
      else if (10 ^ k =? twice) && Z.odd q then q + 1 else q
  | ROUND_FLOOR | ROUND_DOWN => q
  end.
(** The same on a signed coefficient: rounding acts on the magnitude. *)
Definition round_coef (r : rounding) (c k : Z) : Z :=
  if (match r with ROUND_FLOOR => true | _ => false end) then c / 10 ^ k
  else Z.sgn c * round_nat r (Z.abs c) k.

(** [Decimal._fix]: round to the precision. *)
Definition fix28 (d : decimal) : decimal :=
  let drop := num_digits (coef d) - PREC in
  if Z.abs (coef d) <? 10 ^ PREC then d
  else
    let c := round_coef ROUND_HALF_EVEN (coef d) drop in
    if Z.abs c =? 10 ^ PREC then Dec (c / 10) (dexp d + drop + 1) else Dec c (dexp d + drop).

(** The coefficient at an exponent not above the decimal's own. *)
Definition at_exp (e : Z) (d : decimal) : Z := coef d * 10 ^ (dexp d - e).

Definition dec_add (a b : decimal) : decimal :=
  let e := Z.min (dexp a) (dexp b) in fix28 (Dec (at_exp e a + at_exp e b) e).
Definition dec_neg (a : decimal) : decimal := fix28 (Dec (- coef a) (dexp a)).
Definition dec_sub (a b : decimal) : decimal := dec_add a (Dec (- coef b) (dexp b)).
Definition dec_mul (a b : decimal) : decimal := fix28 (Dec (coef a * coef b) (dexp a + dexp b)).

(** Trailing zeros of an exact quotient are dropped down to the ideal exponent. *)
Fixpoint strip_zeros (fuel : nat) (c e ideal : Z) : decimal :=
  match fuel with
  | O => Dec c e
  | S fuel => if (e <? ideal) && (c mod 10 =? 0) then strip_zeros fuel (c / 10) (e + 1) ideal else Dec c e
  end.
(** [a / b] for a non-zero divisor: 29 digits and a sticky digit, then rounding. *)
Definition dec_div (a b : decimal) : decimal :=
  let shift := num_digits (coef b) - num_digits (coef a) + PREC + 1 in
  let e := dexp a - dexp b - shift in
  let n := Z.abs (coef a) * (if 0 <=? shift then 10 ^ shift else 1) in
  let m := Z.abs (coef b) * (if 0 <=? shift then 1 else 10 ^ (- shift)) in
  let q := n / m in
  let s := Z.sgn (coef a) * Z.sgn (coef b) in
  if coef a =? 0 then Dec 0 (dexp a - dexp b)
  else
    if n mod m =? 0 then
      let d := strip_zeros (Z.to_nat (dexp a - dexp b - e)) q e (dexp a - dexp b) in
      fix28 (Dec (s * coef d) (dexp d))
    else fix28 (Dec (s * (if q mod 5 =? 0 then q + 1 else q)) e).

Definition dec_compare (a b : decimal) : comparison :=
  let e := Z.min (dexp a) (dexp b) in at_exp e a ?= at_exp e b.
Definition dec_ltb (a b : decimal) : bool := match dec_compare a b with Lt => true | _ => false end.
Definition dec_leb (a b : decimal) : bool := match dec_compare a b with Gt => false | _ => true end.
Definition dec_eqb (a b : decimal) : bool := match dec_compare a b with Eq => true | _ => false end.

(** [d.quantize(Decimal(1e{e}), rounding=r)]; [None] is [InvalidOperation], when
    the result needs more digits than the context keeps. *)
Definition quantize (r : rounding) (e : Z) (d : decimal) : option decimal :=
  let c := if e <=? dexp d then at_exp e d else round_coef r (coef d) (e - dexp d) in
  if Z.abs c <? 10 ^ PREC then Some (Dec c e) else None.

(** Binding a decimal to a column [NUMERIC(p, s)]: PostgreSQL rounds half away
    from zero to [s] places and refuses more than [p] digits. *)
Definition to_numeric (p s : Z) (d : decimal) : option Z :=
  let c := if - s <=? dexp d then at_exp (- s) d else round_coef ROUND_HALF_UP (coef d) (- s - dexp d) in
  if Z.abs c <? 10 ^ p then Some c else None.
Definition of_numeric (s c : Z) : decimal := Dec c (- s).

(** A number a caller hands in: [PyFloat] carries the decimal that [str] of the float
    denotes, [PyNonFinite] is an infinity or NaN of either kind. *)
Inductive pynum :=
  | PyNone | PyBool (b : bool) | PyInt (z : Z) | PyFloat (d : decimal) | PyDecimal (d : decimal)
  | PyNonFinite | PyOther.

(** ** Facts *)

Lemma fix28_small d : Z.abs (coef d) < 10 ^ PREC → fix28 d = d.
Proof. intros H. unfold fix28. by apply Z.ltb_lt in H as ->. Qed.

Lemma at_exp_same e c : at_exp e (Dec c e) = c.
Proof. unfold at_exp. simpl. rewrite Z.sub_diag. lia. Qed.

(** On one exponent the arithmetic is that of the coefficients, until 28 digits. *)
Lemma dec_add_same a b e :
  Z.abs (a + b) < 10 ^ PREC → dec_add (Dec a e) (Dec b e) = Dec (a + b) e.
Proof. intros. unfold dec_add. simpl. rewrite Z.min_id, !at_exp_same. by apply fix28_small. Qed.

Lemma dec_compare_same a b e : dec_compare (Dec a e) (Dec b e) = (a ?= b).
Proof. unfold dec_compare. simpl. by rewrite Z.min_id, !at_exp_same. Qed.
Lemma dec_leb_same a b e : dec_leb (Dec a e) (Dec b e) = (a <=? b).
Proof. unfold dec_leb. by rewrite dec_compare_same, Z.leb_compare. Qed.
Lemma dec_ltb_same a b e : dec_ltb (Dec a e) (Dec b e) = (a <? b).
Proof. unfold dec_ltb. by rewrite dec_compare_same, Z.ltb_compare. Qed.

(** ** The order of decimals *)
Lemma at_exp_shift m k d : k <= m → m <= dexp d → at_exp k d = at_exp m d * 10 ^ (m - k).
Proof. intros. unfold at_exp. rewrite <- Z.mul_assoc, <- Z.pow_add_r by lia. do 2 f_equal. lia. Qed.
Lemma dec_compare_at m a b : m <= dexp a → m <= dexp b → dec_compare a b = (at_exp m a ?= at_exp m b).
Proof.
  intros Ha Hb. unfold dec_compare. set (e := Z.min (dexp a) (dexp b)).
  rewrite (at_exp_shift e m a), (at_exp_shift e m b) by (unfold e; lia). assert (0 < 10 ^ (e - m)) by (apply Z.pow_pos_nonneg; unfold e; lia).
  apply Zmult_compare_compat_r. lia.
Qed.
Lemma dec_leb_at m a b : m <= dexp a → m <= dexp b → dec_leb a b = (at_exp m a <=? at_exp m b).
Proof. intros. unfold dec_leb. by rewrite (dec_compare_at m), Z.leb_compare. Qed.
Lemma dec_ltb_at m a b : m <= dexp a → m <= dexp b → dec_ltb a b = (at_exp m a <? at_exp m b).
Proof. intros. unfold dec_ltb. by rewrite (dec_compare_at m), Z.ltb_compare. Qed.
Lemma dec_eqb_at m a b : m <= dexp a → m <= dexp b → dec_eqb a b = (at_exp m a =? at_exp m b).
Proof. intros. unfold dec_eqb. by rewrite (dec_compare_at m), Z.eqb_compare. Qed.
Lemma dec_leb_total a b : dec_leb a b = true ∨ dec_leb b a = true.
Proof. set (m := Z.min (dexp a) (dexp b)). rewrite (dec_leb_at m a b), (dec_leb_at m b a) by lia. rewrite !Z.leb_le. lia. Qed.
Lemma dec_leb_trans a b c : dec_leb a b = true → dec_leb b c = true → dec_leb a c = true.
Proof.
  set (m := Z.min (dexp a) (Z.min (dexp b) (dexp c))). rewrite (dec_leb_at m a b), (dec_leb_at m b c), (dec_leb_at m a c) by lia.
  rewrite !Z.leb_le. lia.
Qed.
Lemma dec_ltb_leb a b : dec_ltb a b = negb (dec_leb b a).
Proof. set (m := Z.min (dexp a) (dexp b)). rewrite (dec_leb_at m b a), (dec_ltb_at m a b) by lia. lia. Qed.
Lemma dec_ltb_neq a b : dec_leb a b = true → dec_eqb a b = false → dec_ltb a b = true.
Proof.
  set (m := Z.min (dexp a) (dexp b)). rewrite (dec_leb_at m a b), (dec_eqb_at m a b), (dec_ltb_at m a b) by lia. lia.
Qed.
Lemma dec_ltb_leb_trans a b c : dec_ltb a b = true → dec_leb b c = true → dec_ltb a c = true.
Proof.
  set (m := Z.min (dexp a) (Z.min (dexp b) (dexp c))). rewrite (dec_ltb_at m a b), (dec_leb_at m b c), (dec_ltb_at m a c) by lia.
  rewrite Z.leb_le, !Z.ltb_lt. lia.
Qed.


Lemma dec_mul_small a b e f :
  Z.abs (a * b) < 10 ^ PREC → dec_mul (Dec a e) (Dec b f) = Dec (a * b) (e + f).
Proof. intros. by apply fix28_small. Qed.

(** Quantizing to a place gives that exponent and 28 digits, and quantizing
    again changes nothing. *)
Lemma quantize_spec r e d d' :
  quantize r e d = Some d' → dexp d' = e ∧ Z.abs (coef d') < 10 ^ PREC.
Proof.
  unfold quantize. destruct (Z.ltb_spec (Z.abs (if e <=? dexp d then at_exp e d
    else round_coef r (coef d) (e - dexp d))) (10 ^ PREC)); [|done]. by intros [= <-].
Qed.

Lemma quantize_same r e c : Z.abs c < 10 ^ PREC → quantize r e (Dec c e) = Some (Dec c e).
Proof.
  intros H. unfold quantize. simpl. rewrite Z.leb_refl, at_exp_same. by apply Z.ltb_lt in H as ->.
Qed.

Lemma to_numeric_same p s c : Z.abs c < 10 ^ p → to_numeric p s (Dec c (- s)) = Some c.
Proof.
  intros H. unfold to_numeric. simpl. rewrite Z.leb_refl, at_exp_same. by apply Z.ltb_lt in H as ->.
Qed.
Lemma to_numeric_bound p s d c : to_numeric p s d = Some c → Z.abs c < 10 ^ p.
Proof. unfold to_numeric. case_match; [|done]. intros [= <-]. by apply Z.ltb_lt. Qed.
Lemma to_numeric_inv p s c c' : to_numeric p s (Dec c (- s)) = Some c' → c' = c.
Proof. unfold to_numeric. simpl. rewrite Z.leb_refl, at_exp_same. case_match; [|done]. by intros [= <-]. Qed.

(** The number of digits is neither too large nor too small. *)
Lemma digits_from_lower fuel n k :
  10 ^ (k - 1) <= n → 10 ^ (digits_from fuel n k - 1) <= n.
Proof.
  revert k; induction fuel as [|fuel IH]; intros k H; simpl; [done|].
  destruct (Z.ltb_spec n (10 ^ k)); [done|]. apply IH. by replace (k + 1 - 1) with k by lia.
Qed.
Lemma digits_from_upper fuel n k :
  n < 10 ^ (k + Z.of_nat fuel) → n < 10 ^ digits_from fuel n k.
Proof.
  revert k; induction fuel as [|fuel IH]; intros k H; simpl; [by rewrite Z.add_0_r in H|].
  destruct (Z.ltb_spec n (10 ^ k)); [done|]. apply IH.
  by replace (k + 1 + Z.of_nat fuel) with (k + Z.of_nat (S fuel)) by lia.
Qed.

Lemma num_digits_bounds n : 0 < n → 10 ^ (num_digits n - 1) <= n < 10 ^ num_digits n.
Proof.
  intros Hn. unfold num_digits. rewrite Z.abs_eq by lia.
  pose proof (Z.log2_nonneg n). pose proof (Z.log2_spec n Hn) as [Hlo Hhi].
  set (L := Z.log2 n) in *. set (k := L * 3 / 10).
  assert (0 <= k ∧ 10 * k <= 3 * L) as [Hk0 Hk].
  { unfold k. split; [apply Z.div_pos; lia|]. pose proof (Z.mul_div_le (L * 3) 10). lia. }
  split.
  - apply digits_from_lower.
    enough (10 ^ k <= 2 ^ L) by (pose proof (Z.pow_le_mono_r 10 (k - 1) k); lia).
    apply (Z.pow_le_mono_l_iff _ _ 10); [lia..|]. rewrite <- !Z.pow_mul_r by lia.
    transitivity (10 ^ (3 * L)); [apply Z.pow_le_mono_r; lia|].
    rewrite (Z.mul_comm L), !Z.pow_mul_r by lia. apply Z.pow_le_mono_l. lia.
  - apply digits_from_upper. eapply Z.lt_le_trans; [done|].
    transitivity (10 ^ Z.succ L); [apply Z.pow_le_mono_l; lia|]. apply Z.pow_le_mono_r; lia.
Qed.

Lemma round_nat_lower r n k : 0 <= n → 0 <= k → n / 10 ^ k <= round_nat r n k.
Proof. intros. unfold round_nat. repeat case_match; lia. Qed.

(** Rounding to the context keeps the magnitude of a large number. *)
Lemma fix28_large n e :
  10 ^ PREC <= n → e <= dexp (fix28 (Dec n e)) ∧ 10 ^ 27 <= at_exp e (fix28 (Dec n e)).
Proof.
  intros Hn. assert (0 < 10 ^ PREC) by done. unfold fix28. simpl.
  destruct (Z.ltb_spec (Z.abs n) (10 ^ PREC)); [lia|].
  destruct (num_digits_bounds n ltac:(lia)) as [Hlow Hup].
  assert (PREC < num_digits n) as Hd.
  { apply (Z.pow_lt_mono_r_iff 10); [lia| |lia].
    apply Z.nlt_ge. intros ?. rewrite (Z.pow_neg_r 10 (num_digits n)) in Hup by done. lia. }
  set (drop := num_digits n - PREC) in *.
  assert (10 ^ 27 <= n / 10 ^ drop) as Hq.
  { apply Z.div_le_lower_bound; [apply Z.pow_pos_nonneg; lia|].
    rewrite <- Z.pow_add_r by lia. by replace (drop + 27) with (num_digits n - 1) by (unfold drop, PREC; lia). }
  assert (Hc : 10 ^ 27 <= round_coef ROUND_HALF_EVEN n drop).
  { unfold round_coef. rewrite Z.sgn_pos, Z.mul_1_l, Z.abs_eq by lia.
    etrans; [exact Hq|]. apply round_nat_lower; lia. }
  assert (Hmono : ∀ c k, 10 ^ 27 <= c * 10 ^ k → 0 <= k → e <= e + k ∧ 10 ^ 27 <= at_exp e (Dec c (e + k))).
  { intros c k H1 H2. unfold at_exp. simpl. replace (e + k - e) with k by lia. lia. }
  destruct (Z.eqb_spec (Z.abs (round_coef ROUND_HALF_EVEN n drop)) (10 ^ PREC)) as [E|E]; simpl.
  - rewrite <- Z.add_assoc. apply Hmono; [|lia]. rewrite Z.abs_eq in E by lia. rewrite E.
    change (10 ^ PREC / 10) with (10 ^ 27). pose proof (Z.pow_pos_nonneg 10 (drop + 1)). nia.
  - apply Hmono; [|lia]. pose proof (Z.pow_pos_nonneg 10 drop). nia.
Qed.

(** *** A quotient by twelve, to two places *)

Lemma strip_zeros_value fuel c e ideal :
  e <= ideal →
  ∃ k, 0 <= k ∧ dexp (strip_zeros fuel c e ideal) = e + k ∧ e + k <= ideal ∧ coef (strip_zeros fuel c e ideal) * 10 ^ k = c ∧
       (Z.of_nat fuel >= ideal - e → e + k = ideal ∨ coef (strip_zeros fuel c e ideal) mod 10 ≠ 0).
Proof.
  revert c e; induction fuel as [|fuel IH]; intros c e He; simpl.
  - exists 0. split_and!; [lia..|]. intros. left. lia.
  - destruct (Z.ltb_spec e ideal) as [Hlt|Hge]; simpl; [destruct (Z.eqb_spec (c mod 10) 0) as [Hm|Hm]|].
    + destruct (IH (c / 10) (e + 1) ltac:(lia)) as (k & Hk & H1 & H2 & H3 & H4). exists (k + 1).
      rewrite H1. split_and!; [lia..| |].
      * rewrite Z.pow_add_r by lia. change (10 ^ 1) with 10. rewrite Z.mul_assoc, H3.
        pose proof (Z.div_mod c 10). lia.
      * intros Hf. replace (e + (k + 1)) with (e + 1 + k) by lia. apply H4. lia.
    + exists 0. rewrite Z.add_0_r. split_and!; simpl; [lia..|]. by right.
    + exists 0. simpl. split_and!; [lia..|]. left. lia.
Qed.

Lemma num_digits_large n : 10 ^ PREC <= n → PREC < num_digits n.
Proof.
  intros Hn. assert (0 < 10 ^ PREC) by done. destruct (num_digits_bounds n ltac:(lia)) as [Hlow Hup].
  apply (Z.pow_lt_mono_r_iff 10); [lia| |lia]. apply Z.nlt_ge. intros ?.
  rewrite (Z.pow_neg_r 10 (num_digits n)) in Hup by done. lia.
Qed.

(** Rounding to the context is within half a unit of the last digit kept. *)
Lemma fix28_near c e :
  0 < c → ∃ k, 0 <= k ∧ dexp (fix28 (Dec c e)) = e + k ∧ 0 < coef (fix28 (Dec c e)) ∧
    2 * Z.abs (coef (fix28 (Dec c e)) * 10 ^ k - c) <= (if c <? 10 ^ PREC then 0 else 10 ^ (num_digits c - PREC)) ∧
    k <= (if c <? 10 ^ PREC then 0 else num_digits c - PREC + 1).
Proof.
  intros Hc. unfold fix28. simpl. rewrite Z.abs_eq by lia. destruct (Z.ltb_spec c (10 ^ PREC)) as [Hs|Hl].
  - exists 0. simpl. rewrite Z.mul_1_r, Z.sub_diag. simpl. split_and!; lia.
  - destruct (num_digits_bounds c Hc) as [Hlow Hup].
    pose proof (num_digits_large c Hl) as Hd.
    set (drop := num_digits c - PREC) in *.
    assert (0 < 10 ^ drop) as Ht by (apply Z.pow_pos_nonneg; lia).
    unfold round_coef. rewrite Z.sgn_pos, Z.mul_1_l, (Z.abs_eq c) by lia.
    assert (2 * Z.abs (round_nat ROUND_HALF_EVEN c drop * 10 ^ drop - c) <= 10 ^ drop ∧ 0 < round_nat ROUND_HALF_EVEN c drop) as [Hn Hp].
    { assert (0 < c / 10 ^ drop) as Hq.
      { apply Z.div_str_pos. split; [done|]. etrans; [|exact Hlow]. apply Z.pow_le_mono_r; unfold drop, PREC; lia. }
      unfold round_nat. pose proof (Z.div_mod c (10 ^ drop)) as E. pose proof (Z.mod_pos_bound c (10 ^ drop) Ht).
      set (q := c / 10 ^ drop) in *. set (r := c mod 10 ^ drop) in *. set (T := 10 ^ drop) in *.
      destruct (Z.ltb_spec T (2 * r)); [split; [|lia]|destruct (Z.eqb_spec T (2 * r)); simpl; [destruct (Z.odd q)|]; (split; [|lia])]; nia. }
    set (m := round_nat ROUND_HALF_EVEN c drop) in *. clearbody m. rewrite (Z.abs_eq m) by lia.
    destruct (Z.eqb_spec m (10 ^ PREC)) as [->|E]; simpl.
    + exists (drop + 1). split_and!; [lia|lia|by vm_compute| |lia].
      rewrite Z.pow_add_r by lia. change (10 ^ PREC / 10) with (10 ^ 27). change (10 ^ 1) with 10.
      replace (10 ^ 27 * (10 ^ drop * 10)) with (10 ^ PREC * 10 ^ drop) by (change (10 ^ PREC) with (10 ^ 27 * 10); lia). done.
    + exists drop. split_and!; [lia..|done|lia].
Qed.

(** A decimal within a twelfth of a unit of [n/12] rounds half up as [n/12]
    itself, when an exact half is met exactly. *)
Lemma quantize_near_twelfth n c k :
  0 < c → 0 <= k → 0 < n < 10 ^ 25 → Z.abs (12 * c - n * 10 ^ k) < 10 ^ k → (n mod 12 = 6 → 12 * c = n * 10 ^ k) →
  quantize ROUND_HALF_UP (-2) (Dec c (-2 - k)) = Some (Dec ((n + 6) / 12) (-2)).
Proof.
  intros Hc Hk Hn Hnear Hhalf. set (T := 10 ^ k) in *. assert (0 < T) as HT by (apply Z.pow_pos_nonneg; lia).
  assert (Hval : (if -2 <=? -2 - k then at_exp (-2) (Dec c (-2 - k)) else round_coef ROUND_HALF_UP c (-2 - (-2 - k))) =
    (2 * c + T) / (2 * T)).
  { replace (-2 - (-2 - k)) with k by lia. destruct (Z.leb_spec (-2) (-2 - k)).
    - assert (k = 0) as -> by lia. unfold at_exp. simpl. change T with 1. rewrite Z.mul_1_r.
      replace (2 * c + 1) with (1 + c * 2) by lia. rewrite Z.div_add by lia. done.
    - unfold round_coef. rewrite Z.sgn_pos, Z.mul_1_l, Z.abs_eq by lia. unfold round_nat. fold T.
      pose proof (Z.div_mod c T ltac:(lia)). pose proof (Z.mod_pos_bound c T HT).
      destruct (Z.leb_spec T (2 * (c mod T))).
      + apply Z.div_unique with (2 * (c mod T) - T); [lia|]. lia.
      + apply Z.div_unique with (2 * (c mod T) + T); [lia|]. lia. }
  assert (Hq : (2 * c + T) / (2 * T) = (n + 6) / 12).
  { pose proof (Z.div_mod n 12 ltac:(lia)) as En. pose proof (Z.mod_pos_bound n 12 ltac:(lia)) as Hr.
    set (a := n / 12) in *. set (r := n mod 12) in *.
    assert ((n + 6) / 12 = a + (if 6 <=? r then 1 else 0)) as ->.
    { destruct (Z.leb_spec 6 r).
      - symmetry. apply Z.div_unique with (r - 6); lia.
      - symmetry. apply Z.div_unique with (r + 6); lia. }
    symmetry. apply Z.div_unique with (2 * c + T - 2 * T * (a + (if 6 <=? r then 1 else 0))); [|lia]. left.
    rewrite En in Hnear, Hhalf. destruct (Z.leb_spec 6 r); [destruct (Z.eq_dec r 6) as [E|]; [specialize (Hhalf E)|]|]; nia. }
  unfold quantize. cbn [dexp coef]. rewrite Hval, Hq.
  assert (0 <= (n + 6) / 12 < 10 ^ PREC) as Hb.
  { split; [apply Z.div_pos; lia|]. apply Z.div_lt_upper_bound; [lia|]. change (10 ^ PREC) with (1000 * 10 ^ 25). lia. }
  rewrite (proj2 (Z.ltb_lt _ _)); [done|]. lia.
Qed.

Lemma fix28_id c e : 0 < c < 10 ^ PREC → fix28 (Dec c e) = Dec c e.
Proof. intros H. unfold fix28. simpl. rewrite (proj2 (Z.ltb_lt _ _)); [done|]. lia. Qed.

Lemma div_twelfth n : 0 < n < 10 ^ 25 →
  quantize ROUND_HALF_UP (-2) (dec_div (Dec n (-2)) (Dec 12 0)) = Some (Dec ((n + 6) / 12) (-2)).
Proof.
  intros Hn. unfold dec_div. cbn [coef dexp].
  destruct (num_digits_bounds n ltac:(lia)) as [Hlow Hup].
  assert (1 <= num_digits n <= 25) as HL.
  { split.
    - apply Z.nlt_ge. intros ?. assert (num_digits n = 0 ∨ num_digits n < 0) as [E|E] by lia.
      + rewrite E in Hup. simpl in Hup. lia.
      + rewrite (Z.pow_neg_r 10 (num_digits n)) in Hup by done. lia.
    - apply Z.nlt_ge. intros ?. assert (10 ^ 25 <= 10 ^ (num_digits n - 1)) by (apply Z.pow_le_mono_r; lia). lia. }
  change (num_digits 12) with 2. set (shift := 2 - num_digits n + PREC + 1).
  assert (6 <= shift) as Hsh by (unfold shift, PREC; lia).
  rewrite (proj2 (Z.eqb_neq n 0)), (proj2 (Z.leb_le 0 shift)), !Z.sgn_pos, !Z.mul_1_l, !Z.mul_1_r by lia.
  rewrite (Z.abs_eq n), (Z.abs_eq 12) by lia. set (N := n * 10 ^ shift).
  assert (10 ^ 30 <= N < 10 ^ 31) as HN.
  { unfold N. split.
    - replace 30 with (num_digits n - 1 + shift) by (unfold shift, PREC; lia). rewrite Z.pow_add_r by lia. nia.
    - replace 31 with (num_digits n + shift) by (unfold shift, PREC; lia). rewrite Z.pow_add_r by lia. nia. }
  replace (-2 - 0 - shift) with (-2 - shift) by lia. change (-2 - 0) with (-2).
  pose proof (Z.div_mod N 12 ltac:(lia)) as EN. pose proof (Z.mod_pos_bound N 12 ltac:(lia)) as HrN.
  set (q := N / 12) in *. set (r := N mod 12) in *.
  destruct (Z.eqb_spec r 0) as [Hr|Hr].
  - destruct (strip_zeros_value (Z.to_nat (-2 - (-2 - shift))) q (-2 - shift) (-2) ltac:(lia)) as (j & Hj & H1 & H2 & H3 & H4).
    set (c := coef (strip_zeros _ _ _ _)) in *. rewrite H1.
    assert (12 * c = n * 10 ^ (shift - j)) as Hc.
    { apply (Z.mul_reg_r _ _ (10 ^ j)); [pose proof (Z.pow_pos_nonneg 10 j); lia|].
      rewrite <- !Z.mul_assoc, H3, <- Z.pow_add_r by lia. replace (shift - j + j) with shift by lia. lia. }
    assert (0 < 10 ^ (shift - j)) by (apply Z.pow_pos_nonneg; lia).
    assert (0 < c) as Hc0 by nia.
    assert (shift - j <= 2) as Hk2.
    { destruct (H4 ltac:(lia)) as [?|Hm]; [lia|]. apply Z.nlt_ge. intros ?. apply Hm.
      replace (shift - j) with (1 + (2 + (shift - j - 3))) in Hc by lia. rewrite !Z.pow_add_r in Hc by lia.
      change (10 ^ 1) with 10 in Hc. change (10 ^ 2) with 100 in Hc. set (w := n * 10 ^ (shift - j - 3)).
      assert (3 * c = 10 * (25 * w)) as E by (unfold w; lia). apply Z.mod_divide; [lia|].
      apply (Z.gauss 10 3 c); [|done]. rewrite E. apply Z.divide_factor_l. }
    assert (10 ^ (shift - j) <= 100) by (change 100 with (10 ^ 2); apply Z.pow_le_mono_r; lia).
    rewrite fix28_id by (split; [done|change (10 ^ PREC) with (1000 * 10 ^ 25); nia]).
    replace (-2 - shift + j) with (-2 - (shift - j)) by lia.
    apply quantize_near_twelfth; [done|lia|done|lia|done].
  - set (q' := if q mod 5 =? 0 then q + 1 else q).
    assert (Z.abs (12 * q' - N) <= 12 ∧ 0 < q' < 10 ^ 30) as [Hq' Hb] by (unfold q'; destruct (q mod 5 =? 0); split; lia).
    destruct (fix28_near q' (-2 - shift) ltac:(lia)) as (j & Hj & H1 & Hc0 & H2 & H3).
    set (c := coef (fix28 _)) in *. replace (fix28 (Dec q' (-2 - shift))) with (Dec c (-2 - (shift - j))).
    2: { unfold c. destruct (fix28 _) as [c' e'] eqn:E. simpl in *. f_equal. lia. }
    assert (num_digits q' <= 30) as Hd.
    { destruct (num_digits_bounds q' ltac:(lia)) as [Hql _]. apply Z.nlt_ge. intros ?.
      assert (10 ^ 30 <= 10 ^ (num_digits q' - 1)) by (apply Z.pow_le_mono_r; lia). lia. }
    assert (j <= 3 ∧ 2 * Z.abs (c * 10 ^ j - q') <= 100) as [Hj3 Herr].
    { destruct (Z.ltb_spec q' (10 ^ PREC)) as [?|Hbig]; [lia|]. unfold PREC in *. split; [lia|].
      etrans; [exact H2|]. change 100 with (10 ^ 2). apply Z.pow_le_mono_r; lia. }
    assert (0 < 10 ^ j) by (apply Z.pow_pos_nonneg; lia).
    assert (10 ^ 6 <= 10 ^ shift) by (apply Z.pow_le_mono_r; lia).
    assert (10 ^ (shift - j) * 10 ^ j = 10 ^ shift) as Ep by (rewrite <- Z.pow_add_r by lia; f_equal; lia).
    apply quantize_near_twelfth; [done|lia|done| |].
    + assert (Z.abs (12 * (c * 10 ^ j) - N) < 10 ^ shift) as Hnear by lia.
      apply (Z.mul_lt_mono_pos_r (10 ^ j)); [done|].
      rewrite Ep, <- (Z.abs_eq (10 ^ j)) by lia. rewrite <- Z.abs_mul.
      replace ((12 * c - n * 10 ^ (shift - j)) * 10 ^ j) with (12 * (c * 10 ^ j) - N) by (unfold N; rewrite <- Ep; lia). done.
    + intros Hn6. exfalso. apply Hr. unfold r, N. pose proof (Z.div_mod n 12 ltac:(lia)) as En. rewrite Hn6 in En.
      replace shift with (1 + (shift - 1)) by lia. rewrite Z.pow_add_r by lia. change (10 ^ 1) with 10.
      rewrite En. apply Z.mod_divide; [lia|].
      exists ((10 * (n / 12) + 5) * 10 ^ (shift - 1)). lia.
Qed.

(** ** [str(d)] *)
Fixpoint zeros (n : nat) : string := match n with O => EmptyString | S n => "0" +:+ zeros n end.
Definition dec_str (d : decimal) : string :=
  let digits := pretty (Z.abs (coef d)) in
  let len := Z.of_nat (String.length digits) in
  let leftdigits := dexp d + len in
  let dotplace := if (dexp d <=? 0) && (-6 <? leftdigits) then leftdigits else 1 in
  let body :=
    if dotplace <=? 0 then "0." +:+ zeros (Z.to_nat (- dotplace)) +:+ digits
    else if len <=? dotplace then digits +:+ zeros (Z.to_nat (dotplace - len))
    else String.substring 0 (Z.to_nat dotplace) digits +:+ "." +:+
         String.substring (Z.to_nat dotplace) (Z.to_nat (len - dotplace)) digits in
  let e := leftdigits - dotplace in
  (if coef d <? 0 then "-" else "") +:+ body +:+
  (if e =? 0 then "" else "E" +:+ (if 0 <? e then "+" else "") +:+ pretty e).

Example dec_str_places : dec_str (Dec 5000 (-3)) = "5.000" /\ dec_str (Dec (-7) (-3)) = "-0.007".
Proof. vm_compute. done. Qed.
Example dec_str_exponent : dec_str (Dec 12 3) = "1.2E+4".
Proof. vm_compute. done. Qed.

Example dec_add_exact : dec_add (Dec 15 (-1)) (Dec 25 (-2)) = Dec 175 (-2).
Proof. vm_compute. reflexivity. Qed.
Example dec_div_third : dec_div (Dec 10 0) (Dec 3 0) = Dec 3333333333333333333333333333 (-27).
Proof. vm_compute. reflexivity. Qed.
Example dec_div_exact : dec_div (Dec 1000 (-2)) (Dec 4 0) = Dec 250 (-2).
Proof. vm_compute. reflexivity. Qed.
Example quantize_half_up : quantize ROUND_HALF_UP (-2) (Dec (-2345) (-3)) = Some (Dec (-235) (-2)).
Proof. vm_compute. reflexivity. Qed.
Example fix28_carry : fix28 (Dec (10 ^ 29 - 1) 0) = Dec (10 ^ 27) 2.
Proof. vm_compute. reflexivity. Qed.

(** ** Numbers in JSON, as [float] and [Decimal] read them

    A finite float is represented by the decimal its [repr] denotes: distinct floats
    have distinct representations, in the same order.  What [float] makes of text and
    of integers that do not fit 53 bits, and what [Decimal] makes of text, are
    parameters. *)
(** What a conversion gives: [ValueError], [TypeError] or [InvalidOperation]; an
    infinity or NaN; or a number. *)
Inductive number := NotNumeric | NotFinite | Finite (d : decimal).

(** ** The text of a float *)
Fixpoint take_digits (s : string) (acc : Z) (n : Z) : Z * Z * string :=
  match s with
  | String c s' => if is_digit c then take_digits s' (10 * acc + (Z.of_N (char_code c) - 48)) (n + 1) else (acc, n, s)
  | EmptyString => (acc, n, s)
  end.
Definition exponent_text (s : string) : Z :=
  match s with
  | String "-"%char s => - (take_digits s 0 0).1.1
  | String "+"%char s => (take_digits s 0 0).1.1
  | _ => (take_digits s 0 0).1.1
  end.
Definition float_number (repr : string) : number :=
  let '(negative, s) := match repr with String "-"%char s => (true, s) | _ => (false, repr) end in
  let '(whole, n, s) := take_digits s 0 0 in
  if n =? 0 then NotFinite
  else
    let '(c, places, s) := match s with String "."%char s => take_digits s whole 0 | _ => (whole, 0, s) end in
    let e := match s with String "e"%char s => exponent_text s | _ => 0 end in
    Finite (Dec (if negative : bool then - c else c) (e - places)).

Section numbers.
Context (float_of_text decimal_of_text : string → number) (float_of_wide : Z → option decimal).

(** [Decimal(str(v))]. *)
Definition decimal_of (v : json) : number :=
  match v with
  | JInt z => Finite (Dec z 0)
  | JFloat r => float_number r
  | JStr s => decimal_of_text s
  | _ => NotNumeric
  end.
(** [float(v)] for a value that is no [bool]; [None]: [OverflowError]. *)
Definition float_of (v : json) : option number :=
  match v with
  | JInt z => if Z.abs z <=? 2 ^ 53 then Some (Finite (Dec (10 * z) (-1))) else Finite <$> float_of_wide z
  | JFloat r => Some (float_number r)
  | JStr s => Some (float_of_text s)
  | _ => Some NotNumeric
  end.
End numbers.

Example float_texts : float_number "5.0" = Finite (Dec 50 (-1)) ∧ float_number "-1.5e+16" = Finite (Dec (-15) 15) ∧
  float_number "1e-07" = Finite (Dec 1 (-7)) ∧ float_number "nan" = NotFinite ∧ float_number "-inf" = NotFinite.
Proof. by vm_compute. Qed.
