(* ===== verification/AuditLog.v ===== *)
(** * AuditLog: the audit interface

    What the event log promises to the components that append to it (the autonomy
    governor, the A2A grants): their theorems are proved against this class, and
    [EventLogProps] shows that the event log implements it. *)
From S2P Require Import Prelude PyText.

Abbreviation jobject := (list (string * json)).

(** ** The audit interface

    [audit_append env log namespace agent event_type params] appends one entry
    or fails; what is stored for the parameters is the implementation's
    business ([audit_stored]). *)
Class AuditLog (Log Env : Type) := {
  audit_append : Env → Log → string → string → string → jobject → option Log;
  audit_entries : Log → list (string * string * string * jobject);
  audit_stored : jobject → jobject → Prop;
  audit_append_entries env l ns agent ty params l' :
    strip agent = agent → audit_append env l ns agent ty params = Some l' →
    ∃ p, audit_stored params p ∧ audit_entries l' = audit_entries l ++ [(ns, agent, ty, p)]
}.

(** The simplest implementation: a list that stores what it is given. *)
Definition list_audit : AuditLog (list (string * string * string * jobject)) unit.
Proof.
  refine {| audit_append _ l ns agent ty params := Some (l ++ [(ns, agent, ty, params)]);
            audit_entries l := l; audit_stored params p := p = params |}.
  intros _ l ns agent ty params l' _ [= <-]. by exists params.
Defined.
