(* ===== verification/Causal.v ===== *)
(** * Causal: the do-calculus engine over the infrastructure topology

    Models [src/nce/causal/correlation.py]: the in-memory graph
    ([CausalGraph.from_rows], the edge lists and traversals), the
    edge-type-aware [impacted_by] and [find_all_causal_paths], the
    [do]-operator [mutilate], the path probabilities and
    [DoCalculusEngine.evaluate].  Database loading is not modelled: a graph
    starts from its rows. *)
From S2P Require Import Prelude PyFloat PyText.

(** ** Data *)
Record CausalNode := MkNode {
  node_id : string;
  node_type : string;
  namespace_id : string
}.

Record CausalEdge := MkEdge {
  source_node_id : string;
  target_node_id : string;
  edge_type : string;
  confidence_score : float;
  decay_coefficient : float;
  last_verified : option datetime
}.

Definition _TOPOLOGY_EDGE_STABILITY_DAYS : float := of_Z 90.
Definition _MIN_CONFIDENCE : float := of_ratio 1 1000.

Definition _FORWARD_FAILURE_TYPES : gset string := {["connected_to"; "host_application"]}.
Definition _REVERSE_FAILURE_TYPES : gset string := {["depends_on"; "powered_by"]}.

Definition is_forward (e : CausalEdge) : bool :=
  bool_decide (edge_type e ∈ _FORWARD_FAILURE_TYPES).
Definition is_reverse (e : CausalEdge) : bool :=
  bool_decide (edge_type e ∈ _REVERSE_FAILURE_TYPES).

Record CausalGraph := MkGraph {
  _nodes : gmap string CausalNode;
  _outgoing : gmap string (list CausalEdge);
  _incoming : gmap string (list CausalEdge)
}.

Definition get_node (g : CausalGraph) (n : string) : option CausalNode := _nodes g !! n.
Definition node_ids (g : CausalGraph) : gset string := dom (_nodes g).
Definition outgoing_edges (g : CausalGraph) (n : string) : list CausalEdge :=
  default [] (_outgoing g !! n).
Definition incoming_edges (g : CausalGraph) (n : string) : list CausalEdge :=
  default [] (_incoming g !! n).

(** A row of [topology_graph] as the loader reads it. *)
Record topology_row := MkRow {
  row_source : string;
  row_source_type : string;
  row_target : string;
  row_target_type : string;
  row_edge_type : string;
  row_confidence : float;
  row_decay : float;
  row_last_verified : option datetime
}.

Definition row_edge (r : topology_row) : CausalEdge :=
  MkEdge (row_source r) (row_target r) (row_edge_type r) (row_confidence r)
         (row_decay r) (row_last_verified r).

(** [outgoing[k].append(edge)] on a [defaultdict(list)]. *)
Definition dd_append (k : string) (e : CausalEdge) (m : gmap string (list CausalEdge)) :=
  <[k := default [] (m !! k) ++ [e]]> m.

(** The loop over the rows: [source_types] and [target_types]. *)
Definition row_types (st : gmap string string * gmap string string) (r : topology_row) :=
  let source_types := <[row_source r := row_source_type r]> st.1 in
  let target_types :=
    if decide (is_Some (source_types !! row_target r)) then st.2
    else <[row_target r := row_target_type r]> st.2 in
  (source_types, target_types).

Definition add_edge (adj : gmap string (list CausalEdge) * gmap string (list CausalEdge))
    (e : CausalEdge) :=
  (dd_append (source_node_id e) e adj.1, dd_append (target_node_id e) e adj.2).

Definition from_rows (rows : list topology_row) (ns : string) : CausalGraph :=
  let '(source_types, target_types) := foldl row_types (∅, ∅) rows in
  let merged_types := source_types ∪ target_types in
  let '(outgoing, incoming) := foldl add_edge (∅, ∅) (row_edge <$> rows) in
  MkGraph (map_imap (λ nid ntype, Some (MkNode nid ntype ns)) merged_types) outgoing incoming.

(** ** Traversals

    [descendants], [ancestors] and [impacted_by] are one breadth-first search
    over different successor lists: [body] pops the queue and visits the
    successors in order. *)
Section bfs.
Context (succs : string → list string).

Record bfs_state := Bfs { queue : list string; visited : gset string; found : gset string }.

Definition bfs_visit (s : bfs_state) (n : string) : bfs_state :=
  if decide (n ∈ visited s) then s
  else Bfs (queue s ++ [n]) ({[n]} ∪ visited s) ({[n]} ∪ found s).

Definition bfs_body (s : bfs_state) : bfs_state + gset string :=
  match queue s with
  | [] => inr (found s)
  | current :: rest => inl (foldl bfs_visit (Bfs rest (visited s) (found s)) (succs current))
  end.

(** [universe]: every node the successor lists can name. *)
Definition bfs (universe : gset string) (start : string) : gset string :=
  while (fuel_for (2 + size universe)) bfs_body (Bfs [start] {[start]} ∅) ∅.
End bfs.

Definition by_target (e f : CausalEdge) : bool := str_leb (target_node_id e) (target_node_id f).
Definition by_source (e f : CausalEdge) : bool := str_leb (source_node_id e) (source_node_id f).

(** Every endpoint of a stored edge. *)
Definition edges_of (m : gmap string (list CausalEdge)) : list CausalEdge :=
  concat (map_to_list m).*2.
Definition endpoints (g : CausalGraph) : gset string :=
  list_to_set ((source_node_id <$> (edges_of (_outgoing g) ++ edges_of (_incoming g))) ++
               (target_node_id <$> (edges_of (_outgoing g) ++ edges_of (_incoming g)))).

Definition descendants (g : CausalGraph) (n : string) : gset string :=
  bfs (λ current, target_node_id <$> sorted_by by_target (outgoing_edges g current))
      (endpoints g) n.

Definition ancestors (g : CausalGraph) (n : string) : gset string :=
  bfs (λ current, source_node_id <$> sorted_by by_source (incoming_edges g current))
      (endpoints g) n.

(** The steps a failure takes from a node: forward-type outgoing edges to
    their targets, reverse-type incoming edges to their sources. *)
Definition causal_steps (g : CausalGraph) (n : string) : list (CausalEdge * string) :=
  ((λ e, (e, target_node_id e)) <$>
     List.filter is_forward (sorted_by by_target (outgoing_edges g n))) ++
  ((λ e, (e, source_node_id e)) <$>
     List.filter is_reverse (sorted_by by_source (incoming_edges g n))).

Definition impacted_by (g : CausalGraph) (failed_node : string) : gset string :=
  bfs (λ n, (causal_steps g n).*2) (endpoints g) failed_node.

(** ** Path enumeration

    [find_all_paths] and [find_all_causal_paths] are one depth-first search
    with an explicit stack over different expansions. *)
Section paths.
Context (expand : string → list (CausalEdge * string)).
Context (target : string) (max_depth : nat).

Record path_item := PathItem {
  current : string;
  path_edges : list CausalEdge;
  path_nodes : gset string
}.

Definition push_step (it : path_item) (stack : list path_item) (s : CausalEdge * string) :=
  if decide (s.2 ∈ path_nodes it) then stack
  else PathItem s.2 (path_edges it ++ [s.1]) (path_nodes it ∪ {[s.2]}) :: stack.

(** The stack's top is the head of the list. *)
Definition paths_body (st : list path_item * list (list CausalEdge)) :
    (list path_item * list (list CausalEdge)) + list (list CausalEdge) :=
  match st.1 with
  | [] => inr st.2
  | it :: stack =>
      if decide (current it = target) then inl (stack, st.2 ++ [path_edges it])
      else if decide (max_depth ≤ length (path_edges it)) then inl (stack, st.2)
      else inl (foldl (push_step it) stack (expand (current it)), st.2)
  end.

(** [width]: the largest number of steps out of a node. *)
Definition all_paths (width : nat) (source : string) : list (list CausalEdge) :=
  if decide (source = target) then []
  else while (S (S max_depth * fuel_for (2 + width))) paths_body
             ([PathItem source [] {[source]}], []) [].
End paths.

Definition max_width (m : gmap string (list CausalEdge)) : nat :=
  max_list (length <$> (map_to_list m).*2).
Definition graph_width (g : CausalGraph) : nat :=
  max_width (_outgoing g) + max_width (_incoming g).

Definition pair_compare (p q : string * string) : comparison :=
  lex_compare (str_compare p.1 q.1) (str_compare p.2 q.2).

(** [results.sort(key=lambda p: (len(p), [...]))] *)
Definition path_leb {K} (key : CausalEdge → K) (cmp : K → K → comparison)
    (p q : list CausalEdge) : bool :=
  leb_of (lex_compare (Nat.compare (length p) (length q))
                      (list_compare cmp (key <$> p) (key <$> q))).

Definition topology_steps (g : CausalGraph) (n : string) : list (CausalEdge * string) :=
  (λ e, (e, target_node_id e)) <$> sorted_by by_target (outgoing_edges g n).

Definition find_all_paths (g : CausalGraph) (source target : string) (max_depth : nat) :=
  sorted_by (path_leb target_node_id str_compare)
    (all_paths (topology_steps g) target max_depth (graph_width g) source).

Definition find_all_causal_paths (g : CausalGraph) (source target : string) (max_depth : nat) :=
  sorted_by (path_leb (λ e, (source_node_id e, target_node_id e)) pair_compare)
    (all_paths (causal_steps g) target max_depth (graph_width g) source).

(** ** The do-operator *)
Definition severed (x : string) (e : CausalEdge) : bool :=
  (is_forward e && bool_decide (target_node_id e = x)) ||
  (is_reverse e && bool_decide (source_node_id e = x)).

Section mutilate.
Context `{PyIter}.

Definition mutilate_edge (src x : string)
    (adj : gmap string (list CausalEdge) * gmap string (list CausalEdge)) (e : CausalEdge) :=
  if severed x e then adj
  else (dd_append src e adj.1, dd_append (target_node_id e) e adj.2).

Definition mutilate (g : CausalGraph) (x : string) : CausalGraph :=
  let '(new_outgoing, new_incoming) :=
    foldl (λ adj '(src, edges), foldl (mutilate_edge src x) adj edges)
          (∅, ∅) (dict_iter (_outgoing g)) in
  MkGraph (_nodes g) new_outgoing new_incoming.
End mutilate.

(** ** Probabilities and the engine *)

Inductive causal_error := KeyError (node : string).

Record ImpactScore := MkImpact {
  is_node_id : string;
  is_node_type : string;
  impact_probability : float;
  hop_distance : nat;
  paths_count : nat
}.

Record ConfoundingPath := MkConfounding {
  intervention_node : string;
  sink : string;
  cp_path : list string;
  raw_confidence : float
}.

Record InterventionResult := MkResult {
  intervention_node_id : string;
  intervention_state : string;
  directly_impacted : list ImpactScore;
  transitively_impacted : list ImpactScore;
  confounding_paths : list ConfoundingPath;
  probability_matrix : gmap string float;
  truncated_targets : list string
}.

Definition f0 : float := of_Z 0.
Definition f1 : float := of_Z 1.

Section engine.
Context `{PyIter}.
(** [math.exp] of the C library. *)
Context (math_exp : float → float).
(** The instant of the evaluation, in microseconds: [_now] or the clock. *)
Context (now : Z).

Definition elapsed_days (lv : datetime) : float :=
  fdiv (of_ratio (now - utc_us lv) 1000000) (of_Z 86400).

Definition decayed_confidence (e : CausalEdge) : float :=
  match last_verified e with
  | None => py_max _MIN_CONFIDENCE (confidence_score e)
  | Some lv =>
      let days := elapsed_days lv in
      let decay :=
        if fltb f0 (decay_coefficient e) && negb (feqb (decay_coefficient e) (of_ratio 1 1000))
        then math_exp (fmul (fneg (decay_coefficient e)) days)
        else math_exp (fdiv (fneg days) _TOPOLOGY_EDGE_STABILITY_DAYS) in
      py_max _MIN_CONFIDENCE (py_min f1 (fmul (confidence_score e) decay))
  end.

Definition _path_confidence (p : list CausalEdge) : float :=
  match p with
  | [] => f0
  | _ => foldl (λ acc e, fmul acc (decayed_confidence e)) f1 p
  end.

Definition _combine_path_probabilities (ps : list float) : float :=
  match ps with
  | [] => f0
  | _ => fsub f1 (foldl (λ acc p, fmul acc (fsub f1 p)) f1 ps)
  end.

(** [min(len(p) for p in paths)] *)
Fixpoint min_length (l : list (list CausalEdge)) : nat :=
  match l with
  | [] => 0
  | [p] => length p
  | p :: l' => Nat.min (length p) (min_length l')
  end.

(** One round of the loop over [sorted(impacted_in_mutilated)]. *)
Definition score_target (g m : CausalGraph) (x : string) (max_path_depth : nat)
    (acc : gmap string float * list ImpactScore * list string) (target_id : string) :=
  let '(matrix, scores, truncated) := acc in
  let target_type :=
    match get_node m target_id with
    | Some n => node_type n
    | None => match get_node g target_id with Some n => node_type n | None => "unknown" end
    end in
  match find_all_causal_paths m x target_id max_path_depth with
  | [] => (matrix, scores, truncated ++ [target_id])
  | paths =>
      let combined_prob := _combine_path_probabilities (_path_confidence <$> paths) in
      (<[target_id := combined_prob]> matrix,
       scores ++ [MkImpact target_id target_type combined_prob (min_length paths) (length paths)],
       truncated)
  end.

Definition direct_children (m : CausalGraph) (x : string) : gset string :=
  list_to_set ((target_node_id <$> List.filter is_forward (outgoing_edges m x)) ++
               (source_node_id <$> List.filter is_reverse (incoming_edges m x))).

(** [key=lambda s: (-s.impact_probability, s.node_id)] *)
Definition impact_lt (s t : ImpactScore) : bool :=
  if feqb (fneg (impact_probability s)) (fneg (impact_probability t))
  then match str_compare (is_node_id s) (is_node_id t) with Lt => true | _ => false end
  else fltb (fneg (impact_probability s)) (fneg (impact_probability t)).
Definition sort_impacts : list ImpactScore → list ImpactScore :=
  sorted_by (λ s t, negb (impact_lt t s)).

(** The causal parents of [x] in the observational graph. *)
Definition causal_parents (g : CausalGraph) (x : string) : gset string :=
  list_to_set ((source_node_id <$> List.filter is_forward (incoming_edges g x)) ++
               (target_node_id <$> List.filter is_reverse (outgoing_edges g x))).

Definition confounding_lt (c d : ConfoundingPath) : bool :=
  match lex_compare (str_compare (sink c) (sink d))
                    (Nat.compare (length (cp_path c)) (length (cp_path d))) with
  | Lt => true
  | Gt => false
  | Eq => fltb (fneg (raw_confidence c)) (fneg (raw_confidence d))
  end.

Definition path_node_sequence (parent_id : string) (p : list CausalEdge) : list string :=
  parent_id :: ((λ e, if is_reverse e then source_node_id e else target_node_id e) <$> p).

Definition confounding_from (g : CausalGraph) (x : string) (impacted_in_mutilated : gset string)
    (max_depth : nat) (parent_id : string) : list ConfoundingPath :=
  let confounded_targets :=
    impacted_by g parent_id ∖ impacted_in_mutilated ∖ {[x]} in
  flat_map (λ target_id,
    flat_map (λ path,
      let raw_conf := _path_confidence path in
      if fltb (of_ratio 1 100) raw_conf
      then [MkConfounding x target_id (path_node_sequence parent_id path) raw_conf]
      else [])
      (take 3 (find_all_causal_paths g parent_id target_id max_depth)))
    (sorted_by str_leb (set_iter confounded_targets)).

Definition _find_confounding_paths (g : CausalGraph) (x : string)
    (impacted_in_mutilated : gset string) (max_depth : nat) : list ConfoundingPath :=
  sorted_by (λ c d, negb (confounding_lt d c))
    (flat_map (confounding_from g x impacted_in_mutilated max_depth)
              (sorted_by str_leb (set_iter (causal_parents g x)))).

Definition evaluate (g : CausalGraph) (x state : string) (max_path_depth : nat) :
    result causal_error InterventionResult :=
  match get_node g x with
  | None => raise (KeyError x)
  | Some _ =>
      let m := mutilate g x in
      let impacted_in_mutilated := impacted_by m x in
      let direct := direct_children m x in
      let '(matrix, scores, truncated) :=
        foldl (score_target g m x max_path_depth) (∅, [], [])
              (sorted_by str_leb (set_iter impacted_in_mutilated)) in
      Ok (MkResult x state
            (sort_impacts (filter (λ s, is_node_id s ∈ direct) scores))
            (sort_impacts (filter (λ s, is_node_id s ∉ direct) scores))
            (_find_confounding_paths g x impacted_in_mutilated max_path_depth)
            matrix
            (sorted_by str_leb (set_iter (list_to_set truncated))))
  end.
End engine.
