(* ===== verification/CausalFacts.v ===== *)
(** * CausalFacts: the traversals of [Causal] compute reachability and paths *)
From S2P Require Import Prelude PyFloat PyText Causal.

(** ** Breadth-first search *)
Section bfs_facts.
Context (succs : string → list string) (U : gset string).
Hypothesis succs_in_U : ∀ x y, y ∈ succs x → y ∈ U.

Definition edge_rel (x y : string) : Prop := y ∈ succs x.

Lemma bfs_visit_all s l :
  let s' := foldl bfs_visit s l in
  visited s' = visited s ∪ list_to_set l ∧
  found s' = found s ∪ (list_to_set l ∖ visited s) ∧
  (∃ new, queue s' = queue s ++ new ∧ list_to_set (C:=gset string) new = list_to_set l ∖ visited s) ∧
  (∀ W : gset string, (∀ x, x ∈ l → x ∈ W) →
     length (queue s') + size (W ∖ visited s') ≤ length (queue s) + size (W ∖ visited s)).
Proof.
  revert s; induction l as [|x l IH]; intros s; simpl.
  - split_and!; [set_solver|set_solver|exists []; rewrite app_nil_r; set_solver|done].
  - specialize (IH (bfs_visit s x)). simpl in IH.
    destruct IH as (Hv & Hf & (new & Hq & Hnew) & Hm).
    rewrite Hv, Hf, Hq. unfold bfs_visit in *. destruct (decide (x ∈ visited s)) as [Hx|Hx]; simpl in *.
    + split_and!; [set_solver|set_solver|exists new; set_solver|].
      intros W HW. rewrite Hq, Hv in Hm. apply Hm. set_solver.
    + split_and!; [set_solver| |exists (x :: new); rewrite <- app_assoc; simpl; split; [done|] |].
      * apply set_eq; intros y. destruct (decide (y = x)); set_solver.
      * rewrite Hnew. apply set_eq; intros y. destruct (decide (y = x)); set_solver.
      * intros W HW. rewrite Hq, Hv in Hm. specialize (Hm W ltac:(set_solver)).
        etrans; [exact Hm|]. rewrite length_app; simpl.
        assert (W ∖ visited s = {[x]} ∪ W ∖ ({[x]} ∪ visited s)) as ->.
        { apply set_eq; intros y. destruct (decide (y = x)); set_solver. }
        rewrite (size_union {[x]}) by set_solver. rewrite size_singleton. lia.
Qed.

Record bfs_inv (start : string) (s : bfs_state) : Prop := {
  inv_start : start ∈ visited s;
  inv_found : found s = visited s ∖ {[start]};
  inv_bound : visited s ⊆ {[start]} ∪ U;
  inv_reach : ∀ y, y ∈ visited s → rtc edge_rel start y;
  inv_queue : ∀ y, y ∈ queue s → y ∈ visited s;
  inv_closed : ∀ x y, x ∈ visited s → x ∉ queue s → y ∈ succs x → y ∈ visited s
}.

Lemma bfs_body_step start s :
  bfs_inv start s →
  match bfs_body succs s with
  | inl s' => bfs_inv start s' ∧
      length (queue s') + size (({[start]} ∪ U) ∖ visited s') <
      length (queue s) + size (({[start]} ∪ U) ∖ visited s)
  | inr r => ∀ y, y ∈ r ↔ y ≠ start ∧ rtc edge_rel start y
  end.
Proof.
  intros I. unfold bfs_body. destruct (queue s) as [|c rest] eqn:Eq.
  - assert (∀ y, rtc edge_rel start y → y ∈ visited s) as Hcl.
    { apply rtc_ind_r; [apply I|]. intros y z _ Hyz Hy.
      eapply inv_closed; eauto. rewrite Eq. apply not_elem_of_nil. }
    intros y. rewrite (inv_found _ _ I). pose proof (inv_reach _ _ I y). set_solver.
  - pose proof (bfs_visit_all (Bfs rest (visited s) (found s)) (succs c)) as H.
    simpl in H. destruct H as (Hv & Hf & (new & Hq & Hnew) & Hm).
    assert (c ∈ visited s) as Hc by (eapply inv_queue; eauto; rewrite Eq; left).
    split; [constructor|].
    + rewrite Hv. apply elem_of_union_l, I.
    + rewrite Hv, Hf, (inv_found _ _ I). pose proof (inv_start _ _ I).
      clear -H. apply set_eq; intros y.
      rewrite !elem_of_union, !elem_of_difference, !elem_of_union, elem_of_singleton.
      destruct (decide (y ∈ visited s)); naive_solver.
    + rewrite Hv. apply union_subseteq. split; [apply I|].
      intros y Hy%elem_of_list_to_set. apply elem_of_union_r. eauto.
    + intros y. rewrite Hv. intros [Hy|Hy]%elem_of_union; [by eapply inv_reach|].
      apply elem_of_list_to_set in Hy. eapply rtc_r; [eapply inv_reach; eauto|done].
    + intros y. rewrite Hq, Hv, elem_of_app. intros [Hy|Hy].
      * apply elem_of_union_l. eapply inv_queue; eauto. rewrite Eq. by right.
      * apply (elem_of_list_to_set (C:=gset string)) in Hy. rewrite Hnew in Hy.
        apply elem_of_union_r. by apply elem_of_difference in Hy as [? _].
    + intros x y. rewrite Hq, Hv. intros Hx Hnq Hy. rewrite elem_of_app in Hnq.
      destruct (decide (x = c)) as [->|Hne].
      * apply elem_of_union_r. by apply (elem_of_list_to_set (C:=gset string)).
      * destruct (decide (x ∈ visited s)) as [Hxv|Hxv].
        -- apply elem_of_union_l. eapply inv_closed; eauto. rewrite Eq, elem_of_cons. naive_solver.
        -- exfalso. apply Hnq. right. apply (elem_of_list_to_set (C:=gset string)).
           rewrite Hnew. apply elem_of_union in Hx. apply elem_of_difference. naive_solver.
    + pose proof (Hm ({[start]} ∪ U) ltac:(intros x Hx; apply elem_of_union_r; eauto)) as Hle.
      simpl in Hle |- *. lia.
Qed.

Lemma bfs_spec start y : y ∈ bfs succs U start ↔ y ≠ start ∧ rtc edge_rel start y.
Proof.
  revert y. unfold bfs.
  eapply (while_spec _ _ _ _ (bfs_inv start)
            (λ r, ∀ y, y ∈ r ↔ y ≠ start ∧ rtc edge_rel start y)); [apply bfs_body_step|..].
  - constructor; simpl; [set_solver|set_solver|set_solver| | |].
    + intros y ->%elem_of_singleton. done.
    + intros y ->%list_elem_of_singleton. set_solver.
    + intros x y ->%elem_of_singleton []. by left.
  - simpl. etrans; [|apply fuel_for_enough].
    assert (size (({[start]} ∪ U) ∖ {[start]}) ≤ size U); [|lia].
    apply subseteq_size. set_solver.
Qed.
End bfs_facts.

(** ** Depth-first path enumeration *)
Section path_facts.
Context (expand : string → list (CausalEdge * string)).
Context (target : string) (max_depth width : nat).
Hypothesis expand_width : ∀ x, length (expand x) ≤ width.

(** [follows x p ns z]: the edges [p] lead from [x] through the nodes [ns]
    to [z], the last of [ns] when there is one. *)
Inductive follows : string → list CausalEdge → list string → string → Prop :=
  | follows_nil x : follows x [] [] x
  | follows_cons x e y p ns z :
      (e, y) ∈ expand x → follows y p ns z → follows x (e :: p) (y :: ns) z.

Lemma follows_length x p ns z : follows x p ns z → length ns = length p.
Proof. induction 1; simpl; congruence. Qed.

Lemma follows_end x e p ns z : follows x (e :: p) ns z → z ∈ ns.
Proof.
  remember (e :: p) as q eqn:Hq. intros H; revert e p Hq.
  induction H as [|x e' y p' ns z Hs Hf IH]; intros e p Hq; simplify_eq.
  destruct p as [|e2 p2]; [inversion Hf; subst; left|right; eauto].
Qed.

(** A path without a repeated node, no longer than [max_depth]. *)
Definition simple_path (source : string) (p : list CausalEdge) : Prop :=
  ∃ ns, follows source p ns target ∧ NoDup (source :: ns) ∧ length p ≤ max_depth.

(** The paths that a stack item stands for. *)
Definition completes (it : path_item) (p : list CausalEdge) : Prop :=
  ∃ q ns, follows (current it) q ns target ∧ p = path_edges it ++ q ∧ NoDup ns ∧
    (∀ n, n ∈ ns → n ∉ path_nodes it) ∧ length p ≤ max_depth.

Definition child (it : path_item) (s : CausalEdge * string) : path_item :=
  PathItem s.2 (path_edges it ++ [s.1]) (path_nodes it ∪ {[s.2]}).

Lemma completes_at_target it p :
  current it = target → target ∈ path_nodes it → length (path_edges it) ≤ max_depth →
  completes it p ↔ p = path_edges it.
Proof.
  intros Hc Ht Hl. split.
  - intros (q & ns & Hf & -> & Hnd & Hav & Hlen). destruct q as [|e q]; [by rewrite app_nil_r|].
    apply follows_end in Hf. by destruct (Hav _ Hf).
  - intros ->. exists [], []. rewrite app_nil_r, Hc.
    split_and!; try done; [constructor|by apply NoDup_nil|by intros n ?%elem_of_nil].
Qed.

Lemma completes_expand it p :
  current it ≠ target → length (path_edges it) < max_depth →
  completes it p ↔ (∃ s, s ∈ expand (current it) ∧ (s.2 ∉ path_nodes it) ∧ completes (child it s) p).
Proof.
  intros Hc Hl. split.
  - intros (q & ns & Hf & -> & Hnd & Hav & Hlen). inversion Hf as [|x e y q' ns' z Hs Hf']; simplify_eq.
    exists (e, y); split_and!; [done|apply Hav; left|]. apply NoDup_cons in Hnd as [Hy Hnd].
    exists q', ns'; simpl. split_and!; [done|by rewrite <- app_assoc|done| |done].
    intros n Hn. rewrite not_elem_of_union, not_elem_of_singleton.
    split; [apply Hav; by right|by intros ->].
  - intros ([e y] & Hs & Hy & q & ns & Hf & -> & Hnd & Hav & Hlen); simpl in *.
    exists (e :: q), (y :: ns). rewrite <- app_assoc in *. simpl in *.
    split_and!; [by econstructor|done| | |done].
    + apply NoDup_cons. split; [|done]. intros Hin. specialize (Hav _ Hin). set_solver.
    + intros n [->|Hn]%elem_of_cons; [done|]. specialize (Hav _ Hn). set_solver.
Qed.

Lemma completes_too_long it p :
  current it ≠ target → max_depth ≤ length (path_edges it) → ¬ completes it p.
Proof.
  intros Hc Hl (q & ns & Hf & -> & Hnd & Hav & Hlen). rewrite length_app in Hlen.
  destruct q as [|e q]; simpl in Hlen; [|lia]. inversion Hf; simplify_eq.
Qed.

Definition weight (it : path_item) : nat := (2 + width) ^ (S max_depth - length (path_edges it)).
Definition stack_weight (stack : list path_item) : nat := sum_list_with weight stack.

Lemma push_steps it l stack :
  let stack' := foldl (push_step it) stack l in
  (∀ it', it' ∈ stack' ↔ it' ∈ stack ∨ (∃ s, s ∈ l ∧ (s.2 ∉ path_nodes it) ∧ it' = child it s)) ∧
  stack_weight stack' ≤
    stack_weight stack + length l * (2 + width) ^ (max_depth - length (path_edges it)).
Proof.
  revert stack; induction l as [|s l IH]; intros stack; cbn [foldl length].
  - split; [|lia]. intros it'. split; [by left|]. by intros [?|(s & ?%elem_of_nil & _)].
  - specialize (IH (push_step it stack s)). destruct IH as [IH1 IH2]. unfold push_step in *.
    destruct (decide (s.2 ∈ path_nodes it)) as [Hs|Hs].
    + split; [|lia]. intros it'. rewrite IH1. setoid_rewrite elem_of_cons. naive_solver.
    + split.
      * intros it'. rewrite IH1. setoid_rewrite elem_of_cons. naive_solver.
      * etrans; [exact IH2|]. unfold stack_weight; simpl. unfold weight at 1; simpl.
        rewrite length_app; simpl. replace (S max_depth - (length (path_edges it) + 1))
          with (max_depth - length (path_edges it)) by lia. lia.
Qed.

Definition paths_inv (source : string) (st : list path_item * list (list CausalEdge)) : Prop :=
  (∀ p, simple_path source p ↔ p ∈ st.2 ∨ (∃ it, it ∈ st.1 ∧ completes it p)) ∧
  ∀ it, it ∈ st.1 → current it ∈ path_nodes it ∧ length (path_edges it) ≤ max_depth.

Lemma paths_body_step source st :
  paths_inv source st →
  match paths_body expand target max_depth st with
  | inl st' => paths_inv source st' ∧ stack_weight st'.1 < stack_weight st.1
  | inr r => ∀ p, p ∈ r ↔ simple_path source p
  end.
Proof.
  destruct st as [[|it stack] results]; intros [Hsp Hok]; unfold paths_body; simpl in *.
  { intros p. rewrite Hsp. split; [by left|]. by intros [?|(it & ?%elem_of_nil & _)]. }
  destruct (Hok it (list_elem_of_here _ _)) as [Hcur Hlen].
  assert (0 < weight it) by (apply Nat.neq_0_lt_0, Nat.pow_nonzero; lia).
  assert (∀ it', it' ∈ stack → current it' ∈ path_nodes it' ∧ length (path_edges it') ≤ max_depth)
    as Hok' by (intros ? ?; apply Hok; by right).
  destruct (decide (current it = target)) as [Ht|Ht]; simpl.
  { split; [split; [|done]|lia]. intros p; simpl. rewrite Hsp, elem_of_app, list_elem_of_singleton.
    setoid_rewrite elem_of_cons. rewrite <- (completes_at_target it p) by congruence. naive_solver. }
  destruct (decide (max_depth ≤ length (path_edges it))) as [Hd|Hd]; simpl.
  { split; [split; [|done]|lia]. intros p. rewrite Hsp; simpl. setoid_rewrite elem_of_cons.
    pose proof (completes_too_long it p Ht Hd). naive_solver. }
  destruct (push_steps it (expand (current it)) stack) as [Hin Hw].
  split; [split|].
  - intros p. rewrite Hsp; simpl. setoid_rewrite elem_of_cons. setoid_rewrite Hin.
    pose proof (completes_expand it p Ht ltac:(lia)). naive_solver.
  - intros it' [Hit|(s & Hs & Hn & ->)]%Hin; [by apply Hok'|]. simpl.
    rewrite length_app; simpl. split; [set_solver|lia].
  - eapply Nat.le_lt_trans; [exact Hw|]. pose proof (expand_width (current it)). unfold weight.
    replace (S max_depth - length (path_edges it)) with (S (max_depth - length (path_edges it))) by lia.
    rewrite Nat.pow_succ_r'. set (b := (2 + width) ^ _).
    assert (0 < b) by (apply Nat.neq_0_lt_0, Nat.pow_nonzero; lia). nia.
Qed.

Lemma all_paths_spec source p :
  source ≠ target →
  p ∈ all_paths expand target max_depth width source ↔ simple_path source p.
Proof.
  intros Hne. unfold all_paths. destruct (decide (source = target)) as [|_]; [done|]. revert p.
  eapply (while_spec _ _ _ _ (paths_inv source) (λ r, ∀ p, p ∈ r ↔ simple_path source p)
            (λ st, stack_weight st.1)); [apply paths_body_step|..].
  - split; simpl.
    + intros p. unfold simple_path, completes. setoid_rewrite list_elem_of_singleton.
      split.
      * intros (ns & Hf & Hnd & Hl). right. eexists; split; [done|]. simpl.
        apply NoDup_cons in Hnd as [Hs Hnd]. exists p, ns. split_and!; try done.
        intros n Hn. rewrite not_elem_of_singleton. by intros ->.
      * intros [[]%elem_of_nil|(it & -> & q & ns & Hf & -> & Hnd & Hav & Hl)]; simpl in *.
        exists ns. split_and!; [done| |done]. apply NoDup_cons. split; [|done].
        intros Hs. specialize (Hav _ Hs). set_solver.
    + intros it ->%list_elem_of_singleton; simpl. split; [set_solver|lia].
  - simpl. unfold stack_weight; simpl. unfold weight; simpl.
    pose proof (fuel_for_pow (2 + width) (S max_depth)) as Hf.
    assert (0 < (2 + width) ^ S max_depth) by (apply Nat.neq_0_lt_0, Nat.pow_nonzero; lia).
    simpl in *. lia.
Qed.
End path_facts.

(** ** Failure propagation *)

(** [propagates g x y]: one step of failure, read off the edge types. *)
Definition propagates (g : CausalGraph) (x y : string) : Prop :=
  (∃ e, e ∈ outgoing_edges g x ∧ is_forward e = true ∧ target_node_id e = y) ∨
  (∃ e, e ∈ incoming_edges g x ∧ is_reverse e = true ∧ source_node_id e = y).

Lemma elem_of_causal_steps g x e y :
  (e, y) ∈ causal_steps g x ↔
    (e ∈ outgoing_edges g x ∧ is_forward e = true ∧ target_node_id e = y) ∨
    (e ∈ incoming_edges g x ∧ is_reverse e = true ∧ source_node_id e = y).
Proof.
  unfold causal_steps. rewrite elem_of_app, !list_elem_of_fmap.
  setoid_rewrite list_elem_of_In. setoid_rewrite filter_In. setoid_rewrite <- list_elem_of_In.
  setoid_rewrite elem_of_sorted_by. naive_solver.
Qed.

Lemma causal_steps_propagates g x y : y ∈ (causal_steps g x).*2 ↔ propagates g x y.
Proof.
  rewrite list_elem_of_fmap. unfold propagates. split.
  - intros ([e y'] & -> & H%elem_of_causal_steps); simpl. naive_solver.
  - intros H. destruct H as [(e & H)|(e & H)]; exists (e, y);
      rewrite elem_of_causal_steps; auto.
Qed.

Lemma elem_of_edges_of m e : e ∈ edges_of m ↔ ∃ k l, m !! k = Some l ∧ e ∈ l.
Proof.
  unfold edges_of. rewrite list_elem_of_In, in_concat. setoid_rewrite <- list_elem_of_In.
  setoid_rewrite list_elem_of_fmap. split.
  - intros (l & ([k l'] & -> & Hk%elem_of_map_to_list) & He). eauto.
  - intros (k & l & Hk & He). exists l. split; [|done]. exists (k, l).
    by rewrite elem_of_map_to_list.
Qed.

Lemma outgoing_in_edges g n e : e ∈ outgoing_edges g n → e ∈ edges_of (_outgoing g).
Proof. intros (l & ? & ?)%elem_of_default_lookup. apply elem_of_edges_of. eauto. Qed.

Lemma incoming_in_edges g n e : e ∈ incoming_edges g n → e ∈ edges_of (_incoming g).
Proof. intros (l & ? & ?)%elem_of_default_lookup. apply elem_of_edges_of. eauto. Qed.

Lemma edge_endpoints g e :
  e ∈ edges_of (_outgoing g) ∨ e ∈ edges_of (_incoming g) →
  source_node_id e ∈ endpoints g ∧ target_node_id e ∈ endpoints g.
Proof.
  intros He. unfold endpoints.
  rewrite !elem_of_list_to_set, !elem_of_app, !list_elem_of_fmap. setoid_rewrite elem_of_app.
  naive_solver.
Qed.

Lemma propagates_endpoint g x y : propagates g x y → y ∈ endpoints g.
Proof.
  intros [(e & He & _ & <-)|(e & He & _ & <-)];
    eapply edge_endpoints; eauto using outgoing_in_edges, incoming_in_edges.
Qed.

Lemma impacted_by_rtc g x y :
  y ∈ impacted_by g x ↔ y ≠ x ∧ rtc (propagates g) x y.
Proof.
  unfold impacted_by. rewrite bfs_spec.
  - assert (∀ a b, edge_rel (λ n, (causal_steps g n).*2) a b ↔ propagates g a b) as Heq
      by (intros a b; apply causal_steps_propagates).
    split; intros [Hne Hr]; (split; [done|]); (eapply rtc_subrel; [|exact Hr]);
      intros a b Hab; by apply Heq.
  - intros a b Hab. apply causal_steps_propagates in Hab. by eapply propagates_endpoint.
Qed.

Lemma width_bound (m : gmap string (list CausalEdge)) n :
  length (default [] (m !! n)) ≤ max_width m.
Proof.
  destruct (m !! n) as [l|] eqn:E; simpl; [|lia].
  unfold max_width. apply max_list_elem_of_le, list_elem_of_fmap. exists l. split; [done|].
  apply list_elem_of_fmap. exists (n, l). by rewrite elem_of_map_to_list.
Qed.

Lemma length_filter_le {A} (f : A → bool) l : length (List.filter f l) ≤ length l.
Proof. induction l as [|x l IH]; simpl; [lia|]. destruct (f x); simpl; lia. Qed.

Lemma causal_steps_width g n : length (causal_steps g n) ≤ graph_width g.
Proof.
  unfold causal_steps, graph_width. rewrite length_app, !length_fmap.
  pose proof (length_filter_le is_forward (sorted_by by_target (outgoing_edges g n))) as H1.
  pose proof (length_filter_le is_reverse (sorted_by by_source (incoming_edges g n))) as H2.
  rewrite length_sorted_by in H1, H2.
  pose proof (width_bound (_outgoing g) n). pose proof (width_bound (_incoming g) n).
  unfold outgoing_edges, incoming_edges in *. lia.
Qed.

Lemma topology_steps_width g n : length (topology_steps g n) ≤ graph_width g.
Proof.
  unfold topology_steps, graph_width. rewrite length_fmap, length_sorted_by.
  pose proof (width_bound (_outgoing g) n). unfold outgoing_edges. lia.
Qed.

Lemma elem_of_causal_paths g s t d p :
  s ≠ t →
  p ∈ find_all_causal_paths g s t d ↔ simple_path (causal_steps g) t d s p.
Proof.
  intros Hne. unfold find_all_causal_paths. rewrite elem_of_sorted_by.
  apply all_paths_spec; [apply causal_steps_width|done].
Qed.

(** ** From walks to simple paths *)
Section walks.
Context (expand : string → list (CausalEdge * string)).

Lemma follows_suffix a p ns z b :
  follows expand a p ns z → b ∈ ns →
  ∃ p2 ns2, follows expand b p2 ns2 z ∧ length p2 < length p ∧
    (∃ pre, ns = pre ++ b :: ns2).
Proof.
  induction 1 as [|x e y p ns z Hs Hf IH]; intros Hb; [by apply elem_of_nil in Hb|].
  apply elem_of_cons in Hb as [->|Hb].
  - exists p, ns. split_and!; [done|simpl; lia|by exists []].
  - destruct (IH Hb) as (p2 & ns2 & Hf2 & Hl & pre & ->).
    exists p2, ns2. split_and!; [done|simpl; lia|by exists (y :: pre)].
Qed.

Lemma follows_simple a p ns z :
  follows expand a p ns z →
  ∃ p' ns', follows expand a p' ns' z ∧ NoDup (a :: ns') ∧ length p' ≤ length p.
Proof.
  induction 1 as [x|x e y p ns z Hs Hf IH].
  - exists [], []. split_and!; [constructor|apply NoDup_singleton|done].
  - destruct IH as (p' & ns' & Hf' & Hnd & Hl).
    destruct (decide (x ∈ y :: ns')) as [Hx|Hx].
    + assert (follows expand x (e :: p') (y :: ns') z) as Hf2 by by econstructor.
      destruct (follows_suffix _ _ _ _ _ Hf2 Hx) as (p2 & ns2 & Hf3 & Hl2 & pre & Hpre).
      exists p2, ns2. split_and!; [done| |simpl in *; lia].
      rewrite Hpre in Hnd. by apply NoDup_app in Hnd as (_ & _ & ?).
    + exists (e :: p'), (y :: ns'). split_and!; [by econstructor|by apply NoDup_cons|simpl; lia].
Qed.

Lemma follows_nsteps a p ns z :
  follows expand a p ns z → nsteps (λ x y, y ∈ (expand x).*2) (length p) a z.
Proof.
  induction 1 as [|x e y p ns z Hs Hf IH]; simpl; [constructor|econstructor; [|done]].
  apply list_elem_of_fmap. by exists (e, y).
Qed.

Lemma nsteps_follows n a z :
  nsteps (λ x y, y ∈ (expand x).*2) n a z → ∃ p ns, follows expand a p ns z ∧ length p = n.
Proof.
  induction 1 as [x|n x y z Hxy _ (p & ns & Hf & <-)].
  - exists [], []. split; [constructor|done].
  - apply list_elem_of_fmap in Hxy as ([e y'] & -> & He).
    exists (e :: p), (y' :: ns). split; [by econstructor|done].
Qed.
End walks.

(** ** Well-formed graphs

    Edges are filed under their endpoints, the two adjacency maps mirror each
    other, and every endpoint is a registered node. *)
Record wf_graph (g : CausalGraph) : Prop := {
  wf_out n e : e ∈ outgoing_edges g n → source_node_id e = n;
  wf_inc n e : e ∈ incoming_edges g n → target_node_id e = n;
  wf_mirror e : e ∈ outgoing_edges g (source_node_id e) ↔ e ∈ incoming_edges g (target_node_id e);
  wf_nodes n e : e ∈ outgoing_edges g n → source_node_id e ∈ node_ids g ∧ target_node_id e ∈ node_ids g
}.

Lemma elem_of_dd_append k e' m n e :
  e ∈ default [] (dd_append k e' m !! n) ↔ (n = k ∧ e = e') ∨ e ∈ default [] (m !! n).
Proof.
  unfold dd_append. rewrite lookup_insert. case_decide as Hk; simpl.
  - subst. rewrite elem_of_app, list_elem_of_singleton. naive_solver.
  - naive_solver.
Qed.

Lemma add_edges_out es adj n e :
  e ∈ default [] ((foldl add_edge adj es).1 !! n) ↔
  (e ∈ es ∧ source_node_id e = n) ∨ e ∈ default [] (adj.1 !! n).
Proof.
  revert adj; induction es as [|e' es IH]; intros adj; simpl; [set_solver by eauto|].
  rewrite IH; simpl. rewrite elem_of_dd_append, elem_of_cons. naive_solver.
Qed.

Lemma add_edges_inc es adj n e :
  e ∈ default [] ((foldl add_edge adj es).2 !! n) ↔
  (e ∈ es ∧ target_node_id e = n) ∨ e ∈ default [] (adj.2 !! n).
Proof.
  revert adj; induction es as [|e' es IH]; intros adj; simpl; [set_solver by eauto|].
  rewrite IH; simpl. rewrite elem_of_dd_append, elem_of_cons. naive_solver.
Qed.

Lemma row_types_dom rows st n :
  let st' := foldl row_types st rows in
  (is_Some (st'.1 !! n) ↔ is_Some (st.1 !! n) ∨ ∃ r, r ∈ rows ∧ row_source r = n) ∧
  (is_Some (st.2 !! n) → is_Some (st'.2 !! n)) ∧
  (∀ r, r ∈ rows → row_target r = n → is_Some (st'.1 !! n) ∨ is_Some (st'.2 !! n)).
Proof.
  revert st; induction rows as [|r rows IH]; intros st; simpl.
  { split_and!; [|done|by intros r ?%elem_of_nil].
    split; [by left|by intros [?|(r & ?%elem_of_nil & _)]]. }
  destruct (IH (row_types st r)) as (IH1 & IH2 & IH3). unfold row_types in *; simpl in *.
  split_and!.
  - rewrite IH1, lookup_insert. destruct (decide (row_source r = n)) as [Hk|Hk]; split.
    + intros _. right. exists r. split; [left|done].
    + intros _. left. by eexists.
    + intros [?|(r' & ? & ?)]; [by left|]. right. exists r'. split; [by right|done].
    + intros [?|(r' & [->|?]%elem_of_cons & ?)]; [by left|done|]. right. eauto.
  - intros Hs. apply IH2. case_decide; [done|]. rewrite lookup_insert. case_decide; [by eexists|done].
  - intros r' [->|Hr]%elem_of_cons Hn; [|by eapply IH3].
    case_decide as Hd.
    + left. apply IH1. left. by subst.
    + right. apply IH2. subst. rewrite lookup_insert_eq. by eexists.
Qed.

Section from_rows.
Context (rows : list topology_row) (ns : string).
Let g := from_rows rows ns.

Lemma from_rows_edges n e :
  (e ∈ outgoing_edges g n ↔ (∃ r, r ∈ rows ∧ e = row_edge r) ∧ source_node_id e = n) ∧
  (e ∈ incoming_edges g n ↔ (∃ r, r ∈ rows ∧ e = row_edge r) ∧ target_node_id e = n).
Proof.
  unfold g, from_rows, outgoing_edges, incoming_edges.
  pose proof (add_edges_out (row_edge <$> rows) (∅, ∅) n e) as H1.
  pose proof (add_edges_inc (row_edge <$> rows) (∅, ∅) n e) as H2.
  destruct (foldl row_types (∅, ∅) rows) as [st tt].
  destruct (foldl add_edge (∅, ∅) (row_edge <$> rows)) as [out inc]; simpl in *.
  rewrite H1, H2. rewrite lookup_empty; simpl. rewrite list_elem_of_fmap, elem_of_nil.
  split; naive_solver.
Qed.

Lemma from_rows_node n :
  n ∈ node_ids g ↔
    is_Some ((foldl row_types (∅, ∅) rows).1 !! n) ∨ is_Some ((foldl row_types (∅, ∅) rows).2 !! n).
Proof.
  unfold g, from_rows, node_ids.
  destruct (foldl row_types (∅, ∅) rows) as [st tt]; simpl.
  destruct (foldl add_edge (∅, ∅) (row_edge <$> rows)) as [out inc]; simpl.
  rewrite elem_of_dom, map_lookup_imap, lookup_union.
  destruct (st !! n), (tt !! n); simpl; split; intros Hs; try (by eexists); try naive_solver.
  all: by destruct Hs.
Qed.
End from_rows.
