(* ===== verification/CausalProps.v ===== *)
(** * CausalProps: what the do-calculus engine guarantees *)
From S2P Require Import Prelude PyFloat PyText Causal CausalFacts.

(** ** Graphs built from rows *)

Lemma from_rows_wf rows ns : wf_graph (from_rows rows ns).
Proof.
  constructor.
  - intros n e [_ H]%(proj1 (from_rows_edges rows ns n e)). done.
  - intros n e [_ H]%(proj2 (from_rows_edges rows ns n e)). done.
  - intros e. rewrite (proj1 (from_rows_edges rows ns (source_node_id e) e)),
      (proj2 (from_rows_edges rows ns (target_node_id e) e)). naive_solver.
  - intros n e [(r & Hr & ->) _]%(proj1 (from_rows_edges rows ns n e)). simpl.
    rewrite !from_rows_node. split.
    + left. destruct (row_types_dom rows (∅, ∅) (row_source r)) as (-> & _). right. eauto.
    + destruct (row_types_dom rows (∅, ∅) (row_target r)) as (_ & _ & H). eauto.
Qed.

(** ** The do-operator *)
Section mutilate_facts.
Context `{PyIter}.

Lemma mutilate_edges_fold src x es adj n e :
  let adj' := foldl (mutilate_edge src x) adj es in
  (e ∈ default [] (adj'.1 !! n) ↔
     (e ∈ es ∧ severed x e = false ∧ n = src) ∨ e ∈ default [] (adj.1 !! n)) ∧
  (e ∈ default [] (adj'.2 !! n) ↔
     (e ∈ es ∧ severed x e = false ∧ n = target_node_id e) ∨ e ∈ default [] (adj.2 !! n)).
Proof.
  revert adj; induction es as [|e' es IH]; intros adj; simpl.
  - setoid_rewrite elem_of_nil. naive_solver.
  - destruct (IH (mutilate_edge src x adj e')) as [-> ->]. unfold mutilate_edge.
    setoid_rewrite elem_of_cons.
    destruct (severed x e') eqn:E; simpl; rewrite ?elem_of_dd_append; split; by_cases_mem.
Qed.

Lemma mutilate_fold x items adj n e :
  let adj' := foldl (λ adj '(src, edges), foldl (mutilate_edge src x) adj edges) adj items in
  (e ∈ default [] (adj'.1 !! n) ↔
     (∃ es, (n, es) ∈ items ∧ e ∈ es ∧ severed x e = false) ∨ e ∈ default [] (adj.1 !! n)) ∧
  (e ∈ default [] (adj'.2 !! n) ↔
     (∃ src es, (src, es) ∈ items ∧ e ∈ es ∧ severed x e = false ∧ n = target_node_id e) ∨
     e ∈ default [] (adj.2 !! n)).
Proof.
  revert adj; induction items as [|[src es] items IH]; intros adj; simpl.
  - setoid_rewrite elem_of_nil. naive_solver.
  - destruct (IH (foldl (mutilate_edge src x) adj es)) as [-> ->].
    destruct (mutilate_edges_fold src x es adj n e) as [-> ->].
    setoid_rewrite elem_of_cons. split; by_cases_mem.
Qed.

Lemma mutilate_edges g x n e :
  (e ∈ outgoing_edges (mutilate g x) n ↔ e ∈ outgoing_edges g n ∧ severed x e = false) ∧
  (e ∈ incoming_edges (mutilate g x) n ↔
     (∃ src, e ∈ outgoing_edges g src) ∧ severed x e = false ∧ n = target_node_id e).
Proof.
  unfold mutilate, outgoing_edges, incoming_edges.
  pose proof (mutilate_fold x (dict_iter (_outgoing g)) (∅, ∅) n e) as [H1 H2].
  destruct (foldl _ _ _) as [out inc]; simpl in *. rewrite H1, H2.
  rewrite lookup_empty; simpl. setoid_rewrite elem_of_nil.
  setoid_rewrite elem_of_dict_iter. setoid_rewrite elem_of_default_lookup.
  split; by_cases_mem.
Qed.

Lemma mutilate_wf g x : wf_graph g → wf_graph (mutilate g x).
Proof.
  intros W. constructor.
  - intros n e [? _]%(proj1 (mutilate_edges g x n e)). by eapply wf_out.
  - intros n e (_ & _ & ->)%(proj2 (mutilate_edges g x n e)). done.
  - intros e. rewrite (proj1 (mutilate_edges g x _ e)), (proj2 (mutilate_edges g x _ e)).
    split; [naive_solver|]. intros ([src Hs] & Hx & _). split; [|done].
    by rewrite (wf_out _ W _ _ Hs).
  - intros n e [? _]%(proj1 (mutilate_edges g x n e)).
    unfold mutilate, node_ids. destruct (foldl _ _ _) as [out inc]; simpl. by eapply (wf_nodes _ W).
Qed.

Lemma forward_not_reverse e : is_forward e = true → is_reverse e = false.
Proof.
  unfold is_forward, is_reverse. rewrite bool_decide_eq_true, bool_decide_eq_false.
  unfold _FORWARD_FAILURE_TYPES, _REVERSE_FAILURE_TYPES.
  rewrite !elem_of_union, !elem_of_singleton. intros [->| ->]; by intros [?|?].
Qed.

Lemma mutilate_propagates g x a b :
  wf_graph g → propagates (mutilate g x) a b ↔ propagates g a b ∧ b ≠ x.
Proof.
  intros W. unfold propagates, severed.
  setoid_rewrite (proj1 (mutilate_edges g x _ _)). setoid_rewrite (proj2 (mutilate_edges g x _ _)).
  unfold severed. split.
  - intros [(e & [He Hs] & Hf & <-)|(e & ([src He] & Hs & ->) & Hr & <-)].
    + rewrite Hf, (forward_not_reverse _ Hf) in Hs. simpl in Hs.
      rewrite orb_false_r, bool_decide_eq_false in Hs. split; [left; eauto|done].
    + assert (is_forward e = false) as Hf.
      { destruct (is_forward e) eqn:E; [|done]. by rewrite (forward_not_reverse _ E) in Hr. }
      rewrite Hf, Hr in Hs. simpl in Hs. rewrite bool_decide_eq_false in Hs. split; [|done].
      right. exists e. split_and!; [|done|done].
      apply (wf_mirror _ W). by rewrite (wf_out _ W _ _ He).
  - intros [[(e & He & Hf & <-)|(e & He & Hr & <-)] Hb].
    + left. exists e. split_and!; [done| |done|done].
      rewrite Hf, (forward_not_reverse _ Hf). simpl. by rewrite orb_false_r, bool_decide_eq_false.
    + right. exists e. assert (is_forward e = false) as Hf.
      { destruct (is_forward e) eqn:E; [|done]. by rewrite (forward_not_reverse _ E) in Hr. }
      rewrite Hf, Hr. simpl. rewrite bool_decide_eq_false.
      pose proof (wf_inc _ W _ _ He) as Ht. split_and!; try done.
      exists (source_node_id e). apply (wf_mirror _ W). by rewrite Ht.
Qed.

(** Walks of failure that start in [x] avoid [x] afterwards, or can be cut to. *)
Lemma mutilate_rtc g x y :
  wf_graph g → y ≠ x → rtc (propagates (mutilate g x)) x y ↔ rtc (propagates g) x y.
Proof.
  intros W Hne. split.
  - intros Hr. eapply rtc_subrel; [|exact Hr]. intros a b ?%mutilate_propagates; naive_solver.
  - intros Hr. revert y Hr Hne.
    refine (rtc_ind_r (λ y, y ≠ x → rtc (propagates (mutilate g x)) x y) _ _ _); [done|].
    intros y z Hxy Hyz IH Hne. destruct (decide (y = x)) as [->|Hy].
    + apply rtc_once, mutilate_propagates; auto.
    + eapply rtc_r; [by apply IH|]. by apply mutilate_propagates.
Qed.
End mutilate_facts.

Lemma pair_compare_antisym p q : pair_compare p q = CompOpp (pair_compare q p).
Proof.
  unfold pair_compare. rewrite (str_compare_antisym p.1), (str_compare_antisym p.2).
  destruct (str_compare q.1 p.1); simpl; auto.
Qed.

Lemma causal_paths_sorted g s t d :
  Sorted (λ p q, length p ≤ length q) (find_all_causal_paths g s t d).
Proof.
  unfold find_all_causal_paths.
  set (leb := path_leb _ _). set (l := all_paths _ _ _ _ _).
  assert (∀ p q, leb p q = true → length p ≤ length q) as Hle.
  { intros p q. unfold leb, path_leb, leb_of.
    destruct (Nat.compare_spec (length p) (length q)); simpl; intros; [lia|lia|done]. }
  assert (∀ p q, leb p q = true ∨ leb q p = true) as Htot.
  { intros p q. unfold leb, path_leb, leb_of. rewrite (Nat.compare_antisym (length q) (length p)).
    destruct (length q ?= length p); simpl; auto.
    rewrite list_compare_antisym by apply pair_compare_antisym.
    destruct (list_compare pair_compare _ _); simpl; auto. }
  pose proof (sorted_by_sorted leb l Htot) as Hs. clearbody l.
  induction Hs as [|p l' Hs IH Hhd]; constructor; [done|].
  destruct Hhd; constructor. by apply Hle.
Qed.

(** ** Distances *)

Lemma causal_nsteps g n x y :
  nsteps (λ a b, b ∈ (causal_steps g a).*2) n x y ↔ nsteps (propagates g) n x y.
Proof.
  split; induction 1; econstructor; eauto; by apply causal_steps_propagates.
Qed.

(** A walk contains a simple path that is no longer. *)
Lemma nsteps_causal_path g d x y n :
  x ≠ y → nsteps (propagates g) n x y → n ≤ d →
  ∃ p, p ∈ find_all_causal_paths g x y d ∧ length p ≤ n.
Proof.
  intros Hne Hn Hd. apply causal_nsteps, nsteps_follows in Hn as (p & ns & Hf & <-).
  apply follows_simple in Hf as (p' & ns' & Hf & Hnd & Hl).
  exists p'. split; [|done]. apply elem_of_causal_paths; [done|].
  exists ns'. split_and!; [done|done|lia].
Qed.

Lemma causal_path_nsteps g d x y p :
  x ≠ y → p ∈ find_all_causal_paths g x y d →
  length p ≤ d ∧ nsteps (propagates g) (length p) x y.
Proof.
  intros Hne (ns & Hf & _ & Hl)%elem_of_causal_paths; [|done].
  split; [done|]. apply causal_nsteps. by eapply follows_nsteps.
Qed.

Lemma causal_paths_nonempty g d x y :
  x ≠ y →
  find_all_causal_paths g x y d ≠ [] ↔ ∃ n, n ≤ d ∧ nsteps (propagates g) n x y.
Proof.
  intros Hne. split.
  - intros Hp. destruct (find_all_causal_paths g x y d) as [|p ps] eqn:E; [done|].
    destruct (causal_path_nsteps g d x y p Hne) as [? ?]; [rewrite E; left|]. eauto.
  - intros (n & Hn & Hs) E. destruct (nsteps_causal_path g d x y n) as (p & Hp & _); try done.
    rewrite E in Hp. by apply elem_of_nil in Hp.
Qed.

Lemma min_length_spec l :
  l ≠ [] → (∃ p, p ∈ l ∧ length p = min_length l) ∧ ∀ p, p ∈ l → min_length l ≤ length p.
Proof.
  intros Hl. induction l as [|p [|q l'] IH]; [done| |].
  - split; [exists p; split; [left|done]|by intros p' ->%list_elem_of_singleton].
  - destruct IH as [(p' & Hp' & Heq) Hmin]; [done|].
    change (min_length (p :: q :: l')) with (Nat.min (length p) (min_length (q :: l'))). split.
    + destruct (Nat.min_spec (length p) (min_length (q :: l'))) as [[_ ->]|[_ ->]].
      * exists p. split; [left|done].
      * exists p'. split; [by right|done].
    + intros r [->|Hr]%elem_of_cons; [lia|]. specialize (Hmin r Hr). lia.
Qed.

Section mutilate_distance.
Context `{PyIter}.

Lemma mutilate_nsteps g x n y :
  wf_graph g → y ≠ x → nsteps (propagates g) n x y →
  ∃ n', n' ≤ n ∧ nsteps (propagates (mutilate g x)) n' x y.
Proof.
  intros W Hne Hn.
  apply causal_nsteps, nsteps_follows in Hn as (p & ns & Hf & <-).
  apply follows_simple in Hf as (p' & ns' & Hf & Hnd & Hl).
  exists (length p'). split; [done|]. apply NoDup_cons in Hnd as [Hx _].
  assert (∀ a, follows (causal_steps g) a p' ns' y →
               nsteps (propagates (mutilate g x)) (length p') a y) as Hw; [|by apply Hw].
  clear -W Hx. intros a Hf. induction Hf as [|a e b p ns z Hs Hf IH]; simpl; [constructor|].
  rewrite not_elem_of_cons in Hx. destruct Hx as [Hxb Hx].
  econstructor; [|by apply IH]. apply mutilate_propagates; [done|]. split; [|done].
  apply causal_steps_propagates, list_elem_of_fmap. by exists (e, b).
Qed.

Lemma mutilate_nsteps_back g x n y :
  wf_graph g → nsteps (propagates (mutilate g x)) n x y → nsteps (propagates g) n x y.
Proof.
  intros W. induction 1 as [|n a b c Hab _ IH]; econstructor; [|done].
  by apply mutilate_propagates in Hab as [? _].
Qed.
End mutilate_distance.

(** ** The engine's loop over the impacted nodes *)
Section evaluate_facts.
Context `{PyIter} (math_exp : float → float) (now : Z).

Definition target_paths (m : CausalGraph) (x : string) (d : nat) (y : string) :=
  find_all_causal_paths m x y d.

Definition target_prob (m : CausalGraph) (x : string) (d : nat) (y : string) : float :=
  _combine_path_probabilities (_path_confidence math_exp now <$> target_paths m x d y).

Lemma score_targets g m x d l acc :
  NoDup l →
  let acc' := foldl (score_target math_exp now g m x d) acc l in
  (∀ y, acc'.1.1 !! y =
     if decide (y ∈ l ∧ target_paths m x d y ≠ []) then Some (target_prob m x d y)
     else acc.1.1 !! y) ∧
  (∀ s, s ∈ acc'.1.2 → s ∈ acc.1.2 ∨
     (is_node_id s ∈ l ∧ target_paths m x d (is_node_id s) ≠ [] ∧
      impact_probability s = target_prob m x d (is_node_id s) ∧
      hop_distance s = min_length (target_paths m x d (is_node_id s)))) ∧
  (∀ y, y ∈ l → target_paths m x d y ≠ [] → ∃ s, s ∈ acc'.1.2 ∧ is_node_id s = y) ∧
  (∀ s, s ∈ acc.1.2 → s ∈ acc'.1.2) ∧
  (∀ y, y ∈ acc'.2 ↔ (y ∈ l ∧ target_paths m x d y = []) ∨ y ∈ acc.2).
Proof.
  revert acc; induction l as [|z l IH]; intros [[mat sc] tr] Hnd.
  { cbn [foldl fst snd]. split_and!; [|by left|by intros y ?%elem_of_nil|done|].
    - intros y. rewrite decide_False; [done|]. by intros [?%elem_of_nil _].
    - intros y. split; [by right|]. by intros [[?%elem_of_nil _]|?]. }
  apply NoDup_cons in Hnd as [Hz Hnd]. cbn [foldl].
  destruct (IH (score_target math_exp now g m x d (mat, sc, tr) z) Hnd) as (I1 & I2 & I3 & I4 & I5).
  unfold score_target in *. unfold target_prob, target_paths in *.
  destruct (find_all_causal_paths m x z d) as [|p ps] eqn:E; cbn [fst snd] in *.
  - split_and!.
    + intros y. rewrite I1. destruct (decide (y = z)) as [->|Hy].
      * rewrite !decide_False; naive_solver.
      * apply decide_ext. rewrite elem_of_cons. naive_solver.
    + intros s Hs. destruct (I2 s Hs) as [?|(? & ?)]; [by left|right]. split; [by right|done].
    + intros y [->|Hy]%elem_of_cons; [done|by apply I3].
    + done.
    + intros y. rewrite I5, elem_of_app, list_elem_of_singleton, elem_of_cons. by_cases_mem.
  - split_and!.
    + intros y. rewrite I1. destruct (decide (y = z)) as [->|Hy].
      * rewrite decide_False by naive_solver. rewrite decide_True by (rewrite E; split; [left|done]).
        by rewrite lookup_insert_eq, E.
      * rewrite lookup_insert_ne by done. apply decide_ext. rewrite elem_of_cons. naive_solver.
    + intros s Hs. destruct (I2 s Hs) as [[Hs'| ->%list_elem_of_singleton]%elem_of_app|(? & ?)].
      * by left.
      * right. simpl. rewrite E. split_and!; [left|done..].
      * right. split; [by right|done].
    + intros y [->|Hy]%elem_of_cons Hp; [|by apply I3]. eexists. split.
      * apply I4, elem_of_app. right. by left.
      * done.
    + intros s Hs. apply I4, elem_of_app. by left.
    + intros y. rewrite I5, elem_of_cons. by_cases_mem.
Qed.
End evaluate_facts.

(** ** Properties *)

(** [impacted_by] (a breadth-first search with a queue and a visited set)
    terminates and returns exactly the nodes, other than the failed one, that a
    chain of failure-propagation steps reaches. *)
Theorem impacted_by_reachability g failed y :
  y ∈ impacted_by g failed ↔ y ≠ failed ∧ rtc (propagates g) failed y.
Proof. apply impacted_by_rtc. Qed.

(** [find_all_causal_paths] terminates and returns exactly the
    failure-propagation paths from source to target that repeat no node and
    have at most [max_depth] edges, sorted by length. *)
Theorem find_all_causal_paths_exact g s t d :
  s ≠ t →
  (∀ p, p ∈ find_all_causal_paths g s t d ↔
     ∃ ns, follows (causal_steps g) s p ns t ∧ NoDup (s :: ns) ∧ length p ≤ d) ∧
  Sorted (λ p q, length p ≤ length q) (find_all_causal_paths g s t d).
Proof.
  intros Hne. split; [intros p; by apply elem_of_causal_paths|apply causal_paths_sorted].
Qed.

(** A small plant: the PDU feeds the switch, the server and the storage need
    the switch, the app runs on the server; the generator powers the PDU. *)
Definition demo_row (s t ty : string) : topology_row :=
  MkRow s "device" t "device" ty f1 (of_ratio 1 1000) None.
Definition demo_rows : list topology_row :=
  [demo_row "pdu" "switch" "connected_to"; demo_row "server" "switch" "depends_on";
   demo_row "storage" "switch" "powered_by"; demo_row "server" "app" "host_application";
   demo_row "app" "storage" "depends_on"; demo_row "pdu" "generator" "powered_by"].
Definition demo_graph : CausalGraph := from_rows demo_rows "ns".

Lemma find_all_causal_paths_exact_witness :
  "pdu" ≠ "app" ∧ length (find_all_causal_paths demo_graph "pdu" "app" 10) = 2 ∧
  Sorted (λ p q, length p ≤ length q) (find_all_causal_paths demo_graph "pdu" "app" 10).
Proof.
  split_and!; [done|vm_compute; reflexivity|].
  apply (find_all_causal_paths_exact demo_graph "pdu" "app" 10). done.
Defined.

(** The do-operator.  In a well-formed graph, [mutilate g x] has no failure
    step into [x], keeps every step into another node, and leaves the set of
    nodes that [x]'s failure impacts unchanged. *)
Theorem mutilate_do_operator `{PyIter} g x :
  wf_graph g →
  (∀ a, ¬ propagates (mutilate g x) a x) ∧
  (∀ a b, b ≠ x → propagates (mutilate g x) a b ↔ propagates g a b) ∧
  impacted_by (mutilate g x) x = impacted_by g x ∧
  wf_graph (mutilate g x).
Proof.
  intros W. split_and!.
  - intros a Ha. by apply mutilate_propagates in Ha as [_ ?].
  - intros a b Hb. rewrite mutilate_propagates by done. by_cases_mem.
  - apply set_eq; intros y. rewrite !impacted_by_rtc.
    split; intros [? ?]; (split; [done|]); by apply mutilate_rtc.
  - by apply mutilate_wf.
Qed.

Lemma mutilate_do_operator_witness :
  wf_graph demo_graph ∧
  impacted_by (@mutilate canonical_iter demo_graph "switch") "switch" =
  impacted_by demo_graph "switch".
Proof.
  split; [apply from_rows_wf|].
  apply (@mutilate_do_operator canonical_iter demo_graph "switch"), from_rows_wf.
Defined.

(** Every probability factor of an edge is a probability: the decayed
    confidence is at least the floor 0.001, and at most 1 unless the edge was
    never verified and stores a confidence above 1 (or NaN). *)
Theorem decayed_confidence_bounds math_exp now e :
  (is_Some (last_verified e) ∨ fleb (confidence_score e) f1 = true) →
  fleb _MIN_CONFIDENCE (decayed_confidence math_exp now e) = true ∧
  fleb (decayed_confidence math_exp now e) f1 = true.
Proof.
  intros He. unfold decayed_confidence. destruct (last_verified e) as [lv|].
  - by apply py_clamp.
  - destruct He as [[? [=]]|He]. unfold py_max.
    destruct (fltb _MIN_CONFIDENCE (confidence_score e)) eqn:E; auto using fltb_fleb.
Qed.

Lemma decayed_confidence_bounds_witness :
  let e := MkEdge "a" "b" "connected_to" (of_ratio 9 10) f0 (Some (Datetime 0 None)) in
  fleb _MIN_CONFIDENCE (decayed_confidence (λ _, S754_nan) 86400000000 e) = true ∧
  fleb (decayed_confidence (λ _, S754_nan) 86400000000 e) f1 = true.
Proof. apply decayed_confidence_bounds. left. simpl. eauto. Defined.

Lemma elem_of_filter_list {A} (P : A → Prop) `{∀ x, Decision (P x)} (l : list A) x :
  x ∈ filter P l ↔ P x ∧ x ∈ l.
Proof. apply list_elem_of_filter. Qed.

Lemma elem_of_direct_children g x y : y ∈ direct_children g x ↔ propagates g x y.
Proof.
  unfold direct_children, propagates.
  rewrite elem_of_list_to_set, elem_of_app, !list_elem_of_fmap.
  setoid_rewrite list_elem_of_In. setoid_rewrite filter_In. setoid_rewrite <- list_elem_of_In.
  by_cases_mem.
Qed.

(** C6: [DoCalculusEngine.evaluate] on a registered node always returns, and
    its result is sound and complete for failure propagation in the
    observational graph.  The probability matrix covers exactly the nodes
    reachable within [max_path_depth] steps; the truncated targets are exactly
    the nodes reachable only by longer chains; the scores are the matrix's
    entries, their hop distance is the length of a shortest chain, and a score is
    listed as direct exactly when one step reaches it. *)
Theorem evaluate_sound_complete `{PyIter} math_exp now g x state d :
  wf_graph g → is_Some (get_node g x) →
  ∃ r, evaluate math_exp now g x state d = Ok r ∧
    (∀ y, is_Some (probability_matrix r !! y) ↔
       y ≠ x ∧ ∃ n, n ≤ d ∧ nsteps (propagates g) n x y) ∧
    (∀ y, y ∈ truncated_targets r ↔
       y ≠ x ∧ rtc (propagates g) x y ∧ ¬ ∃ n, n ≤ d ∧ nsteps (propagates g) n x y) ∧
    (∀ y, is_Some (probability_matrix r !! y) →
       ∃ s, s ∈ directly_impacted r ++ transitively_impacted r ∧ is_node_id s = y) ∧
    (∀ s, s ∈ directly_impacted r ++ transitively_impacted r →
       probability_matrix r !! is_node_id s = Some (impact_probability s) ∧
       nsteps (propagates g) (hop_distance s) x (is_node_id s) ∧
       (∀ n, nsteps (propagates g) n x (is_node_id s) → hop_distance s ≤ n) ∧
       (s ∈ directly_impacted r ↔ propagates g x (is_node_id s))).
Proof.
  intros W [nd Hnd]. unfold evaluate. rewrite Hnd.
  set (m := mutilate g x). set (l := sorted_by str_leb (set_iter (impacted_by m x))).
  assert (∀ y, y ∈ l ↔ y ≠ x ∧ rtc (propagates g) x y) as Hl.
  { intros y. unfold l. rewrite elem_of_sorted_by, elem_of_set_iter, impacted_by_rtc.
    split; intros [? ?]; (split; [done|]); by apply mutilate_rtc. }
  assert (NoDup l) as Hndl by (unfold l; rewrite sorted_by_perm; apply NoDup_set_iter).
  assert (∀ y, y ≠ x → target_paths m x d y ≠ [] ↔ ∃ n, n ≤ d ∧ nsteps (propagates g) n x y) as Hp.
  { intros y Hy. unfold target_paths. rewrite causal_paths_nonempty by done. split.
    - intros (n & ? & ?%mutilate_nsteps_back); eauto.
    - intros (n & ? & Hn). apply mutilate_nsteps in Hn as (n' & ? & ?); try done.
      exists n'. split; [lia|done]. }
  pose proof (score_targets math_exp now g m x d l (∅, [], []) Hndl) as HS.
  destruct (foldl _ _ l) as [[mat sc] tr]; cbn [fst snd] in HS.
  destruct HS as (S1 & S2 & S3 & _ & S5).
  assert (∀ y, is_Some (mat !! y) ↔ y ∈ l ∧ target_paths m x d y ≠ []) as Hmat.
  { intros y. rewrite S1, lookup_empty. case_decide as Hd; split; intros Hs; done. }
  eexists. split; [done|]. cbn [probability_matrix truncated_targets directly_impacted transitively_impacted].
  assert (∀ s, s ∈ sc ↔ s ∈ sort_impacts (filter (λ s, is_node_id s ∈ direct_children m x) sc) ++
                        sort_impacts (filter (λ s, is_node_id s ∉ direct_children m x) sc)) as Hsc.
  { intros s. unfold sort_impacts. rewrite elem_of_app, !elem_of_sorted_by, !elem_of_filter_list.
    destruct (decide (is_node_id s ∈ direct_children m x)); by_cases_mem. }
  split_and!.
  - intros y. rewrite Hmat, Hl. split.
    + intros [[Hy Hr] Ht]. split; [done|]. by apply Hp.
    + intros [Hy (n & Hn & Hs)]. split_and!; [done| |apply Hp; eauto].
      apply rtc_nsteps. eauto.
  - intros y. rewrite elem_of_sorted_by, elem_of_set_iter, elem_of_list_to_set, S5, Hl, elem_of_nil.
    split.
    + intros [[[Hy Hr] Ht]|[]]. split_and!; [done..|]. rewrite <- Hp by done. by intros ?.
    + intros (Hy & Hr & Ht). left. split; [done|]. rewrite <- Hp in Ht by done.
      destruct (target_paths m x d y); [done|]. by destruct Ht.
  - intros y [Hy Ht]%Hmat. destruct (S3 y Hy Ht) as (s & Hs & <-). exists s. by rewrite <- Hsc.
  - intros s Hs. apply Hsc in Hs. pose proof Hs as Hs0.
    destruct (S2 s Hs) as [?%elem_of_nil|(Hy & Ht & Hpr & Hh)]; [done|].
    pose proof (proj1 (Hl _) Hy) as [Hne Hr].
    destruct (min_length_spec _ Ht) as [(p & Hpin & Hpl) Hmin].
    destruct (causal_path_nsteps m d x (is_node_id s) p) as [Hpd Hpn]; try done.
    split_and!.
    + rewrite S1, decide_True by done. by rewrite Hpr.
    + rewrite Hh, <- Hpl. by apply mutilate_nsteps_back in Hpn.
    + intros n Hn. rewrite Hh. apply mutilate_nsteps in Hn as (n' & Hle & Hn); try done.
      destruct (decide (n' ≤ d)) as [Hd|Hd].
      * destruct (nsteps_causal_path m d x (is_node_id s) n') as (q & Hq & Hql); try done.
        specialize (Hmin q Hq). lia.
      * lia.
    + unfold sort_impacts. rewrite elem_of_sorted_by, elem_of_filter_list, elem_of_direct_children.
      unfold m. rewrite mutilate_propagates by done. by_cases_mem.
Qed.

Lemma evaluate_sound_complete_witness :
  wf_graph demo_graph ∧ is_Some (get_node demo_graph "generator") ∧
  ∃ r, @evaluate canonical_iter (λ _, f1) 0 demo_graph "generator" "failed" 3 = Ok r ∧
    (∀ y, is_Some (probability_matrix r !! y) ↔
       y ≠ "generator" ∧ ∃ n, n ≤ 3 ∧ nsteps (propagates demo_graph) n "generator" y).
Proof.
  split_and!; [apply from_rows_wf|vm_compute; eauto|].
  destruct (@evaluate_sound_complete canonical_iter (λ _, f1) 0 demo_graph "generator" "failed" 3)
    as (r & Hr & Hm & _); [apply from_rows_wf|vm_compute; eauto|].
  exists r. split; [exact Hr|exact Hm].
Defined.

(** An unregistered intervention node is the code's [KeyError]. *)
Lemma evaluate_unknown_node `{PyIter} math_exp now g x state d :
  get_node g x = None → evaluate math_exp now g x state d = Err (KeyError x).
Proof. intros Hx. unfold evaluate. by rewrite Hx. Qed.
