(* ===== verification/Atms.v ===== *)
(** * Atms: the assumption-based truth maintenance engine

    Models [src/nce/atms.py]: nodes, justifications and the reverse dependency
    index of [ATMSEngine], the iterative proof search
    [is_node_provably_valid] with its explicit frame stack and memo, the
    deprecation cascade, contradiction handling, belief evaluation and the
    translation of a [CausalGraph].  The coroutines that write the outcome to
    PostgreSQL are not modelled. *)
From S2P Require Import Prelude PyFloat PyText Causal.

(** ** Data *)
Inductive ATMSNodeType := ASSUMPTION | PREMISE | DERIVED.

Global Instance ATMSNodeType_eq_dec : EqDecision ATMSNodeType.
Proof. solve_decision. Defined.

Record Justification := MkJust {
  consequent : string;
  antecedents : gset string;
  description : string
}.

Record ATMSNode := MkATMSNode {
  atms_id : string;
  atms_type : ATMSNodeType;
  is_valid : bool;
  justifications : list Justification
}.

Record ATMSEngine := MkEngine {
  nodes : gmap string ATMSNode;
  contradictions : list (string * string);
  _dependents : gmap string (gset string)
}.

Definition empty_engine : ATMSEngine := MkEngine ∅ [] ∅.

Definition set_nodes (f : gmap string ATMSNode → gmap string ATMSNode) (E : ATMSEngine) :=
  MkEngine (f (nodes E)) (contradictions E) (_dependents E).
Definition set_valid (b : bool) (n : ATMSNode) : ATMSNode :=
  MkATMSNode (atms_id n) (atms_type n) b (justifications n).
Definition append_justification (j : Justification) (n : ATMSNode) : ATMSNode :=
  MkATMSNode (atms_id n) (atms_type n) (is_valid n) (justifications n ++ [j]).

(** ** Registration *)
Definition register_node (E : ATMSEngine) (node_id : string) (ty : ATMSNodeType) (valid : bool) :
    ATMSEngine :=
  match nodes E !! node_id with
  | Some n => set_nodes <[node_id := MkATMSNode (atms_id n) ty valid (justifications n)]> E
  | None => set_nodes <[node_id := MkATMSNode node_id ty valid []]> E
  end.

Definition ensure_node (ty : ATMSNodeType) (E : ATMSEngine) (node_id : string) : ATMSEngine :=
  match nodes E !! node_id with
  | Some _ => E
  | None => register_node E node_id ty true
  end.

(** [self._dependents.setdefault(ant, set()).add(consequent_id)] *)
Definition add_dependent (consequent_id : string) (deps : gmap string (gset string)) (ant : string) :=
  <[ant := default ∅ (deps !! ant) ∪ {[consequent_id]}]> deps.

Section engine.
Context `{PyIter}.

Definition add_justification (E : ATMSEngine) (consequent_id : string) (ants : gset string)
    (desc : string) : ATMSEngine :=
  let E := ensure_node DERIVED E consequent_id in
  let E := foldl (ensure_node ASSUMPTION) E (set_iter ants) in
  let just := MkJust consequent_id ants desc in
  MkEngine (alter (append_justification just) consequent_id (nodes E))
           (contradictions E)
           (foldl (add_dependent consequent_id) (_dependents E) (set_iter ants)).

(** ** Proof search

    A frame of the work stack: the node, the path including it, the
    justification and antecedent it is at, and the two flags. *)
Record frame := Frame {
  f_nid : string;
  f_path : gset string;
  f_just_idx : nat;
  f_ants : list string;
  f_ant_idx : nat;
  f_ant_ok : bool;
  f_found : bool
}.

Definition memo_t := option (gmap string bool).
Definition memo_get (memo : memo_t) (nid : string) : option bool := memo ≫= (.!! nid).

(** [_leaf]: the truth value when no frame is needed. *)
Definition _leaf (E : ATMSEngine) (memo : memo_t) (nid : string) (path : gset string) : option bool :=
  let uncached :=
    match nodes E !! nid with
    | None => Some false
    | Some n =>
        match atms_type n with
        | PREMISE => Some true
        | ASSUMPTION => Some (is_valid n)
        | DERIVED => if decide (nid ∈ path) then Some false else None
        end
    end in
  match memo_get memo nid with
  | Some false => Some false
  | Some true => if decide (path = ∅) then Some true else uncached
  | None => uncached
  end.

Definition just_ants (justs : list Justification) (i : nat) : list string :=
  match justs !! i with Some j => set_iter (antecedents j) | None => [] end.

Definition _make_frame (E : ATMSEngine) (nid : string) (path : gset string) : frame :=
  let justs := match nodes E !! nid with Some n => justifications n | None => [] end in
  Frame nid path 0 (just_ants justs 0) 0 true false.

(** Move to the next justification. *)
Definition next_just (justs : list Justification) (fr : frame) : frame :=
  Frame (f_nid fr) (f_path fr) (S (f_just_idx fr)) (just_ants justs (S (f_just_idx fr))) 0 true
        (f_found fr).

(** A completed child reports to its parent. *)
Definition resume (justs : list Justification) (child_result : bool) (fr : frame) : frame :=
  if f_ant_ok fr && child_result then fr else next_just justs fr.

(** The inner loop over the antecedents of one justification. *)
Inductive scan_result :=
  | ScanDone                          (* all antecedents processed *)
  | ScanFailed                        (* an antecedent is false *)
  | ScanChild (ant : string) (ant_idx : nat).   (* a frame is needed *)

Fixpoint scan_ants (E : ATMSEngine) (memo : memo_t) (path : gset string)
    (ants : list string) (ant_idx : nat) : scan_result :=
  match ants with
  | [] => ScanDone
  | ant :: ants' =>
      match _leaf E memo ant path with
      | Some true => scan_ants E memo path ants' (S ant_idx)
      | Some false => ScanFailed
      | None => ScanChild ant ant_idx
      end
  end.

(** The loop over the justifications; each round either finishes, suspends on
    a child, or moves to the next justification ([fuel] bounds their number). *)
Fixpoint advance (E : ATMSEngine) (memo : memo_t) (justs : list Justification)
    (fuel : nat) (fr : frame) : (frame * string) + bool :=
  match fuel with
  | 0 => inr (f_found fr)
  | S fuel =>
      if decide (f_just_idx fr < length justs) then
        match scan_ants E memo (f_path fr) (drop (f_ant_idx fr) (f_ants fr)) (f_ant_idx fr) with
        | ScanDone => inr true
        | ScanFailed => advance E memo justs fuel (next_just justs fr)
        | ScanChild ant i =>
            inl (Frame (f_nid fr) (f_path fr) (f_just_idx fr) (f_ants fr) (S i) true (f_found fr), ant)
        end
      else inr (f_found fr)
  end.

Definition prover_state : Type := list frame * list bool * memo_t.

(** One round of [while work_stack]. *)
Definition prover_body (E : ATMSEngine) (s : prover_state) : prover_state + (bool * memo_t) :=
  let '(work_stack, ret_stack, memo) := s in
  match work_stack with
  | [] => inr (default false (head ret_stack), memo)
  | fr :: rest =>
      match nodes E !! f_nid fr with
      | None => inl (rest, false :: ret_stack, memo)
      | Some cur_node =>
          let justs := justifications cur_node in
          let '(fr, ret_stack) :=
            match ret_stack with
            | [] => (fr, [])
            | r :: rs => (resume justs r fr, rs)
            end in
          match advance E memo justs (S (length justs)) fr with
          | inl (fr, ant) =>
              inl (_make_frame E ant (f_path fr ∪ {[ant]}) :: fr :: rest, ret_stack, memo)
          | inr found =>
              let memo :=
                match memo with
                | Some m => if decide (f_path fr = {[f_nid fr]})
                            then Some (<[f_nid fr := found]> m) else Some m
                | None => None
                end in
              inl (rest, found :: ret_stack, memo)
          end
      end
  end.

Definition derived_nodes (E : ATMSEngine) : gset string :=
  dom (filter (λ kn, atms_type kn.2 = DERIVED) (nodes E)).
Definition node_width (n : ATMSNode) : nat :=
  sum_list_with (λ j, length (set_iter (antecedents j))) (justifications n).
Definition engine_width (E : ATMSEngine) : nat :=
  max_list (node_width <$> (map_to_list (nodes E)).*2).

Definition prover_fuel (E : ATMSEngine) : nat :=
  S (S (size (derived_nodes E)) * fuel_for (2 + engine_width E)).

Definition is_node_provably_valid (E : ATMSEngine) (node_id : string) (active_path : gset string)
    (memo : memo_t) : bool * memo_t :=
  match _leaf E memo node_id active_path with
  | Some v => (v, memo)
  | None =>
      while (prover_fuel E) (prover_body E)
        ([_make_frame E node_id (active_path ∪ {[node_id]})], [], memo) (false, memo)
  end.

(** ** The deprecation cascade *)
Record cascade_state := Cascade {
  c_engine : ATMSEngine;
  c_worklist : list string;          (* the top is the head *)
  c_visited : gset string;
  c_cascade : gset string;
  c_memo : gmap string bool
}.

(** One dependent of the node just invalidated. *)
Definition check_child (E : ATMSEngine) (acc : list string * gmap string bool) (child_id : string) :=
  match nodes E !! child_id with
  | Some child =>
      if decide (atms_type child = DERIVED ∧ is_valid child = true) then
        let '(ok, memo) := is_node_provably_valid E child_id ∅ (Some acc.2) in
        let memo := default acc.2 memo in
        if ok then (acc.1, memo) else (child_id :: acc.1, memo)
      else acc
  | None => acc
  end.

Definition cascade_body (s : cascade_state) : cascade_state + (ATMSEngine * gset string) :=
  match c_worklist s with
  | [] => inr (c_engine s, c_cascade s)
  | nid :: worklist =>
      if decide (nid ∈ c_visited s) then
        inl (Cascade (c_engine s) worklist (c_visited s) (c_cascade s) (c_memo s))
      else
        let visited := c_visited s ∪ {[nid]} in
        match nodes (c_engine s) !! nid with
        | None => inl (Cascade (c_engine s) worklist visited (c_cascade s) (c_memo s))
        | Some node =>
            let '(E, memo) :=
              if decide (atms_type node = PREMISE) then (c_engine s, c_memo s)
              else (set_nodes <[nid := set_valid false node]> (c_engine s), <[nid := false]> (c_memo s)) in
            let cascade := if is_valid node then c_cascade s ∪ {[nid]} else c_cascade s in
            let '(worklist, memo) :=
              foldl (check_child E) (worklist, memo)
                    (set_iter (default ∅ (_dependents E !! nid))) in
            inl (Cascade E worklist visited cascade memo)
        end
  end.

Definition cascade_fuel (E : ATMSEngine) : nat :=
  fuel_for (3 + sum_list_with (λ kd, size kd.2) (map_to_list (_dependents E))).

Definition propagate_deprecation (E : ATMSEngine) (node_id : string) : ATMSEngine * gset string :=
  while (cascade_fuel E) cascade_body (Cascade E [node_id] ∅ ∅ ∅) (E, ∅).

Definition invalidate_assumption (E : ATMSEngine) (assumption_id : string) :
    ATMSEngine * gset string :=
  match nodes E !! assumption_id with
  | None => (E, ∅)
  | Some node =>
      if decide (atms_type node = PREMISE) then (E, ∅)
      else propagate_deprecation E assumption_id
  end.

(** ** Contradictions *)
Definition register_contradiction (E : ATMSEngine) (a b strategy : string) :
    ATMSEngine * gset string :=
  let E := MkEngine (nodes E) (contradictions E ++ [(a, b)]) (_dependents E) in
  let E := add_justification E "FALSE" {[a; b]} "Contradiction" in
  match nodes E !! a, nodes E !! b with
  | Some node_a, Some node_b =>
      if is_valid node_a && is_valid node_b then
        if decide (strategy = "invalidate_a") then invalidate_assumption E a
        else if decide (strategy = "invalidate_b") then invalidate_assumption E b
        else if decide (strategy = "invalidate_both") then
          let '(E, sa) := invalidate_assumption E a in
          let '(E, sb) := invalidate_assumption E b in
          (E, sa ∪ sb)
        else (E, ∅)
      else (E, ∅)
  | _, _ => (E, ∅)
  end.

(** ** Belief evaluation *)
Definition evaluate_node (acc : ATMSEngine * gmap string bool) (kn : string * ATMSNode) :=
  let '(E, memo) := acc in
  match atms_type kn.2 with
  | DERIVED =>
      let '(ok, memo') := is_node_provably_valid E kn.1 ∅ (Some memo) in
      (set_nodes (alter (set_valid ok) kn.1) E, default memo memo')
  | PREMISE => (set_nodes (alter (set_valid true) kn.1) E, memo)
  | ASSUMPTION => (E, memo)
  end.

Definition evaluate_belief_states (E : ATMSEngine) : ATMSEngine :=
  (foldl evaluate_node (E, ∅) (dict_iter (nodes E))).1.

(** ** From a causal graph *)
Definition add_dependency (deps : gmap string (gset string)) (e : CausalEdge) :=
  if is_forward e then
    alter (λ s, s ∪ {[source_node_id e]}) (target_node_id e) deps
  else if is_reverse e then
    alter (λ s, s ∪ {[target_node_id e]}) (source_node_id e) deps
  else deps.

Definition causal_dependencies (g : CausalGraph) : gmap string (gset string) :=
  foldl (λ deps '(_, edges), foldl add_dependency deps edges)
        (gset_to_gmap ∅ (node_ids g)) (dict_iter (_outgoing g)).

Definition add_causal_node (deps : gmap string (gset string)) (E : ATMSEngine) (nid : string) :=
  if decide (default ∅ (deps !! nid) = ∅) then register_node E nid ASSUMPTION true
  else
    add_justification (register_node E nid DERIVED true) nid (default ∅ (deps !! nid))
      "Causal dependency".

Definition build_atms_from_causal_graph (g : CausalGraph) : ATMSEngine :=
  foldl (add_causal_node (causal_dependencies g)) empty_engine (set_iter (node_ids g)).

(** [evaluate_atms_intervention] after the graph is loaded. *)
Definition intervene (acc : ATMSEngine * gset string) (nid : string) :=
  let '(E, cascade) := acc in
  let '(E, c) := invalidate_assumption E nid in
  if decide (is_Some (nodes E !! nid)) then
    let '(E, c') := propagate_deprecation E nid in
    (E, cascade ∪ c ∪ c')
  else (E, cascade ∪ c).

Definition evaluate_atms_intervention (g : CausalGraph) (targets : list string) : gset string :=
  (foldl intervene (build_atms_from_causal_graph g, ∅) targets).2.
End engine.
