(* ===== verification/AtmsFacts.v ===== *)
(** * AtmsFacts: the proof search decides derivability

    The frame machine of [is_node_provably_valid] is related to a recursive
    search [prove], and [prove] to the least relation [derivable]: the machine
    terminates within its fuel and decides derivability. *)
From S2P Require Import Prelude PyFloat PyText Causal Atms.

(** ** Derivability: the specification *)
Section derivable.
Context (E : ATMSEngine) (cut : gset string).

(** [derivable n]: [n] has a well-founded justification from premises and
    valid assumptions that uses no node of [cut]. *)
Inductive derivable : string → Prop :=
  | derivable_premise n nd :
      n ∉ cut → nodes E !! n = Some nd → atms_type nd = PREMISE → derivable n
  | derivable_assumption n nd :
      n ∉ cut → nodes E !! n = Some nd → atms_type nd = ASSUMPTION → is_valid nd = true → derivable n
  | derivable_just n nd j :
      n ∉ cut → nodes E !! n = Some nd → atms_type nd = DERIVED → j ∈ justifications nd →
      (∀ a, a ∈ antecedents j → derivable a) → derivable n.

(** The same up to a height, as a boolean. *)
Fixpoint derb (h : nat) (n : string) : bool :=
  match h with
  | 0 => false
  | S h =>
      if decide (n ∈ cut) then false else
      match nodes E !! n with
      | None => false
      | Some nd =>
          match atms_type nd with
          | PREMISE => true
          | ASSUMPTION => is_valid nd
          | DERIVED =>
              existsb (λ j, forallb (derb h) (elements (antecedents j))) (justifications nd)
          end
      end
  end.

Lemma derb_just h n nd :
  n ∉ cut → nodes E !! n = Some nd → atms_type nd = DERIVED →
  derb (S h) n = true ↔
    ∃ j, j ∈ justifications nd ∧ ∀ a, a ∈ antecedents j → derb h a = true.
Proof.
  intros Hc Hn Ht. simpl. rewrite decide_False by done. rewrite Hn, Ht, existsb_elem.
  setoid_rewrite forallb_elem. by setoid_rewrite elem_of_elements.
Qed.

Lemma derb_S h n : derb h n = true → derb (S h) n = true.
Proof.
  revert n; induction h as [|h IH]; intros n; [done|].
  remember (S h) as h' eqn:Hh. simpl. rewrite Hh at 1. simpl.
  destruct (decide (n ∈ cut)); [done|]. destruct (nodes E !! n) as [nd|]; [|done].
  destruct (atms_type nd); try done. rewrite !existsb_elem.
  intros (j & Hj & Ha). exists j. split; [done|]. rewrite forallb_elem in *. subst. eauto.
Qed.

Lemma derb_mono h h' n : h ≤ h' → derb h n = true → derb h' n = true.
Proof. induction 1; eauto using derb_S. Qed.

Lemma derb_false_mono h h' n : h ≤ h' → derb h' n = false → derb h n = false.
Proof.
  intros Hle Hf. destruct (derb h n) eqn:Ht; [|done].
  by rewrite (derb_mono h h') in Hf.
Qed.

Lemma derb_common (l : list string) :
  (∀ a, a ∈ l → ∃ h, derb h a = true) → ∃ h, ∀ a, a ∈ l → derb h a = true.
Proof.
  induction l as [|a l IH]; intros Hl; [exists 0; by intros a ?%elem_of_nil|].
  destruct (Hl a) as [h1 H1]; [left|].
  destruct IH as [h2 H2]; [intros b Hb; apply Hl; by right|].
  exists (Nat.max h1 h2). intros b [->|Hb]%elem_of_cons.
  - eapply derb_mono; [|exact H1]. lia.
  - eapply derb_mono; [|by apply H2]. lia.
Qed.

Lemma derivable_derb n : derivable n ↔ ∃ h, derb h n = true.
Proof.
  split.
  - induction 1 as [n nd Hc Hn Ht|n nd Hc Hn Ht Hv|n nd j Hc Hn Ht Hj _ IH].
    + exists 1. simpl. by rewrite decide_False, Hn, Ht.
    + exists 1. simpl. by rewrite decide_False, Hn, Ht.
    + destruct (derb_common (elements (antecedents j))) as [h Hh].
      { intros a Ha%elem_of_elements. by apply IH. }
      exists (S h). eapply derb_just; [done..|]. exists j. split; [done|].
      intros a Ha. by apply Hh, elem_of_elements.
  - intros [h Hh]. revert n Hh. induction h as [|h IH]; intros n Hh; [done|].
    pose proof Hh as Hh'. simpl in Hh.
    destruct (decide (n ∈ cut)) as [|Hc]; [done|].
    destruct (nodes E !! n) as [nd|] eqn:Hn; [|done].
    destruct (atms_type nd) eqn:Ht; [by eapply derivable_assumption|by eapply derivable_premise|].
    eapply derb_just in Hh' as (j & Hj & Ha); [|done..]. eapply derivable_just; eauto.
Qed.
End derivable.

Lemma derivable_not_cut E cut n : derivable E cut n → n ∉ cut.
Proof. by inversion 1. Qed.

Lemma derivable_cut_weaken E cut cut' n : cut' ⊆ cut → derivable E cut n → derivable E cut' n.
Proof.
  intros Hsub. induction 1; [eapply derivable_premise|eapply derivable_assumption|eapply derivable_just];
    eauto.
Qed.

(** Cutting nodes that are underivable anyway changes nothing. *)
Lemma derivable_cut_underivable E cut cut' n :
  (∀ c, c ∈ cut' → ¬ derivable E cut c) →
  derivable E (cut ∪ cut') n ↔ derivable E cut n.
Proof.
  intros Hc. split; [apply derivable_cut_weaken; set_solver|].
  induction 1 as [n nd Hn Hl Ht|n nd Hn Hl Ht Hv|n nd j Hn Hl Ht Hj Ha IH].
  - eapply derivable_premise; [|done..]. apply not_elem_of_union. split; [done|].
    intros ?%Hc. by destruct H; eapply derivable_premise.
  - eapply derivable_assumption; [|done..]. apply not_elem_of_union. split; [done|].
    intros ?%Hc. by destruct H; eapply derivable_assumption.
  - eapply derivable_just; [|done..]. apply not_elem_of_union. split; [done|].
    intros ?%Hc. by destruct H; eapply derivable_just.
Qed.

(** ** The recursive search *)
Definition memo_false (memo : memo_t) : gset string :=
  match memo with Some m => dom (filter (λ kb, kb.2 = false) m) | None => ∅ end.

Lemma elem_of_memo_false memo n : n ∈ memo_false memo ↔ memo_get memo n = Some false.
Proof.
  destruct memo as [m|]; simpl; [|set_solver].
  rewrite elem_of_dom. unfold is_Some. setoid_rewrite map_lookup_filter_Some. naive_solver.
Qed.

Section search.
Context `{PyIter} (E : ATMSEngine) (memo : memo_t).

Fixpoint prove (k : nat) (path : gset string) (n : string) : bool :=
  match _leaf E memo n path with
  | Some v => v
  | None =>
      match k, nodes E !! n with
      | S k, Some nd =>
          existsb (λ j, forallb (prove k (path ∪ {[n]})) (set_iter (antecedents j)))
                  (justifications nd)
      | _, _ => false
      end
  end.

Lemma derived_elem n nd : nodes E !! n = Some nd → n ∈ derived_nodes E ↔ atms_type nd = DERIVED.
Proof.
  intros Hn. unfold derived_nodes. rewrite elem_of_dom. unfold is_Some.
  setoid_rewrite map_lookup_filter_Some. naive_solver.
Qed.

Lemma leaf_none n path :
  _leaf E memo n path = None →
  (n ∉ path) ∧ n ∈ derived_nodes E ∧ (n ∉ memo_false memo) ∧
  ∃ nd, nodes E !! n = Some nd ∧ atms_type nd = DERIVED.
Proof.
  intros Hl. assert (memo_get memo n ≠ Some false) as Hm.
  { intros Hm. unfold _leaf in Hl. by rewrite Hm in Hl. }
  rewrite <- elem_of_memo_false in Hm. unfold _leaf in Hl.
  destruct (nodes E !! n) as [nd|] eqn:Hn.
  - assert (match atms_type nd with
            | DERIVED => if decide (n ∈ path) then Some false else None
            | PREMISE => Some true | ASSUMPTION => Some (is_valid nd) end = None) as Hu.
    { destruct (memo_get memo n) as [[]|]; [by destruct (decide (path = ∅))|done|done]. }
    destruct (atms_type nd) eqn:Ht; try done. destruct (decide (n ∈ path)); [done|].
    split_and!; [done| |done|eauto]. by apply (derived_elem n nd).
  - destruct (memo_get memo n) as [[]|]; try done. by destruct (decide (path = ∅)).
Qed.

(** The search from under a path, against derivability without the path. *)
Lemma leaf_uncached n path :
  (memo_get memo n = Some true → path ≠ ∅) →
  _leaf E memo n path =
    if decide (n ∈ memo_false memo) then Some false else
    match nodes E !! n with
    | None => Some false
    | Some nd =>
        match atms_type nd with
        | PREMISE => Some true
        | ASSUMPTION => Some (is_valid nd)
        | DERIVED => if decide (n ∈ path) then Some false else None
        end
    end.
Proof.
  intros Hp. unfold _leaf. destruct (decide (n ∈ memo_false memo)) as [Hm|Hm].
  - apply elem_of_memo_false in Hm. by rewrite Hm.
  - rewrite elem_of_memo_false in Hm. destruct (memo_get memo n) as [[]|]; [|done|done].
    by rewrite decide_False by auto.
Qed.

Lemma prove_step k path n nd :
  (memo_get memo n = Some true → path ≠ ∅) →
  n ∉ memo_false memo → n ∉ path → nodes E !! n = Some nd → atms_type nd = DERIVED →
  prove (S k) path n = true ↔
    ∃ j, j ∈ justifications nd ∧ ∀ a, a ∈ antecedents j → prove k (path ∪ {[n]}) a = true.
Proof.
  intros Hp Hm Hn Hl Ht. cbn [prove]. rewrite leaf_uncached by done.
  rewrite decide_False by done. rewrite Hl, Ht. rewrite decide_False by done.
  rewrite existsb_elem. setoid_rewrite forallb_elem. by setoid_rewrite elem_of_set_iter.
Qed.

Lemma path_cons_ne (path : gset string) n : path ∪ {[n]} ≠ ∅.
Proof. set_solver. Qed.

Lemma path_cons_ne_singleton (path : gset string) n :
  path ≠ ∅ → n ∉ path → path ∪ {[n]} ≠ {[n]}.
Proof.
  intros Hp Hn Heq. destruct (set_choose_L path Hp) as [x Hx].
  assert (x ∈ path ∪ {[n]}) as Hx' by set_solver. rewrite Heq in Hx'. set_solver.
Qed.

(** Everything the path forbids is [cut]. *)
Lemma prove_sound cut k path n :
  (memo_get memo n = Some true → path ≠ ∅) →
  cut ⊆ memo_false memo ∪ (path ∩ derived_nodes E) →
  prove k path n = true → derivable E cut n.
Proof.
  revert path n; induction k as [|k IH]; intros path n Hp Hcut Hpr.
  all: pose proof Hpr as Hpr'; cbn [prove] in Hpr'; rewrite leaf_uncached in Hpr' by done.
  all: destruct (decide (n ∈ memo_false memo)) as [|Hm]; [done|].
  all: destruct (nodes E !! n) as [nd|] eqn:Hn; [|done].
  all: destruct (atms_type nd) eqn:Ht.
  all: assert (atms_type nd ≠ DERIVED → n ∉ cut) as Hnd
    by (intros Hd Hc; apply Hcut, elem_of_union in Hc as [?|[_ Hc]%elem_of_intersection];
        [done|by apply (derived_elem n nd) in Hc]).
  1,4: eapply derivable_assumption; eauto; apply Hnd; congruence.
  1,3: eapply derivable_premise; eauto; apply Hnd; congruence.
  all: destruct (decide (n ∈ path)) as [|Hnp]; [done|].
  - done.
  - eapply prove_step in Hpr as (j & Hj & Ha); [|done..]. eapply derivable_just; eauto.
    + intros Hc. apply Hcut in Hc. set_solver.
    + intros a Hain. apply (IH (path ∪ {[n]})); auto using path_cons_ne. set_solver.
Qed.

Lemma prove_complete cut h k path n :
  memo_false memo ⊆ cut →
  (memo_get memo n = Some true → path ≠ ∅) →
  (∀ p, p ∈ path → p ∈ derived_nodes E → derb E cut h p = false) →
  size (derived_nodes E ∖ path) ≤ k →
  derb E cut h n = true → prove k path n = true.
Proof.
  intros Hcut. revert k path n; induction h as [|h IH]; intros k path n Hp Hpath Hk Hd; [done|].
  assert (∀ p, p ∈ path → p ∈ derived_nodes E → derb E cut h p = false) as Hpath'.
  { intros p H1 H2. eapply derb_false_mono; [|by apply Hpath]. lia. }
  destruct (derb E cut h n) eqn:Hd'; [by apply IH|].
  pose proof Hd as Hd2. cbn [derb] in Hd2.
  destruct (decide (n ∈ cut)) as [|Hc]; [done|].
  assert (n ∉ memo_false memo) as Hm by set_solver.
  destruct (nodes E !! n) as [nd|] eqn:Hn; [|done].
  destruct (atms_type nd) eqn:Ht.
  - destruct k; cbn [prove]; rewrite leaf_uncached, decide_False, Hn, Ht by done; done.
  - destruct k; cbn [prove]; rewrite leaf_uncached, decide_False, Hn, Ht by done; done.
  - assert (n ∈ derived_nodes E) as Hder by by apply (derived_elem n nd).
    assert (n ∉ path) as Hnp by (intros Hin; specialize (Hpath n Hin Hder); congruence).
    assert (size (derived_nodes E ∖ (path ∪ {[n]})) < size (derived_nodes E ∖ path)) as Hlt
      by (apply subset_size; set_solver).
    destruct k as [|k]; [lia|].
    eapply derb_just in Hd as (j & Hj & Ha); [|done..].
    eapply prove_step; [done..|]. exists j. split; [done|]. intros a Hain.
    apply IH; auto using path_cons_ne; [|lia].
    intros p [Hpp| ->%elem_of_singleton]%elem_of_union Hpd; auto.
Qed.

(** The search under a path is derivability without the path. *)
Lemma prove_derivable k path n :
  (memo_get memo n = Some true → path ≠ ∅) →
  size (derived_nodes E ∖ path) ≤ k →
  prove k path n = true ↔ derivable E (memo_false memo ∪ (path ∩ derived_nodes E)) n.
Proof.
  intros Hp Hk. split; [by apply prove_sound|].
  intros [h Hh]%derivable_derb. eapply prove_complete; [|done| |done|exact Hh]; [set_solver|].
  intros p Hpp Hd. destruct h; simpl; [done|]. rewrite decide_True; [done|set_solver].
Qed.

(** ** The frame machine

    [frame_value k fr]: what a frame still has to compute, by the recursive
    search; [remaining]: the antecedents it still has to look at. *)
Definition frame_justs (fr : frame) : list Justification :=
  match nodes E !! f_nid fr with Some nd => justifications nd | None => [] end.

Definition just_value (k : nat) (path : gset string) (j : Justification) : bool :=
  forallb (prove k path) (set_iter (antecedents j)).

Definition frame_value (k : nat) (fr : frame) : bool :=
  if decide (f_just_idx fr < length (frame_justs fr)) then
    forallb (prove k (f_path fr)) (drop (f_ant_idx fr) (f_ants fr)) ||
    existsb (just_value k (f_path fr)) (drop (S (f_just_idx fr)) (frame_justs fr))
  else false.

Definition just_width (j : Justification) : nat := length (set_iter (antecedents j)).

Definition remaining (fr : frame) : nat :=
  length (drop (f_ant_idx fr) (f_ants fr)) +
  sum_list_with just_width (drop (S (f_just_idx fr)) (frame_justs fr)).

(** The flags of a frame that can run: nothing found yet, no failure pending. *)
Record frame_ok (fr : frame) : Prop := {
  ok_ants : f_ants fr = just_ants (frame_justs fr) (f_just_idx fr);
  ok_flag : f_ant_ok fr = true;
  ok_found : f_found fr = false;
  ok_path : f_path fr ≠ ∅;
  ok_node : is_Some (nodes E !! f_nid fr)
}.

Lemma next_just_ok fr : frame_ok fr → frame_ok (next_just (frame_justs fr) fr).
Proof. intros []; constructor; done. Qed.

(** Skipping to the next justification drops the rest of this one. *)
Lemma next_just_value k fr :
  f_just_idx fr < length (frame_justs fr) →
  frame_value k (next_just (frame_justs fr) fr) =
    existsb (just_value k (f_path fr)) (drop (S (f_just_idx fr)) (frame_justs fr)).
Proof.
  intros Hlt. unfold frame_value, next_just, just_ants. cbn [f_nid f_just_idx f_ant_idx f_ants f_path].
  change (frame_justs {| f_nid := f_nid fr; f_path := _; f_just_idx := _; f_ants := _;
                         f_ant_idx := _; f_ant_ok := _; f_found := _ |}) with (frame_justs fr).
  destruct (decide (S (f_just_idx fr) < length (frame_justs fr))) as [Hl|Hl].
  - destruct (frame_justs fr !! S (f_just_idx fr)) as [j|] eqn:Hj.
    + by rewrite (drop_S _ _ _ Hj), drop_0.
    + apply lookup_ge_None in Hj. lia.
  - rewrite drop_ge by lia. done.
Qed.

Lemma next_just_remaining fr :
  remaining (next_just (frame_justs fr) fr) ≤
  sum_list_with just_width (drop (S (f_just_idx fr)) (frame_justs fr)).
Proof.
  unfold remaining, next_just, just_ants. cbn [f_nid f_just_idx f_ant_idx f_ants f_path].
  change (frame_justs {| f_nid := f_nid fr; f_path := _; f_just_idx := _; f_ants := _;
                         f_ant_idx := _; f_ant_ok := _; f_found := _ |}) with (frame_justs fr).
  rewrite drop_0. destruct (frame_justs fr !! S (f_just_idx fr)) as [j|] eqn:Hj.
  - by rewrite (drop_S _ _ _ Hj).
  - rewrite (drop_ge _ (S (S _))); [simpl; lia|]. apply lookup_ge_None in Hj. lia.
Qed.

Lemma scan_ants_spec k path ants i :
  path ≠ ∅ →
  match scan_ants E memo path ants i with
  | ScanDone => forallb (prove k path) ants = true
  | ScanFailed => forallb (prove k path) ants = false
  | ScanChild ant i' =>
      _leaf E memo ant path = None ∧
      ∃ m, i' = i + m ∧ m < length ants ∧
        forallb (prove k path) ants =
        prove k path ant && forallb (prove k path) (drop (S m) ants)
  end.
Proof.
  intros Hp. revert i; induction ants as [|a ants IH]; intros i; cbn [scan_ants forallb]; [done|].
  destruct (_leaf E memo a path) as [[]|] eqn:Hl.
  - assert (prove k path a = true) as -> by (destruct k; cbn [prove]; by rewrite Hl).
    specialize (IH (S i)). destruct (scan_ants E memo path ants (S i)) as [| |ant i']; [done|done|].
    destruct IH as (? & m & -> & ? & Hf). split; [done|]. exists (S m). simpl. split_and!; [lia|lia|done].
  - by assert (prove k path a = false) as -> by (destruct k; cbn [prove]; by rewrite Hl).
  - split; [done|]. exists 0. simpl. rewrite drop_0. split_and!; [lia|lia|done].
Qed.

Lemma advance_spec k fuel fr :
  frame_ok fr → length (frame_justs fr) < fuel + f_just_idx fr →
  match advance E memo (frame_justs fr) fuel fr with
  | inr b => b = frame_value k fr
  | inl (fr', ant) =>
      _leaf E memo ant (f_path fr) = None ∧ f_nid fr' = f_nid fr ∧ f_path fr' = f_path fr ∧
      frame_ok fr' ∧ remaining fr' < remaining fr ∧
      frame_value k fr = frame_value k (resume (frame_justs fr') (prove k (f_path fr) ant) fr') ∧
      f_just_idx fr' < length (frame_justs fr')
  end.
Proof.
  revert fr; induction fuel as [|fuel IH]; intros fr Hok Hfuel; cbn [advance].
  { unfold frame_value. rewrite decide_False by lia. apply Hok. }
  destruct (decide (f_just_idx fr < length (frame_justs fr))) as [Hlt|Hlt].
  2:{ unfold frame_value. rewrite decide_False by lia. apply Hok. }
  pose proof (scan_ants_spec k (f_path fr) (drop (f_ant_idx fr) (f_ants fr)) (f_ant_idx fr)
                (ok_path _ Hok)) as Hs.
  destruct (scan_ants _ _ _ _ _) as [| |ant i].
  - unfold frame_value. by rewrite decide_True, Hs by done.
  - specialize (IH (next_just (frame_justs fr) fr) (next_just_ok fr Hok)).
    change (frame_justs (next_just _ fr)) with (frame_justs fr) in IH.
    assert (frame_value k fr = frame_value k (next_just (frame_justs fr) fr)) as Hv.
    { rewrite next_just_value by done. unfold frame_value at 1. by rewrite decide_True, Hs by done. }
    assert (remaining (next_just (frame_justs fr) fr) ≤ remaining fr) as Hr.
    { pose proof (next_just_remaining fr). unfold remaining at 2. lia. }
    assert (length (frame_justs fr) < fuel + f_just_idx (next_just (frame_justs fr) fr)) as Hf
      by (simpl; lia).
    specialize (IH Hf). destruct (advance _ _ _ _ _) as [[fr' ant]|b].
    + rewrite Hv. simpl in IH. destruct IH as (? & ? & ? & ? & ? & ? & ?). split_and!; try done. lia.
    + congruence.
  - destruct Hs as (Hl & m & -> & Hm & Hf).
    set (fr' := Frame _ _ _ _ _ _ _).
    assert (frame_justs fr' = frame_justs fr) as Hj by done.
    assert (drop (S m) (drop (f_ant_idx fr) (f_ants fr)) = drop (S (f_ant_idx fr + m)) (f_ants fr)) as Hd
      by (rewrite drop_drop; f_equal; lia).
    split_and!; try done.
    + constructor; try apply Hok. done.
    + unfold remaining. rewrite Hj. simpl. rewrite <- Hd. rewrite (length_drop _ (S m)). lia.
    + unfold resume. rewrite Hj. cbn [f_ant_ok fr' andb].
      destruct (prove k (f_path fr) ant); cbn [andb].
      * unfold frame_value. rewrite Hj. simpl. rewrite !decide_True by done. by rewrite Hf, Hd.
      * rewrite <- Hj, next_just_value by done. unfold frame_value at 1.
        rewrite decide_True by done. rewrite Hf. done.
Qed.

Definition memo_write (path : gset string) (nid : string) (b : bool) : memo_t :=
  match memo with
  | Some m => if decide (path = {[nid]}) then Some (<[nid := b]> m) else Some m
  | None => None
  end.

Lemma make_frame_ok nid path :
  is_Some (nodes E !! nid) → path ≠ ∅ → frame_ok (_make_frame E nid path).
Proof. intros Hn Hp. constructor; done. Qed.

Lemma prove_make_frame k path ant :
  _leaf E memo ant path = None →
  prove (S k) path ant = frame_value k (_make_frame E ant (path ∪ {[ant]})).
Proof.
  intros Hl. destruct (leaf_none ant path Hl) as (_ & _ & _ & nd & Hn & _).
  cbn [prove]. rewrite Hl, Hn. unfold frame_value, frame_justs, _make_frame, just_ants.
  cbn [f_nid f_just_idx f_ant_idx f_ants f_path]. rewrite Hn.
  destruct (justifications nd) as [|j js]; simpl; [done|]. by rewrite !drop_0.
Qed.

Lemma remaining_make_frame nid path :
  remaining (_make_frame E nid path) ≤ engine_width E.
Proof.
  unfold remaining, frame_justs, _make_frame, just_ants, engine_width.
  cbn [f_nid f_just_idx f_ant_idx f_ants f_path].
  destruct (nodes E !! nid) as [nd|] eqn:Hn; simpl; [|lia].
  assert (length (match justifications nd !! 0 with
                  | Some j => set_iter (antecedents j) | None => [] end) +
          sum_list_with just_width (drop 1 (justifications nd)) ≤ node_width nd) as Hw.
  { unfold node_width, just_width. destruct (justifications nd); simpl; [lia|by rewrite drop_0]. }
  rewrite drop_0. etrans; [exact Hw|].
  apply max_list_elem_of_le, list_elem_of_fmap. exists nd. split; [done|].
  apply list_elem_of_fmap. exists (nid, nd). by rewrite elem_of_map_to_list.
Qed.

Lemma resume_ok fr b :
  frame_ok fr →
  frame_ok (resume (frame_justs fr) b fr) ∧ remaining (resume (frame_justs fr) b fr) ≤ remaining fr ∧
  f_nid (resume (frame_justs fr) b fr) = f_nid fr ∧ f_path (resume (frame_justs fr) b fr) = f_path fr.
Proof.
  intros Hok. unfold resume. destruct (f_ant_ok fr && b); [done|].
  split_and!; [by apply next_just_ok| |done|done].
  pose proof (next_just_remaining fr). unfold remaining at 2. lia.
Qed.

(** A frame with a child's result pending behaves like the resumed frame. *)
Lemma body_resume fr rest b :
  is_Some (nodes E !! f_nid fr) →
  prover_body E (fr :: rest, [b], memo) =
  prover_body E (resume (frame_justs fr) b fr :: rest, [], memo).
Proof.
  intros [nd Hn]. unfold prover_body, frame_justs. rewrite Hn.
  assert (f_nid (resume (justifications nd) b fr) = f_nid fr) as ->
    by (unfold resume; by destruct (f_ant_ok fr && b)).
  by rewrite Hn.
Qed.

Lemma iterates_body_resume n fr rest b s :
  is_Some (nodes E !! f_nid fr) → n ≠ 0 →
  iterates (prover_body E) n (resume (frame_justs fr) b fr :: rest, [], memo) s →
  iterates (prover_body E) n (fr :: rest, [b], memo) s.
Proof.
  intros Hn Hn0 Hi. inversion Hi; subst; [done|].
  econstructor; [|done]. by rewrite body_resume.
Qed.

Fixpoint cost (k m : nat) : nat :=
  match k with 0 => 1 | S k => 1 + m * (1 + cost k (engine_width E)) end.

Lemma cost_mono k m m' : m ≤ m' → cost k m ≤ cost k m'.
Proof. destruct k; simpl; [lia|]. intros. apply le_n_S, Nat.mul_le_mono_r. lia. Qed.

Lemma cost_bound k : S (cost k (engine_width E)) ≤ 2 * (2 + engine_width E) ^ k.
Proof.
  induction k as [|k IH]; [simpl; lia|]. cbn [cost].
  rewrite Nat.pow_succ_r'. set (W := engine_width E) in *. set (p := (2 + W) ^ k) in *. nia.
Qed.

Lemma frame_run k fr rest :
  frame_ok fr → size (derived_nodes E ∖ f_path fr) ≤ k →
  ∃ n, n ≠ 0 ∧ n ≤ cost k (remaining fr) ∧
    iterates (prover_body E) n (fr :: rest, [], memo)
      (rest, [frame_value k fr], memo_write (f_path fr) (f_nid fr) (frame_value k fr)).
Proof.
  revert fr rest; induction k as [k IHk] using lt_wf_ind; intros fr rest.
  remember (remaining fr) as m eqn:Hm. revert fr Hm.
  induction m as [m IHm] using lt_wf_ind; intros fr -> Hok Hk.
  destruct (ok_node _ Hok) as [nd Hn].
  pose proof (advance_spec k (S (length (frame_justs fr))) fr Hok ltac:(lia)) as Ha.
  assert (prover_body E (fr :: rest, [], memo) =
    match advance E memo (frame_justs fr) (S (length (frame_justs fr))) fr with
    | inl (fr', ant) =>
        inl (_make_frame E ant (f_path fr' ∪ {[ant]}) :: fr' :: rest, [], memo)
    | inr found => inl (rest, [found], memo_write (f_path fr) (f_nid fr) found)
    end) as Hb.
  { unfold prover_body, frame_justs. rewrite Hn. unfold memo_write. done. }
  destruct (advance _ _ _ _ _) as [[fr' ant]|b].
  2:{ exists 1. subst b. split_and!; [lia|destruct k; simpl; lia|]. by apply iterates_one. }
  destruct Ha as (Hl & Hid & Hpath & Hok' & Hlt & Hv & _).
  destruct (leaf_none ant _ Hl) as (Hnp & Hder & _ & ndc & Hnc & _).
  set (path' := f_path fr' ∪ {[ant]}) in *.
  assert (size (derived_nodes E ∖ path') < size (derived_nodes E ∖ f_path fr)) as Hsz
    by (apply subset_size; unfold path'; rewrite Hpath; set_solver).
  destruct k as [|k]; [lia|].
  destruct (IHk k ltac:(lia) (_make_frame E ant path') (fr' :: rest)) as (n1 & Hn1 & Hc1 & Hi1).
  { apply make_frame_ok; [eauto|apply path_cons_ne]. }
  { simpl. lia. }
  destruct (resume_ok fr' (prove (S k) (f_path fr) ant) Hok') as (Rok & Rrem & Rid & Rpath).
  destruct (IHm (remaining (resume (frame_justs fr') (prove (S k) (f_path fr) ant) fr')) ltac:(lia) _
              eq_refl Rok ltac:(rewrite Rpath, Hpath; lia)) as (n2 & Hn2 & Hc2 & Hi2).
  exists (1 + n1 + n2). split_and!; [lia| |].
  - pose proof (cost_mono k _ _ (remaining_make_frame ant path')) as H1.
    cbn [cost] in *. nia.
  - rewrite Rid, Rpath, Hid, Hpath, <- Hv in Hi2.
    eapply (iterates_trans _ (1 + n1)); [|apply iterates_body_resume; [apply Hok'|done|exact Hi2]].
    econstructor; [exact Hb|]. rewrite (prove_make_frame k _ _ Hl), <- Hpath.
    fold path'. set (v := frame_value k _) in *.
    assert (memo_write path' ant v = memo) as Hw; [|by change (memo_write _ _ _) with (memo_write path' ant v) in Hi1; rewrite Hw in Hi1].
    unfold memo_write. destruct memo; [|done]. rewrite decide_False; [done|].
    rewrite <- Hpath in Hnp. apply path_cons_ne_singleton; [apply (ok_path _ Hok')|done].
Qed.

End search.

(** ** The routine decides derivability *)
Section provably_valid.
Context `{PyIter} (E : ATMSEngine).

Lemma provably_valid_loops memo n path :
  _leaf E memo n path = None →
  let v := prove E memo (size (derived_nodes E)) path n in
  ∃ steps, steps ≤ 2 ^ prover_fuel E ∧
    loops (prover_body E) steps ([_make_frame E n (path ∪ {[n]})], [], memo)
          (v, memo_write memo (path ∪ {[n]}) n v).
Proof.
  intros Hl v. destruct (leaf_none E memo n path Hl) as (Hnp & Hder & _ & nd & Hn & _).
  assert (size (derived_nodes E ∖ (path ∪ {[n]})) < size (derived_nodes E)) as Hsz
    by (apply subset_size; set_solver).
  destruct (size (derived_nodes E)) as [|k] eqn:Hk; [lia|].
  destruct (frame_run E memo k (_make_frame E n (path ∪ {[n]})) []) as (m & Hm0 & Hm & Hi).
  { apply make_frame_ok; [eauto|apply path_cons_ne]. }
  { simpl. lia. }
  unfold v. rewrite (prove_make_frame E memo k _ _ Hl). eexists. split.
  2:{ eapply iterates_loops; [exact Hi|]. by constructor. }
  - pose proof (cost_mono E k _ _ (remaining_make_frame E n (path ∪ {[n]}))).
    pose proof (cost_bound E k).
    pose proof (Nat.pow_le_mono_r (2 + engine_width E) k (S k) ltac:(lia) ltac:(lia)).
    pose proof (fuel_for_pow (2 + engine_width E) (S k)).
    unfold prover_fuel. rewrite Hk. rewrite Nat.pow_succ_r'.
    assert (2 ^ (S k * fuel_for (2 + engine_width E)) ≤
            2 ^ (S (S k) * fuel_for (2 + engine_width E))) by (apply Nat.pow_le_mono_r; lia).
    lia.
Qed.

Lemma provably_valid_run memo n path :
  _leaf E memo n path = None →
  let v := prove E memo (size (derived_nodes E)) path n in
  is_node_provably_valid E n path memo = (v, memo_write memo (path ∪ {[n]}) n v).
Proof.
  intros Hl v. destruct (provably_valid_loops memo n path Hl) as (steps & Hs & Hloop).
  unfold is_node_provably_valid. rewrite Hl. by eapply while_loops.
Qed.

(** A memo is sound when its positive entries are derivable without its
    negative ones. *)
Definition memo_ok (memo : memo_t) : Prop :=
  ∀ n, memo_get memo n = Some true → derivable E (memo_false memo) n.

Definition blocked (memo : memo_t) (path : gset string) : gset string :=
  memo_false memo ∪ (path ∩ derived_nodes E).

Lemma provably_valid_spec memo n path :
  memo_ok memo →
  (is_node_provably_valid E n path memo).1 = true ↔ derivable E (blocked memo path) n.
Proof.
  intros Hmemo.
  destruct (decide (memo_get memo n = Some true ∧ path = ∅)) as [[Hm ->]|Hm].
  - unfold is_node_provably_valid, _leaf. rewrite Hm, decide_True by done. split; [intros _|done].
    unfold blocked. eapply derivable_cut_weaken; [|by apply Hmemo]. set_solver.
  - assert (memo_get memo n = Some true → path ≠ ∅) as Hp by naive_solver.
    unfold blocked.
    rewrite <- (prove_derivable E memo (size (derived_nodes E)) path n Hp)
      by (apply subseteq_size; set_solver).
    destruct (_leaf E memo n path) as [v|] eqn:Hl.
    + unfold is_node_provably_valid. rewrite Hl. by destruct (size _); cbn [prove]; rewrite Hl.
    + by rewrite (provably_valid_run memo n path Hl).
Qed.

Lemma provably_valid_memo (m : gmap string bool) n :
  ∃ m', (is_node_provably_valid E n ∅ (Some m)).2 = Some m' ∧
    (m' = m ∨ (n ∈ derived_nodes E ∧ m !! n ≠ Some false ∧
               m' = <[n := (is_node_provably_valid E n ∅ (Some m)).1]> m)).
Proof.
  destruct (_leaf E (Some m) n ∅) as [v|] eqn:Hl.
  - unfold is_node_provably_valid. rewrite Hl. eauto.
  - pose proof (leaf_none E (Some m) n ∅ Hl) as (_ & Hd & Hm & _).
    rewrite (provably_valid_run _ _ _ Hl). simpl.
    rewrite decide_True by set_solver. eexists; split; [done|]. right. split_and!; [done| |done].
    intros Hmn. apply Hm, elem_of_memo_false. done.
Qed.

Lemma derivable_dec cut n : Decision (derivable E cut n).
Proof.
  set (memo := Some (gset_to_gmap false cut)).
  assert (memo_false memo = cut) as Hf.
  { apply set_eq. intros x. rewrite elem_of_memo_false. simpl.
    rewrite lookup_gset_to_gmap_Some. naive_solver. }
  assert (memo_ok memo) as Hok.
  { intros x Hx. simpl in Hx. by apply lookup_gset_to_gmap_Some in Hx as [_ ?]. }
  destruct ((is_node_provably_valid E n ∅ memo).1) eqn:Hv.
  - left. apply (provably_valid_spec memo n ∅ Hok) in Hv. rewrite <- Hf.
    eapply derivable_cut_weaken; [|exact Hv]. unfold blocked. set_solver.
  - right. intros Hd. assert (derivable E (blocked memo ∅) n) as Hd2.
    { eapply derivable_cut_weaken; [|exact Hd]. unfold blocked. rewrite Hf. set_solver. }
    apply (provably_valid_spec memo n ∅ Hok) in Hd2. congruence.
Qed.
End provably_valid.
