(* ===== verification/AtmsCascade.v ===== *)
(** * AtmsCascade: the worklist of the deprecation cascade

    The loop invariant of [propagate_deprecation] and what the loop has
    computed when it ends ([cascade_done]), from which the properties of the
    cascade are derived. *)
From S2P Require Import Prelude PyFloat PyText Causal Atms AtmsFacts.

(** Two engines that give the same derivations once [cut] is retracted. *)
Definition same_base (cut : gset string) (E E' : ATMSEngine) : Prop :=
  ∀ n, match nodes E !! n, nodes E' !! n with
       | None, None => True
       | Some a, Some b =>
           atms_type a = atms_type b ∧ justifications a = justifications b ∧
           (n ∈ cut ∨ atms_type a ≠ ASSUMPTION ∨ is_valid a = is_valid b)
       | _, _ => False
       end.

Lemma same_base_sym cut E E' : same_base cut E E' → same_base cut E' E.
Proof.
  intros HE n. specialize (HE n). destruct (nodes E !! n), (nodes E' !! n); try done.
  destruct HE as (H1 & H2 & H3). rewrite <- H1. naive_solver.
Qed.

Lemma derivable_same_base cut E E' n :
  same_base cut E E' → derivable E cut n → derivable E' cut n.
Proof.
  intros HE. induction 1 as [n nd Hn Hl Ht|n nd Hn Hl Ht Hv|n nd j Hn Hl Ht Hj Ha IH];
    specialize (HE n); rewrite Hl in HE; destruct (nodes E' !! n) as [nd'|] eqn:Hl'; try done;
    destruct HE as (H1 & H2 & H3).
  - eapply derivable_premise; [done..|congruence].
  - eapply derivable_assumption; [done..|congruence|].
    destruct H3 as [?|[?|?]]; [done|congruence|congruence].
  - eapply derivable_just; [done..|congruence| |exact IH]. by rewrite <- H2.
Qed.

Lemma derivable_same_base_iff cut E E' n :
  same_base cut E E' → derivable E cut n ↔ derivable E' cut n.
Proof. split; apply derivable_same_base; auto using same_base_sym. Qed.

(** [V] retracted from [E]. *)
Definition retracted (E : ATMSEngine) (V : gset string) (E' : ATMSEngine) : Prop :=
  (∀ n, nodes E' !! n = (λ nd, if decide (n ∈ V) then set_valid false nd else nd) <$> nodes E !! n) ∧
  _dependents E' = _dependents E ∧ contradictions E' = contradictions E.

Lemma retracted_same_base E V E' cut :
  (∀ n nd, n ∈ V → nodes E !! n = Some nd → atms_type nd ≠ ASSUMPTION ∨ n ∈ cut) →
  retracted E V E' → same_base cut E E'.
Proof.
  intros HV [HE _] n. rewrite HE. destruct (nodes E !! n) as [nd|] eqn:Hn; simpl; [|done].
  destruct (decide (n ∈ V)) as [Hin|Hin]; simpl; split_and!; auto.
  destruct (HV n nd Hin Hn); auto.
Qed.

Definition dependents (E : ATMSEngine) (n : string) : gset string := default ∅ (_dependents E !! n).
Definition depends_step (E : ATMSEngine) (a c : string) : Prop := c ∈ dependents E a.

(** A node the cascade from [t] has to retract. *)
Definition unsupported (E : ATMSEngine) (t c : string) : Prop :=
  ∃ nd, nodes E !! c = Some nd ∧ atms_type nd = DERIVED ∧ is_valid nd = true ∧
        ¬ derivable E {[t]} c.

(** The facts a memo records during the cascade from [t]. *)
Record cascade_memo (E : ATMSEngine) (t : string) (m : gmap string bool) : Prop := {
  memo_root : m !! t = Some false;
  memo_neg n : m !! n = Some false → ¬ derivable E {[t]} n;
  memo_pos n : m !! n = Some true → derivable E {[t]} n
}.

Section memo.
Context `{PyIter} (E : ATMSEngine) (t : string).

Lemma underivable_root : ¬ derivable E {[t]} t.
Proof. intros Hd%derivable_not_cut. set_solver. Qed.

Lemma cascade_memo_false m n :
  cascade_memo E t m → derivable E (memo_false (Some m)) n ↔ derivable E {[t]} n.
Proof.
  intros Hm. rewrite <- (derivable_cut_underivable E {[t]} (memo_false (Some m))).
  - assert ({[t]} ∪ memo_false (Some m) = memo_false (Some m)) as ->; [|done].
    apply subseteq_union_1_L, singleton_subseteq_l, elem_of_memo_false. apply Hm.
  - intros c Hc%elem_of_memo_false. by apply Hm.
Qed.

Lemma cascade_memo_insert m n (b : bool) :
  cascade_memo E t m → n ≠ t → (if b then derivable E {[t]} n else ¬ derivable E {[t]} n) →
  cascade_memo E t (<[n := b]> m).
Proof.
  intros Hm Hn Hb. constructor; [by rewrite lookup_insert_ne; [apply Hm|]|..]; intros x;
    (destruct (decide (x = n)) as [->|Hx];
     [rewrite lookup_insert_eq; by intros [= ->]|rewrite lookup_insert_ne by done; apply Hm]).
Qed.

(** One call of the proof search under a good memo. *)
Lemma provably_valid_cascade m c :
  cascade_memo E t m →
  let r := is_node_provably_valid E c ∅ (Some m) in
  (r.1 = true ↔ derivable E {[t]} c) ∧
  ∃ m', r.2 = Some m' ∧ cascade_memo E t m'.
Proof.
  intros Hm r. assert (r.1 = true ↔ derivable E {[t]} c) as Hr.
  { unfold r. rewrite provably_valid_spec.
    - unfold blocked. rewrite intersection_empty_l_L, union_empty_r_L. by apply cascade_memo_false.
    - intros n Hn. apply cascade_memo_false; [done|]. by apply Hm. }
  split; [done|]. destruct (provably_valid_memo E m c) as (m' & Hm' & [->|(_ & Hc & ->)]).
  - eauto.
  - eexists; split; [exact Hm'|]. apply cascade_memo_insert; [done| |].
    + intros ->. apply Hc, Hm.
    + fold r. destruct (r.1); [by apply Hr|]. intros Hd%Hr. done.
Qed.

Lemma check_children l acc :
  cascade_memo E t acc.2 →
  let acc' := foldl (check_child E) acc l in
  cascade_memo E t acc'.2 ∧ length acc'.1 ≤ length acc.1 + length l ∧
  (∀ c, c ∈ acc'.1 ↔ c ∈ acc.1 ∨ (c ∈ l ∧ unsupported E t c)).
Proof.
  revert acc; induction l as [|c l IH]; intros [wl m] Hm; simpl.
  { split_and!; [done|lia|]. intros c. split; [auto|]. by intros [?|[?%elem_of_nil _]]. }
  destruct (provably_valid_cascade m c Hm) as (Hr & m' & Hr2 & Hm').
  assert (cascade_memo E t (check_child E (wl, m) c).2 ∧
          length (check_child E (wl, m) c).1 ≤ S (length wl) ∧
          (∀ x, x ∈ (check_child E (wl, m) c).1 ↔ x ∈ wl ∨ (x = c ∧ unsupported E t c)))
    as (H1 & H2 & H3).
  { unfold check_child, unsupported. destruct (nodes E !! c) as [nd|] eqn:Hc.
    2:{ simpl. split_and!; [done|lia|]. by_cases_mem. }
    destruct (decide (atms_type nd = DERIVED ∧ is_valid nd = true)) as [[Ht Hv]|Hd].
    2:{ simpl. split_and!; [done|lia|]. intros x. split; [auto|].
        intros [?|(-> & nd' & ? & ? & ? & _)]; [done|]. destruct Hd. by simplify_eq. }
    simpl. destruct (is_node_provably_valid E c ∅ (Some m)) as [ok memo]; simpl in *. subst memo.
    destruct ok; simpl; split_and!; try done; try lia; intros x.
    - assert (derivable E {[t]} c) by (by apply Hr). by_cases_mem.
    - rewrite elem_of_cons. assert (¬ derivable E {[t]} c) by (intros ?%Hr; done). by_cases_mem. }
  destruct (IH _ H1) as (I1 & I2 & I3). split_and!; [done|simpl in *; lia|].
  intros x. rewrite I3, H3, elem_of_cons. by_cases_mem.
Qed.
End memo.

(** ** The worklist loop *)
Definition unvisited_weight (V : gset string) (l : list (string * gset string)) : nat :=
  sum_list_with (λ kd, if decide (kd.1 ∈ V) then 0 else size kd.2) l.

Lemma unvisited_weight_mono V n l :
  unvisited_weight (V ∪ {[n]}) l ≤ unvisited_weight V l.
Proof.
  induction l as [|[k d] l IH]; simpl; [lia|].
  destruct (decide (k ∈ V)) as [Hk|Hk]; [rewrite decide_True by set_solver; lia|].
  destruct (decide (k ∈ V ∪ {[n]})); lia.
Qed.

Lemma unvisited_weight_visit V n d l :
  (n, d) ∈ l → n ∉ V → unvisited_weight (V ∪ {[n]}) l + size d ≤ unvisited_weight V l.
Proof.
  induction l as [|[k d'] l IH]; intros Hin Hn; [by apply elem_of_nil in Hin|]. simpl.
  apply elem_of_cons in Hin as [[= <- <-]|Hin].
  - rewrite decide_True by set_solver. rewrite decide_False by done.
    pose proof (unvisited_weight_mono V n l). unfold unvisited_weight in *. lia.
  - specialize (IH Hin Hn). unfold unvisited_weight in *.
    destruct (decide (k ∈ V)) as [Hk|Hk]; [rewrite decide_True by set_solver; lia|].
    destruct (decide (k ∈ V ∪ {[n]})); lia.
Qed.

Section cascade.
Context `{PyIter} (E0 : ATMSEngine) (t : string) (ndt : ATMSNode).
Hypothesis t_node : nodes E0 !! t = Some ndt.
Hypothesis t_not_premise : atms_type ndt ≠ PREMISE.

(** Nodes the loop may touch: the root, or an unsupported node that the root
    reaches through the dependents. *)
Definition affected (n : string) : Prop :=
  (n = t ∨ unsupported E0 t n) ∧ rtc (depends_step E0) t n.

Definition cascade_weight (s : cascade_state) : nat :=
  length (c_worklist s) + unvisited_weight (c_visited s) (map_to_list (_dependents E0)).

Record cascade_inv (s : cascade_state) : Prop := {
  ci_engine : retracted E0 (c_visited s) (c_engine s);
  ci_visited n : n ∈ c_visited s → affected n;
  ci_worklist n : n ∈ c_worklist s → affected n;
  ci_closed n c : n ∈ c_visited s → c ∈ dependents E0 n → unsupported E0 t c →
                  c ∈ c_visited s ∨ c ∈ c_worklist s;
  ci_cascade n : n ∈ c_cascade s ↔
    n ∈ c_visited s ∧ ∃ nd, nodes E0 !! n = Some nd ∧ is_valid nd = true;
  ci_memo : cascade_memo E0 t (c_memo s) ∨ (c_visited s = ∅ ∧ c_worklist s = [t] ∧ c_memo s = ∅);
  ci_root : t ∈ c_visited s ∨ t ∈ c_worklist s
}.

(** What the loop has computed when the worklist is empty. *)
Definition cascade_done (r : ATMSEngine * gset string) : Prop :=
  ∃ V, t ∈ V ∧ retracted E0 V r.1 ∧ (∀ n, n ∈ V → affected n) ∧
    (∀ n c, n ∈ V → c ∈ dependents E0 n → unsupported E0 t c → c ∈ V) ∧
    (∀ n, n ∈ r.2 ↔ n ∈ V ∧ ∃ nd, nodes E0 !! n = Some nd ∧ is_valid nd = true).

Lemma affected_node n :
  affected n → ∃ nd, nodes E0 !! n = Some nd ∧ atms_type nd ≠ PREMISE ∧ ¬ derivable E0 {[t]} n ∧
    (atms_type nd ≠ ASSUMPTION ∨ n ∈ ({[t]} : gset string)).
Proof.
  intros [[->|(nd & Hn & Ht & Hv & Hd)] _].
  - exists ndt. split_and!; [done|done|apply underivable_root|set_solver].
  - exists nd. split_and!; [done|congruence|done|left; congruence].
Qed.

Lemma visited_same_base V E :
  (∀ n, n ∈ V → affected n) → retracted E0 V E → same_base {[t]} E0 E.
Proof.
  intros HV. apply retracted_same_base. intros n nd Hin Hn.
  destruct (affected_node n (HV n Hin)) as (nd' & ? & _ & _ & ?). by simplify_eq.
Qed.

(** A memo for the retracted engine is a memo for the original one. *)
Lemma cascade_memo_transfer E E' m :
  same_base {[t]} E E' → cascade_memo E t m → cascade_memo E' t m.
Proof.
  intros HE [H1 H2 H3]. constructor; [done|..]; intros n Hn.
  - rewrite <- (derivable_same_base_iff _ _ _ n HE). auto.
  - rewrite <- (derivable_same_base_iff _ _ _ n HE). auto.
Qed.

Lemma unsupported_retracted V E c :
  same_base {[t]} E0 E → retracted E0 V E →
  unsupported E t c ↔ unsupported E0 t c ∧ c ∉ V.
Proof.
  intros Hb [HE _]. unfold unsupported. setoid_rewrite <- (derivable_same_base_iff _ _ _ _ Hb).
  rewrite HE. split.
  - intros (nd & Hn & ? & Hv & ?). apply fmap_Some in Hn as (nd0 & Hn & ->).
    destruct (decide (c ∈ V)); [done|]. eauto 10.
  - intros [(nd & Hn & ? & ? & ?) Hc]. exists nd. rewrite Hn. simpl. rewrite decide_False by done. auto.
Qed.

Lemma cascade_step s :
  cascade_inv s →
  match cascade_body s with
  | inl s' => cascade_inv s' ∧ cascade_weight s' < cascade_weight s
  | inr r => cascade_done r
  end.
Proof.
  intros [Heng Hvis Hwl Hcl Hcas Hmem Hroot]. unfold cascade_body.
  destruct s as [E wl V C m]; cbn [c_engine c_worklist c_visited c_cascade c_memo] in *.
  destruct wl as [|nid wl].
  { exists V. destruct Hroot as [Hroot|?%elem_of_nil]; [|done]. split_and!; try done.
    intros n c Hn Hc Hu. destruct (Hcl n c Hn Hc Hu) as [?|?%elem_of_nil]; done. }
  destruct (decide (nid ∈ V)) as [Hin|Hin].
  { split; [constructor; cbn [c_engine c_worklist c_visited c_cascade c_memo]|
            unfold cascade_weight; simpl; lia]; try done.
    - intros n Hn. apply Hwl. by right.
    - intros n c Hn Hc Hu. destruct (Hcl n c Hn Hc Hu) as [?|[->|?]%elem_of_cons]; auto.
    - destruct Hmem as [?|(-> & _)]; [by left|set_solver].
    - destruct Hroot as [?|[->|?]%elem_of_cons]; auto. }
  pose proof (Hwl nid ltac:(left)) as Haff.
  destruct (affected_node nid Haff) as (nd & Hnd & Hnp & Hund & Hcut).
  destruct Heng as (HE & Hdep & Hcon).
  assert (nodes E !! nid = Some nd) as -> by (rewrite HE, Hnd; simpl; by rewrite decide_False by done).
  rewrite decide_False by done.
  set (E1 := set_nodes <[nid:=set_valid false nd]> E).
  assert (∀ n, n ∈ V ∪ {[nid]} → affected n) as HV1
    by (intros n [?| ->%elem_of_singleton]%elem_of_union; auto).
  assert (retracted E0 (V ∪ {[nid]}) E1) as HE1.
  { split_and!; [|done|done]. intros n. simpl. destruct (decide (n = nid)) as [->|Hn].
    - rewrite lookup_insert_eq, Hnd. simpl. rewrite decide_True by set_solver. done.
    - rewrite lookup_insert_ne, HE by done. destruct (nodes E0 !! n); simpl; [|done].
      f_equal. apply decide_ext. set_solver. }
  pose proof (visited_same_base _ _ HV1 HE1) as Hbase.
  assert (cascade_memo E0 t (<[nid:=false]> m)) as Hm1.
  { destruct Hmem as [Hm|(-> & [= -> ->] & ->)].
    - destruct (decide (nid = t)) as [->|Hne].
      + rewrite insert_id by apply Hm. done.
      + by apply cascade_memo_insert.
    - constructor; [by rewrite lookup_insert_eq|..]; intros n.
      + destruct (decide (n = t)) as [->|Hn]; [done|]. by rewrite lookup_insert_ne by done.
      + destruct (decide (n = t)) as [->|Hn]; [by rewrite lookup_insert_eq|].
        by rewrite lookup_insert_ne by done. }
  change (default ∅ (_dependents E1 !! nid)) with (default ∅ (_dependents E !! nid)).
  rewrite Hdep. fold (dependents E0 nid).
  destruct (check_children E1 t (set_iter (dependents E0 nid)) (wl, <[nid:=false]> m))
    as (Hm2 & Hlen & Hel); [by apply (cascade_memo_transfer E0)|].
  destruct (foldl (check_child E1) _ _) as [wl' m']; cbn [fst snd] in *.
  setoid_rewrite elem_of_set_iter in Hel.
  assert (∀ c, c ∈ wl' ↔ c ∈ wl ∨ c ∈ dependents E0 nid ∧ unsupported E0 t c ∧ c ∉ V ∪ {[nid]}) as Hel'
    by (intros c; rewrite Hel, (unsupported_retracted _ _ c Hbase HE1); done).
  split.
  - constructor; cbn [c_engine c_worklist c_visited c_cascade c_memo]; try done.
    + intros n [Hn|(Hn & Hu & _)]%Hel'; [apply Hwl; by right|]. split; [by right|].
      eapply rtc_r; [apply Haff|done].
    + intros n c Hn Hc Hu.
      destruct (decide (c ∈ V ∪ {[nid]})) as [?|Hnc]; [by left|right].
      apply Hel'. apply elem_of_union in Hn as [Hn| ->%elem_of_singleton]; [|by right].
      left. destruct (Hcl n c Hn Hc Hu) as [?|[->|?]%elem_of_cons]; set_solver.
    + intros n. destruct (is_valid nd) eqn:Hv.
      * rewrite elem_of_union, Hcas, elem_of_union, elem_of_singleton. split.
        -- intros [[? ?]| ->]; eauto.
        -- intros [[?| ->] ?]; auto.
      * rewrite Hcas, elem_of_union, elem_of_singleton. split; [naive_solver|].
        intros [[?| ->] (nd' & ? & ?)]; [eauto|]. simplify_eq. congruence.
    + left. eapply (cascade_memo_transfer E1); [by apply same_base_sym|done].
    + destruct Hroot as [?|[->|?]%elem_of_cons]; [left; set_solver|left; set_solver|right].
      apply Hel'. by left.
  - unfold cascade_weight; cbn [c_worklist c_visited]. rewrite set_iter_perm in Hlen.
    change (length (elements (dependents E0 nid))) with (size (dependents E0 nid)) in Hlen.
    unfold dependents in Hlen. destruct (_dependents E0 !! nid) as [d|] eqn:Hd.
    + apply elem_of_map_to_list in Hd.
      pose proof (unvisited_weight_visit V nid d _ Hd Hin). simpl in *. lia.
    + pose proof (unvisited_weight_mono V nid (map_to_list (_dependents E0))).
      pose proof (size_empty (C:=gset string)) as Hz. simpl in *. lia.
Qed.

Lemma propagate_deprecation_done : cascade_done (propagate_deprecation E0 t).
Proof.
  unfold propagate_deprecation.
  eapply (while_spec _ _ _ _ cascade_inv cascade_done cascade_weight); [apply cascade_step|..].
  - constructor; cbn [c_engine c_worklist c_visited c_cascade c_memo].
    + split_and!; [|done|done]. intros n. destruct (nodes E0 !! n); simpl; [|done].
      by rewrite decide_False by set_solver.
    + set_solver.
    + intros n ->%list_elem_of_singleton. split; [by left|done].
    + set_solver.
    + set_solver.
    + by right.
    + right. by left.
  - unfold cascade_weight. cbn [c_worklist c_visited length].
    assert (∀ l, unvisited_weight ∅ l ≤ sum_list_with (λ kd, size kd.2) l) as Hw.
    { induction l as [|[k d] l IH]; [simpl; lia|].
      change (unvisited_weight ∅ ((k, d) :: l))
        with ((if decide (k ∈ (∅ : gset string)) then 0 else size d) + unvisited_weight ∅ l).
      rewrite decide_False by set_solver. simpl. lia. }
    specialize (Hw (map_to_list (_dependents E0))). unfold cascade_fuel.
    pose proof (fuel_for_enough (3 + sum_list_with (λ kd, size kd.2) (map_to_list (_dependents E0)))).
    lia.
Qed.
End cascade.
