(* ===== verification/AtmsProps.v ===== *)
(** * AtmsProps: what the truth maintenance engine guarantees *)
From S2P Require Import Prelude PyFloat PyText Causal CausalFacts CausalProps Atms AtmsFacts AtmsCascade.

(** The reverse index lists every consequent of every antecedent. *)
Definition indexed (E : ATMSEngine) : Prop :=
  ∀ n nd j a, nodes E !! n = Some nd → j ∈ justifications nd → a ∈ antecedents j →
              n ∈ dependents E a.

(** The flags of the derived nodes say exactly what is derivable. *)
Definition consistent (E : ATMSEngine) : Prop :=
  ∀ n nd, nodes E !! n = Some nd → atms_type nd = DERIVED →
          is_valid nd = true ↔ derivable E ∅ n.

(** ** The proof search *)

(** The iterative proof search decides derivability.  With any sound memo
    and any active path, the frame machine of [is_node_provably_valid] leaves
    its loop within the fuel, and answers true exactly when the node has a
    well-founded justification from premises and valid assumptions that avoids
    the memo's refuted nodes and the derived nodes of the path; in particular a
    circular justification supports nothing. *)
Theorem is_node_provably_valid_decides `{PyIter} E memo n path :
  memo_ok E memo →
  ((is_node_provably_valid E n path memo).1 = true ↔
     derivable E (memo_false memo ∪ (path ∩ derived_nodes E)) n) ∧
  (_leaf E memo n path = None →
     ∃ steps, steps ≤ 2 ^ prover_fuel E ∧
       loops (prover_body E) steps ([_make_frame E n (path ∪ {[n]})], [], memo)
             (is_node_provably_valid E n path memo)).
Proof.
  intros Hm. split; [by apply provably_valid_spec|]. intros Hl.
  rewrite (provably_valid_run E memo n path Hl). by apply provably_valid_loops.
Qed.

(** ** The cascade *)
Section cascade_props.
Context `{PyIter}.

(** In a consistent engine the loop retracts every node that loses its support. *)
Lemma cascade_covers E t (V : gset string) n :
  indexed E → consistent E → t ∈ V →
  (∀ m c, m ∈ V → c ∈ dependents E m → unsupported E t c → c ∈ V) →
  derivable E ∅ n → ¬ derivable E {[t]} n → n ∈ V.
Proof.
  intros Hix Hco Ht Hcl Hd. induction Hd as [n nd _ Hn Ht'|n nd _ Hn Ht' Hv|n nd j _ Hn Ht' Hj Ha IH];
    intros Hu; destruct (decide (n = t)) as [->|Hne]; try done.
  - destruct Hu. eapply derivable_premise; [set_solver|done..].
  - destruct Hu. eapply derivable_assumption; [set_solver|done..].
  - assert (Exists (λ a, ¬ derivable E {[t]} a) (elements (antecedents j))) as Hex.
    { apply not_Forall_Exists; [intros a; apply derivable_dec|].
      rewrite Forall_forall. setoid_rewrite elem_of_elements. intros Hall. apply Hu.
      eapply derivable_just; [set_solver|done..]. }
    apply Exists_exists in Hex as (a & Hain%elem_of_elements & Hau).
    apply (Hcl a); [by apply IH|by eapply Hix|].
    exists nd. split_and!; try done. apply (Hco n nd Hn Ht'). by eapply derivable_just.
Qed.

Lemma retracted_lookup E V E' n nd' :
  retracted E V E' → nodes E' !! n = Some nd' →
  ∃ nd, nodes E !! n = Some nd ∧ atms_type nd' = atms_type nd ∧
    justifications nd' = justifications nd ∧
    is_valid nd' = (if decide (n ∈ V) then false else is_valid nd).
Proof.
  intros [HE _] Hn. rewrite HE in Hn. apply fmap_Some in Hn as (nd & ? & ->).
  exists nd. destruct (decide (n ∈ V)); done.
Qed.

Lemma cascade_exact E t ndt :
  indexed E → consistent E → nodes E !! t = Some ndt → atms_type ndt ≠ PREMISE →
  let r := propagate_deprecation E t in
  ∃ V : gset string, retracted E V r.1 ∧ t ∈ V ∧
    (∀ n, n ∈ V → n = t ∨ ∃ nd, nodes E !! n = Some nd ∧ atms_type nd = DERIVED) ∧
    (∀ n nd, nodes E !! n = Some nd → atms_type nd = DERIVED →
       is_valid nd = true ∧ n ∉ V ↔ derivable E {[t]} n) ∧
    (∀ n, n ∈ r.2 ↔ n ∈ V ∧ ∃ nd, nodes E !! n = Some nd ∧ is_valid nd = true).
Proof.
  intros Hix Hco Ht Hnp r.
  destruct (propagate_deprecation_done E t ndt Ht Hnp) as (V & HtV & Hr & Hvis & Hcl & Hc).
  exists V. split_and!; try done.
  - intros n Hn. destruct (Hvis n Hn) as [[->|(nd & ? & ? & _)] _]; [by left|right; eauto].
  - intros n nd Hn Hd. rewrite (Hco n nd Hn Hd). split.
    + intros [Hder HnV]. destruct (derivable_dec E {[t]} n) as [?|Hu]; [done|].
      destruct HnV. by eapply cascade_covers.
    + intros Hder. split; [eapply derivable_cut_weaken; [|done]; set_solver|]. intros HnV.
      destruct (affected_node E t ndt Ht Hnp n (Hvis n HnV)) as (_ & _ & _ & Hu & _). done.
Qed.

(** C7: the deprecation cascade restores belief consistency.  In an engine
    whose derived flags are exactly derivability, [propagate_deprecation] on a
    non-premise node [t] terminates with the flag of every derived node equal
    to derivability without [t]; [t] is invalid, every other assumption and
    premise keeps its flag, and the returned set is exactly the set of nodes
    whose flag flipped from true to false. *)
Theorem propagate_deprecation_restores E t ndt :
  indexed E → consistent E → nodes E !! t = Some ndt → atms_type ndt ≠ PREMISE →
  let r := propagate_deprecation E t in
  (∀ n nd', nodes r.1 !! n = Some nd' → ∃ nd, nodes E !! n = Some nd ∧
     atms_type nd' = atms_type nd ∧ justifications nd' = justifications nd ∧
     (atms_type nd = DERIVED → is_valid nd' = true ↔ derivable E {[t]} n) ∧
     (atms_type nd ≠ DERIVED → is_valid nd' = if decide (n = t) then false else is_valid nd) ∧
     (n ∈ r.2 ↔ is_valid nd = true ∧ is_valid nd' = false)) ∧
  (∀ n, is_Some (nodes r.1 !! n) ↔ is_Some (nodes E !! n)).
Proof.
  intros Hix Hco Ht Hnp r. destruct (cascade_exact E t ndt Hix Hco Ht Hnp) as (V & Hr & HtV & HV & Hd & Hc).
  fold r in Hr, Hc. split.
  - intros n nd' Hn'. destruct (retracted_lookup E V r.1 n nd' Hr Hn') as (nd & Hn & Hty & Hj & Hval).
    exists nd. split_and!; try done.
    + intros Hder. rewrite <- (Hd n nd Hn Hder), Hval. destruct (decide (n ∈ V)); naive_solver.
    + intros Hnd. rewrite Hval. destruct (decide (n = t)) as [->|Hne]; [by rewrite decide_True|].
      rewrite decide_False; [done|]. intros HnV. destruct (HV n HnV) as [?|(? & ? & ?)]; [done|].
      by simplify_eq.
    + rewrite Hc, Hval. split.
      * intros [HnV (nd2 & ? & ?)]. simplify_eq. by rewrite decide_True.
      * intros [Hv Hf]. destruct (decide (n ∈ V)); [eauto|congruence].
  - intros n. destruct Hr as [-> _]. by rewrite fmap_is_Some.
Qed.

Lemma retracted_indexed E V E' : retracted E V E' → indexed E → indexed E'.
Proof.
  intros Hr Hix n nd' j a Hn Hj Ha.
  destruct (retracted_lookup E V E' n nd' Hr Hn) as (nd & Hn0 & _ & Hjs & _).
  destruct Hr as (_ & Hdep & _). unfold dependents. rewrite Hdep. rewrite Hjs in Hj.
  by eapply (Hix n nd).
Qed.

(** Retracting an assumption leaves a consistent engine. *)
Lemma invalidate_consistent E t nd :
  indexed E → consistent E → nodes E !! t = Some nd → atms_type nd = ASSUMPTION →
  let E' := (invalidate_assumption E t).1 in
  indexed E' ∧ consistent E' ∧ same_base {[t]} E E' ∧ nodes E' !! t = Some (set_valid false nd).
Proof.
  intros Hix Hco Ht Hty. unfold invalidate_assumption. rewrite Ht, decide_False by congruence.
  destruct (cascade_exact E t nd Hix Hco Ht ltac:(congruence)) as (V & Hr & HtV & HV & Hd & _).
  set (E' := (propagate_deprecation E t).1) in *. simpl.
  assert (same_base {[t]} E E') as Hb.
  { eapply retracted_same_base; [|exact Hr]. intros n nd' Hn Hnd.
    destruct (HV n Hn) as [->|(? & ? & ?)]; [right; set_solver|left]. simplify_eq. congruence. }
  assert (nodes E' !! t = Some (set_valid false nd)) as HE'
    by (destruct Hr as [Hr _]; rewrite Hr, Ht; simpl; by rewrite decide_True by done).
  split_and!; try done; [by eapply retracted_indexed|].
  assert (¬ derivable E' ∅ t) as Htu
    by (intros Hder; inversion Hder; simplify_eq; simpl in *; congruence).
  intros n nd' Hn' Hder'. destruct (retracted_lookup E V E' n nd' Hr Hn') as (nd0 & Hn0 & Hty0 & _ & Hval).
  rewrite Hty0 in Hder'.
  rewrite <- (derivable_cut_underivable E' ∅ {[t]} n) by (by intros c ->%elem_of_singleton).
  rewrite union_empty_l_L, <- (derivable_same_base_iff _ _ _ n Hb), <- (Hd n nd0 Hn0 Hder'), Hval.
  destruct (decide (n ∈ V)); naive_solver.
Qed.

Lemma same_base_weaken cut cut' E E' : cut ⊆ cut' → same_base cut E E' → same_base cut' E E'.
Proof.
  intros Hs Hb n. specialize (Hb n). destruct (nodes E !! n), (nodes E' !! n); try done.
  destruct Hb as (? & ? & [?|?]); auto.
Qed.

(** Retracting assumptions one after the other keeps the engine consistent
    and is the same as deriving without them: afterwards a derived node is
    valid exactly when it has a derivation in the original engine that uses
    none of the retracted assumptions. *)
Theorem assumption_retractions_consistent E (ts : list string) :
  indexed E → consistent E →
  (∀ t, t ∈ ts → ∃ nd, nodes E !! t = Some nd ∧ atms_type nd = ASSUMPTION) →
  let E' := foldl (λ E t, (invalidate_assumption E t).1) E ts in
  indexed E' ∧ consistent E' ∧
  ∀ n nd', nodes E' !! n = Some nd' → atms_type nd' = DERIVED →
           is_valid nd' = true ↔ derivable E (list_to_set ts) n.
Proof.
  revert E; induction ts as [|t ts IH]; intros E Hix Hco Hts; cbn [foldl]; [done|].
  destruct (Hts t ltac:(left)) as (nd & Ht & Hty).
  destruct (invalidate_consistent E t nd Hix Hco Ht Hty) as (Hix1 & Hco1 & Hb & Ht1).
  set (E1 := (invalidate_assumption E t).1) in *.
  destruct (IH E1 Hix1 Hco1) as (I1 & I2 & I3).
  { intros t' Ht'. destruct (Hts t') as (nd' & Hn' & Hty'); [by right|].
    specialize (Hb t'). rewrite Hn' in Hb. destruct (nodes E1 !! t') as [nd1|]; [|done].
    exists nd1. split; [done|]. destruct Hb as [<- _]. done. }
  split_and!; [done..|]. intros n nd' Hn Hd. rewrite (I3 n nd' Hn Hd).
  assert (¬ derivable E1 (list_to_set ts) t) as Htu
    by (intros Hder; inversion Hder; simplify_eq; simpl in *; congruence).
  rewrite <- (derivable_cut_underivable E1 (list_to_set ts) {[t]} n)
    by (by intros c ->%elem_of_singleton).
  rewrite list_to_set_cons, (union_comm_L {[t]}). symmetry. apply derivable_same_base_iff.
  eapply same_base_weaken; [|done]. set_solver.
Qed.
End cascade_props.

(** ** Belief evaluation *)
Section evaluate_props.
Context `{PyIter} (E : ATMSEngine).

Record eval_inv (E' : ATMSEngine) (m : gmap string bool) : Prop := {
  ev_base : same_base ∅ E E';
  ev_index : _dependents E' = _dependents E;
  ev_memo n b : m !! n = Some b → b = true ↔ derivable E ∅ n
}.

Lemma set_flag_same_base E' n b :
  same_base ∅ E E' → (∀ nd, nodes E' !! n = Some nd → atms_type nd ≠ ASSUMPTION) →
  same_base ∅ E (set_nodes (alter (set_valid b) n) E').
Proof.
  intros Hb Hn x. specialize (Hb x). simpl. destruct (decide (x = n)) as [->|Hx].
  - rewrite lookup_alter_eq. destruct (nodes E !! n), (nodes E' !! n) as [nd'|] eqn:Hx; simpl in *;
      try done. destruct Hb as (H1 & H2 & H3). split_and!; [done..|]. right; left.
    rewrite H1. by apply Hn.
  - by rewrite lookup_alter_ne.
Qed.

Lemma evaluate_derived E' m n :
  eval_inv E' m →
  let r := is_node_provably_valid E' n ∅ (Some m) in
  (r.1 = true ↔ derivable E ∅ n) ∧ ∃ m', r.2 = Some m' ∧ eval_inv E' m'.
Proof.
  intros [Hb Hix Hm] r.
  assert (∀ c, derivable E' (memo_false (Some m)) c ↔ derivable E ∅ c) as Heq.
  { intros c. rewrite (derivable_same_base_iff ∅ E E' c Hb).
    rewrite <- (union_empty_l_L (memo_false (Some m))). apply derivable_cut_underivable.
    intros x Hx%elem_of_memo_false Hd. apply (derivable_same_base_iff _ _ _ _ Hb) in Hd.
    by apply (Hm x false Hx) in Hd. }
  assert (r.1 = true ↔ derivable E ∅ n) as Hr.
  { unfold r. rewrite provably_valid_spec.
    - unfold blocked. rewrite intersection_empty_l_L, union_empty_r_L. apply Heq.
    - intros c Hc. apply Heq. by apply (Hm c true Hc). }
  split; [done|]. destruct (provably_valid_memo E' m n) as (m' & Hm' & [->|(_ & _ & ->)]).
  { by exists m. }
  eexists; split; [exact Hm'|]. constructor; [done..|]. intros c b. fold r.
  destruct (decide (c = n)) as [->|Hc].
  - rewrite lookup_insert_eq. by intros [= <-].
  - rewrite lookup_insert_ne by done. apply Hm.
Qed.

Lemma evaluate_fold l E' m :
  NoDup l.*1 → (∀ k nd, (k, nd) ∈ l → nodes E' !! k = Some nd) → eval_inv E' m →
  let r := foldl evaluate_node (E', m) l in
  eval_inv r.1 r.2 ∧
  (∀ n, n ∉ l.*1 → nodes r.1 !! n = nodes E' !! n) ∧
  (∀ n nd, (n, nd) ∈ l → ∃ b, nodes r.1 !! n = Some (set_valid b nd) ∧
     match atms_type nd with
     | DERIVED => b = true ↔ derivable E ∅ n
     | PREMISE => b = true
     | ASSUMPTION => b = is_valid nd
     end).
Proof.
  revert E' m; induction l as [|[k nd] l IH]; intros E' m Hnd Hl Hinv; cbn [foldl].
  { split_and!; [done..|]. by intros n nd' ?%elem_of_nil. }
  apply NoDup_cons in Hnd as [Hk Hnd].
  assert (nodes E' !! k = Some nd) as Hlk by (apply Hl; left).
  assert (∃ E1 m1 b, evaluate_node (E', m) (k, nd) = (E1, m1) ∧ eval_inv E1 m1 ∧
    nodes E1 !! k = Some (set_valid b nd) ∧ (∀ n, n ≠ k → nodes E1 !! n = nodes E' !! n) ∧
    match atms_type nd with
    | DERIVED => b = true ↔ derivable E ∅ k | PREMISE => b = true | ASSUMPTION => b = is_valid nd
    end) as (E1 & m1 & b & Hev & Hinv1 & Hb & Hoth & Hty).
  { unfold evaluate_node. cbn [fst snd]. destruct (atms_type nd) eqn:Ht.
    - exists E', m, (is_valid nd). split_and!; try done. rewrite Hlk. by destruct nd.
    - exists (set_nodes (alter (set_valid true) k) E'), m, true. split_and!; try done.
      + destruct Hinv as [Hb Hix Hm]. constructor; [|done|done]. apply set_flag_same_base; [done|].
        intros nd2 Hn2. rewrite Hlk in Hn2. simplify_eq. congruence.
      + simpl. by rewrite lookup_alter_eq, Hlk.
      + intros n Hn. simpl. by rewrite lookup_alter_ne.
    - destruct (evaluate_derived E' m k Hinv) as (Hr & m' & Hm' & Hinv').
      destruct (is_node_provably_valid E' k ∅ (Some m)) as [ok mm]. simpl in *. subst mm.
      exists (set_nodes (alter (set_valid ok) k) E'), m', ok. split_and!; try done.
      + destruct Hinv' as [Hb Hix Hm]. constructor; [|done|done]. apply set_flag_same_base; [done|].
        intros nd2 Hn2. rewrite Hlk in Hn2. simplify_eq. congruence.
      + simpl. by rewrite lookup_alter_eq, Hlk.
      + intros n Hn. simpl. by rewrite lookup_alter_ne. }
  rewrite Hev. destruct (IH E1 m1 Hnd) as (I1 & I2 & I3).
  - intros k' nd' Hin. rewrite Hoth; [apply Hl; by right|]. intros ->.
    apply Hk, list_elem_of_fmap. by exists (k, nd').
  - done.
  - split_and!; [done|..].
    + intros n Hn. apply not_elem_of_cons in Hn as [Hnk Hn]. rewrite I2 by done. by apply Hoth.
    + intros n nd' [[= -> ->]|Hin]%elem_of_cons; [|by apply I3].
      exists b. by rewrite I2 by done.
Qed.

Lemma evaluate_spec :
  let E' := evaluate_belief_states E in
  eval_inv E' (foldl evaluate_node (E, ∅) (dict_iter (nodes E))).2 ∧
  ∀ n nd, nodes E !! n = Some nd → ∃ b, nodes E' !! n = Some (set_valid b nd) ∧
     match atms_type nd with
     | DERIVED => b = true ↔ derivable E ∅ n
     | PREMISE => b = true
     | ASSUMPTION => b = is_valid nd
     end.
Proof.
  destruct (evaluate_fold (dict_iter (nodes E)) E ∅) as (I1 & _ & I3).
  - apply NoDup_dict_iter_keys.
  - intros k nd. by rewrite elem_of_dict_iter.
  - constructor; [|done|by intros n b ?%lookup_empty_Some].
    intros n. destruct (nodes E !! n); [|done]. auto.
  - split; [done|]. intros n nd Hn. by apply I3, elem_of_dict_iter.
Qed.

Lemma evaluate_consistent : consistent (evaluate_belief_states E).
Proof.
  destruct evaluate_spec as [[Hb Hix _] Hsp]. intros n nd' Hn' Hd.
  pose proof (Hb n) as Hbn. rewrite Hn' in Hbn.
  destruct (nodes E !! n) as [nd|] eqn:Hn; [|done].
  destruct (Hsp n nd Hn) as (b & Hb' & Hty). rewrite Hb' in Hn'. simplify_eq. simpl in *.
  rewrite Hd in Hty. by rewrite <- (derivable_same_base_iff _ _ _ n Hb).
Qed.

(** [evaluate_belief_states] establishes belief consistency.  From any
    engine and for any iteration order of the node dict, it terminates with the
    flag of every derived node equal to derivability, every premise valid, and
    no assumption's flag, type or justification changed. *)
Theorem evaluate_belief_states_consistent :
  let E' := evaluate_belief_states E in
  consistent E' ∧
  (∀ n, match nodes E !! n, nodes E' !! n with
        | Some a, Some b =>
            atms_type b = atms_type a ∧ justifications b = justifications a ∧
            (atms_type a = ASSUMPTION → is_valid b = is_valid a) ∧
            (atms_type a = PREMISE → is_valid b = true)
        | None, None => True
        | _, _ => False
        end) ∧
  (indexed E → indexed E').
Proof.
  destruct evaluate_spec as [[Hb Hix _] Hsp]. split_and!; [apply evaluate_consistent|..].
  - intros n. pose proof (Hb n) as Hbn. destruct (nodes E !! n) as [nd|] eqn:Hn.
    + destruct (Hsp n nd Hn) as (b & -> & Hty). simpl. destruct (atms_type nd); naive_solver.
    + by destruct (nodes (evaluate_belief_states E) !! n).
  - intros HE n nd' j a Hn' Hj Ha. pose proof (Hb n) as Hbn. rewrite Hn' in Hbn.
    destruct (nodes E !! n) as [nd|] eqn:Hn; [|done]. destruct Hbn as (_ & Hj' & _).
    unfold dependents. rewrite Hix. eapply (HE n nd); [done| |done]. by rewrite Hj'.
Qed.
End evaluate_props.

(** ** Sequences of operations *)
Inductive atms_call :=
  | RegisterNode (n : string) (ty : ATMSNodeType) (valid : bool)
  | AddJustification (consequent : string) (ants : gset string) (desc : string)
  | RegisterContradiction (a b strategy : string)
  | InvalidateAssumption (n : string)
  | EvaluateBeliefStates.

Definition run_call `{PyIter} (E : ATMSEngine) (c : atms_call) : ATMSEngine :=
  match c with
  | RegisterNode n ty v => register_node E n ty v
  | AddJustification n ants d => add_justification E n ants d
  | RegisterContradiction a b s => (register_contradiction E a b s).1
  | InvalidateAssumption n => (invalidate_assumption E n).1
  | EvaluateBeliefStates => evaluate_belief_states E
  end.

Section call_props.
Context `{PyIter}.

(** Every node is stored under its own id, and the reverse index is complete. *)
Definition well_formed (E : ATMSEngine) : Prop :=
  indexed E ∧ (∀ n nd, nodes E !! n = Some nd → atms_id nd = n) ∧
  (∀ n nd j a, nodes E !! n = Some nd → j ∈ justifications nd → a ∈ antecedents j →
               is_Some (nodes E !! a)).

Lemma register_node_lookup E n ty v x :
  nodes (register_node E n ty v) !! x =
    if decide (x = n) then
      Some (match nodes E !! n with
            | Some nd => MkATMSNode (atms_id nd) ty v (justifications nd)
            | None => MkATMSNode n ty v []
            end)
    else nodes E !! x.
Proof.
  unfold register_node. destruct (nodes E !! n); simpl; rewrite lookup_insert;
    destruct (decide (n = x)), (decide (x = n)); congruence.
Qed.

Lemma register_node_dependents E n ty v : _dependents (register_node E n ty v) = _dependents E.
Proof. unfold register_node. by destruct (nodes E !! n). Qed.

Lemma register_node_wf E n ty v : well_formed E → well_formed (register_node E n ty v).
Proof.
  intros (Hix & Hid & Hreg).
  assert (∀ x nd' j, nodes (register_node E n ty v) !! x = Some nd' → j ∈ justifications nd' →
            ∃ nd, nodes E !! x = Some nd ∧ j ∈ justifications nd) as Hold.
  { intros x nd' j Hx Hj. rewrite register_node_lookup in Hx.
    destruct (decide (x = n)) as [->|Hne]; [|eauto]. simplify_eq.
    destruct (nodes E !! n) as [nd|]; simpl in Hj; [eauto|by apply elem_of_nil in Hj]. }
  split_and!.
  - intros x nd' j a Hx Hj Ha. destruct (Hold x nd' j Hx Hj) as (nd & ? & ?).
    unfold dependents. rewrite register_node_dependents. by eapply Hix.
  - intros x nd' Hx. rewrite register_node_lookup in Hx.
    destruct (decide (x = n)) as [->|Hne]; [|eauto]. simplify_eq.
    destruct (nodes E !! n) as [nd|] eqn:Hn; simpl; [eauto|done].
  - intros x nd' j a Hx Hj Ha. destruct (Hold x nd' j Hx Hj) as (nd & ? & ?).
    rewrite register_node_lookup. destruct (decide (a = n)); [done|]. by eapply Hreg.
Qed.

Lemma ensure_node_wf ty E n :
  well_formed E → well_formed (ensure_node ty E n) ∧ is_Some (nodes (ensure_node ty E n) !! n) ∧
  (∀ x, is_Some (nodes E !! x) → is_Some (nodes (ensure_node ty E n) !! x)).
Proof.
  intros W. unfold ensure_node. destruct (nodes E !! n) as [nd|] eqn:Hn; [by eauto|].
  split_and!; [by apply register_node_wf|rewrite register_node_lookup; by rewrite decide_True|].
  intros x Hx. rewrite register_node_lookup. by destruct (decide (x = n)).
Qed.

Lemma ensure_nodes_wf ty l E :
  well_formed E → well_formed (foldl (ensure_node ty) E l) ∧
  (∀ x, x ∈ l → is_Some (nodes (foldl (ensure_node ty) E l) !! x)) ∧
  (∀ x, is_Some (nodes E !! x) → is_Some (nodes (foldl (ensure_node ty) E l) !! x)).
Proof.
  revert E; induction l as [|n l IH]; intros E W; cbn [foldl];
    [split_and!; [done|by intros x ?%elem_of_nil|done]|].
  destruct (ensure_node_wf ty E n W) as (W1 & Hn & Hk).
  destruct (IH _ W1) as (I1 & I2 & I3). split_and!; [done| |eauto].
  intros x [->|?]%elem_of_cons; auto.
Qed.

Lemma add_dependents c l deps a x :
  x ∈ default ∅ (foldl (add_dependent c) deps l !! a) ↔
  x ∈ default ∅ (deps !! a) ∨ (x = c ∧ a ∈ l).
Proof.
  revert deps; induction l as [|a' l IH]; intros deps; cbn [foldl].
  - split; [by left|]. by intros [?|[_ ?%elem_of_nil]].
  - rewrite IH. unfold add_dependent. rewrite lookup_insert, elem_of_cons.
    destruct (decide (a' = a)) as [->|Hne]; simpl; [rewrite elem_of_union, elem_of_singleton|];
      naive_solver.
Qed.

Lemma add_justification_wf E n ants d : well_formed E → well_formed (add_justification E n ants d).
Proof.
  intros W. destruct (ensure_node_wf DERIVED E n W) as (W1 & Hn & _).
  destruct (ensure_nodes_wf ASSUMPTION (set_iter ants) _ W1) as ((Hix & Hid & Hreg) & Hants & Hk).
  unfold add_justification. set (E2 := foldl _ _ _) in *.
  assert (∀ x nd' j, alter (append_justification (MkJust n ants d)) n (nodes E2) !! x = Some nd' →
            j ∈ justifications nd' →
            (x = n ∧ antecedents j = ants) ∨ ∃ nd, nodes E2 !! x = Some nd ∧ j ∈ justifications nd) as Hold.
  { intros x nd' j Hx Hj. destruct (decide (x = n)) as [->|Hne].
    - rewrite lookup_alter_eq in Hx. apply fmap_Some in Hx as (nd & Hx & ->). simpl in Hj.
      apply elem_of_app in Hj as [Hj| ->%list_elem_of_singleton]; [right; eauto|by left].
    - rewrite lookup_alter_ne in Hx by done. right; eauto. }
  split_and!; unfold indexed, dependents; simpl.
  - intros x nd' j a Hx Hj Ha. apply add_dependents. rewrite elem_of_set_iter.
    destruct (Hold x nd' j Hx Hj) as [[-> <-]|(nd & ? & ?)]; [by right|left]. by eapply Hix.
  - intros x nd' Hx. rewrite lookup_alter in Hx. case_decide; [|by apply Hid].
    subst. apply fmap_Some in Hx as (nd & Hx & ->). simpl. by apply Hid.
  - intros x nd' j a Hx Hj Ha. rewrite lookup_alter_is_Some.
    destruct (Hold x nd' j Hx Hj) as [[-> <-]|(nd & ? & ?)]; [|by eapply Hreg].
    by apply Hants, elem_of_set_iter.
Qed.

Lemma retracted_wf E V E' : retracted E V E' → well_formed E → well_formed E'.
Proof.
  intros Hr (Hix & Hid & Hreg). split_and!; [by eapply retracted_indexed|..].
  - intros n nd' Hn. destruct Hr as [HE _]. rewrite HE in Hn.
    apply fmap_Some in Hn as (nd & Hn & ->). pose proof (Hid n nd Hn). by destruct (decide (n ∈ V)).
  - intros n nd' j a Hn Hj Ha. destruct (retracted_lookup E V E' n nd' Hr Hn) as (nd & Hn0 & _ & Hjs & _).
    destruct Hr as [-> _]. rewrite fmap_is_Some. rewrite Hjs in Hj. by eapply (Hreg n nd).
Qed.

Lemma invalidate_wf E t : well_formed E → well_formed (invalidate_assumption E t).1.
Proof.
  intros W. unfold invalidate_assumption. destruct (nodes E !! t) as [nd|] eqn:Ht; [|done].
  destruct (decide (atms_type nd = PREMISE)) as [|Hnp]; [done|].
  destruct (propagate_deprecation_done E t nd Ht Hnp) as (V & _ & Hr & _).
  by eapply retracted_wf.
Qed.

Lemma register_contradiction_wf E a b s : well_formed E → well_formed (register_contradiction E a b s).1.
Proof.
  intros W. unfold register_contradiction.
  set (E1 := add_justification _ _ _ _).
  assert (well_formed E1) as W1 by (apply add_justification_wf; exact W).
  destruct (nodes E1 !! a) as [na|]; [|done]. destruct (nodes E1 !! b) as [nb|]; [|done].
  destruct (is_valid na && is_valid nb); [|done].
  destruct (decide (s = _)); [by apply invalidate_wf|].
  destruct (decide (s = _)); [by apply invalidate_wf|].
  destruct (decide (s = _)); [|done].
  pose proof (invalidate_wf E1 a W1) as W2. destruct (invalidate_assumption E1 a) as [E2 sa].
  pose proof (invalidate_wf E2 b W2) as W3. by destruct (invalidate_assumption E2 b) as [E3 sb].
Qed.

Lemma evaluate_wf E : well_formed E → well_formed (evaluate_belief_states E).
Proof.
  intros (Hix & Hid & Hreg). destruct (evaluate_spec E) as [[Hb Hdep _] Hsp].
  assert (∀ n nd', nodes (evaluate_belief_states E) !! n = Some nd' →
            ∃ nd b, nodes E !! n = Some nd ∧ nd' = set_valid b nd) as Hold.
  { intros n nd' Hn. specialize (Hb n). rewrite Hn in Hb.
    destruct (nodes E !! n) as [nd|] eqn:Hn0; [|done].
    destruct (Hsp n nd Hn0) as (b & Hb' & _). exists nd, b. split; [done|]. congruence. }
  split_and!.
  - intros n nd' j a Hn Hj Ha. destruct (Hold n nd' Hn) as (nd & b & Hn0 & ->).
    unfold dependents. rewrite Hdep. by eapply (Hix n nd).
  - intros n nd' Hn. destruct (Hold n nd' Hn) as (nd & b & Hn0 & ->). by apply (Hid n nd).
  - intros n nd' j a Hn Hj Ha. destruct (Hold n nd' Hn) as (nd & b & Hn0 & ->).
    destruct (Hreg n nd j a Hn0 Hj Ha) as [na Hna]. by destruct (Hsp a na Hna) as (b' & -> & _).
Qed.

Lemma run_calls_wf calls E : well_formed E → well_formed (foldl run_call E calls).
Proof.
  revert E; induction calls as [|c calls IH]; intros E W; [done|].
  cbn [foldl]. apply IH. destruct c; simpl;
    eauto using register_node_wf, add_justification_wf, register_contradiction_wf, invalidate_wf,
      evaluate_wf.
Qed.

Lemma empty_engine_wf : well_formed empty_engine.
Proof.
  split_and!; [intros n nd j a Hn|intros n nd Hn|intros n nd j a Hn];
    unfold empty_engine in Hn; simpl in Hn; by rewrite lookup_empty in Hn.
Qed.

(** The engine's data-structure invariant.  After any sequence of
    registrations, justifications, contradictions, invalidations and belief
    evaluations from the empty engine, the reverse index covers every
    justification, every node sits under its own id and every antecedent is
    registered. *)
Theorem atms_calls_well_formed (calls : list atms_call) :
  well_formed (foldl run_call empty_engine calls).
Proof. apply run_calls_wf, empty_engine_wf. Qed.
End call_props.

(** ** Concrete runs *)

(** The service needs a server and a licence; the server runs from the mains
    or from the UPS; [loop_a] and [loop_b] only support each other. *)
Definition demo_calls : list atms_call :=
  [RegisterNode "licence" PREMISE true; RegisterNode "server" DERIVED true;
   RegisterNode "loop_b" DERIVED true;
   AddJustification "service" {["server"; "licence"]} "";
   AddJustification "server" {["mains"]} ""; AddJustification "server" {["ups"]} "";
   AddJustification "loop_a" {["loop_b"]} ""; AddJustification "loop_b" {["loop_a"]} "";
   EvaluateBeliefStates].
Definition demo_engine : ATMSEngine := foldl (@run_call canonical_iter) empty_engine demo_calls.

Lemma demo_engine_ok : indexed demo_engine ∧ consistent demo_engine.
Proof.
  split; [by apply (run_calls_wf (H:=canonical_iter)), empty_engine_wf|].
  apply (evaluate_consistent (H:=canonical_iter)).
Qed.

Lemma propagate_deprecation_restores_witness :
  let r := @propagate_deprecation canonical_iter demo_engine "server" in
  (is_valid <$> nodes demo_engine !! "service") = Some true ∧
  (is_valid <$> nodes demo_engine !! "loop_a") = Some false ∧
  r.2 = {["server"; "service"]} ∧
  (∀ n, is_Some (nodes r.1 !! n) ↔ is_Some (nodes demo_engine !! n)).
Proof.
  split_and!; [vm_compute; reflexivity|vm_compute; reflexivity|vm_compute; reflexivity|].
  destruct (nodes demo_engine !! "server") as [nd|] eqn:Hn; [|vm_compute in Hn; discriminate].
  apply (@propagate_deprecation_restores canonical_iter demo_engine "server" nd).
  - apply demo_engine_ok.
  - apply demo_engine_ok.
  - exact Hn.
  - vm_compute in Hn. injection Hn as <-. discriminate.
Defined.

Lemma assumption_retractions_consistent_witness :
  let E' := foldl (λ E t, (@invalidate_assumption canonical_iter E t).1) demo_engine ["mains"; "ups"] in
  (is_valid <$> nodes E' !! "service") = Some false ∧ consistent E'.
Proof.
  split; [vm_compute; reflexivity|].
  apply (@assumption_retractions_consistent canonical_iter demo_engine ["mains"; "ups"]).
  - apply demo_engine_ok.
  - apply demo_engine_ok.
  - intros t Ht. apply elem_of_cons in Ht as [->|Ht]; [|apply list_elem_of_singleton in Ht as ->];
      eexists; (split; [vm_compute; reflexivity|reflexivity]).
Defined.

Lemma is_node_provably_valid_decides_witness :
  memo_ok demo_engine (Some {["server" := false]}) ∧
  ((@is_node_provably_valid canonical_iter demo_engine "service" ∅ (Some {["server" := false]})).1 = true ↔
   derivable demo_engine (memo_false (Some {["server" := false]}) ∪ (∅ ∩ derived_nodes demo_engine)) "service").
Proof.
  assert (memo_ok demo_engine (Some {["server" := false]})) as Hm.
  { intros n Hn. simpl in Hn. apply lookup_singleton_Some in Hn as [_ ?]. discriminate. }
  split; [exact Hm|]. apply (@is_node_provably_valid_decides canonical_iter). exact Hm.
Defined.

(** The set [propagate_deprecation] returns is not the set of flipped nodes when
    it starts from a premise: the premise is reported and keeps its flag. *)
Lemma premise_reported_not_flipped :
  let r := @propagate_deprecation canonical_iter demo_engine "licence" in
  r.2 = {["licence"]} ∧ (is_valid <$> nodes r.1 !! "licence") = Some true.
Proof. split; vm_compute; reflexivity. Qed.

(** A contradiction registers the node ["FALSE"] as a valid derived belief, and
    resolving it reports that node among the retracted ones. *)
Lemma contradiction_reports_false :
  let r := @register_contradiction canonical_iter demo_engine "mains" "ups" "invalidate_b" in
  r.2 = {["ups"; "FALSE"]}.
Proof. vm_compute. reflexivity. Qed.
