(* ===== verification/AtmsCausal.v ===== *)
(** * AtmsCausal: the truth maintenance engine built from a causal graph

    [build_atms_from_causal_graph] and [evaluate_atms_intervention]: the
    cascade of an intervention is the impact set the causal engine computes. *)
From S2P Require Import Prelude PyFloat PyText Causal CausalFacts CausalProps Atms AtmsFacts AtmsCascade AtmsProps.

(** ** The dependencies *)
Definition dep_edge (e : CausalEdge) (x y : string) : Prop :=
  (is_forward e = true ∧ source_node_id e = x ∧ target_node_id e = y) ∨
  (is_reverse e = true ∧ target_node_id e = x ∧ source_node_id e = y).

Lemma elem_of_alter_add (deps : gmap string (gset string)) k v x y :
  (x ∈ default ∅ (alter (λ s, s ∪ {[v]}) k deps !! y) ↔
     x ∈ default ∅ (deps !! y) ∨ (is_Some (deps !! y) ∧ x = v ∧ y = k)) ∧
  (is_Some (alter (λ s, s ∪ {[v]}) k deps !! y) ↔ is_Some (deps !! y)).
Proof.
  split; [|by rewrite lookup_alter_is_Some]. rewrite lookup_alter.
  destruct (decide (k = y)) as [->|Hne]; [|naive_solver].
  destruct (deps !! y) as [s|]; simpl; [rewrite elem_of_union, elem_of_singleton|].
  - split; [|naive_solver]. intros [?| ->]; [by left|right]. split_and!; eauto.
  - split; [set_solver|]. intros [?|([? ?] & _)]; [set_solver|done].
Qed.

Lemma add_dependency_spec deps e x y :
  (x ∈ default ∅ (add_dependency deps e !! y) ↔
     x ∈ default ∅ (deps !! y) ∨ (is_Some (deps !! y) ∧ dep_edge e x y)) ∧
  (is_Some (add_dependency deps e !! y) ↔ is_Some (deps !! y)).
Proof.
  unfold add_dependency, dep_edge. destruct (is_forward e) eqn:Hf.
  - rewrite (forward_not_reverse e Hf).
    destruct (elem_of_alter_add deps (target_node_id e) (source_node_id e) x y) as [-> ->].
    split; [|done]. naive_solver.
  - destruct (is_reverse e).
    + destruct (elem_of_alter_add deps (source_node_id e) (target_node_id e) x y) as [-> ->].
      split; [|done]. naive_solver.
    + split; [|done]. naive_solver.
Qed.

Lemma add_dependencies_spec es deps x y :
  (x ∈ default ∅ (foldl add_dependency deps es !! y) ↔
     x ∈ default ∅ (deps !! y) ∨ (is_Some (deps !! y) ∧ ∃ e, e ∈ es ∧ dep_edge e x y)) ∧
  (is_Some (foldl add_dependency deps es !! y) ↔ is_Some (deps !! y)).
Proof.
  revert deps; induction es as [|e es IH]; intros deps; cbn [foldl].
  - split; [|done]. split; [by left|]. intros [?|(_ & e & ?%elem_of_nil & _)]; done.
  - destruct (IH (add_dependency deps e)) as [-> ->].
    destruct (add_dependency_spec deps e x y) as [-> ->]. split; [|done].
    setoid_rewrite elem_of_cons. naive_solver.
Qed.

Section build.
Context `{PyIter}.

Lemma add_items_spec items deps x y :
  let r := foldl (λ deps '(_, edges), foldl add_dependency deps edges) deps items in
  (x ∈ default ∅ (r !! y) ↔ x ∈ default ∅ (deps !! y) ∨
     (is_Some (deps !! y) ∧ ∃ (k : string) es e, (k, es) ∈ items ∧ e ∈ es ∧ dep_edge e x y)) ∧
  (is_Some (r !! y) ↔ is_Some (deps !! y)).
Proof.
  revert deps; induction items as [|[k es] items IH]; intros deps; cbn [foldl].
  - split; [|done]. split; [by left|]. intros [?|(_ & k & es & e & ?%elem_of_nil & _)]; done.
  - destruct (IH (foldl add_dependency deps es)) as [-> ->].
    destruct (add_dependencies_spec es deps x y) as [-> ->]. split; [|done].
    setoid_rewrite elem_of_cons. naive_solver.
Qed.

(** The antecedents of a node are its causal parents. *)
Lemma causal_dependencies_spec g x y :
  wf_graph g → x ∈ default ∅ (causal_dependencies g !! y) ↔ propagates g x y.
Proof.
  intros W. unfold causal_dependencies.
  destruct (add_items_spec (dict_iter (_outgoing g)) (gset_to_gmap ∅ (node_ids g)) x y) as [-> _].
  assert (∀ s : option (gset string), s = Some ∅ ∨ s = None → x ∉ default ∅ s) as Hem
    by (intros s [-> | ->]; set_solver).
  assert (is_Some (gset_to_gmap (∅ : gset string) (node_ids g) !! y) ↔ y ∈ node_ids g) as Hdom
    by (rewrite <- elem_of_dom, dom_gset_to_gmap; done).
  setoid_rewrite elem_of_dict_iter. rewrite Hdom. unfold propagates, dep_edge. split.
  - intros [Hx|(Hy & k & es & e & Hk & He & Hd)].
    { destruct (Hem (gset_to_gmap ∅ (node_ids g) !! y)); [|done].
      rewrite lookup_gset_to_gmap. destruct (decide (y ∈ node_ids g)); simplify_option_eq; auto. }
    assert (e ∈ outgoing_edges g k) as Hout by (unfold outgoing_edges; by rewrite Hk).
    pose proof (wf_out _ W _ _ Hout) as <-.
    destruct Hd as [(Hf & <- & <-)|(Hr & <- & <-)]; [left; eauto|right].
    exists e. split_and!; [by apply (wf_mirror _ W)|done|done].
  - intros Hp. right.
    assert (∃ e, e ∈ outgoing_edges g (source_node_id e) ∧ dep_edge e x y) as (e & He & Hd).
    { destruct Hp as [(e & He & Hf & <-)|(e & He & Hr & <-)]; exists e; unfold dep_edge.
      - pose proof (wf_out _ W _ _ He) as <-. auto.
      - pose proof (wf_inc _ W _ _ He) as <-. split; [by apply (wf_mirror _ W)|auto]. }
    split; [|]. { destruct (wf_nodes _ W _ _ He). by destruct Hd as [(_ & _ & <-)|(_ & _ & <-)]. }
    unfold outgoing_edges in He. apply elem_of_default_lookup in He as (es & Hes & He). eauto 10.
Qed.

(** ** The engine *)
Context (deps : gmap string (gset string)).
Definition ants (n : string) : gset string := default ∅ (deps !! n).

Definition built_node (n : string) : ATMSNode :=
  if decide (ants n = ∅) then MkATMSNode n ASSUMPTION true []
  else MkATMSNode n DERIVED true [MkJust n (ants n) "Causal dependency"].

Record build_inv (done : gset string) (E : ATMSEngine) : Prop := {
  bi_done n : n ∈ done → nodes E !! n = Some (built_node n);
  bi_todo n nd : n ∉ done → nodes E !! n = Some nd →
    nd = MkATMSNode n ASSUMPTION true [] ∧ ∃ c, c ∈ done ∧ n ∈ ants c;
  bi_index a c : c ∈ dependents E a ↔ c ∈ done ∧ a ∈ ants c
}.

Lemma ensure_assumptions l E x :
  nodes (foldl (ensure_node ASSUMPTION) E l) !! x =
    match nodes E !! x with
    | Some nd => Some nd
    | None => if decide (x ∈ l) then Some (MkATMSNode x ASSUMPTION true []) else None
    end ∧ _dependents (foldl (ensure_node ASSUMPTION) E l) = _dependents E.
Proof.
  revert E; induction l as [|n l IH]; intros E; cbn [foldl].
  - split; [|done]. by destruct (nodes E !! x).
  - destruct (IH (ensure_node ASSUMPTION E n)) as [-> ->].
    unfold ensure_node. destruct (nodes E !! n) as [nd|] eqn:Hn.
    + split; [|done]. destruct (nodes E !! x) eqn:Hx; [done|]. apply decide_ext.
      rewrite elem_of_cons. split; [by right|]. intros [->|?]; [congruence|done].
    + rewrite register_node_dependents, register_node_lookup, Hn. split; [|done].
      destruct (decide (x = n)) as [->|Hne]; [rewrite Hn, decide_True; [done|left]|].
      destruct (nodes E !! x); [done|]. apply decide_ext. rewrite elem_of_cons. naive_solver.
Qed.

Lemma add_causal_node_inv done E n :
  n ∉ done → build_inv done E → build_inv (done ∪ {[n]}) (add_causal_node deps E n).
Proof.
  intros Hn [Hd Ht Hi]. unfold add_causal_node. fold (ants n).
  assert (∀ ty, nodes (register_node E n ty true) !! n = Some (MkATMSNode n ty true [])) as Hreg.
  { intros ty. rewrite register_node_lookup, decide_True by done.
    destruct (nodes E !! n) as [nd|] eqn:Hnd; [|done]. by destruct (Ht n nd Hn Hnd) as [-> _]. }
  assert (∀ ty x, x ≠ n → nodes (register_node E n ty true) !! x = nodes E !! x) as Hoth
    by (intros ty x Hx; by rewrite register_node_lookup, decide_False).
  destruct (decide (ants n = ∅)) as [He|He].
  - constructor.
    + intros x [Hx| ->%elem_of_singleton]%elem_of_union.
      * rewrite Hoth by (by intros ->). by apply Hd.
      * rewrite Hreg. unfold built_node. by rewrite decide_True.
    + intros x nd Hx Hl. rewrite Hoth in Hl by set_solver. destruct (Ht x nd) as (-> & c & ? & ?);
        [set_solver|done|]. split; [done|]. exists c. set_solver.
    + intros a c. unfold dependents. rewrite register_node_dependents. fold (dependents E a).
      rewrite Hi, elem_of_union, elem_of_singleton. split; [naive_solver|].
      intros [[?| ->] Ha]; [done|]. rewrite He in Ha. set_solver.
  - set (E1 := register_node E n DERIVED true).
    unfold add_justification. assert (ensure_node DERIVED E1 n = E1) as ->
      by (unfold ensure_node, E1; by rewrite Hreg).
    assert (∀ x, nodes (foldl (ensure_node ASSUMPTION) E1 (set_iter (ants n))) !! x =
      match nodes E1 !! x with
      | Some nd => Some nd
      | None => if decide (x ∈ ants n) then Some (MkATMSNode x ASSUMPTION true []) else None
      end) as Hens.
    { intros x. rewrite (proj1 (ensure_assumptions _ E1 x)). destruct (nodes E1 !! x); [done|].
      apply decide_ext. apply elem_of_set_iter. }
    pose proof (proj2 (ensure_assumptions (set_iter (ants n)) E1 n)) as Hdep.
    set (E2 := foldl _ E1 _) in *.
    assert (nodes E2 !! n = Some (MkATMSNode n DERIVED true [])) as Hn2 by (rewrite Hens; unfold E1; by rewrite Hreg).
    constructor; simpl.
    + intros x [Hx| ->%elem_of_singleton]%elem_of_union.
      * assert (x ≠ n) by (by intros ->). rewrite lookup_alter_ne, Hens by done.
        unfold E1. by rewrite Hoth, (Hd x Hx).
      * rewrite lookup_alter_eq, Hn2. simpl. unfold built_node. by rewrite decide_False.
    + intros x nd Hx Hl. assert (x ≠ n ∧ x ∉ done) as [Hxn Hxd] by set_solver.
      rewrite lookup_alter_ne, Hens in Hl by done. unfold E1 in Hl. rewrite Hoth in Hl by done.
      destruct (nodes E !! x) as [nd'|] eqn:Hx'.
      * simplify_eq. destruct (Ht x nd Hxd Hx') as (-> & c & ? & ?). split; [done|].
        exists c. set_solver.
      * destruct (decide (x ∈ ants n)); simplify_eq. split; [done|]. exists n. set_solver.
    + intros a c. unfold dependents. simpl. rewrite add_dependents, elem_of_set_iter, Hdep.
      unfold E1. rewrite register_node_dependents. fold (dependents E a). rewrite Hi. set_solver.
Qed.

Lemma build_fold l done E :
  NoDup l → (∀ n, n ∈ l → n ∉ done) → build_inv done E →
  build_inv (done ∪ list_to_set l) (foldl (add_causal_node deps) E l).
Proof.
  revert done E; induction l as [|n l IH]; intros done E Hnd Hl Hinv; cbn [foldl].
  - by rewrite list_to_set_nil, union_empty_r_L.
  - apply NoDup_cons in Hnd as [Hn Hnd]. rewrite list_to_set_cons, union_assoc_L. apply IH; [done| |].
    + intros x Hx. apply not_elem_of_union. split; [apply Hl; by right|]. set_solver.
    + apply add_causal_node_inv; [apply Hl; left|done].
Qed.
End build.

(** ** The intervention *)
Lemma retracted_trans E V E1 V1 E2 :
  retracted E V E1 → retracted E1 V1 E2 → retracted E (V ∪ V1) E2.
Proof.
  intros (H1 & H2 & H3) (H4 & H5 & H6). split_and!; [|congruence|congruence].
  intros n. rewrite H4, H1. destruct (nodes E !! n) as [nd|]; simpl; [|done]. f_equal.
  destruct (decide (n ∈ V)), (decide (n ∈ V1)), (decide (n ∈ V ∪ V1)); try done; set_solver.
Qed.

Section intervention.
Context `{PyIter} (g : CausalGraph) (W : wf_graph g).
Let deps := causal_dependencies g.
Let E0 := build_atms_from_causal_graph g.

Lemma built_inv : build_inv deps (node_ids g) E0.
Proof.
  assert (node_ids g = ∅ ∪ list_to_set (set_iter (node_ids g))) as Hn.
  { apply set_eq. intros x. rewrite elem_of_union, elem_of_list_to_set, elem_of_set_iter. set_solver. }
  rewrite Hn at 1. apply build_fold; [apply NoDup_set_iter|set_solver|].
  constructor; [set_solver|..].
  - intros n nd _ Hl. unfold empty_engine in Hl; simpl in Hl. by rewrite lookup_empty in Hl.
  - intros a c. unfold dependents, empty_engine. simpl. rewrite lookup_empty. simpl. set_solver.
Qed.

Lemma ants_propagates x y : x ∈ ants deps y ↔ propagates g x y.
Proof. by apply causal_dependencies_spec. Qed.

Lemma propagates_nodes x y : propagates g x y → x ∈ node_ids g ∧ y ∈ node_ids g.
Proof.
  intros [(e & He & _ & <-)|(e & He & _ & <-)].
  - pose proof (wf_out _ W _ _ He) as <-. by apply (wf_nodes _ W _ _ He).
  - pose proof (wf_inc _ W _ _ He) as <-.
    assert (e ∈ outgoing_edges g (source_node_id e)) as Ho by by apply (wf_mirror _ W).
    destruct (wf_nodes _ W _ _ Ho). done.
Qed.

Lemma built_step a c : depends_step E0 a c ↔ propagates g a c.
Proof.
  unfold depends_step. rewrite (bi_index _ _ _ built_inv), ants_propagates. split; [naive_solver|].
  intros Hp. by destruct (propagates_nodes a c Hp).
Qed.

Lemma built_lookup n :
  nodes E0 !! n = if decide (n ∈ node_ids g) then Some (built_node deps n) else None.
Proof.
  destruct (decide (n ∈ node_ids g)) as [Hn|Hn]; [by apply (bi_done _ _ _ built_inv)|].
  destruct (nodes E0 !! n) as [nd|] eqn:Hl; [|done].
  destruct (bi_todo _ _ _ built_inv n nd Hn Hl) as (_ & c & _ & Ha).
  apply ants_propagates, propagates_nodes in Ha as [? _]. done.
Qed.

(** An engine reached from the built one by retracting a set that is closed
    under the failure steps. *)
Definition closed_retraction (V : gset string) (E : ATMSEngine) : Prop :=
  retracted E0 V E ∧ ∀ a c, a ∈ V → propagates g a c → c ∈ V.

Lemma propagate_closed E V t :
  closed_retraction V E → t ∈ node_ids g →
  let r := propagate_deprecation E t in
  ∃ V', closed_retraction V' r.1 ∧ (∀ n, n ∈ V' ↔ n ∈ V ∨ rtc (propagates g) t n) ∧
        V ∪ r.2 = V'.
Proof.
  intros [Hret Hcl] Ht r.
  assert (∀ n nd, nodes E !! n = Some nd → ∃ b, nd = set_valid b (built_node deps n) ∧
            (b = true ↔ n ∉ V) ∧ n ∈ node_ids g) as Hnode.
  { intros n nd Hn. destruct Hret as [HE _]. rewrite HE, built_lookup in Hn.
    destruct (decide (n ∈ node_ids g)); [|done]. cbn [fmap option_fmap option_map] in Hn.
    injection Hn as <-. destruct (decide (n ∈ V)).
    - exists false. naive_solver.
    - exists true. unfold built_node. destruct (decide _); naive_solver. }
  assert (is_Some (nodes E !! t)) as [ndt Hndt]
    by (destruct Hret as [HE _]; rewrite HE, built_lookup, decide_True by done; simpl; eauto).
  assert (atms_type ndt ≠ PREMISE) as Hnp.
  { destruct (Hnode t ndt Hndt) as (b & -> & _). simpl. unfold built_node. by destruct (decide _). }
  assert (∀ a c, depends_step E a c ↔ propagates g a c) as Hstep.
  { intros a c. unfold depends_step, dependents. destruct Hret as (_ & -> & _). apply built_step. }
  destruct (propagate_deprecation_done E t ndt Hndt Hnp) as (V1 & HtV & Hr & Hvis & Hclo & Hc).
  fold r in Hr, Hc.
  assert (∀ n, n ∈ V ∪ V1 ↔ n ∈ V ∨ rtc (propagates g) t n) as Hmem.
  { intros n. rewrite elem_of_union. split.
    - intros [?|Hn]; [by left|right]. destruct (Hvis n Hn) as [_ Hrt].
      eapply rtc_subrel; [|exact Hrt]. intros a c. by apply Hstep.
    - intros [?|Hrt]; [by left|]. revert n Hrt.
      refine (rtc_ind_r (λ n, n ∈ V ∨ n ∈ V1) t _ _); [by right|].
      intros a c _ Hac [Ha|Ha]; [left; by eapply Hcl|].
      destruct (propagates_nodes a c Hac) as [_ Hcn].
      destruct (decide (c ∈ V)) as [?|HcV]; [by left|right].
      apply (Hclo a c Ha); [by apply Hstep|].
      destruct (affected_node E t ndt Hndt Hnp a (Hvis a Ha)) as (_ & _ & _ & Hund & _).
      assert (is_Some (nodes E !! c)) as [ndc Hndc]
        by (destruct Hret as [HE _]; rewrite HE, built_lookup, decide_True by done; simpl; eauto).
      destruct (Hnode c ndc Hndc) as (b & Heq & Hb & _).
      assert (a ∈ ants deps c) as Hants by by apply ants_propagates.
      exists ndc. subst ndc. unfold built_node in *.
      destruct (decide (ants deps c = ∅)) as [He|_]; [rewrite He in Hants; set_solver|].
      simpl. split_and!; [done|done|by apply Hb|]. intros Hder.
      inversion Hder as [? ? ? Hl Hty|? ? ? Hl Hty|? nd j ? Hl Hty Hj Ha']; subst;
        rewrite Hndc in Hl; simplify_eq; simpl in *; try congruence.
      apply list_elem_of_singleton in Hj as ->. by apply Hund, Ha'. }
  exists (V ∪ V1). split_and!; [|done|].
  - split; [by eapply retracted_trans|]. intros a c Ha Hac. apply Hmem in Ha. apply Hmem.
    destruct Ha as [Ha|Ha]; [left; by eapply Hcl|right; by eapply rtc_r].
  - apply set_eq. intros n. rewrite !elem_of_union. split.
    + intros [?|Hn]; [by left|right]. by apply Hc in Hn as [? _].
    + intros [?|Hn]; [by left|]. destruct (decide (n ∈ V)) as [?|HnV]; [by left|right].
      apply Hc. split; [done|].
      destruct (affected_node E t ndt Hndt Hnp n (Hvis n Hn)) as (nd & Hl & _).
      exists nd. split; [done|]. destruct (Hnode n nd Hl) as (b & -> & Hb & _). by apply Hb.
Qed.

Lemma intervene_step E V t :
  closed_retraction V E →
  let r := intervene (E, V) t in
  closed_retraction r.2 r.1 ∧
  ∀ n, n ∈ r.2 ↔ n ∈ V ∨ (t ∈ node_ids g ∧ rtc (propagates g) t n).
Proof.
  intros Hcl. unfold intervene, invalidate_assumption.
  pose proof Hcl as [[HE _] _]. specialize (HE t). rewrite built_lookup in HE.
  destruct (decide (t ∈ node_ids g)) as [Ht|Ht].
  2:{ simpl in HE. rewrite HE. cbn [fst snd]. rewrite decide_False by (rewrite HE; by intros [? ?]).
      cbn [fst snd]. rewrite (right_id_L ∅ (∪)). split; [done|]. intros n.
      split; [by left|by intros [?|[? _]]]. }
  cbn [fmap option_fmap option_map] in HE. rewrite HE.
  rewrite decide_False
    by (unfold built_node; destruct (decide (t ∈ V)), (decide (ants deps t = ∅)); done).
  destruct (propagate_closed E V t Hcl Ht) as (V1 & Hcl1 & Hm1 & Hu1).
  destruct (propagate_deprecation E t) as [E1 c1]. cbn [fst snd] in *.
  rewrite decide_True.
  2:{ destruct Hcl1 as [[HE1 _] _]. rewrite HE1, built_lookup, decide_True by done. simpl; eauto. }
  destruct (propagate_closed E1 V1 t Hcl1 Ht) as (V2 & Hcl2 & Hm2 & Hu2).
  destruct (propagate_deprecation E1 t) as [E2 c2]. cbn [fst snd] in *.
  rewrite Hu1, Hu2. split; [done|]. intros n. rewrite Hm2, Hm1. by_cases_mem.
Qed.

Lemma intervene_fold ts E V :
  closed_retraction V E →
  ∀ n, n ∈ (foldl intervene (E, V) ts).2 ↔
    n ∈ V ∨ ∃ t, t ∈ ts ∧ t ∈ node_ids g ∧ rtc (propagates g) t n.
Proof.
  revert E V; induction ts as [|t ts IH]; intros E V Hcl n; cbn [foldl snd].
  - split; [by left|]. intros [?|(t & ?%elem_of_nil & _)]; done.
  - destruct (intervene_step E V t Hcl) as [Hcl1 Hm].
    destruct (intervene (E, V) t) as [E1 V1]; cbn [fst snd] in *.
    rewrite (IH E1 V1 Hcl1), Hm. setoid_rewrite elem_of_cons. by_cases_mem.
Qed.

Lemma intervention_spec ts n :
  n ∈ evaluate_atms_intervention g ts ↔ ∃ t, t ∈ ts ∧ t ∈ node_ids g ∧ rtc (propagates g) t n.
Proof.
  unfold evaluate_atms_intervention. rewrite intervene_fold.
  - split; [|by right]. intros [Hn|?]; [by apply elem_of_empty in Hn|done].
  - split; [|by intros a c ?%elem_of_empty]. split_and!; [|done|done]. intros m. fold E0.
    by destruct (nodes E0 !! m).
Qed.
End intervention.

(** C35: The truth maintenance engine agrees with the causal engine.  On any
    well-formed graph (cycles included, as [load_from_db] builds them) and any list
    of targets, known or not, with repetitions, in any order: building the engine of
    the graph and retracting the targets one after the other, the cascade
    [evaluate_atms_intervention] returns is exactly the targets that are nodes of
    the graph together with the nodes the breadth-first search [impacted_by] reaches
    from them by failure propagation. *)
Theorem evaluate_atms_intervention_impacted `{PyIter} g ts n :
  wf_graph g →
  n ∈ evaluate_atms_intervention g ts ↔
    ∃ t, t ∈ ts ∧ t ∈ node_ids g ∧ (n = t ∨ n ∈ impacted_by g t).
Proof.
  intros W. rewrite (intervention_spec g W). setoid_rewrite impacted_by_rtc.
  split; intros (t & Ht & Hn & Hr); exists t; (split_and!; [done..|]).
  - destruct (decide (n = t)); auto.
  - by destruct Hr as [->|[_ ?]].
Qed.

Lemma evaluate_atms_intervention_impacted_witness :
  wf_graph demo_graph ∧
  @evaluate_atms_intervention canonical_iter demo_graph ["pdu"; "nowhere"] =
    {["pdu"; "switch"; "server"; "storage"; "app"]} ∧
  ("generator" ∈ @evaluate_atms_intervention canonical_iter demo_graph ["pdu"] ↔
    ∃ t, t ∈ ["pdu"] ∧ t ∈ node_ids demo_graph ∧
         ("generator" = t ∨ "generator" ∈ impacted_by demo_graph t)).
Proof.
  split_and!; [apply from_rows_wf|vm_compute; reflexivity|].
  apply (@evaluate_atms_intervention_impacted canonical_iter), from_rows_wf.
Defined.
