(* ===== verification/EventTypes.v ===== *)
(** * EventTypes: the event vocabulary and the parameter contracts

    Transcribes the tables of [src/nce/event_types.py]. *)
From S2P Require Import Prelude.

(** [EventType] and [VALID_EVENT_TYPES]. *)
Definition VALID_EVENT_TYPES : list string :=
  [
   "store_memory"; "store_memory_rolled_back"; "forget_memory"; "boost_memory"; "memory_shredded";
   "resolve_contradiction"; "consolidation_run"; "pii_redaction"; "snapshot_created"; "unredact";
   "namespace_access_granted"; "namespace_access_revoked"; "namespace_created";
   "namespace_metadata_updated"; "namespace_impersonated"; "partner_scope_impersonated";
   "customer_scope_impersonated"; "namespace_deletion_requested"; "namespace_disabled";
   "migration_start_requested"; "migration_commit_requested"; "migration_abort_requested";
   "migration_started"; "migration_committed"; "migration_aborted"; "a2a_grant_created";
   "a2a_grant_revoked"; "a2a_shared_query"; "signing_key_rotated"; "saga_recovered";
   "chain_verification_failed"; "atms_cascade"; "config_changed"; "config_reset"; "config_reload";
   "d365_sla_breach"; "project_phase_advanced"; "system_design_authored"; "ingestion_completed";
   "quarantine_confirmed"; "quarantine_rejected"; "edge_confidence_floored";
   "consolidation_requeue"; "sales_ai_decision"; "support_ticket_opened";
   "support_ticket_resolved"; "support_touchpoint_recorded"; "support_diagnosis_authored";
   "field_tech_work_order_created"; "field_tech_work_order_assigned";
   "field_tech_checklist_completed"; "field_tech_serial_scanned"; "field_tech_time_logged";
   "field_tech_outcome_recorded"; "hr_employee_created"; "hr_absence_registered";
   "hr_compliance_milestone_recorded"; "hr_quest_progressed"; "marketing_case_study_drafted";
   "marketing_testimonial_requested"; "marketing_testimonial_captured";
   "marketing_testimonial_retracted"; "marketing_content_approved"; "marketing_content_published";
   "business_insights_briefing_generated"; "business_insights_finding_surfaced";
   "business_insights_scenario_executed"; "business_insights_board_pack_drafted";
   "business_insights_access_audited"
  ].

Definition EVENT_REQUIRED_PARAM_KEYS : list (string * list string) :=
  [
   ("d365_sla_breach",
    ["incident_id"; "breach_type"; "account_name"; "memory_id"; "mongo_id"]);
   ("store_memory",
    ["saga_id"; "memory_id"; "payload_ref"; "assertion_type"; "entities"; "triplets"]);
   ("store_memory_rolled_back",
    ["saga_id"; "memory_id"; "reason"; "payload_ref"]);
   ("forget_memory",
    ["memory_id"]);
   ("memory_shredded",
    ["memory_id"; "payload_ref"; "dek_key_id"; "was_encrypted"; "kg_nodes_deleted";
     "kg_edges_deleted"; "embeddings_deleted"; "pii_redactions_deleted"; "cascade_ids";
     "receipt_digest"]);
   ("boost_memory",
    ["memory_id"; "factor"]);
   ("resolve_contradiction",
    ["contradiction_id"; "resolution"]);
   ("consolidation_run",
    ["abstraction"; "key_entities"; "key_relations"; "supporting_memory_ids";
     "contradicting_memory_ids"; "confidence"; "source_memories"; "consolidated_memory_id";
     "payload_ref"]);
   ("pii_redaction",
    ["memory_id"]);
   ("snapshot_created",
    ["snapshot_id"; "name"; "snapshot_at"]);
   ("unredact",
    ["memory_id"]);
   ("namespace_created",
    ["slug"]);
   ("namespace_metadata_updated",
    ["old_metadata"; "new_metadata"]);
   ("namespace_disabled",
    ["was_disabled"]);
   ("namespace_access_granted",
    ["granting_namespace_id"; "grantee_namespace_id"]);
   ("namespace_access_revoked",
    ["revoking_namespace_id"; "revokee_namespace_id"]);
   ("namespace_impersonated",
    ["impersonated_namespace_id"; "impersonating_agent"]);
   ("partner_scope_impersonated",
    ["partner_scope_id"; "caller_identity"]);
   ("customer_scope_impersonated",
    ["customer_scope_id"; "caller_identity"]);
   ("migration_start_requested",
    ["target_model_id"]);
   ("migration_commit_requested",
    ["migration_id"]);
   ("migration_abort_requested",
    ["migration_id"]);
   ("migration_started",
    ["target_model_id"]);
   ("migration_committed",
    ["migration_id"]);
   ("migration_aborted",
    ["migration_id"]);
   ("a2a_grant_created",
    ["grant_id"; "target_agent_id"; "scope_count"; "expires_at"]);
   ("a2a_grant_revoked",
    ["grant_id"]);
   ("saga_recovered",
    ["memory_id"; "saga_id"; "recovery_action"; "reason"]);
   ("chain_verification_failed",
    ["first_break"; "reason"]);
   ("atms_cascade",
    ["contradiction_id"; "invalidated_memory_id"; "invalidated_ids"]);
   ("config_changed",
    ["actor"; "changes"]);
   ("config_reset",
    ["actor"; "resets"]);
   ("config_reload",
    ["actor"; "domain"; "message"]);
   ("ingestion_completed",
    ["ingest_id"; "device_slug"; "digest_payload_ref"; "anomaly_count"; "processed_lines"]);
   ("quarantine_confirmed",
    ["queue_item_id"; "agent_id"; "operator_id"]);
   ("quarantine_rejected",
    ["queue_item_id"; "agent_id"; "operator_id"; "payload_sha256"]);
   ("edge_confidence_floored",
    ["contradiction_id"; "retracted_memory_ids"; "floored_edge_count"]);
   ("consolidation_requeue",
    ["contradiction_id"; "deleted_consolidated_id"; "requeued_source_ids"]);
   ("hr_employee_created",
    ["employee_id"; "role"; "department"]);
   ("hr_absence_registered",
    ["absence_id"; "employee_id"; "type"]);
   ("hr_compliance_milestone_recorded",
    ["absence_id"; "milestone"; "completed"]);
   ("hr_quest_progressed",
    ["employee_id"; "progress_pct"])
  ].

Definition EVENT_FORBIDDEN_PARAM_KEYS : list (string * list string) :=
  [
   ("unredact",
    ["pii_redaction"]);
   ("pii_redaction",
    ["unredact"]);
   ("memory_shredded",
    ["raw_data"; "content"; "summary"; "heavy_payload"; "entities"; "triplets"]);
   ("a2a_grant_created",
    ["sharing_token"; "token_hash"; "scopes"]);
   ("a2a_grant_revoked",
    ["sharing_token"; "token_hash"]);
   ("quarantine_rejected",
    ["payload"; "raw_payload"; "content"; "summary"; "heavy_payload"]);
   ("hr_employee_created",
    ["ranking"; "score"; "leaderboard"]);
   ("hr_absence_registered",
    ["ranking"; "score"; "diagnosis"]);
   ("hr_compliance_milestone_recorded",
    ["ranking"; "score"]);
   ("hr_quest_progressed",
    ["ranking"; "score"; "leaderboard"]);
   ("marketing_case_study_drafted",
    ["margin"; "cost"; "internal_cost"]);
   ("marketing_testimonial_requested",
    ["margin"; "cost"; "internal_cost"]);
   ("marketing_testimonial_captured",
    ["margin"; "cost"; "internal_cost"]);
   ("marketing_testimonial_retracted",
    ["margin"; "cost"; "internal_cost"]);
   ("marketing_content_approved",
    ["margin"; "cost"]);
   ("marketing_content_published",
    ["margin"; "cost"])
  ].
