(* ===== verification/EventLog.v ===== *)
(** * EventLog: the hash-chained, signed event log

    Models [src/nce/event_log.py]: the signing fields, the validation guards,
    sequence allocation, the Merkle chain, [append_event] with its inserts, and
    the verifiers [verify_event_signature] and [verify_merkle_chain].  The
    tables the module writes are the state; [append_event] runs in its caller's
    transaction, so an error result carries no state (the transaction rolls
    back).  SHA-256, HMAC, the JCS encoder, the [jsonb] round trip of PostgreSQL
    and [datetime.fromisoformat] are parameters. *)
From S2P Require Import Prelude PyText EventTypes.

(** ** Data *)
Definition jobject : Type := list (string * json).

Record event_row := EventRow {
  ev_id : string;
  ev_namespace_id : string;
  ev_agent_id : string;
  ev_event_type : string;
  ev_seq : Z;
  ev_occurred_at : Z;              (* microseconds since the epoch *)
  ev_params : jobject;
  ev_result_summary : option jobject;
  ev_parent_event_id : option string;
  ev_llm_payload_uri : option string;
  ev_llm_payload_hash : option string;
  ev_signature : string;
  ev_signature_key_id : string;
  ev_signature_version : option Z;
  ev_chain_hash : option string;
  ev_correlation_id : option string
}.

Record log_db := LogDb {
  event_log : list event_row;                       (* insertion order *)
  event_sequences : gmap string Z;
  event_parents : list (string * string * string);
  replay_runs : gmap string string;                 (* run id to replay mode *)
  signing_keys : gmap string string;                (* decrypted *)
  active_key : option string
}.

Record append_args := AppendArgs {
  in_transaction : bool;
  a_namespace_id : string;
  a_agent_id : string;
  a_event_type : string;
  a_params : jobject;
  a_result_summary : option jobject;
  a_parent_event_id : option string;
  a_parent_event_ids : list string;
  a_llm_payload_uri : option string;
  a_llm_payload_hash : option string;
  a_correlation_id : option string;
  a_event_id : option string;
  a_replay_occurred_at : option Z
}.

(** What the call reads from its environment. *)
Record call_env := CallEnv {
  db_clock : Z;                       (* clock_timestamp() *)
  py_now : Z;                         (* datetime.now(timezone.utc) *)
  fresh_uuid : string;                (* uuid.uuid4() *)
  context_correlation : option string (* get_correlation_id() *)
}.

Record AppendResult := MkAppendResult {
  r_event_id : string;
  r_event_seq : Z;
  r_occurred_at : Z
}.

Inductive event_error :=
  | EventLogError
  | InvalidEventTypeError
  | ValueError
  | EventLogTimestampError
  | EventLogSigningError
  | EventLogSequenceError
  | DataIntegrityError.

Definition _AGENT_ID_MAX_LEN : nat := 128.

Fixpoint zero_bytes (n : nat) : string :=
  match n with 0 => EmptyString | S n => String (Ascii.ascii_of_N 0) (zero_bytes n) end.
Definition _GENESIS_SENTINEL : string := zero_bytes 32.

Definition str_mem (x : string) (l : list string) : bool := existsb (String.eqb x) l.

(** ** Signing fields and guards *)
Definition _build_signing_fields (event_id ns agent_id event_type : string) (event_seq : Z)
    (occurred_at_iso : string) (params : jobject) (parent_event_id prev_chain_hash_hex : option string) :
    jobject :=
  [("event_id", JStr event_id); ("namespace_id", JStr ns); ("agent_id", JStr agent_id);
   ("event_type", JStr event_type); ("event_seq", JInt event_seq);
   ("occurred_at", JStr occurred_at_iso); ("params", JObj params)] ++
  match parent_event_id with Some p => [("parent_event_id", JStr p)] | None => [] end ++
  match prev_chain_hash_hex with Some h => [("prev_chain_hash", JStr h)] | None => [] end.

Definition _validate_event_payload (event_type agent_id : string) : result event_error string :=
  _ ← ensure (str_mem event_type VALID_EVENT_TYPES) InvalidEventTypeError;
  let agent_id := strip agent_id in
  _ ← ensure (negb (String.eqb agent_id "")) ValueError;
  _ ← ensure (String.length agent_id <=? _AGENT_ID_MAX_LEN)%nat ValueError;
  Ok agent_id.

Definition keys_of (table : list (string * list string)) (event_type : string) : list string :=
  match List.find (λ kv, String.eqb kv.1 event_type) table with Some kv => kv.2 | None => [] end.

Definition _validate_event_params (event_type : string) (params : jobject) : result event_error unit :=
  let required := keys_of EVENT_REQUIRED_PARAM_KEYS event_type in
  _ ← ensure (forallb (λ k, str_mem k (json_keys params)) required) ValueError;
  let forbidden := keys_of EVENT_FORBIDDEN_PARAM_KEYS event_type in
  ensure (negb (existsb (λ k, str_mem k (json_keys params)) forbidden)) ValueError.

(** [vf.replace("Z", "+00:00")] *)
Fixpoint replace_Z (s : string) : string :=
  match s with
  | EmptyString => EmptyString
  | String c s' => if (char_code c =? 90)%N then "+00:00" +:+ replace_Z s' else String c (replace_Z s')
  end.

(** ** The table operations *)
Definition ns_rows (ns : string) (db : log_db) : list event_row :=
  List.filter (λ r, String.eqb (ev_namespace_id r) ns) (event_log db).

Definition by_seq (r s : event_row) : bool := (ev_seq r <=? ev_seq s)%Z.

(** The upsert on [event_sequences], [RETURNING seq]. *)
Definition _next_event_seq (db : log_db) (ns : string) : log_db * Z :=
  let seq := match event_sequences db !! ns with Some s => (s + 1)%Z | None => 1%Z end in
  (LogDb (event_log db) (<[ns := seq]> (event_sequences db)) (event_parents db) (replay_runs db)
         (signing_keys db) (active_key db), seq).

(** [ORDER BY event_seq DESC LIMIT 1] *)
Definition _fetch_previous_chain_hash (db : log_db) (ns : string) : string :=
  match last (sorted_by by_seq (ns_rows ns db)) with
  | Some r => default _GENESIS_SENTINEL (ev_chain_hash r)
  | None => _GENESIS_SENTINEL
  end.

Definition get_active_key (db : log_db) : option (string * string) :=
  key_id ← active_key db; raw ← signing_keys db !! key_id; Some (key_id, raw).
Definition get_key_by_id (db : log_db) (key_id : string) : option string := signing_keys db !! key_id.

(** The primary key [(id, occurred_at)] and the unique constraint
    [(namespace_id, event_seq, occurred_at)] of [schema.sql]. *)
Definition unique_violation (r s : event_row) : bool :=
  (ev_occurred_at r =? ev_occurred_at s)%Z &&
  (String.eqb (ev_id r) (ev_id s) ||
   (String.eqb (ev_namespace_id r) (ev_namespace_id s) && (ev_seq r =? ev_seq s)%Z)).

Definition _insert_event (db : log_db) (r : event_row) : result event_error (log_db * AppendResult) :=
  if existsb (unique_violation r) (event_log db) then raise EventLogSequenceError
  else Ok (LogDb (event_log db ++ [r]) (event_sequences db) (event_parents db) (replay_runs db)
                 (signing_keys db) (active_key db),
           MkAppendResult (ev_id r) (ev_seq r) (ev_occurred_at r)).

(** [INSERT ... ON CONFLICT DO NOTHING] *)
Definition insert_parent (event_id ns : string) (l : list (string * string * string)) (pid : string) :=
  if decide ((event_id, pid, ns) ∈ l) then l else l ++ [(event_id, pid, ns)].

Section crypto.
Context (sha256 : string → string) (hmac_sha256 : string → string → string).
Context (canonical_json : jobject → option string).
Context (jsonb : jobject → jobject).
Context (fromisoformat : string → option datetime) (uuid_of : string → option string).

Definition _validate_params_no_backdated_timestamp (now : Z) (params : jobject) :
    result event_error unit :=
  match json_get "valid_from" params with
  | Some (JStr vf) =>
      match fromisoformat (replace_Z vf) with
      | Some ts =>
          match dt_utcoffset ts with
          | Some _ => ensure (negb (utc_us ts <? now)%Z) EventLogTimestampError
          | None => Ok ()          (* the comparison raises TypeError, which is swallowed *)
          end
      | None => Ok ()
      end
  | _ => Ok ()
  end.

Definition _compute_content_hash (signing_fields : jobject) : string :=
  sha256 (json_dumps (JObj signing_fields)).
Definition _compute_chain_hash (content_hash previous_chain_hash : string) : string :=
  sha256 (content_hash +:+ previous_chain_hash).

Definition sign_fields (fields : jobject) (raw_key : string) : option string :=
  hmac_sha256 raw_key <$> canonical_json fields.
Definition verify_fields (fields : jobject) (raw_key expected : string) : option bool :=
  (λ s, String.eqb s expected) <$> sign_fields fields raw_key.

Definition _sign_event (db : log_db) (fields : jobject) : result event_error (string * string) :=
  match get_active_key db with
  | None => raise EventLogSigningError
  | Some (key_id, raw_key) =>
      match sign_fields fields raw_key with
      | None => raise EventLogSigningError
      | Some signature => Ok (key_id, signature)
      end
  end.

(** The replay override of the timestamp: only a deterministic run's. *)
Definition event_time (db : log_db) (env : call_env) (a : append_args) : Z :=
  match a_replay_occurred_at a, json_get "replay_run_id" (a_params a) with
  | Some t, Some (JStr s) =>
      if String.eqb s "" then db_clock env
      else match uuid_of s ≫= λ u, replay_runs db !! u with
           | Some mode => if String.eqb mode "deterministic" then t else db_clock env
           | None => db_clock env
           end
  | _, _ => db_clock env
  end.

Definition append_event (env : call_env) (db : log_db) (a : append_args) :
    result event_error (log_db * AppendResult) :=
  _ ← ensure (in_transaction a) EventLogError;
  let parent_event_id :=
    match a_parent_event_id a with Some p => Some p | None => head (a_parent_event_ids a) end in
  let correlation_id :=
    match a_correlation_id a with Some c => Some c | None => context_correlation env end in
  agent_id ← _validate_event_payload (a_event_type a) (a_agent_id a);
  _ ← _validate_event_params (a_event_type a) (a_params a);
  _ ← _validate_params_no_backdated_timestamp (py_now env) (a_params a);
  let occurred_at := event_time db env a in
  let occurred_at_iso := isoformat_utc occurred_at in
  let '(db, event_seq) := _next_event_seq db (a_namespace_id a) in
  let event_id := default (fresh_uuid env) (a_event_id a) in
  let previous_chain_hash := _fetch_previous_chain_hash db (a_namespace_id a) in
  let fields :=
    _build_signing_fields event_id (a_namespace_id a) agent_id (a_event_type a) event_seq
      occurred_at_iso (a_params a) parent_event_id (Some (to_hex previous_chain_hash)) in
  '(key_id, signature) ← _sign_event db fields;
  let chain_hash := _compute_chain_hash (_compute_content_hash fields) previous_chain_hash in
  '(db, res) ← _insert_event db
    (EventRow event_id (a_namespace_id a) agent_id (a_event_type a) event_seq occurred_at
       (jsonb (a_params a)) (jsonb <$> a_result_summary a) parent_event_id (a_llm_payload_uri a)
       (a_llm_payload_hash a) signature key_id (Some 2%Z) (Some chain_hash) correlation_id);
  Ok (LogDb (event_log db) (event_sequences db)
        (foldl (insert_parent (r_event_id res) (a_namespace_id a)) (event_parents db)
               (a_parent_event_ids a))
        (replay_runs db) (signing_keys db) (active_key db), res).

(** ** Verification *)
Definition row_at (ns : string) (seq : Z) (db : log_db) : option event_row :=
  List.find (λ r, (ev_seq r =? seq)%Z) (ns_rows ns db).

(** The fields a stored row was signed over, given the previous hash in hex. *)
Definition row_fields (r : event_row) (prev_chain_hash_hex : option string) : jobject :=
  _build_signing_fields (ev_id r) (ev_namespace_id r) (ev_agent_id r) (ev_event_type r) (ev_seq r)
    (isoformat_utc (ev_occurred_at r)) (ev_params r) (ev_parent_event_id r) prev_chain_hash_hex.

Definition verify_event_signature (db : log_db) (r : event_row) : result event_error unit :=
  _ ← ensure (negb (String.eqb (ev_signature_key_id r) "")) DataIntegrityError;
  match get_key_by_id db (ev_signature_key_id r) with
  | None => raise DataIntegrityError
  | Some raw_key =>
      let prev_seq := (ev_seq r - 1)%Z in
      let prev_row_hash := row_at (ev_namespace_id r) prev_seq db ≫= ev_chain_hash in
      fields ←
        match ev_signature_version r with
        | None =>
            let prev_hex :=
              if (prev_seq <=? 0)%Z then Some (to_hex _GENESIS_SENTINEL) else to_hex <$> prev_row_hash in
            let v2 := row_fields r prev_hex in
            if negb (String.eqb (ev_signature r) "") &&
               default false (verify_fields v2 raw_key (ev_signature r))
            then Ok v2 else Ok (row_fields r None)
        | Some v =>
            if (v =? 2)%Z then
              if (prev_seq <=? 0)%Z then Ok (row_fields r (Some (to_hex _GENESIS_SENTINEL)))
              else match prev_row_hash with
                   | None => raise DataIntegrityError
                   | Some h => Ok (row_fields r (Some (to_hex h)))
                   end
            else Ok (row_fields r None)
        end;
      _ ← ensure (negb (String.eqb (ev_signature r) "")) DataIntegrityError;
      match verify_fields fields raw_key (ev_signature r) with
      | None => raise DataIntegrityError
      | Some is_valid => ensure is_valid DataIntegrityError
      end
  end.

Record chain_state := ChainState {
  checked : nat;
  first_break : option Z;
  last_verified_seq : Z;
  previous_chain_hash : string;
  seq_to_recomputed_hash : gmap Z string
}.

Definition expected_chain_hash (prev : string) (r : event_row) : string :=
  let prev_hex := if (default 2 (ev_signature_version r) =? 2)%Z then Some (to_hex prev) else None in
  _compute_chain_hash (_compute_content_hash (row_fields r prev_hex)) prev.

Definition verify_row (anchor_seq : option Z) (s : chain_state) (r : event_row) : chain_state :=
  let expected := expected_chain_hash (previous_chain_hash s) r in
  let broken := negb (bool_decide (ev_chain_hash r = Some expected)) in
  ChainState (S (checked s))
    (match first_break s with Some b => Some b | None => if broken then Some (ev_seq r) else None end)
    (ev_seq r) expected
    (match anchor_seq with
     | Some a => if (ev_seq r <=? a)%Z then <[ev_seq r := expected]> (seq_to_recomputed_hash s)
                 else seq_to_recomputed_hash s
     | None => seq_to_recomputed_hash s
     end).

Record chain_report := ChainReport {
  cr_valid : bool;
  cr_checked : nat;
  cr_first_break : option Z;
  cr_last_verified_seq : Z;
  cr_sequence_mismatch : bool;              (* the ["reason"] key *)
  cr_anchor : option (bool * Z)             (* ["anchor_match"], ["anchor_seq"] *)
}.

Definition max_seq (rows : list event_row) : option Z :=
  match rows with
  | [] => None
  | r :: rs => Some (foldl (λ m r, Z.max m (ev_seq r)) (ev_seq r) rs)
  end.

Definition counter_mismatch (db : log_db) (ns : string) : bool :=
  match event_sequences db !! ns, max_seq (ns_rows ns db) with
  | None, None => false
  | seq_counter, max_seq => negb (default 0 seq_counter =? default 0 max_seq)%Z
  end.

Definition verify_merkle_chain (db : log_db) (ns : string) (start_seq : Z) (end_seq : option Z)
    (anchor_chain_hash : option string) (anchor_seq : option Z) : result event_error chain_report :=
  _ ← ensure (match anchor_chain_hash, anchor_seq with Some _, None => false | _, _ => true end)
        ValueError;
  let rows := sorted_by by_seq (List.filter (λ r, (start_seq <=? ev_seq r)%Z) (ns_rows ns db)) in
  let rows :=
    match end_seq with Some e => List.filter (λ r, (ev_seq r <=? e)%Z) rows | None => rows end in
  let start_hash :=
    if (1 <? start_seq)%Z then
      default _GENESIS_SENTINEL (row_at ns (start_seq - 1) db ≫= ev_chain_hash)
    else _GENESIS_SENTINEL in
  let anchor := match anchor_chain_hash with Some _ => anchor_seq | None => None end in
  let s := foldl (verify_row anchor) (ChainState 0 None 0 start_hash ∅) rows in
  let mismatch := (start_seq =? 1)%Z && match end_seq with None => counter_mismatch db ns | _ => false end in
  let valid := match first_break s with None => negb mismatch | Some _ => false end in
  Ok match anchor_chain_hash, anchor_seq with
     | Some h, Some a =>
         let anchor_match := bool_decide (seq_to_recomputed_hash s !! a = Some h) in
         ChainReport (valid && anchor_match) (checked s) (first_break s) (last_verified_seq s) mismatch
           (Some (anchor_match, a))
     | _, _ =>
         ChainReport valid (checked s) (first_break s) (last_verified_seq s) mismatch None
     end.
End crypto.
