(* ===== verification/EventLogFacts.v ===== *)
(** * EventLogFacts: the hash chain and the log's invariant *)
From S2P Require Import Prelude PyText EventTypes EventLog.

(** ** Strings *)
Lemma string_length_app s t : String.length (s +:+ t) = String.length s + String.length t.
Proof. induction s as [|c s IH]; simpl; [done|]. by rewrite IH. Qed.

Lemma string_app_inj s s' t t' :
  String.length s = String.length s' → s +:+ t = s' +:+ t' → s = s' ∧ t = t'.
Proof.
  revert s'; induction s as [|c s IH]; intros [|c' s'] Hl Heq; simplify_eq/=; [done|].
  destruct (IH s') as [-> ->]; auto.
Qed.

(** ** Sorted lists of rows *)
Lemma insert_by_head {A} (leb : A → A → bool) x l :
  (∀ y, y ∈ l → leb x y = true) → insert_by leb x l = x :: l.
Proof. destruct l as [|y l]; simpl; intros Hl; [done|]. by rewrite Hl by left. Qed.

Lemma sorted_by_id {A} (leb : A → A → bool) l :
  (∀ i j x y, i < j → l !! i = Some x → l !! j = Some y → leb x y = true) → sorted_by leb l = l.
Proof.
  induction l as [|x l IH]; intros Hl; simpl; [done|].
  rewrite IH; [|intros i j y z Hij Hy Hz; by apply (Hl (S i) (S j) y z); [lia|..]].
  apply insert_by_head. intros y [j Hj]%list_elem_of_lookup. by apply (Hl 0 (S j) x y); [lia|..].
Qed.

Lemma filter_true {A} (f : A → bool) l : (∀ x, x ∈ l → f x = true) → List.filter f l = l.
Proof.
  induction l as [|x l IH]; intros Hl; simpl; [done|]. rewrite Hl by left. f_equal. apply IH.
  intros y Hy. apply Hl. by right.
Qed.

Lemma find_lookup {A} (f : A → bool) l i x :
  l !! i = Some x → f x = true → (∀ j y, j < i → l !! j = Some y → f y = false) →
  List.find f l = Some x.
Proof.
  revert i; induction l as [|z l IH]; intros [|i] Hl Hx Hj; simplify_eq/=; [by rewrite Hx|].
  rewrite (Hj 0 z) by (done || lia). eapply IH; [done..|].
  intros j y Hji Hy. by apply (Hj (S j) y); [lia|].
Qed.

(** The sequence numbers of [l] are 1, 2, ..., in order. *)
Definition contiguous (l : list event_row) : Prop :=
  ∀ i r, l !! i = Some r → ev_seq r = Z.of_nat (S i).

Lemma contiguous_snoc l r :
  contiguous l → ev_seq r = Z.of_nat (S (length l)) → contiguous (l ++ [r]).
Proof.
  intros Hl Hr i r' Hi. apply lookup_app_Some in Hi as [Hi|[Hle Hi]]; [by apply Hl|].
  apply list_lookup_singleton_Some in Hi as [Hz <-]. rewrite Hr. do 2 f_equal. lia.
Qed.

Lemma contiguous_sorted l : contiguous l → sorted_by by_seq l = l.
Proof.
  intros Hl. apply sorted_by_id. intros i j x y Hij Hx Hy. unfold by_seq.
  rewrite (Hl i x Hx), (Hl j y Hy). apply Z.leb_le. lia.
Qed.

Lemma contiguous_from_1 l : contiguous l → List.filter (λ r, (1 <=? ev_seq r)%Z) l = l.
Proof.
  intros Hl. apply filter_true. intros r [i Hi]%list_elem_of_lookup.
  rewrite (Hl i r Hi). apply Z.leb_le. lia.
Qed.

Lemma contiguous_find l i r :
  contiguous l → l !! i = Some r → List.find (λ r, (ev_seq r =? Z.of_nat (S i))%Z) l = Some r.
Proof.
  intros Hl Hi. eapply find_lookup; [exact Hi| |].
  - rewrite (Hl i r Hi). by apply Z.eqb_eq.
  - intros j y Hj Hy. rewrite (Hl j y Hy). apply Z.eqb_neq. lia.
Qed.

Lemma max_seq_contiguous l :
  contiguous l → max_seq l = if decide (l = []) then None else Some (Z.of_nat (length l)).
Proof.
  intros Hl. destruct l as [|r l]; [done|]. simpl. f_equal.
  rewrite (Hl 0 r eq_refl).
  assert (∀ k l m, (∀ i r, l !! i = Some r → ev_seq r = Z.of_nat (S (k + i))) → m = Z.of_nat k →
            foldl (λ m r, Z.max m (ev_seq r)) m l = Z.of_nat (k + length l)) as Hm.
  { clear. intros k l. revert k. induction l as [|r l IH]; intros k m Hl ->; simpl; [f_equal; lia|].
    rewrite (IH (S k)); [f_equal; lia| |].
    - intros i r' Hi. rewrite (Hl (S i) r' Hi). f_equal. lia.
    - rewrite (Hl 0 r eq_refl). lia. }
  rewrite (Hm 1 l); [done| |done]. intros i r' Hi. by rewrite (Hl (S i) r' Hi).
Qed.

(** ** The chain *)
Section chain.
Context (sha256 : string → string).

Let expected := expected_chain_hash sha256.

(** The chain hash after the rows [l], from [prev]. *)
Definition chain_head (prev : string) (l : list event_row) : string := foldl expected prev l.

(** Every stored chain hash is the recomputed one. *)
Fixpoint chain_ok (prev : string) (l : list event_row) : Prop :=
  match l with
  | [] => True
  | r :: l' => ev_chain_hash r = Some (expected prev r) ∧ chain_ok (expected prev r) l'
  end.

(** The canonical JSON that each row's content hash covers. *)
Definition row_content (prev : string) (r : event_row) : string :=
  json_dumps (JObj (row_fields r
    (if (default 2 (ev_signature_version r) =? 2)%Z then Some (to_hex prev) else None))).
Fixpoint contents (prev : string) (l : list event_row) : list string :=
  match l with
  | [] => []
  | r :: l' => row_content prev r :: contents (expected prev r) l'
  end.

(** The strings that the walk over [l] hashes: each row's content, and the
    content's digest with the previous hash. *)
Fixpoint hashed (prev : string) (l : list event_row) : list string :=
  match l with
  | [] => []
  | r :: l' =>
      row_content prev r :: (sha256 (row_content prev r) +:+ prev) :: hashed (expected prev r) l'
  end.

(** Among the strings [D]: two with one digest, or one whose digest is the
    genesis sentinel. *)
Definition hash_break (D : list string) : Prop :=
  (∃ x y, x ∈ D ∧ y ∈ D ∧ x ≠ y ∧ sha256 x = sha256 y) ∨
  ∃ x, x ∈ D ∧ sha256 x = _GENESIS_SENTINEL.

Lemma expected_content prev r :
  expected prev r = sha256 (sha256 (row_content prev r) +:+ prev).
Proof. done. Qed.

Lemma chain_head_app prev l k : chain_head prev (l ++ k) = chain_head (chain_head prev l) k.
Proof. apply foldl_app. Qed.

Lemma contents_app prev l k :
  contents prev (l ++ k) = contents prev l ++ contents (chain_head prev l) k.
Proof.
  revert prev; induction l as [|r l IH]; intros prev; simpl; [done|]. by rewrite IH.
Qed.

Lemma chain_ok_app prev l k :
  chain_ok prev (l ++ k) ↔ chain_ok prev l ∧ chain_ok (chain_head prev l) k.
Proof.
  revert prev; induction l as [|r l IH]; intros prev; simpl; [naive_solver|].
  rewrite IH. naive_solver.
Qed.

Lemma chain_ok_lookup prev l i r :
  chain_ok prev l → l !! i = Some r → ev_chain_hash r = Some (chain_head prev (take (S i) l)).
Proof.
  revert prev i; induction l as [|r' l IH]; intros prev [|i] Hok Hi; simplify_eq/=; [apply Hok|].
  by apply IH; [apply Hok|].
Qed.

Lemma chain_ok_last prev l :
  chain_ok prev l →
  match last l with Some r => default _GENESIS_SENTINEL (ev_chain_hash r) | None => prev end =
  chain_head prev l.
Proof.
  intros Hok. destruct l as [|r l _] using rev_ind; [done|].
  rewrite last_snoc. apply chain_ok_app in Hok as [_ [Hr _]].
  rewrite chain_head_app, Hr. done.
Qed.

Lemma hashed_app prev l k : hashed prev (l ++ k) = hashed prev l ++ hashed (chain_head prev l) k.
Proof.
  revert prev; induction l as [|r l IH]; intros prev; simpl; [done|]. by rewrite IH.
Qed.

(** Digests determine what was hashed, up to a break. *)
Lemma sha256_inj D x y : x ∈ D → y ∈ D → sha256 x = sha256 y → x = y ∨ hash_break D.
Proof. intros Hx Hy Heq. destruct (decide (x = y)); [by left|right; left; eauto 10]. Qed.

Hypothesis sha256_length : ∀ x, String.length (sha256 x) = 32.

Lemma expected_inj p p' r r' D :
  hashed p [r] ⊆ D → hashed p' [r'] ⊆ D →
  expected p r = expected p' r' →
  (row_content p r = row_content p' r' ∧ p = p') ∨ hash_break D.
Proof.
  cbn [hashed]. intros HD HD'. rewrite !expected_content.
  intros [Heq|?]%(sha256_inj D); [|by right|apply HD; set_solver|apply HD'; set_solver].
  apply string_app_inj in Heq as [Hc Hp]; [|by rewrite !sha256_length].
  apply (sha256_inj D) in Hc as [?|?]; [by left|by right|apply HD|apply HD']; set_solver.
Qed.

(** Two chains from the genesis with one head hash the same contents, or there
    is a break among the strings they hash. *)
Lemma chain_head_inj l l' D :
  hashed _GENESIS_SENTINEL l ⊆ D → hashed _GENESIS_SENTINEL l' ⊆ D →
  chain_head _GENESIS_SENTINEL l = chain_head _GENESIS_SENTINEL l' →
  contents _GENESIS_SENTINEL l = contents _GENESIS_SENTINEL l' ∨ hash_break D.
Proof.
  revert l'; induction l as [|r l IH] using rev_ind; intros l' HD HD'.
  - destruct l' as [|r' l' _] using rev_ind; [by left|].
    rewrite chain_head_app. simpl. rewrite expected_content. intros Heq. right; right.
    eexists. split; [|done]. apply HD'. rewrite hashed_app. set_solver.
  - rewrite hashed_app in HD. destruct l' as [|r' l' _] using rev_ind.
    + rewrite chain_head_app. simpl. rewrite expected_content. intros Heq. right; right.
      eexists. split; [|done]. apply HD. set_solver.
    + rewrite hashed_app in HD'. rewrite !chain_head_app.
      intros [[Hc Hp]|?]%(expected_inj _ _ _ _ D); [|by right|set_solver|set_solver].
      destruct (IH l') as [Hl|?]; [set_solver|set_solver|done|left|by right].
      rewrite !contents_app. simpl. by rewrite Hl, Hc.
Qed.

(** ** The verifier's loop *)
Lemma verify_rows anchor l s :
  let s' := foldl (verify_row sha256 anchor) s l in
  checked s' = checked s + length l ∧
  previous_chain_hash s' = chain_head (previous_chain_hash s) l ∧
  last_verified_seq s' = default (last_verified_seq s) (ev_seq <$> last l) ∧
  (first_break s' = None ↔ first_break s = None ∧ chain_ok (previous_chain_hash s) l).
Proof.
  revert s; induction l as [|r l IH]; intros s; cbn [foldl].
  { simpl. split_and!; [lia|done|done|]. naive_solver. }
  destruct (IH (verify_row sha256 anchor s r)) as (I1 & I2 & I3 & I4).
  split_and!.
  - rewrite I1. simpl. lia.
  - by rewrite I2.
  - rewrite I3, last_cons. by destruct (last l).
  - rewrite I4. simpl. destruct (first_break s); [naive_solver|].
    unfold expected. set (x := expected_chain_hash sha256 _ r). clearbody x.
    destruct (decide (ev_chain_hash r = Some x)) as [Hd|Hd];
      [rewrite bool_decide_true by done|rewrite bool_decide_false by done]; simpl; naive_solver.
Qed.

Lemma verify_rows_break anchor l s b :
  first_break s = Some b → first_break (foldl (verify_row sha256 anchor) s l) = Some b.
Proof.
  revert s; induction l as [|r l IH]; intros s Hs; cbn [foldl]; [done|]. apply IH. simpl. by rewrite Hs.
Qed.

(** A hash recorded for the anchor is the head of a prefix ending there. *)
Lemma verify_rows_anchor a l s h :
  seq_to_recomputed_hash (foldl (verify_row sha256 (Some a)) s l) !! a = Some h →
  seq_to_recomputed_hash s !! a = Some h ∨
  ∃ k r, l !! k = Some r ∧ ev_seq r = a ∧ h = chain_head (previous_chain_hash s) (take (S k) l).
Proof.
  revert s; induction l as [|r l IH]; intros s; cbn [foldl]; [by left|].
  intros [Hs|(k & r' & Hk & Hr & ->)]%IH.
  - simpl in Hs. destruct (ev_seq r <=? a)%Z; [|by left]. rewrite lookup_insert in Hs.
    case_decide as Hra; [right|by left]. simplify_eq. exists 0, r. done.
  - right. exists (S k), r'. done.
Qed.
End chain.
