(* ===== verification/EventLogProps.v ===== *)
(** * EventLogProps: what the event log guarantees *)
From S2P Require Import Prelude PyText AuditLog EventTypes EventLog EventLogFacts.

Section log.
Context (sha256 : string → string) (hmac_sha256 : string → string → string).
Context (canonical_json : jobject → option string).
Context (jsonb : jobject → jobject).
Context (fromisoformat : string → option datetime) (uuid_of : string → option string).

Let append := append_event sha256 hmac_sha256 canonical_json jsonb fromisoformat uuid_of.
Let head_of := chain_head sha256 _GENESIS_SENTINEL.

(** Parameters that PostgreSQL's [jsonb] returns with the same canonical text,
    under both encoders. *)
Definition storable (p : jobject) : Prop :=
  json_dumps (JObj (jsonb p)) = json_dumps (JObj p) ∧
  (∀ i ns ag ty seq t par prev,
     canonical_json (_build_signing_fields i ns ag ty seq t (jsonb p) par prev) =
     canonical_json (_build_signing_fields i ns ag ty seq t p par prev)) ∧
  (∀ k, k ∈ json_keys (jsonb p) ↔ k ∈ json_keys p).

(** The rows and tables of the log evolve by committed appends and by key
    rotations, which add a key and never drop one. *)
Inductive log_step : log_db → log_db → Prop :=
  | step_append env db a db' res :
      storable (a_params a) → append env db a = Ok (db', res) → log_step db db'
  | step_rotate db key_id raw :
      key_id ≠ "" → signing_keys db !! key_id = None →
      log_step db (LogDb (event_log db) (event_sequences db) (event_parents db) (replay_runs db)
                         (<[key_id := raw]> (signing_keys db)) (Some key_id))
  | step_replay db run mode :
      log_step db (LogDb (event_log db) (event_sequences db) (event_parents db)
                         (<[run := mode]> (replay_runs db)) (signing_keys db) (active_key db)).

Definition log_init (db : log_db) : Prop :=
  event_log db = [] ∧ event_sequences db = ∅ ∧ signing_keys db !! "" = None.

Definition log_reachable (db : log_db) : Prop := ∃ db0, log_init db0 ∧ rtc log_step db0 db.

(** ** One append *)
Definition contract_ok (ty : string) (keys : list string) : Prop :=
  ty ∈ VALID_EVENT_TYPES ∧
  (∀ k, k ∈ keys_of EVENT_REQUIRED_PARAM_KEYS ty → k ∈ keys) ∧
  (∀ k, k ∈ keys_of EVENT_FORBIDDEN_PARAM_KEYS ty → k ∉ keys).

Lemma str_mem_elem x l : str_mem x l = true ↔ x ∈ l.
Proof.
  unfold str_mem. rewrite existsb_elem. setoid_rewrite String.eqb_eq. naive_solver.
Qed.

Lemma forallb_mem l l' : forallb (λ k, str_mem k l') l = true ↔ ∀ k, k ∈ l → k ∈ l'.
Proof. rewrite forallb_elem. by setoid_rewrite str_mem_elem. Qed.

Lemma existsb_mem l l' : negb (existsb (λ k, str_mem k l') l) = true ↔ ∀ k, k ∈ l → k ∉ l'.
Proof.
  rewrite negb_true_iff, <- not_true_iff_false, existsb_elem. setoid_rewrite str_mem_elem.
  naive_solver.
Qed.

Lemma validate_params_ok ty p u :
  _validate_event_params ty p = Ok u ↔
  (∀ k, k ∈ keys_of EVENT_REQUIRED_PARAM_KEYS ty → k ∈ json_keys p) ∧
  (∀ k, k ∈ keys_of EVENT_FORBIDDEN_PARAM_KEYS ty → k ∉ json_keys p).
Proof. unfold _validate_event_params. by rewrite ensure_bind, ensure_Ok, forallb_mem, existsb_mem. Qed.

Lemma validate_payload_ok ty ag ag' :
  _validate_event_payload ty ag = Ok ag' ↔
  ty ∈ VALID_EVENT_TYPES ∧ ag' = strip ag ∧ ag' ≠ "" ∧ String.length ag' ≤ _AGENT_ID_MAX_LEN.
Proof.
  unfold _validate_event_payload.
  rewrite !ensure_bind, str_mem_elem, negb_true_iff, String.eqb_neq, Nat.leb_le. naive_solver.
Qed.

(** The row an append writes. *)
Record appended (env : call_env) (db : log_db) (a : append_args) (r : event_row) : Prop := {
  ap_contract : contract_ok (a_event_type a) (json_keys (a_params a));
  ap_agent : ev_agent_id r = strip (a_agent_id a) ∧ ev_agent_id r ≠ "" ∧
             String.length (ev_agent_id r) ≤ _AGENT_ID_MAX_LEN;
  ap_static : ev_namespace_id r = a_namespace_id a ∧ ev_event_type r = a_event_type a ∧
              ev_params r = jsonb (a_params a) ∧ ev_signature_version r = Some 2%Z;
  ap_seq : ev_seq r = match event_sequences db !! a_namespace_id a with
                      | Some s => (s + 1)%Z | None => 1%Z end;
  ap_chain prev : prev = _fetch_previous_chain_hash db (a_namespace_id a) →
    storable (a_params a) → ev_chain_hash r = Some (expected_chain_hash sha256 prev r);
  ap_signature prev : prev = _fetch_previous_chain_hash db (a_namespace_id a) →
    storable (a_params a) → ∃ raw c, signing_keys db !! ev_signature_key_id r = Some raw ∧
      canonical_json (row_fields r (Some (to_hex prev))) = Some c ∧ ev_signature r = hmac_sha256 raw c
}.

Lemma dumps_params_ext i ns ag ty seq t par prev p q :
  json_dumps (JObj p) = json_dumps (JObj q) →
  json_dumps (JObj (_build_signing_fields i ns ag ty seq t p par prev)) =
  json_dumps (JObj (_build_signing_fields i ns ag ty seq t q par prev)).
Proof.
  intros Heq. unfold _build_signing_fields.
  set (rest := _ ++ match prev with Some h => _ | None => [] end).
  assert (∀ l, json_dumps (JObj l) = "{" +:+ String.concat ", "
    (map (λ kv, quoted kv.1 +:+ ": " +:+ kv.2)
       (sorted_by by_key (map (λ kv, (kv.1, json_dumps kv.2)) l))) +:+ "}") as Hd by done.
  rewrite !(Hd (_ ++ rest)), !map_app. cbn [map fst snd]. by rewrite Heq.
Qed.

Lemma append_ok env db a db' res :
  append env db a = Ok (db', res) →
  ∃ r, appended env db a r ∧
    event_log db' = event_log db ++ [r] ∧
    event_sequences db' = <[a_namespace_id a := ev_seq r]> (event_sequences db) ∧
    replay_runs db' = replay_runs db ∧ signing_keys db' = signing_keys db ∧
    active_key db' = active_key db ∧ res = MkAppendResult (ev_id r) (ev_seq r) (ev_occurred_at r) ∧
    existsb (unique_violation r) (event_log db) = false.
Proof.
  unfold append, append_event. intros Happ.
  apply ensure_bind in Happ as [_ Happ].
  apply bind_Ok in Happ as (ag & Hag & Happ). apply validate_payload_ok in Hag as (Hty & Hag).
  apply bind_Ok in Happ as (u1 & Hpar & Happ). apply validate_params_ok in Hpar.
  apply bind_Ok in Happ as (u2 & _ & Happ).
  unfold _next_event_seq in Happ. cbn zeta beta iota in Happ.
  set (seq := match _ !! _ with Some s => (s + 1)%Z | None => 1%Z end) in *.
  apply bind_Ok in Happ as ([key sig] & Hsig & Happ).
  apply bind_Ok in Happ as ([db2 res2] & Hins & Happ).
  injection Happ as <- <-. unfold _insert_event in Hins. cbn [event_log] in Hins.
  destruct (existsb _ _) eqn:Hu; [done|]. injection Hins as <- <-.
  eexists. split; [|split_and!; [reflexivity..|exact Hu]].
  unfold _sign_event, get_active_key, sign_fields in Hsig. cbn [active_key signing_keys] in Hsig.
  destruct (active_key db) as [kid|]; [|done]. cbn [mbind option_bind] in Hsig.
  destruct (signing_keys db !! kid) as [raw|] eqn:Hraw; [|done].
  destruct (canonical_json _) as [c|] eqn:Hc; [|done]. injection Hsig as <- <-.
  change (_fetch_previous_chain_hash (LogDb _ _ _ _ _ _) (a_namespace_id a))
    with (_fetch_previous_chain_hash db (a_namespace_id a)) in *.
  constructor.
  - by destruct Hpar.
  - by destruct Hag as (-> & ? & ?).
  - done.
  - done.
  - intros prev -> (Hj & _). unfold expected_chain_hash, row_fields, _compute_content_hash.
    cbn [ev_chain_hash ev_id ev_namespace_id ev_agent_id ev_event_type ev_seq ev_occurred_at ev_params
         ev_parent_event_id ev_signature_version default].
    by rewrite (dumps_params_ext _ _ _ _ _ _ _ _ (jsonb (a_params a)) (a_params a) Hj).
  - intros prev -> (_ & Hj & _). exists raw, c. split_and!; [done| |done].
    rewrite <- Hc. apply Hj.
Qed.
(** ** The invariant of a namespace's log *)
Record ns_inv (db : log_db) (ns : string) : Prop := {
  inv_contiguous : contiguous (ns_rows ns db);
  inv_counter : event_sequences db !! ns =
    if decide (ns_rows ns db = []) then None else Some (Z.of_nat (length (ns_rows ns db)));
  inv_chain : chain_ok sha256 _GENESIS_SENTINEL (ns_rows ns db);
  inv_signed i r : ns_rows ns db !! i = Some r →
    ev_namespace_id r = ns ∧ ev_signature_version r = Some 2%Z ∧ ev_signature_key_id r ≠ "" ∧
    ∃ raw c, signing_keys db !! ev_signature_key_id r = Some raw ∧
      canonical_json (row_fields r (Some (to_hex (head_of (take i (ns_rows ns db)))))) = Some c ∧
      ev_signature r = hmac_sha256 raw c
}.

Definition log_inv (db : log_db) : Prop :=
  signing_keys db !! "" = None ∧ (∀ ns, ns_inv db ns) ∧
  ∀ r, r ∈ event_log db → contract_ok (ev_event_type r) (json_keys (ev_params r)) ∧
       ev_agent_id r ≠ "" ∧ String.length (ev_agent_id r) ≤ _AGENT_ID_MAX_LEN.

Lemma ns_rows_append db db' r ns :
  event_log db' = event_log db ++ [r] →
  ns_rows ns db' = ns_rows ns db ++ (if decide (ev_namespace_id r = ns) then [r] else []).
Proof.
  intros Hl. unfold ns_rows. rewrite Hl, List.filter_app. simpl. f_equal.
  destruct (decide (ev_namespace_id r = ns)) as [->|Hn]; [by rewrite String.eqb_refl|].
  by apply String.eqb_neq in Hn as ->.
Qed.

Lemma previous_chain_hash_head db ns :
  ns_inv db ns → _fetch_previous_chain_hash db ns = head_of (ns_rows ns db).
Proof.
  intros [Hc _ Hok _]. unfold _fetch_previous_chain_hash. rewrite contiguous_sorted by done.
  by apply chain_ok_last.
Qed.

(** A namespace whose rows did not change keeps its invariant when keys are
    only added. *)
Lemma ns_inv_mono db db' ns :
  ns_rows ns db' = ns_rows ns db → event_sequences db' !! ns = event_sequences db !! ns →
  signing_keys db ⊆ signing_keys db' → ns_inv db ns → ns_inv db' ns.
Proof.
  intros Hr Hs Hk [H1 H2 H3 H4]. constructor; rewrite ?Hr, ?Hs; try done.
  intros i r Hi. destruct (H4 i r Hi) as (? & ? & ? & raw & c & ? & ? & ?).
  split_and!; try done. exists raw, c. split_and!; try done. by eapply lookup_weaken.
Qed.

Lemma ns_inv_append env db a db' res :
  storable (a_params a) → append env db a = Ok (db', res) → signing_keys db !! "" = None →
  (∀ ns, ns_inv db ns) → ∀ ns, ns_inv db' ns.
Proof.
  intros Hst Happ Hk0 Hinv ns.
  destruct (append_ok env db a db' res Happ) as (r & Hr & Hlog & Hseq & _ & Hkeys & _ & _ & _).
  pose proof (ns_rows_append db db' r ns Hlog) as Hrows.
  destruct (ap_static _ _ _ _ Hr) as (Hns & _ & _ & Hver). rewrite Hns in Hrows.
  destruct (decide (a_namespace_id a = ns)) as [<-|Hne].
  2:{ eapply ns_inv_mono; [|rewrite Hseq; by apply lookup_insert_ne|by rewrite Hkeys|apply Hinv].
      by rewrite Hrows, app_nil_r. }
  pose proof (previous_chain_hash_head db _ (Hinv (a_namespace_id a))) as Hprev.
  destruct (Hinv (a_namespace_id a)) as [H1 H2 H3 H4].
  set (rows := ns_rows (a_namespace_id a) db) in *.
  assert (ev_seq r = Z.of_nat (S (length rows))) as Hsq.
  { rewrite (ap_seq _ _ _ _ Hr), H2. destruct (decide (rows = [])) as [->|?]; simpl; lia. }
  constructor; rewrite Hrows.
  - by apply contiguous_snoc.
  - rewrite Hseq, lookup_insert_eq, decide_False by (by destruct rows).
    rewrite length_app, Hsq. simpl. f_equal. lia.
  - apply chain_ok_app. split; [done|]. simpl. split; [|done].
    apply (ap_chain _ _ _ _ Hr); [|done]. by rewrite Hprev.
  - intros i r' Hi. apply lookup_app_Some in Hi as [Hi|[Hle Hi]].
    + rewrite take_app_le by (apply lookup_lt_Some in Hi; lia). rewrite Hkeys. by apply H4.
    + apply list_lookup_singleton_Some in Hi as [Hi <-].
      destruct (ap_signature _ _ _ _ Hr _ eq_refl Hst) as (raw & c & Hraw & Hc & Hs).
      rewrite Hprev in Hc. assert (i = length rows) as -> by lia. rewrite take_app_length.
      split_and!; [done|done| |].
      * intros Hempty. rewrite Hempty in Hraw. congruence.
      * exists raw, c. by rewrite Hkeys.
Qed.

Lemma log_step_inv db db' : log_step db db' → log_inv db → log_inv db'.
Proof.
  intros Hstep (Hk & Hns & Hct). destruct Hstep as [env db a db' res Hst Happ|db key raw Hne Hfresh|db].
  - destruct (append_ok env db a db' res Happ) as (r & Hr & Hlog & _ & _ & Hkeys & _).
    split_and!; [by rewrite Hkeys|by eapply ns_inv_append|].
    rewrite Hlog. intros r' [Hin| ->%list_elem_of_singleton]%elem_of_app; [by apply Hct|].
    destruct (ap_static _ _ _ _ Hr) as (_ & -> & -> & _).
    destruct (ap_agent _ _ _ _ Hr) as (_ & Ha1 & Ha2). split; [|done].
    destruct (ap_contract _ _ _ _ Hr) as (Hty & Hreq & Hforb), Hst as (_ & _ & Hkk).
    split_and!; [done|..]; intros k; rewrite Hkk; auto.
  - split_and!; [simpl; by rewrite lookup_insert_ne| |exact Hct].
    intros ns. apply (ns_inv_mono db); [done|done| |apply Hns]. simpl. by apply insert_subseteq.
  - split_and!; [done| |exact Hct]. intros ns. apply (ns_inv_mono db); [done..|apply Hns].
Qed.

Lemma log_reachable_inv db : log_reachable db → log_inv db.
Proof.
  intros (db0 & (Hl & Hs & Hk) & Hr).
  assert (log_inv db0) as H0.
  { split_and!; [done| |rewrite Hl; by intros r ?%elem_of_nil].
    intros ns. assert (ns_rows ns db0 = []) as Hn by (unfold ns_rows; by rewrite Hl).
    constructor; rewrite Hn; [by intros i r| |done|by intros i r].
    by rewrite Hs, lookup_empty. }
  clear Hl Hs Hk. induction Hr as [db|db db1 db2 Hstep _ IH]; [done|]. by apply IH, (log_step_inv db).
Qed.

(** ** Properties *)


(** C32: every row of a reachable log, whatever key it was signed with, passes
    [verify_event_signature]: the verifier rebuilds the signed fields, with the
    previous row's chain hash, from the stored columns. *)
Theorem reachable_signatures_verify db r :
  (∀ k m, hmac_sha256 k m ≠ "") → log_reachable db → r ∈ event_log db →
  verify_event_signature hmac_sha256 canonical_json db r = Ok ().
Proof.
  intros Hne Hreach Hr. destruct (log_reachable_inv db Hreach) as (_ & Hinv & _).
  set (ns := ev_namespace_id r). destruct (Hinv ns) as [Hc _ Hok Hsig].
  assert (r ∈ ns_rows ns db) as [i Hi]%list_elem_of_lookup.
  { apply list_elem_of_In, filter_In. split; [by apply list_elem_of_In|]. apply String.eqb_refl. }
  destruct (Hsig i r Hi) as (_ & Hv & Hkey & raw & c & Hraw & Hcj & Hs).
  unfold verify_event_signature, get_key_by_id. rewrite ensure_bind, negb_true_iff, String.eqb_neq.
  split; [done|]. rewrite Hraw, Hv. cbn [Z.eqb Pos.eqb]. rewrite (Hc i r Hi).
  assert (verify_fields hmac_sha256 canonical_json
            (row_fields r (Some (to_hex (head_of (take i (ns_rows ns db)))))) raw (ev_signature r) =
          Some true) as Hvf.
  { unfold verify_fields, sign_fields. rewrite Hcj. simpl. by rewrite Hs, String.eqb_refl. }
  assert (negb (String.eqb (ev_signature r) "") = true) as Hsne
    by (apply negb_true_iff, String.eqb_neq; rewrite Hs; apply Hne).
  destruct i as [|i].
  - rewrite (proj2 (Z.leb_le _ _)) by lia. cbn [mbind result_bind]. rewrite ensure_bind. split; [done|].
    rewrite take_0 in Hvf. change (head_of []) with _GENESIS_SENTINEL in Hvf. by rewrite Hvf.
  - rewrite (proj2 (Z.leb_gt _ _)) by lia. unfold row_at. fold ns.
    destruct (lookup_lt_is_Some_2 (ns_rows ns db) i) as [r0 Hr0];
      [apply lookup_lt_Some in Hi; lia|].
    replace (Z.of_nat (S (S i)) - 1)%Z with (Z.of_nat (S i)) by lia.
    rewrite (contiguous_find _ i r0 Hc Hr0). cbn [mbind option_bind].
    rewrite (chain_ok_lookup sha256 _ _ i r0 Hok Hr0). cbn [mbind result_bind].
    rewrite ensure_bind. split; [done|]. unfold head_of in Hvf. by rewrite Hvf.
Qed.

(** The contracts hold of everything in the log.  No reachable row has an
    unknown event type, misses a parameter key its type requires, or carries a
    key its type forbids (raw content in a shred receipt, bearer tokens in a
    grant event); every agent id is non-blank and at most 128 characters. *)
Theorem reachable_rows_respect_contracts db r :
  log_reachable db → r ∈ event_log db →
  ev_event_type r ∈ VALID_EVENT_TYPES ∧
  (∀ k, k ∈ keys_of EVENT_REQUIRED_PARAM_KEYS (ev_event_type r) → k ∈ json_keys (ev_params r)) ∧
  (∀ k, k ∈ keys_of EVENT_FORBIDDEN_PARAM_KEYS (ev_event_type r) → k ∉ json_keys (ev_params r)) ∧
  ev_agent_id r ≠ "" ∧ String.length (ev_agent_id r) ≤ 128.
Proof.
  intros Hreach Hr. destruct (log_reachable_inv db Hreach) as (_ & _ & Hct).
  by destruct (Hct r Hr) as ((? & ? & ?) & ? & ?).
Qed.

(** Truncation is caught by the counter.  When the last rows of a
    namespace are removed from a reachable log, the shortened chain still
    verifies link by link, and [verify_merkle_chain] reports the namespace
    invalid because the allocator's counter exceeds the tallest sequence
    number. *)
Theorem truncation_detected db db' ns m :
  log_reachable db → event_sequences db' = event_sequences db →
  m < length (ns_rows ns db) → ns_rows ns db' = take m (ns_rows ns db) →
  ∃ rep, verify_merkle_chain sha256 db' ns 1 None None None = Ok rep ∧
    cr_first_break rep = None ∧ cr_sequence_mismatch rep = true ∧ cr_valid rep = false.
Proof.
  intros Hreach Hs Hm Hrows. destruct (log_reachable_inv db Hreach) as (_ & Hinv & _).
  destruct (Hinv ns) as [Hc Hcnt Hok _].
  set (rows := ns_rows ns db) in *.
  assert (contiguous (take m rows)) as Hc'.
  { intros i r Hi. apply lookup_take_Some in Hi as [Hi _]. by apply Hc. }
  assert (chain_ok sha256 _GENESIS_SENTINEL (take m rows)) as Hok'.
  { rewrite <- (take_drop m rows) in Hok. by apply chain_ok_app in Hok as [? _]. }
  eexists. split; [reflexivity|]. rewrite Hrows, contiguous_from_1, contiguous_sorted by done.
  cbn [cr_first_break cr_sequence_mismatch cr_valid Z.eqb Pos.eqb andb].
  assert (counter_mismatch db' ns = true) as ->.
  { unfold counter_mismatch. rewrite Hs, Hcnt, Hrows, max_seq_contiguous by done.
    rewrite decide_False by (intros E; rewrite E in Hm; simpl in Hm; lia).
    destruct (decide (take m rows = [])) as [E|E]; simpl; apply negb_true_iff, Z.eqb_neq;
      [destruct rows; simpl in *; lia|]. rewrite length_take. lia. }
  set (s0 := ChainState 0 None 0 _ ∅).
  destruct (verify_rows sha256 None (take m rows) s0) as (_ & _ & _ & H4).
  assert (first_break (foldl (verify_row sha256 None) s0 (take m rows)) = None) as -> by by apply H4.
  done.
Qed.

(** An edit is located.  When a row of a reachable log is replaced by one
    with other canonical content and the stored chain hashes are left alone,
    [verify_merkle_chain] reports the chain invalid with the first break at that
    row, or the contents and digests hashed for the original and the edited row
    contain a break of SHA-256 (two strings with one digest, or one that hashes
    to the genesis sentinel). *)
Theorem edit_located db db' ns pre r r' post :
  (∀ x, String.length (sha256 x) = 32) → log_reachable db →
  ns_rows ns db = pre ++ r :: post → ns_rows ns db' = pre ++ r' :: post →
  ev_seq r' = ev_seq r → ev_chain_hash r' = ev_chain_hash r →
  row_content (head_of pre) r' ≠ row_content (head_of pre) r →
  (∃ rep, verify_merkle_chain sha256 db' ns 1 None None None = Ok rep ∧
     cr_valid rep = false ∧ cr_first_break rep = Some (ev_seq r)) ∨
  hash_break sha256 (hashed sha256 (head_of pre) [r'] ++ hashed sha256 (head_of pre) [r]).
Proof.
  intros Hlen Hreach Hrows Hrows' Hseq Hch Hcont.
  destruct (log_reachable_inv db Hreach) as (_ & Hinv & _). destruct (Hinv ns) as [Hc _ Hok _].
  rewrite Hrows in Hc, Hok. apply chain_ok_app in Hok as [Hpre [Hr _]].
  destruct (decide (expected_chain_hash sha256 (head_of pre) r' =
                    expected_chain_hash sha256 (head_of pre) r)) as [Heq|Hne].
  { apply (expected_inj sha256 Hlen _ _ _ _ (hashed sha256 (head_of pre) [r'] ++ hashed sha256 (head_of pre) [r])) in Heq
      as [[? _]|?]; first [done|by right|set_solver]. }
  left. assert (contiguous (pre ++ r' :: post)) as Hc'.
  { intros i x Hi. destruct (decide (i = length pre)) as [->|Hi'].
    - rewrite list_lookup_middle in Hi by done. simplify_eq. rewrite Hseq.
      apply (Hc (length pre)). by apply list_lookup_middle.
    - apply (Hc i). apply lookup_app_Some in Hi as [Hi|[Hle Hi]]; [by apply lookup_app_l_Some|].
      rewrite lookup_app_r by done. destruct (i - length pre) as [|k] eqn:E; [lia|done]. }
  eexists. split; [reflexivity|]. rewrite Hrows', contiguous_from_1, contiguous_sorted by done.
  cbn [cr_first_break cr_valid]. rewrite foldl_app. cbn [foldl].
  set (s0 := ChainState 0 None 0 _ ∅).
  destruct (verify_rows sha256 None pre s0) as (_ & H2 & _ & H4).
  assert (first_break (foldl (verify_row sha256 None) s0 pre) = None) as Hb by by apply H4.
  erewrite verify_rows_break; [split; [done|by rewrite <- Hseq]|].
  cbn [verify_row first_break]. rewrite Hb, H2, Hch, Hr. rewrite bool_decide_false; [by rewrite Hseq|].
  intros [= Heq]. by apply Hne.
Qed.

Lemma filter_seq_prefix e (l : list event_row) :
  List.filter (λ r, (ev_seq r <=? e)%Z) (sorted_by by_seq l) `prefix_of` sorted_by by_seq l.
Proof.
  assert (StronglySorted (λ r s, by_seq r s = true) (sorted_by by_seq l)) as Hs.
  { apply Sorted_StronglySorted.
    - intros x y z Hxy Hyz. unfold by_seq in *. apply Z.leb_le in Hxy, Hyz. apply Z.leb_le. lia.
    - apply sorted_by_sorted. intros x y. unfold by_seq. rewrite !Z.leb_le. lia. }
  induction Hs as [|x k _ IH Hall]; simpl; [done|].
  destruct (Z.leb_spec (ev_seq x) e) as [Hle|Hgt]; [by apply prefix_cons|].
  assert (List.filter (λ r, (ev_seq r <=? e)%Z) k = []) as ->; [|apply prefix_nil].
  destruct (List.filter _ k) as [|y k'] eqn:E; [done|].
  assert (In y (y :: k')) as Hy by (by left). rewrite <- E in Hy. apply filter_In in Hy as [Hy Hye].
  rewrite List.Forall_forall in Hall. specialize (Hall y Hy). unfold by_seq in Hall.
  apply Z.leb_le in Hall, Hye. lia.
Qed.

(** C31: a history rewrite is caught by the external anchor.  Let [h] be the
    chain hash at sequence number [n] of a reachable log, captured outside the
    database.  Whatever the database holds later (rows altered, inserted,
    dropped, every chain hash and the counter recomputed), if
    [verify_merkle_chain] confirms the anchor, then the rows it walked up to the
    anchored one have exactly the canonical contents of the original rows,
    unless SHA-256 breaks on the strings that the walked rows and the original
    ones hash: two different strings among these with one digest, or one of them
    with the all-zero digest that stands for the genesis. *)
Theorem anchor_confirms_history db db' ns n r h end_seq rep :
  (∀ x, String.length (sha256 x) = 32) → log_reachable db →
  row_at ns n db = Some r → ev_chain_hash r = Some h →
  verify_merkle_chain sha256 db' ns 1 end_seq (Some h) (Some n) = Ok rep →
  cr_valid rep = true →
  let original := take (Z.to_nat n) (ns_rows ns db) in
  ∃ walked : list event_row, last (ev_seq <$> walked) = Some n ∧
    walked `prefix_of` sorted_by by_seq (List.filter (λ r, (1 <=? ev_seq r)%Z) (ns_rows ns db')) ∧
    (contents sha256 _GENESIS_SENTINEL walked = contents sha256 _GENESIS_SENTINEL original ∨
     hash_break sha256 (hashed sha256 _GENESIS_SENTINEL walked ++
                        hashed sha256 _GENESIS_SENTINEL original)).
Proof.
  intros Hlen Hreach Hrow Hh Hver Hvalid.
  destruct (log_reachable_inv db Hreach) as (_ & Hinv & _). destruct (Hinv ns) as [Hc _ Hok _].
  assert (∃ i, ns_rows ns db !! i = Some r ∧ n = Z.of_nat (S i)) as (i & Hi & ->).
  { unfold row_at in Hrow. apply List.find_some in Hrow as [Hin Heq].
    apply list_elem_of_In, list_elem_of_lookup in Hin as [i Hi]. exists i. split; [done|].
    apply Z.eqb_eq in Heq. by rewrite <- Heq, (Hc i r Hi). }
  rewrite Nat2Z.id. rewrite (chain_ok_lookup sha256 _ _ i r Hok Hi) in Hh. injection Hh as <-.
  unfold verify_merkle_chain in Hver. cbn [ensure mbind result_bind Z.ltb Z.compare] in Hver.
  set (rows := sorted_by by_seq _) in *. set (walk := match end_seq with Some e => _ | None => rows end) in *.
  injection Hver as <-. cbn [cr_valid] in Hvalid.
  apply andb_true_iff in Hvalid as [_ Hanchor]. apply bool_decide_eq_true in Hanchor.
  apply verify_rows_anchor in Hanchor as [Habs|(k & r' & Hk & Hr' & Heq)].
  { simpl in Habs. by rewrite lookup_empty in Habs. }
  intros original. exists (take (S k) walk). rewrite (take_S_r _ _ _ Hk). split_and!.
  - rewrite fmap_app. simpl. rewrite last_snoc. by rewrite Hr'.
  - rewrite <- (take_S_r _ _ _ Hk). etrans; [apply prefix_take|].
    unfold walk. destruct end_seq as [e|]; [|done]. apply filter_seq_prefix.
  - apply (chain_head_inj sha256 Hlen); [set_solver|set_solver|]. by rewrite (take_S_r _ _ _ Hk) in Heq.
Qed.

End log.

(** ** Concrete runs: a toy digest of 32 characters, an identity [jsonb] *)
Fixpoint fixed_digits (k : nat) (n : N) : string :=
  match k with
  | 0 => EmptyString
  | S k => String (hex_digit (n mod 16)) (fixed_digits k (n / 16))
  end.
Fixpoint checksum (acc : N) (s : string) : N :=
  match s with
  | EmptyString => acc
  | String c s => checksum ((acc * 31 + char_code c + 7) mod 340282366920938463463374607431768211456) s
  end.
Definition toy_sha (s : string) : string := fixed_digits 32 (checksum 1 s).
Definition toy_hmac (k m : string) : string := "mac:" +:+ k +:+ m.
Definition toy_json (l : jobject) : option string := Some (json_dumps (JObj l)).
Definition toy_append := append_event toy_sha toy_hmac toy_json id (λ _, None) Some.
Abbreviation toy_reachable := (log_reachable toy_sha toy_hmac toy_json id (λ _, None) Some).

Lemma toy_sha_length x : String.length (toy_sha x) = 32.
Proof.
  unfold toy_sha. generalize (checksum 1 x). intros n.
  assert (∀ k n, String.length (fixed_digits k n) = k) as Hk; [|apply Hk].
  induction k as [|k IH]; intros m; simpl; [done|]. by rewrite IH.
Qed.

Definition demo_env : call_env := CallEnv 1700000000000000 1700000000000000 "e0" None.
Definition demo_args (ns id ty : string) (params : jobject) : append_args :=
  AppendArgs true ns " agent " ty params None None [] None None None (Some id) None.
Definition demo_appends : list append_args :=
  [demo_args "ns" "e1" "forget_memory" [("memory_id", JStr "m1")];
   demo_args "other" "e2" "d365_sla_breach"
     [("incident_id", JInt 7); ("breach_type", JStr "sla"); ("account_name", JStr "acme");
      ("memory_id", JNull); ("mongo_id", JNull)];
   demo_args "ns" "e3" "boost_memory" [("memory_id", JStr "m1"); ("factor", JFloat "1.5")];
   demo_args "ns" "e4" "unredact" [("memory_id", JStr "m2")]].
Definition demo_run (db : log_db) (a : append_args) : log_db :=
  match toy_append demo_env db a with Ok (db', _) => db' | Err _ => db end.
Definition demo_init : log_db := LogDb [] ∅ [] ∅ {["k1" := "secret"]} (Some "k1").
Definition demo_log : log_db := foldl demo_run demo_init demo_appends.

Lemma demo_run_reachable db a : toy_reachable db → toy_reachable (demo_run db a).
Proof.
  intros (db0 & Hi & Hr). unfold demo_run.
  destruct (toy_append demo_env db a) as [[db' res]|e] eqn:E; [|by exists db0].
  exists db0. split; [done|]. eapply rtc_r; [done|]. eapply step_append; [|exact E].
  by split_and!.
Qed.

Lemma demo_log_reachable : toy_reachable demo_log.
Proof.
  assert (toy_reachable demo_init) as H0.
  { exists demo_init. split; [|done]. by split_and!. }
  unfold demo_log. revert H0. generalize demo_init. induction demo_appends as [|a l IH]; intros db H0; [done|].
  cbn [foldl]. by apply IH, demo_run_reachable.
Qed.


Lemma reachable_signatures_verify_witness :
  toy_reachable demo_log ∧
  ∀ r, r ∈ event_log demo_log → verify_event_signature toy_hmac toy_json demo_log r = Ok ().
Proof.
  split; [apply demo_log_reachable|]. intros r Hr.
  apply (reachable_signatures_verify toy_sha toy_hmac toy_json id (λ _, None) Some);
    [intros k m; discriminate|apply demo_log_reachable|exact Hr].
Defined.

Lemma reachable_rows_respect_contracts_witness :
  toy_reachable demo_log ∧
  ∀ r, r ∈ event_log demo_log → ev_agent_id r ≠ "" ∧ String.length (ev_agent_id r) ≤ 128.
Proof.
  split; [apply demo_log_reachable|]. intros r Hr.
  destruct (reachable_rows_respect_contracts toy_sha toy_hmac toy_json id (λ _, None) Some demo_log r)
    as (_ & _ & _ & H); [apply demo_log_reachable|exact Hr|exact H].
Defined.

Definition demo_truncated : log_db :=
  LogDb (take 3 (event_log demo_log)) (event_sequences demo_log) [] ∅ (signing_keys demo_log) None.

Lemma truncation_detected_witness :
  toy_reachable demo_log ∧
  ∃ rep, verify_merkle_chain toy_sha demo_truncated "ns" 1 None None None = Ok rep ∧
    cr_first_break rep = None ∧ cr_sequence_mismatch rep = true ∧ cr_valid rep = false.
Proof.
  split; [apply demo_log_reachable|].
  apply (truncation_detected toy_sha toy_hmac toy_json id (λ _, None) Some demo_log demo_truncated "ns" 2).
  - apply demo_log_reachable.
  - reflexivity.
  - apply Nat.ltb_lt. vm_compute. reflexivity.
  - vm_compute. reflexivity.
Defined.

(** The second row of ["ns"] with another agent. *)
Definition forge (r : event_row) : event_row :=
  EventRow (ev_id r) (ev_namespace_id r) "mallory" (ev_event_type r) (ev_seq r) (ev_occurred_at r)
    (ev_params r) (ev_result_summary r) (ev_parent_event_id r) (ev_llm_payload_uri r)
    (ev_llm_payload_hash r) (ev_signature r) (ev_signature_key_id r) (ev_signature_version r)
    (ev_chain_hash r) (ev_correlation_id r).
Definition demo_forged : log_db :=
  LogDb (alter forge 2 (event_log demo_log)) (event_sequences demo_log) [] ∅ (signing_keys demo_log) None.
Definition demo_row (i : nat) : event_row :=
  nth i (ns_rows "ns" demo_log)
    (EventRow "" "" "" "" 0 0 [] None None None None "" "" None None None).

Lemma edit_located_witness :
  toy_reachable demo_log ∧
  ((∃ rep, verify_merkle_chain toy_sha demo_forged "ns" 1 None None None = Ok rep ∧
     cr_valid rep = false ∧ cr_first_break rep = Some (ev_seq (demo_row 1))) ∨
   hash_break toy_sha (hashed toy_sha (chain_head toy_sha _GENESIS_SENTINEL [demo_row 0]) [forge (demo_row 1)] ++
                       hashed toy_sha (chain_head toy_sha _GENESIS_SENTINEL [demo_row 0]) [demo_row 1])).
Proof.
  split; [apply demo_log_reachable|].
  apply (edit_located toy_sha toy_hmac toy_json id (λ _, None) Some demo_log demo_forged "ns"
           [demo_row 0] (demo_row 1) (forge (demo_row 1)) [demo_row 2]).
  - apply toy_sha_length.
  - apply demo_log_reachable.
  - vm_compute. reflexivity.
  - vm_compute. reflexivity.
  - reflexivity.
  - reflexivity.
  - vm_compute. discriminate.
Defined.

Lemma anchor_confirms_history_witness :
  toy_reachable demo_log ∧
  ∃ walked : list event_row, last (ev_seq <$> walked) = Some 2%Z ∧
    walked `prefix_of` sorted_by by_seq (List.filter (λ r, (1 <=? ev_seq r)%Z) (ns_rows "ns" demo_log)) ∧
    (contents toy_sha _GENESIS_SENTINEL walked =
     contents toy_sha _GENESIS_SENTINEL (take 2 (ns_rows "ns" demo_log)) ∨
     hash_break toy_sha (hashed toy_sha _GENESIS_SENTINEL walked ++
                         hashed toy_sha _GENESIS_SENTINEL (take 2 (ns_rows "ns" demo_log)))).
Proof.
  split; [apply demo_log_reachable|].
  destruct (row_at "ns" 2 demo_log) as [r|] eqn:Hr; [|vm_compute in Hr; discriminate].
  destruct (ev_chain_hash r) as [h|] eqn:Hh.
  2:{ vm_compute in Hr. injection Hr as <-. vm_compute in Hh. discriminate. }
  destruct (verify_merkle_chain toy_sha demo_log "ns" 1 None (Some h) (Some 2%Z)) as [rep|] eqn:Hv;
    [|vm_compute in Hv; discriminate].
  apply (anchor_confirms_history toy_sha toy_hmac toy_json id (λ _, None) Some demo_log demo_log "ns" 2 r h
           None rep).
  - apply toy_sha_length.
  - apply demo_log_reachable.
  - exact Hr.
  - exact Hh.
  - exact Hv.
  - vm_compute in Hr. injection Hr as <-. vm_compute in Hh. injection Hh as <-.
    vm_compute in Hv. injection Hv as <-. reflexivity.
Defined.

(** PostgreSQL prints the [jsonb] number [1e+16] as an integer; the chain of a
    log whose event was signed over that float does not verify after the
    row is read back. *)
Definition numeric_jsonb (p : jobject) : jobject :=
  (λ kv, (kv.1, match kv.2 with
                | JFloat r => if String.eqb r "1e+16" then JInt 10000000000000000 else JFloat r
                | v => v
                end)) <$> p.

Lemma large_float_param_breaks_chain :
  match append_event toy_sha toy_hmac toy_json numeric_jsonb (λ _, None) Some demo_env demo_init
          (demo_args "ns" "e1" "boost_memory" [("memory_id", JStr "m1"); ("factor", JFloat "1e+16")]) with
  | Ok (db, _) =>
      match verify_merkle_chain toy_sha db "ns" 1 None None None with
      | Ok rep => cr_valid rep = false ∧ cr_first_break rep = Some 1%Z
      | Err _ => False
      end
  | Err _ => False
  end.
Proof. vm_compute. done. Qed.

(** ** The event log implements [AuditLog] *)
Section implementation.
Context (sha256 : string → string) (hmac_sha256 : string → string → string).
Context (canonical_json : list (string * json) → option string).
Context (jsonb : list (string * json) → list (string * json)).
Context (fromisoformat : string → option datetime) (uuid_of : string → option string).

Definition audit_call (ns agent ty : string) (params : list (string * json)) : append_args :=
  AppendArgs true ns agent ty params None None [] None None None None None.
Definition row_entry (r : event_row) : string * string * string * list (string * json) :=
  (ev_namespace_id r, ev_agent_id r, ev_event_type r, ev_params r).

Definition audit_row (env : call_env) (db : log_db) (ns agent ty : string)
    (params : list (string * json)) : option log_db :=
  match append_event sha256 hmac_sha256 canonical_json jsonb fromisoformat uuid_of env db
          (audit_call ns agent ty params) with
  | Ok (db', _) => Some db'
  | Err _ => None
  end.

Lemma audit_row_entries env l ns agent ty params l' :
  strip agent = agent → audit_row env l ns agent ty params = Some l' →
  ∃ p, p = jsonb params ∧ row_entry <$> event_log l' = (row_entry <$> event_log l) ++ [(ns, agent, ty, p)].
Proof.
  unfold audit_row. intros Hag H.
  destruct (append_event _ _ _ _ _ _ _ _ _) as [[db' res]|] eqn:E; [|done]. injection H as <-.
  apply append_ok in E as (r & Hr & Hlog & _). exists (jsonb params). split; [done|].
  rewrite Hlog, fmap_app. simpl. unfold row_entry at 2.
  destruct (ap_static _ _ _ _ _ _ _ _ Hr) as (-> & -> & -> & _).
  destruct (ap_agent _ _ _ _ _ _ _ _ Hr) as (-> & _). simpl. by rewrite Hag.
Qed.

#[export] Instance event_log_audit : AuditLog log_db call_env := {|
  audit_append := audit_row;
  audit_entries db := row_entry <$> event_log db;
  audit_stored p q := q = jsonb p;
  audit_append_entries := audit_row_entries
|}.
End implementation.

(** The instance of the concrete runs. *)
Definition toy_audit : AuditLog log_db call_env := event_log_audit toy_sha toy_hmac toy_json id (λ _, None) Some.
