(* ===== verification/Policy.v ===== *)
(** * Policy: the pure gates of the autonomy governor

    Models [src/nce/autonomy/policy.py].  The text of a reason is structured
    data: which gate fired, with its operands. *)
From S2P Require Import Prelude PyFloat PyText.

Definition RISK_FLAGS_FORCE_CONFIRM : list string := ["flagship"; "first_of_kind"; "regulated"].

Inductive gate :=
  | RiskFlags (flags : list string)
  | ValueCeiling (value ceiling : float)
  | VolumeCap (volume cap : float)
  | NotInAllowlist (counterparty : string).

Inductive policy_reason :=
  | ReasonOk
  | ConfidenceBelowMinimum (confidence minimum : float)
  | BlastRadiusExceeded (count maximum : Z)
  | GatesFired (gates : list gate).

Record PolicyDecision := MkDecision { requires_confirm : bool; reason : policy_reason }.

(** The arguments of [evaluate_policy]. *)
Record policy_args := PolicyArgs {
  p_value : option float;
  p_value_ceiling : option float;
  p_volume_state : option float;
  p_volume_rate_cap : option float;
  p_counterparty : option string;
  p_allowlist : option (list string);
  p_risk_flags : option (list string);
  p_confidence : option float;
  p_min_confidence : option float;
  p_blast_radius_count : option Z;
  p_max_blast_radius : option Z;
  p_reversibility : option string
}.

Definition risk_gate (a : policy_args) : list gate :=
  match p_risk_flags a with
  | Some flags =>
      match List.filter (λ f, existsb (String.eqb f) RISK_FLAGS_FORCE_CONFIRM) flags with
      | [] => []
      | fired => [RiskFlags fired]
      end
  | None => []
  end.

Definition value_gate (a : policy_args) : list gate :=
  match p_value a, p_value_ceiling a with
  | Some v, Some c => if fltb c v then [ValueCeiling v c] else []
  | _, _ => []
  end.

Definition volume_gate (a : policy_args) : list gate :=
  match p_volume_state a, p_volume_rate_cap a with
  | Some v, Some c => if fltb c v then [VolumeCap v c] else []
  | _, _ => []
  end.

Definition allowlist_gate (a : policy_args) : list gate :=
  match p_counterparty a, p_allowlist a with
  | Some c, Some ((_ :: _) as l) => if existsb (String.eqb c) l then [] else [NotInAllowlist c]
  | _, _ => []
  end.

Definition additive_gates (a : policy_args) : list gate :=
  risk_gate a ++ value_gate a ++ volume_gate a ++ allowlist_gate a.

Definition confidence_below (a : policy_args) : option (float * float) :=
  match p_min_confidence a, p_confidence a with
  | Some m, Some c => if fltb c m then Some (c, m) else None
  | _, _ => None
  end.

Definition blast_exceeded (a : policy_args) : option (Z * Z) :=
  match p_max_blast_radius a, p_blast_radius_count a with
  | Some m, Some c => if (m <? c)%Z then Some (c, m) else None
  | _, _ => None
  end.

Definition evaluate_policy (a : policy_args) : PolicyDecision :=
  match confidence_below a with
  | Some (c, m) => MkDecision true (ConfidenceBelowMinimum c m)
  | None =>
      match blast_exceeded a with
      | Some (c, m) => MkDecision true (BlastRadiusExceeded c m)
      | None =>
          match additive_gates a with
          | [] => MkDecision false ReasonOk
          | reasons => MkDecision true (GatesFired reasons)
          end
      end
  end.

(** ** The gates are additive *)

(** What it takes for an act to run without a human. *)
Record autonomous_ok (a : policy_args) : Prop := {
  ok_confidence c m : p_confidence a = Some c → p_min_confidence a = Some m → fltb c m = false;
  ok_blast c m : p_blast_radius_count a = Some c → p_max_blast_radius a = Some m → (c ≤ m)%Z;
  ok_flags l f : p_risk_flags a = Some l → f ∈ l → f ∉ RISK_FLAGS_FORCE_CONFIRM;
  ok_value v c : p_value a = Some v → p_value_ceiling a = Some c → fltb c v = false;
  ok_volume v c : p_volume_state a = Some v → p_volume_rate_cap a = Some c → fltb c v = false;
  ok_counterparty c l : p_counterparty a = Some c → p_allowlist a = Some l → l ≠ [] → c ∈ l
}.

Lemma existsb_eqb_elem x l : existsb (String.eqb x) l = true ↔ x ∈ l.
Proof. rewrite existsb_elem. setoid_rewrite String.eqb_eq. naive_solver. Qed.

Lemma risk_gate_nil a :
  risk_gate a = [] ↔
  ∀ l f, p_risk_flags a = Some l → f ∈ l → f ∉ RISK_FLAGS_FORCE_CONFIRM.
Proof.
  unfold risk_gate. destruct (p_risk_flags a) as [l|]; [|naive_solver].
  set (fired := List.filter _ l).
  assert (∀ f, f ∈ fired ↔ f ∈ l ∧ f ∈ RISK_FLAGS_FORCE_CONFIRM) as Hf.
  { intros f. unfold fired. by rewrite list_elem_of_In, filter_In, <- list_elem_of_In, existsb_eqb_elem. }
  destruct fired as [|f fs]; split.
  - intros _ l' f [= <-] Hl Hr. by assert (f ∈ []) as ?%elem_of_nil by by apply Hf.
  - done.
  - done.
  - intros Hno. destruct (proj1 (Hf f) ltac:(left)) as [Hl Hr]. by destruct (Hno l f eq_refl Hl).
Qed.

Lemma allowlist_gate_nil a :
  allowlist_gate a = [] ↔
  ∀ c l, p_counterparty a = Some c → p_allowlist a = Some l → l ≠ [] → c ∈ l.
Proof.
  unfold allowlist_gate. destruct (p_counterparty a) as [c|]; [|naive_solver].
  destruct (p_allowlist a) as [[|x l]|]; [naive_solver| |naive_solver].
  destruct (existsb _ _) eqn:E.
  - apply existsb_eqb_elem in E. naive_solver.
  - split; [done|]. intros H. specialize (H c (x :: l) eq_refl eq_refl ltac:(done)).
    apply existsb_eqb_elem in H. congruence.
Qed.

(** A gate on two optional operands is quiet when they do not trip it. *)
Lemma gate2_quiet {A B C} (x : option A) (y : option B) (trips : A → B → bool) (fire : A → B → C) (quiet : C) :
  (∀ v c, fire v c ≠ quiet) →
  match x, y with
  | Some v, Some c => if trips v c then fire v c else quiet
  | _, _ => quiet
  end = quiet ↔ ∀ v c, x = Some v → y = Some c → trips v c = false.
Proof.
  intros Hne. destruct x as [v|]; [|naive_solver]. destruct y as [c|]; [|naive_solver].
  destruct (trips v c) eqn:E; split.
  - intros Hf. by destruct (Hne v c).
  - intros H. by rewrite (H v c) in E.
  - intros _ v' c' [= <-] [= <-]. done.
  - done.
Qed.

Lemma evaluate_policy_autonomous a : requires_confirm (evaluate_policy a) = false ↔ autonomous_ok a.
Proof.
  assert (value_gate a = [] ↔
    ∀ v c, p_value a = Some v → p_value_ceiling a = Some c → fltb c v = false) as Hv
    by by apply (gate2_quiet _ _ (λ v c, fltb c v) (λ v c, [ValueCeiling v c])).
  assert (volume_gate a = [] ↔
    ∀ v c, p_volume_state a = Some v → p_volume_rate_cap a = Some c → fltb c v = false) as Hu
    by by apply (gate2_quiet _ _ (λ v c, fltb c v) (λ v c, [VolumeCap v c])).
  assert (confidence_below a = None ↔
    ∀ m c, p_min_confidence a = Some m → p_confidence a = Some c → fltb c m = false) as Hc
    by by apply (gate2_quiet _ _ (λ m c, fltb c m) (λ m c, Some (c, m))).
  assert (blast_exceeded a = None ↔
    ∀ m c, p_max_blast_radius a = Some m → p_blast_radius_count a = Some c → (m <? c)%Z = false) as Hb
    by by apply (gate2_quiet _ _ (λ m c, (m <? c)%Z) (λ m c, Some (c, m))).
  setoid_rewrite Z.ltb_ge in Hb.
  assert (additive_gates a = [] ↔
    risk_gate a = [] ∧ value_gate a = [] ∧ volume_gate a = [] ∧ allowlist_gate a = []) as Ha
    by (unfold additive_gates; rewrite !app_nil; done).
  rewrite risk_gate_nil, allowlist_gate_nil, Hv, Hu in Ha.
  unfold evaluate_policy. split.
  - destruct (confidence_below a) as [[]|]; [done|]. destruct (blast_exceeded a) as [[]|]; [done|].
    destruct (additive_gates a); [|done]. intros _.
    destruct (proj1 Ha eq_refl) as (? & ? & ? & ?). constructor; try done; intros x y ? ?; [by apply Hc|by apply Hb].
  - intros [K1 K2 K3 K4 K5 K6].
    rewrite (proj2 Hc), (proj2 Hb) by (intros x y ? ?; eauto).
    by rewrite (proj2 Ha (conj K3 (conj K4 (conj K5 K6)))).
Qed.

(** The policy gates are additive and none is skipped.  [evaluate_policy]
    lets an act run without a human exactly when every configured gate passes:
    confidence not below its minimum, blast radius within its maximum, no
    risk flag that forces confirmation (whatever the value), value and volume not
    above their caps, counterparty on a non-empty allowlist; and the reason is
    "ok" exactly then. *)
Theorem evaluate_policy_additive a :
  (requires_confirm (evaluate_policy a) = false ↔ autonomous_ok a) ∧
  (reason (evaluate_policy a) = ReasonOk ↔ autonomous_ok a) ∧
  (∀ gates, reason (evaluate_policy a) = GatesFired gates → gates = additive_gates a ∧ gates ≠ []).
Proof.
  split_and!; [apply evaluate_policy_autonomous|rewrite <- evaluate_policy_autonomous|];
    unfold evaluate_policy; destruct (confidence_below a) as [[]|], (blast_exceeded a) as [[]|],
      (additive_gates a); simpl; naive_solver.
Qed.

(** A NaN passes every float gate it is compared by. *)
Lemma nan_value_is_autonomous :
  evaluate_policy (PolicyArgs (Some S754_nan) (Some (of_Z 0)) (Some S754_nan) (Some (of_Z 0)) None None
                     None (Some S754_nan) (Some (of_Z 1)) None None None) = MkDecision false ReasonOk.
Proof. vm_compute. reflexivity. Qed.

(** The early returns hide the additive gates that would also fire. *)
Lemma confidence_hides_flags :
  reason (evaluate_policy (PolicyArgs None None None None None None (Some ["flagship"]) (Some (of_Z 0))
                             (Some (of_Z 1)) None None None)) =
  ConfidenceBelowMinimum (of_Z 0) (of_Z 1).
Proof. vm_compute. reflexivity. Qed.
