(* ===== verification/Governor.v ===== *)
(** * Governor: the [@governed] autonomy gate

    Models [src/nce/autonomy/governor.py]: the kill switch, the idempotency
    table, the approval queue, [_execute_governed] and the [governed] wrapper.
    A call runs in its caller's transaction: an error result carries no state,
    because the transaction rolls back.  The audit trail is the interface
    [AuditLog], which the event log implements; the handler is a parameter that
    acts on the rest of the database. *)
From S2P Require Import Prelude PyFloat PyText Policy AuditLog.
From stdpp Require Import pretty.

(** ** Argument values and [_sanitize_for_json]

    Containers and opaque objects carry the text [str] gives them. *)
#[warnings="-register-all"]
Inductive pyval :=
  | PNone
  | PBool (b : bool)
  | PInt (z : Z)
  | PFloat (repr : string)
  | PStr (s : string)
  | PUuid (s : string)
  | PTime (iso : option string) (text : string)     (* [None]: isoformat raises *)
  | PDict (l : list (string * pyval)) (text : string)
  | PSeq (l : list pyval) (text : string)
  | PModel (dump : option pyval) (text : string)    (* [None]: model_dump raises *)
  | PObj (text : string).

Definition hidden_key (k : string) : bool :=
  existsb (String.eqb k) ["conn"; "redis_client"; "engine"].

Fixpoint _sanitize_for_json (v : pyval) : json :=
  match v with
  | PNone => JNull
  | PBool b => JBool b
  | PInt z => JInt z
  | PFloat r => JFloat r
  | PStr s => JStr s
  | PUuid s => JStr s
  | PTime (Some iso) _ => JStr iso
  | PTime None text => JStr text
  | PDict l _ =>
      JObj (flat_map (λ kv, if hidden_key kv.1 then [] else [(kv.1, _sanitize_for_json kv.2)]) l)
  | PSeq l _ => JArr (map _sanitize_for_json l)
  | PModel (Some d) _ => _sanitize_for_json d
  | PModel None text => JStr text
  | PObj text => JStr text
  end.

(** [str(v)] and [bool(v)] *)
Definition py_str (v : pyval) : string :=
  match v with
  | PNone => "None"
  | PBool b => if b then "True" else "False"
  | PInt z => pretty z
  | PFloat s | PStr s | PUuid s | PTime _ s | PDict _ s | PSeq _ s | PModel _ s | PObj s => s
  end.
Definition truthy (v : pyval) : bool :=
  match v with
  | PNone => false
  | PBool b => b
  | PInt z => negb (z =? 0)%Z
  | PFloat r => negb (String.eqb r "0.0" || String.eqb r "-0.0")
  | PStr s => negb (String.eqb s "")
  | PDict [] _ | PSeq [] _ => false
  | _ => true
  end.

(** ** Data *)
Inductive gov_error :=
  | GovernanceError
  | MissingIdempotencyKeyError
  | KillSwitchError
  | HandlerError                (* the handler, or the audit append, raised *).

Inductive queue_status := Pending | Approved | Rejected | Executed | Expired.
Global Instance queue_status_eq_dec : EqDecision queue_status.
Proof. solve_decision. Defined.

Record queue_row := QueueRow {
  q_id : string;
  q_namespace_id : string;
  q_agent_id : string;
  q_action_type : string;
  q_target_system : string;
  q_target_entity_id : option string;
  q_idempotency_key : string;             (* of [proposed_payload] *)
  q_reason : policy_reason + unit;        (* [inr tt]: "confirm_required" *)
  q_parameters : jobject;
  q_status : queue_status;
  q_dry_run_result : option policy_reason
}.

Inductive outcome (R : Type) :=
  | AlreadyExecuted (key : string)
  | ExecutedNow (res : R) (key : string)
  | PendingApproval (key approval_id : string) (why : option policy_reason).
Arguments AlreadyExecuted {R} key.
Arguments ExecutedNow {R} res key.
Arguments PendingApproval {R} key approval_id why.

Definition _AGENT_ID : string := "governor".

(** A Redis client: [hexists nce:tools:disabled field], which may raise. *)
Abbreviation redis := (string → option bool).

Definition _check_kill_switch (redis_client : option redis) (action_type : string) :
    result gov_error unit :=
  match redis_client with
  | None => Ok ()
  | Some hexists =>
      match hexists action_type with
      | None => raise KillSwitchError
      | Some true => raise KillSwitchError
      | Some false =>
          match hexists "*" with
          | None => raise KillSwitchError
          | Some true => raise KillSwitchError
          | Some false => Ok ()
          end
      end
  end.

Section governor.
Context {Log Env App R : Type}.

Record gov_db := GovDb {
  action_idempotency : gmap (string * string) string;   (* (namespace, key) to action type *)
  action_approval_queue : list queue_row;
  audit : Log;
  app_state : App                                             (* the other tables *)
}.

(** One call, its arguments resolved by name. *)
Record gov_call := GovCall {
  action_type : string;                    (* of the decorator *)
  handler : App → option (R * App);        (* the wrapped coroutine *)
  g_args : list (string * pyval);          (* the bound arguments but conn and redis_client *)
  g_conn : option bool;                    (* the connection: is it in a transaction? *)
  g_redis : option redis;
  g_namespace_id : option string;
  g_idempotency_key : pyval;
  g_confirm : bool;
  g_policy : policy_args;
  g_audit_env : Env;
  g_fresh_id : string                      (* the queue's gen_random_uuid() *)
}.

Definition _get_arg (c : gov_call) (name : string) : pyval :=
  match List.find (λ kv, String.eqb kv.1 name) (g_args c) with Some kv => kv.2 | None => PNone end.
Definition py_or (v w : pyval) : pyval := if truthy v then v else w.

Definition _idempotency_key_exists (db : gov_db) (ns key : string) : bool :=
  bool_decide (is_Some (action_idempotency db !! (ns, key))).

(** [None]: the primary key is violated. *)
Definition _record_idempotency_key (db : gov_db) (ns key action : string) : option gov_db :=
  match action_idempotency db !! (ns, key) with
  | Some _ => None
  | None => Some (GovDb (<[(ns, key) := action]> (action_idempotency db)) (action_approval_queue db)
                        (audit db) (app_state db))
  end.

Context `{AuditLog Log Env}.

Definition audit_params (action key : string) : jobject :=
  [("actor", JStr _AGENT_ID);
   ("changes", JObj [("governed_action", JStr action); ("idempotency_key", JStr key)])].

Definition _audit_execution (env : Env) (db : gov_db) (ns key action : string) :
    result gov_error gov_db :=
  match audit_append env (audit db) ns _AGENT_ID "config_changed" (audit_params action key) with
  | Some l => Ok (GovDb (action_idempotency db) (action_approval_queue db) l (app_state db))
  | None => raise HandlerError
  end.

Definition queue_match (ns action key : string) (q : queue_row) : bool :=
  String.eqb (q_namespace_id q) ns && String.eqb (q_action_type q) action &&
  String.eqb (q_idempotency_key q) key.

(** The lookup reads [seen]; the insert goes to [now]. *)
Definition _record_pending_approval (seen now : gov_db) (fresh_id ns agent action target : string)
    (entity : option string) (key : string) (why : policy_reason + unit) (params : jobject)
    (dry_run : option policy_reason) : gov_db * string :=
  match List.find (λ q, queue_match ns action key q && bool_decide (q_status q = Pending))
                  (action_approval_queue seen) with
  | Some q => (now, q_id q)
  | None =>
      (GovDb (action_idempotency now)
             (action_approval_queue now ++
              [QueueRow fresh_id ns agent action target entity key why params Pending dry_run])
             (audit now) (app_state now), fresh_id)
  end.

Definition mark_executed (ns action key : string) (q : queue_row) : queue_row :=
  if queue_match ns action key q && bool_decide (q_status q = Pending ∨ q_status q = Approved)
  then QueueRow (q_id q) (q_namespace_id q) (q_agent_id q) (q_action_type q) (q_target_system q)
         (q_target_entity_id q) (q_idempotency_key q) (q_reason q) (q_parameters q) Executed
         (q_dry_run_result q)
  else q.

Definition _mark_approval_queue_executed (db : gov_db) (ns action key : string) : gov_db :=
  GovDb (action_idempotency db) (mark_executed ns action key <$> action_approval_queue db)
        (audit db) (app_state db).

(** [seen]: the committed state the existence check reads; [now]: the state the
    INSERT runs on, after it waited for concurrent holders of the key. *)
Definition _execute_governed (c : gov_call) (in_tx : bool) (seen now : gov_db) (ns key : string) :
    result gov_error (gov_db * outcome R) :=
  _ ← ensure in_tx GovernanceError;
  if _idempotency_key_exists seen ns key then Ok (now, AlreadyExecuted key)
  else
    match _record_idempotency_key now ns key (action_type c) with
    | None => Ok (now, AlreadyExecuted key)      (* the violation rolls the transaction back *)
    | Some db =>
        match handler c (app_state db) with
        | None => raise HandlerError
        | Some (res, app') =>
            let db := GovDb (action_idempotency db) (action_approval_queue db) (audit db) app' in
            let db := _mark_approval_queue_executed db ns (action_type c) key in
            db ← _audit_execution (g_audit_env c) db ns key (action_type c);
            Ok (db, ExecutedNow res key)
        end
    end.

Definition call_agent (c : gov_call) : string :=
  py_str (py_or (_get_arg c "agent_id") (py_or (_get_arg c "caller_identity")
         (py_or (_get_arg c "actor") (PStr _AGENT_ID)))).
Definition call_target (c : gov_call) : string :=
  py_str (py_or (_get_arg c "target_system") (PStr "nce")).
Definition call_entity (c : gov_call) : option string :=
  match py_or (_get_arg c "target_entity_id") (_get_arg c "entity_id") with
  | PNone => None
  | v => Some (py_str v)
  end.
Definition call_params (c : gov_call) : jobject :=
  flat_map (λ kv, if String.eqb kv.1 "conn" || String.eqb kv.1 "redis_client" then []
                  else [(kv.1, _sanitize_for_json kv.2)]) (g_args c).

(** The wrapper.  [seen1], [seen2]: the committed states its two existence
    checks read; [now]: the state its writes apply to. *)
Definition governed (c : gov_call) (seen1 seen2 now : gov_db) : result gov_error (gov_db * outcome R) :=
  let key := strip (py_str (g_idempotency_key c)) in
  _ ← ensure (truthy (g_idempotency_key c) && negb (String.eqb key "")) MissingIdempotencyKeyError;
  _ ← _check_kill_switch (g_redis c) (action_type c);
  match g_conn c, g_namespace_id c with
  | Some in_tx, Some ns =>
      _ ← ensure in_tx GovernanceError;
      if _idempotency_key_exists seen1 ns key then Ok (now, AlreadyExecuted key)
      else
        let pending why dry_run shown :=
          let '(db, id) :=
            _record_pending_approval seen1 now (g_fresh_id c) ns (call_agent c) (action_type c)
              (call_target c) (call_entity c) key why (call_params c) dry_run in
          Ok (db, PendingApproval key id shown) in
        if negb (g_confirm c) then pending (inr tt) None None
        else
          let policy := evaluate_policy (g_policy c) in
          if requires_confirm policy
          then pending (inl (reason policy)) (Some (reason policy)) (Some (reason policy))
          else _execute_governed c in_tx seen2 now ns key
  | _, _ => raise GovernanceError
  end.
End governor.
