(* ===== verification/GovernorProps.v ===== *)
(** * GovernorProps: what the autonomy gate guarantees

    Proved against the [AuditLog] interface; the concrete runs use the event log. *)
From S2P Require Import Prelude PyFloat PyText Policy EventTypes EventLog EventLogFacts EventLogProps AuditLog Governor.

(** ** One call *)
Section governor_props.
Context `{AuditLog Log Env} {App R : Type}.
Implicit Types (db now seen : @gov_db Log App) (c : @gov_call Env App R).
Abbreviation gdb := (@gov_db Log App).

Definition call_key c : string := strip (py_str (g_idempotency_key c)).

Definition kill_switch_clear c : Prop :=
  match g_redis c with
  | None => True
  | Some hexists => hexists (action_type c) = Some false ∧ hexists "*" = Some false
  end.

Lemma check_kill_switch_ok c u : _check_kill_switch (g_redis c) (action_type c) = Ok u ↔ kill_switch_clear c.
Proof.
  unfold _check_kill_switch, kill_switch_clear. destruct u, (g_redis c) as [h|]; [|done].
  destruct (h (action_type c)) as [[]|]; [naive_solver| |naive_solver].
  destruct (h "*") as [[]|]; naive_solver.
Qed.

(** What every call that returns has passed. *)
Record call_ok c (ns : string) : Prop := {
  co_key : truthy (g_idempotency_key c) = true ∧ call_key c ≠ "";
  co_kill : kill_switch_clear c;
  co_conn : g_conn c = Some true;
  co_ns : g_namespace_id c = Some ns
}.

(** What the outcome says about the state. *)
Definition outcome_ok c (ns : string) (s1 s2 now db : gdb) (o : outcome R) : Prop :=
  match o with
  | AlreadyExecuted k =>
      k = call_key c ∧ db = now ∧
      (is_Some (action_idempotency s1 !! (ns, k)) ∨ is_Some (action_idempotency s2 !! (ns, k)) ∨
       is_Some (action_idempotency now !! (ns, k)))
  | PendingApproval k id why =>
      k = call_key c ∧ action_idempotency db = action_idempotency now ∧ audit db = audit now ∧
      app_state db = app_state now ∧ (g_confirm c = false ∨ requires_confirm (evaluate_policy (g_policy c)) = true) ∧
      (∃ q, q ∈ action_approval_queue s1 ++ action_approval_queue db ∧ q_id q = id ∧
            q_status q = Pending ∧ queue_match ns (action_type c) k q = true)
  | ExecutedNow res k =>
      k = call_key c ∧ g_confirm c = true ∧ requires_confirm (evaluate_policy (g_policy c)) = false ∧
      action_idempotency now !! (ns, k) = None ∧
      action_idempotency db = <[(ns, k) := action_type c]> (action_idempotency now) ∧
      handler c (app_state now) = Some (res, app_state db) ∧
      action_approval_queue db = mark_executed ns (action_type c) k <$> action_approval_queue now ∧
      ∃ p, audit_stored (audit_params (action_type c) k) p ∧
        audit_entries (audit db) = audit_entries (audit now) ++ [(ns, _AGENT_ID, "config_changed", p)]
  end.

Lemma queue_match_intro ns action key id agent target entity why params st dry :
  queue_match ns action key (QueueRow id ns agent action target entity key why params st dry) = true.
Proof. unfold queue_match. simpl. by rewrite !String.eqb_refl. Qed.

Lemma record_pending_ok seen now fresh ns agent action target entity key why params dry db id :
  _record_pending_approval seen now fresh ns agent action target entity key why params dry = (db, id) →
  action_idempotency db = action_idempotency now ∧ audit db = audit now ∧ app_state db = app_state now ∧
  ∃ q, q ∈ action_approval_queue seen ++ action_approval_queue db ∧ q_id q = id ∧
       q_status q = Pending ∧ queue_match ns action key q = true.
Proof.
  unfold _record_pending_approval. destruct (List.find _ _) as [q|] eqn:E; intros [= <- <-].
  - split_and!; try done. apply List.find_some in E as [Hin Hq].
    apply andb_true_iff in Hq as [Hm Hs]. exists q.
    split_and!; [apply elem_of_app; left; by apply list_elem_of_In|done|by apply bool_decide_eq_true in Hs|done].
  - split_and!; try done. eexists. split; [|split_and!; [..|apply queue_match_intro]; done].
    simpl. rewrite !elem_of_app. right; right. left.
Qed.

Lemma idempotency_exists seen ns k :
  _idempotency_key_exists seen ns k = true ↔ is_Some (action_idempotency seen !! (ns, k)).
Proof. unfold _idempotency_key_exists. apply bool_decide_eq_true. Qed.

Lemma execute_governed_ok c s2 now ns k db o s1 :
  _execute_governed c true s2 now ns k = Ok (db, o) → k = call_key c → g_confirm c = true →
  requires_confirm (evaluate_policy (g_policy c)) = false → outcome_ok c ns s1 s2 now db o.
Proof.
  intros H0 Hk Hc Hp. unfold _execute_governed in H0. apply ensure_bind in H0 as [_ H0].
  destruct (_idempotency_key_exists s2 ns k) eqn:Hs2.
  { injection H0 as <- <-. apply idempotency_exists in Hs2. by split_and!; [| |right; left]. }
  unfold _record_idempotency_key in H0. destruct (action_idempotency now !! (ns, k)) as [a|] eqn:Hn.
  { injection H0 as <- <-. split_and!; [done|done|]. right; right. eauto. }
  cbn [app_state] in H0. destruct (handler c (app_state now)) as [[res app']|] eqn:Hh; [|done].
  apply bind_Ok in H0 as (db2 & Haud & [= <- <-]). unfold _audit_execution in Haud.
  destruct (audit_append _ _ _ _ _ _) as [l|] eqn:Hl; [|done]. injection Haud as <-.
  apply audit_append_entries in Hl; [|reflexivity]. by split_and!.
Qed.

Lemma governed_ok c s1 s2 now db o :
  governed c s1 s2 now = Ok (db, o) → ∃ ns, call_ok c ns ∧ outcome_ok c ns s1 s2 now db o.
Proof.
  unfold governed. fold (call_key c). intros H0.
  apply ensure_bind in H0 as [Hkey H0]. apply andb_true_iff in Hkey as [Ht Hk].
  apply negb_true_iff, String.eqb_neq in Hk.
  apply bind_Ok in H0 as (u & Hkill%check_kill_switch_ok & H0).
  destruct (g_conn c) as [in_tx|] eqn:Hconn; [|done].
  destruct (g_namespace_id c) as [ns|] eqn:Hns; [|done].
  apply ensure_bind in H0 as [-> H0].
  exists ns. split; [by constructor|].
  destruct (_idempotency_key_exists s1 ns (call_key c)) eqn:Hs1.
  { injection H0 as <- <-. apply idempotency_exists in Hs1. by split_and!; [| |left]. }
  destruct (g_confirm c) eqn:Hconf; simpl in H0.
  2:{ destruct (_record_pending_approval _ _ _ _ _ _ _ _ _ _ _ _) as [db1 id] eqn:Hrec.
      injection H0 as <- <-. apply record_pending_ok in Hrec as (? & ? & ? & ?). split_and!; auto. }
  destruct (requires_confirm (evaluate_policy (g_policy c))) eqn:Hpol.
  { destruct (_record_pending_approval _ _ _ _ _ _ _ _ _ _ _ _) as [db1 id] eqn:Hrec.
    injection H0 as <- <-. apply record_pending_ok in Hrec as (? & ? & ? & ?). split_and!; auto. }
  by eapply execute_governed_ok.
Qed.

(** ** Histories of interleaved transactions

    A history is the list of committed states, newest first.  The reads of a
    call may see any earlier committed state; its writes apply to the newest
    one.  Other writers may change anything but the idempotency table, and only
    extend the audit trail. *)
Definition executed_label c (o : outcome R) : list (string * string) :=
  match o, g_namespace_id c with
  | ExecutedNow _ k, Some ns => [(ns, k)]
  | _, _ => []
  end.

Inductive gov_history : list gdb → list (string * string) → Prop :=
  | hist_init db : action_idempotency db = ∅ → gov_history [db] []
  | hist_call c s1 s2 now h ex db o :
      gov_history (now :: h) ex → s1 ∈ now :: h → s2 ∈ now :: h →
      governed c s1 s2 now = Ok (db, o) → gov_history (db :: now :: h) (executed_label c o ++ ex)
  | hist_other now h ex db :
      gov_history (now :: h) ex → action_idempotency db = action_idempotency now →
      audit_entries (audit now) `prefix_of` audit_entries (audit db) →
      gov_history (db :: now :: h) ex.

Definition audited db (ns k : string) : Prop :=
  ∃ action p, action_idempotency db !! (ns, k) = Some action ∧
    audit_stored (audit_params action k) p ∧
    (ns, _AGENT_ID, "config_changed", p) ∈ audit_entries (audit db).

Lemma history_inv h ex :
  gov_history h ex → ∃ db h', h = db :: h' ∧ NoDup ex ∧
    (∀ ns k, is_Some (action_idempotency db !! (ns, k)) ↔ (ns, k) ∈ ex) ∧
    (∀ ns k, (ns, k) ∈ ex → audited db ns k).
Proof.
  induction 1 as [db Hi|c s1 s2 now h ex db o Hh IH _ _ Hg|now h ex db Hh IH Hi Ha].
  - exists db, []. split_and!; [done|constructor| |by intros ns k ?%elem_of_nil].
    intros ns k. rewrite Hi, lookup_empty, elem_of_nil. split; [by intros [? ?]|done].
  - destruct IH as (now' & h' & [= <- <-] & Hnd & Hidem & Haud).
    exists db, (now :: h). split; [done|].
    destruct (governed_ok c s1 s2 now db o Hg) as (ns0 & Hok & Ho). unfold executed_label.
    rewrite (co_ns _ _ Hok). destruct o as [k|res k|k id why]; simpl in Ho.
    + destruct Ho as (_ & -> & _). done.
    + destruct Ho as (_ & _ & _ & Hnone & Hins & _ & _ & p & Hp & Hent).
      change ([(ns0, k)] ++ ex) with ((ns0, k) :: ex).
      assert ((ns0, k) ∉ ex) as Hfresh by (rewrite <- Hidem, Hnone; by intros [? ?]).
      split_and!.
      * by constructor.
      * intros ns k'. rewrite Hins, elem_of_cons, <- Hidem.
        destruct (decide ((ns, k') = (ns0, k))) as [[= -> ->]|Hne].
        -- rewrite lookup_insert_eq. split; eauto.
        -- rewrite lookup_insert_ne by done. naive_solver.
      * intros ns k' [[= -> ->]|Hin]%elem_of_cons.
        -- exists (action_type c), p. rewrite Hins, lookup_insert_eq, Hent. split_and!; [done|done|].
           apply elem_of_app. right. left.
        -- destruct (Haud ns k' Hin) as (a & p' & Ha & Hp' & Hin').
           exists a, p'. rewrite Hins, Hent, elem_of_app. split_and!; [|done|by left].
           rewrite lookup_insert_ne; [done|]. intros [= -> ->]. done.
    + destruct Ho as (_ & Hi & Ha & _). unfold audited. rewrite Hi, Ha. done.
  - destruct IH as (now' & h' & [= <- <-] & Hnd & Hidem & Haud).
    exists db, (now :: h). split_and!; [done|done|by rewrite Hi|].
    intros ns k Hin. destruct (Haud ns k Hin) as (a & p & ? & ? & ?). exists a, p.
    rewrite Hi. split_and!; [done|done|]. destruct Ha as [l ->]. apply elem_of_app. by left.
Qed.

(** C2: exactly once.  In any interleaving of governed calls, where each call's
    existence checks may read a stale committed state and other writers
    interfere, no two committed calls execute under one (namespace, idempotency
    key); the keys recorded in [action_idempotency] are exactly the executed
    ones; and each of them has its entry in the audit trail. *)
Theorem governed_at_most_once db h ex :
  gov_history (db :: h) ex →
  NoDup ex ∧
  (∀ ns k, is_Some (action_idempotency db !! (ns, k)) ↔ (ns, k) ∈ ex) ∧
  (∀ ns k, (ns, k) ∈ ex → audited db ns k).
Proof. intros Hh. by destruct (history_inv _ _ Hh) as (db' & h' & [= <- <-] & ?). Qed.

(** No side effect without consent.  A call changes the rest of the
    database only by running its handler once, and it does so only with a
    non-blank key, inside a transaction, with the kill switch clear (a Redis
    error blocks), an explicit confirm, every policy gate passed and the key
    unused; the same commit records the key, closes the matching approval items
    and extends the audit trail by one entry.  A call that returns pending or
    already executed leaves the tables, the keys and the audit trail alone, and
    a pending one has its item in the approval queue. *)
Theorem governed_needs_consent c s1 s2 now db o :
  governed c s1 s2 now = Ok (db, o) → ∃ ns, call_ok c ns ∧ outcome_ok c ns s1 s2 now db o.
Proof. apply governed_ok. Qed.

(** A retry is a no-op.  Once a key is recorded in a state the call's first
    check reads, a well-formed call under that key returns already executed,
    whatever it confirms, and changes nothing. *)
Theorem governed_retry_noop c s1 s2 now ns :
  call_ok c ns → is_Some (action_idempotency s1 !! (ns, call_key c)) →
  governed c s1 s2 now = Ok (now, AlreadyExecuted (call_key c)).
Proof.
  intros [[Ht Hk] Hkill Hconn Hns] Hs. unfold governed. fold (call_key c).
  rewrite ensure_bind, andb_true_iff, negb_true_iff, String.eqb_neq. split; [done|].
  apply (check_kill_switch_ok c ()) in Hkill. rewrite Hkill. cbn [mbind result_bind].
  rewrite Hconn, Hns. cbn [ensure mbind result_bind].
  apply idempotency_exists in Hs. by rewrite Hs.
Qed.
End governor_props.

(** ** Concrete runs, over the event log *)
#[local] Existing Instance toy_audit.

Definition no_policy : policy_args :=
  PolicyArgs None None None None None None None None None None None None.
Definition demo_call (key : string) (confirm : bool) : gov_call :=
  GovCall "submit_po" (λ n : nat, Some (n, S n)) [("agent_id", PStr "buyer")] (Some true)
    (Some (λ _, Some false)) (Some "ns") (PStr key) confirm no_policy demo_env "q1".
Definition demo_db0 : gov_db := GovDb ∅ [] demo_init 0.
Definition run_call (c : @gov_call call_env nat nat) (s1 s2 now : gov_db) : gov_db :=
  match governed c s1 s2 now with Ok (db, _) => db | Err _ => now end.
Definition demo_db1 : gov_db := run_call (demo_call " k " true) demo_db0 demo_db0 demo_db0.

Lemma demo_call_executes :
  governed (demo_call " k " true) demo_db0 demo_db0 demo_db0 = Ok (demo_db1, ExecutedNow 0 "k").
Proof. vm_compute. reflexivity. Qed.

(** A second caller that read the state before the first commit loses the race. *)
Lemma demo_call_race :
  governed (demo_call "k" true) demo_db0 demo_db0 demo_db1 = Ok (demo_db1, AlreadyExecuted "k").
Proof. vm_compute. reflexivity. Qed.

Lemma demo_history : gov_history (R:=nat) [demo_db1; demo_db1; demo_db0] [("ns", "k")].
Proof.
  apply (hist_call (demo_call "k" true) demo_db0 demo_db0 demo_db1 [demo_db0] [("ns", "k")]
           demo_db1 (AlreadyExecuted "k"));
    [|right; left|right; left|exact demo_call_race].
  apply (hist_call (demo_call " k " true) demo_db0 demo_db0 demo_db0 [] [] demo_db1 (ExecutedNow 0 "k"));
    [by constructor|left|left|exact demo_call_executes].
Qed.

Lemma governed_at_most_once_witness :
  gov_history (R:=nat) [demo_db1; demo_db1; demo_db0] [("ns", "k")] ∧ app_state demo_db1 = 1 ∧
  NoDup [("ns", "k")] ∧ audited demo_db1 "ns" "k".
Proof.
  split; [exact demo_history|]. split; [vm_compute; reflexivity|].
  destruct (governed_at_most_once demo_db1 [demo_db1; demo_db0] [("ns", "k")] demo_history) as (H1 & _ & H3).
  split; [exact H1|]. apply H3. left.
Defined.

Lemma governed_needs_consent_witness :
  ∃ ns, call_ok (demo_call " k " true) ns ∧
    outcome_ok (demo_call " k " true) ns demo_db0 demo_db0 demo_db0 demo_db1 (ExecutedNow 0 "k").
Proof. exact (governed_needs_consent _ _ _ _ _ _ demo_call_executes). Defined.

Lemma governed_retry_noop_witness :
  governed (demo_call "k" true) demo_db1 demo_db1 demo_db1 =
  Ok (demo_db1, AlreadyExecuted (call_key (demo_call "k" true))).
Proof.
  apply (governed_retry_noop (demo_call "k" true) demo_db1 demo_db1 demo_db1 "ns").
  - constructor; [split; [reflexivity|discriminate]|split; reflexivity|reflexivity|reflexivity].
  - vm_compute. eauto.
Defined.
