(* ===== verification/OutboxRelay.v ===== *)
(** * OutboxRelay: the transactional outbox

    Models [src/nce/outbox_relay.py] (with [matches_selector] of
    [src/nce/outbound_webhooks/service.py]): the handler registry, polling,
    delivery under a savepoint, failure accounting, dead-lettering and one relay
    pass.  Subscribers are named functions on the rest of the database, which
    may raise; a pass ends with its transaction's commit or rollback.  Alerts,
    metrics and row-level-security contexts are not modelled. *)
From S2P Require Import Prelude PyText.
From stdpp Require Import pretty.

(** ** Data *)
Record outbox_row := OutboxRow {
  ob_id : string;
  ob_namespace_id : string;
  ob_aggregate_type : string;
  ob_aggregate_id : string;
  ob_event_type : string;
  ob_payload : json;
  ob_attempt_count : Z;
  ob_error_message : option string;
  ob_created_at : Z;
  ob_published : bool                 (* published_at is set *)
}.

Record dlq_row := DlqRow {
  dl_namespace_id : string;
  dl_task_name : string;
  dl_job_id : string;
  dl_kwargs : string;
  dl_error_message : string;
  dl_attempt_count : Z
}.

Record webhook := Webhook {
  wh_namespace_id : string;
  wh_url : string;
  wh_secret : string;
  wh_selectors : list string;
  wh_is_active : bool
}.

Record EventContract := MkContract { has_declared_consumers : bool; contract_status : string }.

Inductive delivery_exn := OutboxDeliveryError (msg : string) | OtherError (ty msg : string).

Definition MAX_OUTBOX_ATTEMPTS : Z := 5.

(** [f"{type(exc).__name__}: {exc}"] *)
Definition exn_text (e : delivery_exn) : string :=
  match e with
  | OutboxDeliveryError m => "OutboxDeliveryError: " +:+ m
  | OtherError ty m => ty +:+ ": " +:+ m
  end.

(** ** Registry *)
Definition registry : Type := gmap string (list string).
Inductive registry_error := TypeError.

Definition register_handler (is_coroutine : string → bool) (OUTBOX_HANDLERS : registry)
    (event_type fn : string) : result registry_error (registry * bool) :=
  if is_coroutine fn then
    let handlers := default [] (OUTBOX_HANDLERS !! event_type) in
    if decide (fn ∈ handlers) then Ok (<[event_type := handlers]> OUTBOX_HANDLERS, false)
    else Ok (<[event_type := handlers ++ [fn]]> OUTBOX_HANDLERS, true)
  else raise TypeError.

(** ** Webhook selectors *)
Definition ends_with_dot_star (s : string) : bool :=
  match String.length s with
  | S (S n) => String.eqb (String.substring n 2 s) ".*"
  | _ => false
  end.
Definition without_last (s : string) : string := String.substring 0 (pred (String.length s)) s.

Definition selector_matches (event_type sel : string) : bool :=
  let sel := strip sel in
  if String.eqb sel "" then false
  else if String.eqb sel "*" then true
  else if ends_with_dot_star sel then String.prefix (without_last sel) event_type
  else String.eqb sel event_type.
Definition matches_selector (selectors : list string) (event_type : string) : bool :=
  existsb (selector_matches event_type) selectors.

Definition get_matching_webhooks (hooks : list webhook) (ns event_type : string) : list webhook :=
  List.filter (λ w, String.eqb (wh_namespace_id w) ns && wh_is_active w &&
                    matches_selector (wh_selectors w) event_type) hooks.

Section relay.
Context {App Action : Type}.
(** A subscriber's effect on the rest of the database, with its post-commit
    action, or the exception it raises. *)
Context (run_handler : string → outbox_row → App → result delivery_exn (App * option Action)).
Context (EVENT_CATALOGUE : string → option EventContract).

Record relay_db := RelayDb {
  outbox_events : list outbox_row;
  processed_outbox_events : gset string;
  dead_letter_queue : list dlq_row;
  outbound_webhooks : list webhook;
  rest : App
}.

Definition set_rows (f : list outbox_row → list outbox_row) (db : relay_db) : relay_db :=
  RelayDb (f (outbox_events db)) (processed_outbox_events db) (dead_letter_queue db)
          (outbound_webhooks db) (rest db).
Definition set_processed (id : string) (db : relay_db) : relay_db :=
  RelayDb (outbox_events db) ({[id]} ∪ processed_outbox_events db) (dead_letter_queue db)
          (outbound_webhooks db) (rest db).
Definition set_rest (a : App) (db : relay_db) : relay_db :=
  RelayDb (outbox_events db) (processed_outbox_events db) (dead_letter_queue db)
          (outbound_webhooks db) a.

(** ** Table operations *)
Definition by_created (r s : outbox_row) : bool := (ob_created_at r <=? ob_created_at s)%Z.
Definition pollable (r : outbox_row) : bool :=
  negb (ob_published r) && (ob_attempt_count r <? MAX_OUTBOX_ATTEMPTS)%Z.

(** [FOR UPDATE SKIP LOCKED]: rows another transaction holds are skipped. *)
Definition poll_outbox (db : relay_db) (locked : gset string) (batch_size : nat) : list outbox_row :=
  take batch_size
    (sorted_by by_created
       (List.filter (λ r, pollable r && bool_decide (ob_id r ∉ locked)) (outbox_events db))).

Definition update_row (id : string) (f : outbox_row → outbox_row) (r : outbox_row) : outbox_row :=
  if String.eqb (ob_id r) id then f r else r.

Definition publish (r : outbox_row) : outbox_row :=
  OutboxRow (ob_id r) (ob_namespace_id r) (ob_aggregate_type r) (ob_aggregate_id r) (ob_event_type r)
    (ob_payload r) (ob_attempt_count r) (ob_error_message r) (ob_created_at r) true.
Definition mark_published (id : string) : relay_db → relay_db := set_rows (fmap (update_row id publish)).

Definition set_attempts (f : Z → Z) (msg : string) (r : outbox_row) : outbox_row :=
  OutboxRow (ob_id r) (ob_namespace_id r) (ob_aggregate_type r) (ob_aggregate_id r) (ob_event_type r)
    (ob_payload r) (f (ob_attempt_count r)) (Some (String.substring 0 2048 msg)) (ob_created_at r)
    (ob_published r).
Definition mark_failed (id msg : string) : relay_db → relay_db :=
  set_rows (fmap (update_row id (set_attempts (λ n, (n + 1)%Z) msg))).
Definition exhaust (id msg : string) : relay_db → relay_db :=
  set_rows (fmap (update_row id (set_attempts (λ _, MAX_OUTBOX_ATTEMPTS) msg))).

(** A JSONB column reaches the code as its (never empty) text, so [or {}] does not
    apply and [json.loads] gives the column's value back. *)
Definition dlq_entry (ev : outbox_row) (attempts : Z) (msg : string) : dlq_row :=
  DlqRow (ob_namespace_id ev) ("outbox:" +:+ ob_event_type ev) (ob_id ev)
    (json_dumps (JObj [("outbox_event_id", JStr (ob_id ev)); ("event_type", JStr (ob_event_type ev));
                       ("aggregate_type", JStr (ob_aggregate_type ev));
                       ("aggregate_id", JStr (ob_aggregate_id ev));
                       ("payload", ob_payload ev)]))
    (String.substring 0 1024 msg) (attempts + 1).

Definition move_to_dead_letter_if_exhausted (ev : outbox_row) (attempt_count : Z) (msg : string)
    (db : relay_db) : relay_db :=
  if (attempt_count + 1 <? MAX_OUTBOX_ATTEMPTS)%Z then db
  else RelayDb (outbox_events db) (processed_outbox_events db)
         (dead_letter_queue db ++ [dlq_entry ev attempt_count msg]) (outbound_webhooks db) (rest db).

(** ** Delivery *)
Inductive post_commit := HandlerAction (a : Action) | SendWebhook (url secret : string) (ev : outbox_row).

Inductive delivery :=
  | Delivered (actions : list post_commit)
  | AlreadyProcessed
  | NoConsumerDeclared.

(** The handlers in registration order; one that raises ends the loop. *)
Fixpoint run_handlers (hs : list string) (ev : outbox_row) (a : App) (actions : list post_commit) :
    result delivery_exn (App * list post_commit) :=
  match hs with
  | [] => Ok (a, actions)
  | h :: hs =>
      match run_handler h ev a with
      | Err e => Err e
      | Ok (a, None) => run_handlers hs ev a actions
      | Ok (a, Some x) => run_handlers hs ev a (actions ++ [HandlerAction x])
      end
  end.

Definition unconsumed (event_type : string) : bool :=
  match EVENT_CATALOGUE event_type with
  | Some c => negb (has_declared_consumers c) &&
              (String.eqb (contract_status c) "UNCONSUMED" || String.eqb (contract_status c) "DEPRECATED")
  | None => false
  end.

(** An exception carries no state: it rolls back to the savepoint. *)
Definition deliver_one (OUTBOX_HANDLERS : registry) (ev : outbox_row) (db : relay_db) :
    result delivery_exn (relay_db * delivery) :=
  let handlers := default [] (OUTBOX_HANDLERS !! ob_event_type ev) in
  let hooks := get_matching_webhooks (outbound_webhooks db) (ob_namespace_id ev) (ob_event_type ev) in
  match handlers, hooks with
  | [], [] =>
      if unconsumed (ob_event_type ev) then Ok (set_processed (ob_id ev) db, NoConsumerDeclared)
      else raise (OutboxDeliveryError ("No outbox handler registered for event_type='" +:+ ob_event_type ev +:+ "'"))
  | _, _ =>
      if decide (ob_id ev ∈ processed_outbox_events db) then Ok (db, AlreadyProcessed)
      else
        let db := set_processed (ob_id ev) db in
        '(a, actions) ← run_handlers handlers ev (rest db) [];
        Ok (set_rest a db, Delivered (actions ++ ((λ w, SendWebhook (wh_url w) (wh_secret w) ev) <$> hooks)))
  end.

(** ** One pass *)
Record relay_state := RelayState {
  rs_db : relay_db;
  rs_delivered : nat;
  rs_drained : nat;
  rs_actions : list post_commit;
  rs_log : list (string * bool)   (* acknowledged events, [true] if delivered; for the specification *)
}.

Definition relay_event (OUTBOX_HANDLERS : registry) (s : relay_state) (ev : outbox_row) : relay_state :=
  match deliver_one OUTBOX_HANDLERS ev (rs_db s) with
  | Ok (db, AlreadyProcessed) =>
      RelayState (mark_published (ob_id ev) db) (rs_delivered s) (rs_drained s) (rs_actions s) (rs_log s)
  | Ok (db, NoConsumerDeclared) =>
      RelayState (mark_published (ob_id ev) db) (rs_delivered s) (S (rs_drained s)) (rs_actions s)
                 (rs_log s ++ [(ob_id ev, false)])
  | Ok (db, Delivered actions) =>
      RelayState (mark_published (ob_id ev) db) (S (rs_delivered s)) (rs_drained s)
                 (rs_actions s ++ actions) (rs_log s ++ [(ob_id ev, true)])
  | Err e =>
      let msg := exn_text e in
      let db :=
        match e with
        | OutboxDeliveryError _ =>
            move_to_dead_letter_if_exhausted ev (MAX_OUTBOX_ATTEMPTS - 1) msg
              (exhaust (ob_id ev) msg (rs_db s))
        | OtherError _ _ =>
            move_to_dead_letter_if_exhausted ev (ob_attempt_count ev) msg
              (mark_failed (ob_id ev) msg (rs_db s))
        end in
      RelayState db (rs_delivered s) (rs_drained s) (rs_actions s) (rs_log s)
  end.

Record pass_env := PassEnv {
  pe_handlers : registry;           (* of the process that runs the pass *)
  pe_batch_size : nat;
  pe_locked : gset string;
  pe_commits : bool                 (* does the pass's transaction commit? *)
}.

(** The database after the pass, the post-commit actions fired, the counts
    returned ([None]: the exception of the failed transaction propagates), and
    the acknowledged events. *)
Definition run_outbox_relay_once (env : pass_env) (db : relay_db) :
    relay_db * list post_commit * option (nat * nat) * list (string * bool) :=
  let s := foldl (relay_event (pe_handlers env)) (RelayState db 0 0 [] [])
                 (poll_outbox db (pe_locked env) (pe_batch_size env)) in
  if pe_commits env then (rs_db s, rs_actions s, Some (rs_delivered s, rs_drained s), rs_log s)
  else (db, [], None, []).
End relay.
