(* ===== verification/OutboxProps.v ===== *)
(** * OutboxProps: what the outbox relay guarantees *)
From S2P Require Import Prelude PyText OutboxRelay.

Section relay_props.
Context {App Action : Type}.
Context (run_handler : string → outbox_row → App → result delivery_exn (App * option Action)).
Context (EVENT_CATALOGUE : string → option EventContract).

Abbreviation rdb := (@relay_db App).
Abbreviation deliver := (deliver_one run_handler EVENT_CATALOGUE).
Abbreviation pass := (run_outbox_relay_once run_handler EVENT_CATALOGUE).

(** ** Fan-out *)

(** [fan_out hs ev a a' acts]: every subscriber of [hs] returned, in order, and
    led from [a] to [a'] with the actions [acts]. *)
Inductive fan_out (ev : outbox_row) : list string → App → App → list (@post_commit Action) → Prop :=
  | fan_out_nil a : fan_out ev [] a a []
  | fan_out_none h hs a a1 a2 acts :
      run_handler h ev a = Ok (a1, None) → fan_out ev hs a1 a2 acts → fan_out ev (h :: hs) a a2 acts
  | fan_out_some h hs a a1 a2 x acts :
      run_handler h ev a = Ok (a1, Some x) → fan_out ev hs a1 a2 acts →
      fan_out ev (h :: hs) a a2 (HandlerAction x :: acts).

Lemma run_handlers_fan_out hs ev a acts r :
  run_handlers run_handler hs ev a acts = Ok r ↔
  ∃ acts', fan_out ev hs a r.1 acts' ∧ r.2 = acts ++ acts'.
Proof.
  revert a acts; induction hs as [|h hs IH]; intros a acts; simpl.
  - split.
    + intros [= <-]. exists []. rewrite app_nil_r. split; [constructor|done].
    + intros (acts' & Hf & Hr). inversion Hf; subst. rewrite app_nil_r in Hr. destruct r; simpl in *.
      congruence.
  - destruct (run_handler h ev a) as [[a1 [x|]]|e] eqn:E.
    + rewrite IH. split.
      * intros (acts' & Hf & ->). exists (HandlerAction x :: acts'). rewrite <- app_assoc.
        split; [by eapply fan_out_some|done].
      * intros (acts' & Hf & Hr). inversion Hf; subst; same_lhs. eexists. split; [done|].
        by rewrite <- app_assoc.
    + rewrite IH. split.
      * intros (acts' & Hf & ->). exists acts'. split; [by eapply fan_out_none|done].
      * intros (acts' & Hf & Hr). inversion Hf; subst; same_lhs. eauto.
    + split; [done|]. intros (acts' & Hf & _). inversion Hf; subst; congruence.
Qed.

Definition subscribers (reg : registry) (ev : outbox_row) : list string :=
  default [] (reg !! ob_event_type ev).
Definition hooks_of (db : rdb) (ev : outbox_row) : list webhook :=
  get_matching_webhooks (outbound_webhooks db) (ob_namespace_id ev) (ob_event_type ev).

Lemma deliver_one_unfold reg ev (db : rdb) :
  deliver reg ev db =
  if decide (subscribers reg ev = [] ∧ hooks_of db ev = []) then
    if unconsumed EVENT_CATALOGUE (ob_event_type ev) then
      Ok (set_processed (ob_id ev) db, NoConsumerDeclared)
    else raise (OutboxDeliveryError ("No outbox handler registered for event_type='" +:+ ob_event_type ev +:+ "'"))
  else if decide (ob_id ev ∈ processed_outbox_events db) then Ok (db, AlreadyProcessed)
  else
    '(a, actions) ← run_handlers run_handler (subscribers reg ev) ev (rest db) [];
    Ok (set_rest a (set_processed (ob_id ev) db),
        Delivered (actions ++ ((λ w, SendWebhook (wh_url w) (wh_secret w) ev) <$> hooks_of db ev))).
Proof.
  unfold deliver_one. fold (subscribers reg ev) (hooks_of db ev).
  destruct (subscribers reg ev) as [|h hs], (hooks_of db ev) as [|w ws];
    destruct (decide (_ = [] ∧ _ = [])) as [[??]|Hn]; try done; by destruct Hn.
Qed.

(** [deliver_one] on every branch. *)
Lemma deliver_one_cases reg ev (db : rdb) :
  match deliver reg ev db with
  | Ok (db', Delivered _) => ∃ a, db' = set_rest a (set_processed (ob_id ev) db)
  | Ok (db', AlreadyProcessed) => db' = db ∧ ob_id ev ∈ processed_outbox_events db
  | Ok (db', NoConsumerDeclared) => db' = set_processed (ob_id ev) db
  | Err e => True
  end.
Proof.
  rewrite deliver_one_unfold. case_decide; [destruct (unconsumed _ _); done|]. case_decide; [done|].
  destruct (run_handlers _ _ _ _ _) as [[a acts]|e]; simpl; eauto.
Qed.

(** ** Rows and their fates *)
Lemma update_row_id id f r : (∀ r, ob_id (f r) = ob_id r) → ob_id (update_row id f r) = ob_id r.
Proof. unfold update_row. case_match; auto. Qed.

Lemma update_row_ids id f (l : list outbox_row) :
  (∀ r, ob_id (f r) = ob_id r) → ob_id <$> (update_row id f <$> l) = ob_id <$> l.
Proof.
  intros Hf. rewrite <- list_fmap_compose. apply list_fmap_ext. intros ? r _. by apply update_row_id.
Qed.

Lemma update_row_ne id f r : ob_id r ≠ id → update_row id f r = r.
Proof. unfold update_row. by destruct (String.eqb_spec (ob_id r) id). Qed.
Lemma update_row_eq id f r : ob_id r = id → update_row id f r = f r.
Proof. unfold update_row. by destruct (String.eqb_spec (ob_id r) id). Qed.

(** The three fates of an outbox row, in terms of the dedup table, the dead
    letter queue and the acknowledgements given so far. *)
Inductive row_fate (processed : gset string) (dead acked : list string) (r : outbox_row) : Prop :=
  | fate_pending :
      ob_published r = false → (0 ≤ ob_attempt_count r < MAX_OUTBOX_ATTEMPTS)%Z →
      ob_id r ∉ processed → ob_id r ∉ dead → ob_id r ∉ acked → row_fate processed dead acked r
  | fate_acknowledged :
      ob_published r = true → (0 ≤ ob_attempt_count r < MAX_OUTBOX_ATTEMPTS)%Z →
      ob_id r ∈ processed → ob_id r ∉ dead → ob_id r ∈ acked → row_fate processed dead acked r
  | fate_dead :
      ob_published r = false → ob_attempt_count r = MAX_OUTBOX_ATTEMPTS →
      ob_id r ∉ processed → ob_id r ∈ dead → ob_id r ∉ acked → row_fate processed dead acked r.

Record relay_inv (db : rdb) (log : list (string * bool)) : Prop := {
  inv_ids : NoDup (ob_id <$> outbox_events db);
  inv_fates : ∀ r, r ∈ outbox_events db →
    row_fate (processed_outbox_events db) (dl_job_id <$> dead_letter_queue db) log.*1 r;
  inv_dead : NoDup (dl_job_id <$> dead_letter_queue db);
  inv_acked : NoDup log.*1;
  inv_known : ∀ id, id ∈ processed_outbox_events db ∨ id ∈ dl_job_id <$> dead_letter_queue db ∨ id ∈ log.*1 →
    id ∈ ob_id <$> outbox_events db
}.

(** One row changes, and the tables change at its id only. *)
Lemma relay_inv_update db log ev f (db' : rdb) log' :
  relay_inv db log → ev ∈ outbox_events db → (∀ r, ob_id (f r) = ob_id r) →
  outbox_events db' = update_row (ob_id ev) f <$> outbox_events db →
  row_fate (processed_outbox_events db') (dl_job_id <$> dead_letter_queue db') log'.*1 (f ev) →
  (∀ id, id ≠ ob_id ev →
    (id ∈ processed_outbox_events db' ↔ id ∈ processed_outbox_events db) ∧
    (id ∈ dl_job_id <$> dead_letter_queue db' ↔ id ∈ dl_job_id <$> dead_letter_queue db) ∧
    (id ∈ log'.*1 ↔ id ∈ log.*1)) →
  NoDup (dl_job_id <$> dead_letter_queue db') → NoDup log'.*1 →
  relay_inv db' log'.
Proof.
  intros HI Hev Hf Hrows Hfate Hsame Hd Hl. split; try done.
  - rewrite Hrows, update_row_ids by done. apply HI.
  - intros r'. rewrite Hrows. intros (r & -> & Hr)%list_elem_of_fmap.
    destruct (decide (ob_id r = ob_id ev)) as [E|Hne].
    + rewrite (key_inj ob_id _ _ _ (inv_ids _ _ HI) Hr Hev E), update_row_eq by done. done.
    + rewrite update_row_ne by done. destruct (Hsame _ Hne) as (H1 & H2 & H3).
      destruct (inv_fates _ _ HI r Hr).
      * apply fate_pending; by rewrite ?H1, ?H2, ?H3.
      * apply fate_acknowledged; by rewrite ?H1, ?H2, ?H3.
      * apply fate_dead; by rewrite ?H1, ?H2, ?H3.
  - intros id. rewrite Hrows, update_row_ids by done. intros Hid.
    destruct (decide (id = ob_id ev)) as [->|Hne]; [by apply list_elem_of_fmap_2|].
    destruct (Hsame _ Hne) as (H1 & H2 & H3). rewrite H1, H2, H3 in Hid. by apply HI.
Qed.

Lemma pollable_pending db log ev :
  relay_inv db log → ev ∈ outbox_events db → pollable ev = true →
  ob_published ev = false ∧ (0 ≤ ob_attempt_count ev < MAX_OUTBOX_ATTEMPTS)%Z ∧
  (ob_id ev ∉ processed_outbox_events db) ∧ (ob_id ev ∉ dl_job_id <$> dead_letter_queue db) ∧
  (ob_id ev ∉ log.*1).
Proof.
  intros HI Hev Hp. unfold pollable in Hp. apply andb_prop in Hp as [Hp Ha].
  apply negb_true_iff in Hp. apply Z.ltb_lt in Ha. destruct (inv_fates _ _ HI ev Hev); [done|congruence|lia].
Qed.

Abbreviation step := (relay_event run_handler EVENT_CATALOGUE).

(** What one event does to the tables: it is acknowledged, has failed once more,
    or is dead-lettered. *)
Inductive event_outcome (ev : outbox_row) (s : @relay_state App Action) : @relay_state App Action → Prop :=
  | out_acknowledged a b d n acts :
      event_outcome ev s
        (RelayState (mark_published (ob_id ev) (set_rest a (set_processed (ob_id ev) (rs_db s)))) d n acts
                    (rs_log s ++ [(ob_id ev, b)]))
  | out_failed msg :
      (ob_attempt_count ev + 1 < MAX_OUTBOX_ATTEMPTS)%Z →
      event_outcome ev s
        (RelayState (mark_failed (ob_id ev) msg (rs_db s)) (rs_delivered s) (rs_drained s) (rs_actions s) (rs_log s))
  | out_dead f msg n :
      f = (λ n, (n + 1)%Z) ∧ (MAX_OUTBOX_ATTEMPTS ≤ ob_attempt_count ev + 1)%Z ∨ f = (λ _, MAX_OUTBOX_ATTEMPTS) →
      event_outcome ev s
        (RelayState (RelayDb (update_row (ob_id ev) (set_attempts f msg) <$> outbox_events (rs_db s))
                       (processed_outbox_events (rs_db s)) (dead_letter_queue (rs_db s) ++ [dlq_entry ev n msg])
                       (outbound_webhooks (rs_db s)) (rest (rs_db s)))
                    (rs_delivered s) (rs_drained s) (rs_actions s) (rs_log s)).

Lemma set_rest_id (db : rdb) : set_rest (rest db) db = db.
Proof. by destruct db. Qed.

Lemma relay_event_outcome reg s ev :
  ob_id ev ∉ processed_outbox_events (rs_db s) → event_outcome ev s (step reg s ev).
Proof.
  intros Hp. unfold relay_event. pose proof (deliver_one_cases reg ev (rs_db s)) as Hd.
  destruct (deliver reg ev (rs_db s)) as [[db' [acts| |]]|[m|ty m]].
  - destruct Hd as (a & ->). apply out_acknowledged.
  - by destruct Hd.
  - subst db'. rewrite <- (set_rest_id (set_processed _ _)). apply out_acknowledged.
  - unfold move_to_dead_letter_if_exhausted, exhaust, set_rows; simpl.
    apply out_dead. by right.
  - unfold move_to_dead_letter_if_exhausted. case_match eqn:E.
    + apply out_failed. by apply Z.ltb_lt.
    + unfold mark_failed, set_rows; simpl. apply out_dead. left. split; [done|by apply Z.ltb_ge].
Qed.

Lemma outcome_inv log s s' ev :
  relay_inv (rs_db s) (log ++ rs_log s) → ev ∈ outbox_events (rs_db s) → pollable ev = true →
  event_outcome ev s s' → relay_inv (rs_db s') (log ++ rs_log s').
Proof.
  intros HI Hev Hpoll Ho. destruct (pollable_pending _ _ _ HI Hev Hpoll) as (Hpub & Hatt & Hproc & Hdead & Hack).
  destruct Ho as [a b d n acts|msg Hlt|f msg n Hf]; simpl; rewrite ?app_assoc.
  - eapply (relay_inv_update _ _ ev publish); simpl; [done..| | | |].
    + apply fate_acknowledged; simpl; [done|done|set_solver|done|].
      rewrite (fmap_app fst). set_solver.
    + intros id Hne. rewrite (fmap_app fst). set_solver.
    + apply HI.
    + rewrite (fmap_app fst). by apply NoDup_snoc; [apply HI|].
  - eapply (relay_inv_update _ _ ev (set_attempts (λ n, (n + 1)%Z) msg)); simpl; [done..| | | |].
    + apply fate_pending; simpl; try done; lia.
    + done.
    + apply HI.
    + apply HI.
  - eapply (relay_inv_update _ _ ev (set_attempts f msg)); simpl; [done..| | | |].
    + apply fate_dead; simpl; [done| |done| |done].
      * destruct Hf as [[-> Hge]| ->]; [lia|done].
      * rewrite (fmap_app dl_job_id). set_solver.
    + intros id Hne. rewrite (fmap_app dl_job_id). set_solver.
    + rewrite (fmap_app dl_job_id). by apply NoDup_snoc; [apply HI|].
    + apply HI.
Qed.

Lemma outcome_others s s' ev r :
  event_outcome ev s s' → r ∈ outbox_events (rs_db s) → ob_id r ≠ ob_id ev → r ∈ outbox_events (rs_db s').
Proof.
  intros Ho Hr Hne. destruct Ho; simpl; apply list_elem_of_fmap; exists r;
    by rewrite update_row_ne.
Qed.

(** A batch of distinct pollable rows. *)
Lemma batch_inv log reg evs s :
  relay_inv (rs_db s) (log ++ rs_log s) → NoDup (ob_id <$> evs) →
  (∀ ev, ev ∈ evs → ev ∈ outbox_events (rs_db s) ∧ pollable ev = true) →
  relay_inv (rs_db (foldl (step reg) s evs)) (log ++ rs_log (foldl (step reg) s evs)).
Proof.
  revert s; induction evs as [|ev evs IH]; intros s HI Hnd Hall; [done|]. cbn [foldl].
  rewrite fmap_cons in Hnd. apply NoDup_cons in Hnd as [Hnin Hnd].
  destruct (Hall ev) as [Hev Hpoll]; [by left|].
  destruct (pollable_pending _ _ _ HI Hev Hpoll) as (_ & _ & Hp & _).
  pose proof (relay_event_outcome reg s ev Hp) as Ho. apply IH; [by eapply outcome_inv|done|].
  intros ev' Hin. destruct (Hall ev') as [Hev' ?]; [by right|]. split; [|done].
  eapply outcome_others; [done|done|]. intros E. apply Hnin. rewrite <- E. by apply list_elem_of_fmap_2.
Qed.

(** ** Polling *)
Definition eligible (locked : gset string) (r : outbox_row) : bool :=
  pollable r && bool_decide (ob_id r ∉ locked).

Lemma elem_of_eligible locked r (db : rdb) :
  r ∈ List.filter (eligible locked) (outbox_events db) ↔
  r ∈ outbox_events db ∧ pollable r = true ∧ ob_id r ∉ locked.
Proof. unfold eligible. by rewrite elem_of_filter_b, andb_true_iff, bool_decide_eq_true. Qed.

Lemma poll_elem (db : rdb) locked n r :
  r ∈ poll_outbox db locked n → r ∈ outbox_events db ∧ pollable r = true ∧ ob_id r ∉ locked.
Proof.
  unfold poll_outbox. intros H. apply elem_of_take in H as (i & H & _).
  apply list_elem_of_lookup_2, elem_of_sorted_by in H. by apply elem_of_eligible.
Qed.

Lemma poll_NoDup (db : rdb) locked n :
  NoDup (ob_id <$> outbox_events db) → NoDup (ob_id <$> poll_outbox db locked n).
Proof.
  intros Hnd. unfold poll_outbox. rewrite fmap_take.
  eapply sublist_NoDup; [|apply sublist_take].
  rewrite sorted_by_perm. by apply NoDup_fmap_filter.
Qed.

(** ** Histories *)
Inductive relay_move : rdb * list (string * bool) → rdb * list (string * bool) → Prop :=
  | move_pass env db log : relay_move (db, log) ((pass env db).1.1.1, log ++ (pass env db).2)
  | move_produce r db log :
      ob_id r ∉ ob_id <$> outbox_events db → ob_published r = false → ob_attempt_count r = 0%Z →
      relay_move (db, log) (set_rows (λ l, l ++ [r]) db, log)
  | move_other db log hooks a :
      relay_move (db, log)
        (RelayDb (outbox_events db) (processed_outbox_events db) (dead_letter_queue db) hooks a, log).

Definition relay_empty (db : rdb) : Prop :=
  outbox_events db = [] ∧ processed_outbox_events db = ∅ ∧ dead_letter_queue db = [].
Definition relay_reachable (db : rdb) (log : list (string * bool)) : Prop :=
  ∃ db0, relay_empty db0 ∧ rtc relay_move (db0, []) (db, log).

Lemma pass_inv env db log :
  relay_inv db log → relay_inv (pass env db).1.1.1 (log ++ (pass env db).2).
Proof.
  intros HI. unfold run_outbox_relay_once. destruct (pe_commits env); simpl; [|by rewrite app_nil_r].
  apply batch_inv; simpl.
  - by rewrite app_nil_r.
  - apply poll_NoDup, HI.
  - intros ev (?&?&_)%poll_elem. done.
Qed.

Lemma produce_inv r db log :
  relay_inv db log → ob_id r ∉ ob_id <$> outbox_events db → ob_published r = false →
  ob_attempt_count r = 0%Z → relay_inv (set_rows (λ l, l ++ [r]) db) log.
Proof.
  intros HI Hr Hp Ha. split; simpl; try apply HI.
  - rewrite fmap_app. by apply NoDup_snoc; [apply HI|].
  - intros r' Hin; apply elem_of_app in Hin as [Hr'| ->%list_elem_of_singleton]; [by apply HI|].
    apply fate_pending; [done|rewrite Ha; done|..]; contradict Hr; apply HI; auto.
  - intros id Hid. rewrite fmap_app. apply elem_of_app. left. by apply HI.
Qed.

Lemma reachable_inv db log : relay_reachable db log → relay_inv db log.
Proof.
  intros (db0 & (E1 & E2 & E3) & H).
  assert (relay_inv (db0, @nil (string * bool)).1 (db0, @nil (string * bool)).2) as H0.
  { split; simpl; rewrite ?E1, ?E2, ?E3; simpl; try apply NoDup_nil_2; [by intros r ?%elem_of_nil|].
    set_solver. }
  change (relay_inv (db, log).1 (db, log).2). revert H0. induction H as [x|x y z Hm _ IH]; [done|].
  intros HI. apply IH. destruct Hm as [env ? ?|r ? ? Hr Hp Ha|? ? hooks a]; simpl in *.
  - by apply pass_inv.
  - by apply produce_inv.
  - destruct HI. by split.
Qed.

(** ** Batches *)
Lemma batch_others reg log evs s r :
  relay_inv (rs_db s) (log ++ rs_log s) → NoDup (ob_id <$> evs) →
  (∀ ev, ev ∈ evs → ev ∈ outbox_events (rs_db s) ∧ pollable ev = true) →
  r ∈ outbox_events (rs_db s) → ob_id r ∉ ob_id <$> evs →
  r ∈ outbox_events (rs_db (foldl (step reg) s evs)).
Proof.
  revert s; induction evs as [|ev evs IH]; intros s HI Hnd Hall Hr Hin; [done|]. cbn [foldl].
  rewrite fmap_cons in Hnd, Hin. apply NoDup_cons in Hnd as [Hnin Hnd].
  apply not_elem_of_cons in Hin as [Hne Hin].
  destruct (Hall ev) as [Hev Hpoll]; [by left|].
  destruct (pollable_pending _ _ _ HI Hev Hpoll) as (_ & _ & Hp & _).
  pose proof (relay_event_outcome reg s ev Hp) as Ho.
  apply IH; [by eapply outcome_inv|done| |by eapply outcome_others|done].
  intros ev' Hin'. destruct (Hall ev') as [Hev' ?]; [by right|]. split; [|done].
  eapply outcome_others; [done|done|]. intros E. apply Hnin. rewrite <- E.
  exact (list_elem_of_fmap_2 ob_id _ _ Hin').
Qed.

Lemma poll_all (db : rdb) env r :
  r ∈ outbox_events db → pollable r = true → ob_id r ∉ pe_locked env →
  length (outbox_events db) ≤ pe_batch_size env →
  r ∈ poll_outbox db (pe_locked env) (pe_batch_size env).
Proof.
  intros Hr Hp Hl Hlen. unfold poll_outbox. rewrite take_ge.
  - rewrite elem_of_sorted_by. by apply elem_of_eligible.
  - rewrite length_sorted_by. etrans; [apply filter_length_le|done].
Qed.

(** A pass leaves the rows it does not poll alone. *)
Lemma pass_others env db log r :
  relay_inv db log → r ∈ outbox_events db →
  r ∉ poll_outbox db (pe_locked env) (pe_batch_size env) →
  r ∈ outbox_events (pass env db).1.1.1.
Proof.
  intros HI Hr Hnp. unfold run_outbox_relay_once. destruct (pe_commits env); simpl; [|done].
  apply (batch_others _ log); simpl; [by rewrite app_nil_r|by apply poll_NoDup, HI| |done|].
  - intros ev (?&?&_)%poll_elem. done.
  - intros (r' & E & Hr')%list_elem_of_fmap. apply Hnp. apply poll_elem in Hr' as Hd.
    by rewrite (key_inj ob_id _ _ _ (inv_ids _ _ HI) Hr (proj1 Hd) E).
Qed.

(** Every delivery of the event raises an exception that is not the relay's own. *)
Definition always_raises (reg : registry) (r : outbox_row) : Prop :=
  ∀ ev a, ob_id ev = ob_id r → ob_event_type ev = ob_event_type r →
    ∃ ty m, run_handlers run_handler (subscribers reg ev) ev a [] = Err (OtherError ty m).

Lemma raising_event reg (s : @relay_state App Action) r :
  always_raises reg r → ob_id r ∉ processed_outbox_events (rs_db s) → r ∈ outbox_events (rs_db s) →
  ∃ msg, set_attempts (λ n, (n + 1)%Z) msg r ∈ outbox_events (rs_db (step reg s r)).
Proof.
  intros Hf Hp Hr. destruct (Hf r (rest (rs_db s)) eq_refl eq_refl) as (ty & m & E).
  assert (subscribers reg r ≠ []) as Hne by (intros H; rewrite H in E; done).
  assert (deliver reg r (rs_db s) = Err (OtherError ty m)) as Hd.
  { rewrite deliver_one_unfold, decide_False by (by intros [??]). rewrite decide_False by done.
    by rewrite E. }
  unfold relay_event. rewrite Hd. exists (exn_text (OtherError ty m)).
  unfold move_to_dead_letter_if_exhausted. case_match; simpl;
    apply list_elem_of_fmap; exists r; by rewrite update_row_eq.
Qed.

Lemma pass_raising env db log r :
  relay_inv db log → r ∈ outbox_events db → always_raises (pe_handlers env) r →
  pe_commits env = true → r ∈ poll_outbox db (pe_locked env) (pe_batch_size env) →
  ∃ msg, set_attempts (λ n, (n + 1)%Z) msg r ∈ outbox_events (pass env db).1.1.1.
Proof.
  intros HI Hr Hf Hc Hpoll. unfold run_outbox_relay_once. rewrite Hc; simpl.
  pose proof (poll_NoDup db (pe_locked env) (pe_batch_size env) (inv_ids _ _ HI)) as Hnd.
  assert (∀ ev, ev ∈ poll_outbox db (pe_locked env) (pe_batch_size env) →
            ev ∈ outbox_events db ∧ pollable ev = true) as Hall by by intros ev (?&?&_)%poll_elem.
  apply list_elem_of_split in Hpoll as (l1 & l2 & E). rewrite E in *. rewrite foldl_app. cbn [foldl].
  rewrite fmap_app, fmap_cons in Hnd. apply NoDup_app in Hnd as (Hn1 & Hd & Hn2).
  apply NoDup_cons in Hn2 as [Hr2 Hn2].
  set (s0 := RelayState db 0 0 [] []). set (s1 := foldl (step (pe_handlers env)) s0 l1).
  assert (relay_inv (rs_db s0) (log ++ rs_log s0)) as HI0 by (simpl; by rewrite app_nil_r).
  assert (∀ ev, ev ∈ l1 → ev ∈ outbox_events (rs_db s0) ∧ pollable ev = true) as Hall1.
  { intros ev ?. apply Hall, elem_of_app. by left. }
  assert (relay_inv (rs_db s1) (log ++ rs_log s1)) as HI1 by by apply batch_inv.
  assert (∀ ev, ev ∈ r :: l2 → ev ∈ outbox_events (rs_db s1) ∧ pollable ev = true) as Hall2.
  { intros ev Hev. destruct (Hall ev) as [??]; [apply elem_of_app; by right|]. split; [|done].
    apply (batch_others _ log); [done|done|done|done|]. intros Hin. apply (Hd _ Hin).
    rewrite <- fmap_cons. by apply list_elem_of_fmap_2. }
  destruct (Hall2 r) as [Hr1 Hp1]; [by left|].
  destruct (pollable_pending _ _ _ HI1 Hr1 Hp1) as (_ & _ & Hproc & _).
  destruct (raising_event (pe_handlers env) s1 r Hf Hproc Hr1) as [msg Hmsg]. exists msg.
  pose proof (relay_event_outcome (pe_handlers env) s1 r Hproc) as Ho.
  apply (batch_others _ log); [by eapply outcome_inv|done| |done|done].
  intros ev Hev. destruct (Hall2 ev) as [??]; [by right|]. split; [|done].
  eapply outcome_others; [done|done|]. intros Eid. apply Hr2. rewrite <- Eid.
  exact (list_elem_of_fmap_2 ob_id _ _ Hev).
Qed.

Lemma step_ids reg (s : @relay_state App Action) ev :
  ob_id <$> outbox_events (rs_db (step reg s ev)) = ob_id <$> outbox_events (rs_db s).
Proof.
  unfold relay_event. pose proof (deliver_one_cases reg ev (rs_db s)) as Hd.
  destruct (deliver reg ev (rs_db s)) as [[db' [acts| |]]|[m|ty m]]; simpl.
  - destruct Hd as [a ->]. by apply update_row_ids.
  - destruct Hd as [-> _]. by apply update_row_ids.
  - subst db'. by apply update_row_ids.
  - by apply update_row_ids.
  - unfold move_to_dead_letter_if_exhausted. case_match; by apply update_row_ids.
Qed.

Lemma pass_ids env (db : rdb) :
  ob_id <$> outbox_events (pass env db).1.1.1 = ob_id <$> outbox_events db.
Proof.
  unfold run_outbox_relay_once. destruct (pe_commits env); [|done]. simpl.
  generalize (poll_outbox db (pe_locked env) (pe_batch_size env)). intros evs.
  change (outbox_events db) with (outbox_events (rs_db (RelayState (Action:=Action) db 0 0 [] []))).
  generalize (RelayState (Action:=Action) db 0 0 [] []).
  induction evs as [|ev evs IH]; intros s; [done|]. cbn [foldl]. by rewrite IH, step_ids.
Qed.

(** A run of passes. *)
Definition passes (envs : list pass_env) (s : rdb * list (string * bool)) : rdb * list (string * bool) :=
  foldl (λ s env, ((pass env s.1).1.1.1, s.2 ++ (pass env s.1).2)) s envs.

Lemma passes_count envs db log r :
  relay_inv db log → r ∈ outbox_events db → ob_published r = false →
  Forall (λ env, always_raises (pe_handlers env) r ∧ pe_commits env = true ∧
                 (ob_id r ∉ pe_locked env) ∧ length (outbox_events db) ≤ pe_batch_size env) envs →
  relay_inv (passes envs (db, log)).1 (passes envs (db, log)).2 ∧
  ∃ r', r' ∈ outbox_events (passes envs (db, log)).1 ∧ ob_id r' = ob_id r ∧ ob_published r' = false ∧
    ob_attempt_count r' = (MAX_OUTBOX_ATTEMPTS `min` (ob_attempt_count r + Z.of_nat (length envs)))%Z.
Proof.
  revert db log r; induction envs as [|env envs IH]; intros db log r HI Hr Hpub Henvs.
  { split; [done|]. exists r. split_and!; [done..|].
    destruct (inv_fates _ _ HI r Hr) as [? Ha|? Ha|? Ha]; simpl; lia. }
  apply Forall_cons in Henvs as [(Hf & Hc & Hl & Hlen) Henvs].
  change (passes (env :: envs) (db, log)) with (passes envs ((pass env db).1.1.1, log ++ (pass env db).2)).
  pose proof (pass_inv env db log HI) as HI'.
  assert (length (outbox_events (pass env db).1.1.1) = length (outbox_events db)) as Hlen'.
  { rewrite <- !(length_fmap ob_id). by rewrite pass_ids. }
  destruct (pollable r) eqn:Hp.
  - destruct (pass_raising env db log r HI Hr Hf Hc) as [msg Hr']; [by apply poll_all|].
    destruct (IH _ _ (set_attempts (λ n, (n + 1)%Z) msg r) HI' Hr' Hpub) as (? & r' & ? & ? & ? & Ha).
    { rewrite Hlen'. eapply Forall_impl; [done|]. done. }
    split; [done|]. exists r'. split_and!; [done..|]. rewrite Ha; simpl. lia.
  - assert (ob_attempt_count r = MAX_OUTBOX_ATTEMPTS) as Ha.
    { unfold pollable in Hp. rewrite Hpub in Hp. apply Z.ltb_ge in Hp.
      destruct (inv_fates _ _ HI r Hr); [lia|congruence|done]. }
    destruct (IH _ _ r HI') as (? & r' & ? & ? & ? & Ha'); [| |rewrite Hlen'; done|].
    { apply pass_others with log; [done..|]. intros (_&?&_)%poll_elem. congruence. }
    { done. }
    split; [done|]. exists r'. split_and!; [done..|]. rewrite Ha'; simpl. lia.
Qed.

(** ** Properties *)

(** Does the event have a subscriber or a matching tenant webhook? *)
Definition has_consumer (reg : registry) (db : rdb) (ev : outbox_row) : Prop :=
  subscribers reg ev ≠ [] ∨ hooks_of db ev ≠ [].

(** Delivery is all or nothing.  [deliver_one] reports a delivery exactly
    when the event has a consumer, was not processed before and every subscriber
    returned, run in registration order each on its predecessor's database; then
    the dedup mark and all their effects are kept, and the post-commit actions
    are the subscribers' in order followed by one request per matching webhook.
    It reports a replay exactly when the dedup mark is there, changing nothing,
    and drains an event exactly when nobody consumes it and the catalogue says
    so.  When it raises, the relay keeps neither the dedup mark nor any effect
    of a subscriber that had already run, and acknowledges nothing. *)
Theorem deliver_one_all_or_nothing reg ev (db : rdb) :
  (∀ db' acts, deliver reg ev db = Ok (db', Delivered acts) ↔
     has_consumer reg db ev ∧ (ob_id ev ∉ processed_outbox_events db) ∧
     ∃ a hacts, fan_out ev (subscribers reg ev) (rest db) a hacts ∧
       db' = set_rest a (set_processed (ob_id ev) db) ∧
       acts = hacts ++ ((λ w, SendWebhook (wh_url w) (wh_secret w) ev) <$> hooks_of db ev)) ∧
  (∀ db', deliver reg ev db = Ok (db', AlreadyProcessed) ↔
     has_consumer reg db ev ∧ ob_id ev ∈ processed_outbox_events db ∧ db' = db) ∧
  (∀ db', deliver reg ev db = Ok (db', NoConsumerDeclared) ↔
     ¬ has_consumer reg db ev ∧ unconsumed EVENT_CATALOGUE (ob_event_type ev) = true ∧
     db' = set_processed (ob_id ev) db) ∧
  (∀ e s, deliver reg ev db = Err e → rs_db s = db →
     let s' := relay_event run_handler EVENT_CATALOGUE reg s ev in
     processed_outbox_events (rs_db s') = processed_outbox_events db ∧
     rest (rs_db s') = rest db ∧ rs_actions s' = rs_actions s ∧ rs_log s' = rs_log s ∧
     ob_published <$> outbox_events (rs_db s') = ob_published <$> outbox_events db).
Proof.
  unfold has_consumer. split_and!; intros.
  - rewrite deliver_one_unfold. repeat case_decide; simpl; [case_match; naive_solver|naive_solver|].
    split.
    + intros ([a hacts] & (acts' & Hf & Hr)%run_handlers_fan_out & [= <- <-])%bind_Ok.
      simpl in Hr; subst hacts. split; [by apply not_and_l in H|]. split; [done|]. by exists a, acts'.
    + intros (_ & _ & a & hacts & Hf & -> & ->). apply bind_Ok. exists (a, hacts).
      split; [by apply run_handlers_fan_out; exists hacts|done].
  - rewrite deliver_one_unfold. repeat case_decide; simpl; [case_match; naive_solver| |].
    + split; [intros [= <-]; split; [by apply not_and_l in H|done]|by intros (_ & _ & ->)].
    + split; [intros (? & ? & ?)%bind_Ok; case_match; naive_solver|naive_solver].
  - rewrite deliver_one_unfold. repeat case_decide; simpl.
    + destruct H as [H1 H2]. rewrite H1, H2.
      case_match; (split; [intros E|intros (_ & ? & ->)]); try done.
      injection E as <-. split_and!; [by intros []|done|done].
    + split; [done|]. intros (Hn & _). by apply not_and_l in H.
    + split; [by intros ([??] & _ & Hx)%bind_Ok|]. intros (Hn & _). by apply not_and_l in H.
  - subst db. unfold relay_event in *. rewrite H. unfold move_to_dead_letter_if_exhausted.
    assert (∀ f m, ob_published <$> (update_row (ob_id ev) (set_attempts f m) <$> outbox_events (rs_db s))
              = ob_published <$> outbox_events (rs_db s)) as Hp.
    { intros. rewrite <- list_fmap_compose. apply list_fmap_ext. intros ? r _; simpl.
      unfold update_row. by case_match. }
    destruct e; case_match; simpl; auto using Hp.
Qed.
(** C5: No event is lost and none is acknowledged twice.  Start from empty
    tables and let producers insert events, tenants change webhooks, other code
    change the rest of the database, and relay processes (each with its own
    handler registry, batch size and locked rows) run passes that commit or roll
    back.  At every moment each outbox row has exactly one fate: pending below
    the attempt limit; published, with the dedup mark and an acknowledgement; or
    out of attempts, unpublished and in the dead letter queue.  No event is
    acknowledged or dead-lettered twice, and no step removes a row. *)
Theorem outbox_no_event_lost db log :
  relay_reachable db log →
  (∀ r, r ∈ outbox_events db →
     row_fate (processed_outbox_events db) (dl_job_id <$> dead_letter_queue db) log.*1 r) ∧
  NoDup log.*1 ∧ NoDup (dl_job_id <$> dead_letter_queue db) ∧ NoDup (ob_id <$> outbox_events db) ∧
  (∀ id, id ∈ dl_job_id <$> dead_letter_queue db ∨ id ∈ log.*1 → id ∈ ob_id <$> outbox_events db) ∧
  (∀ db' log', relay_move (db, log) (db', log') →
     ∀ id, id ∈ ob_id <$> outbox_events db → id ∈ ob_id <$> outbox_events db').
Proof.
  intros Hr%reachable_inv. split_and!; try apply Hr.
  - intros id Hid. apply Hr. tauto.
  - intros db' log' Hm id Hid. inversion Hm; subst; simpl; [|rewrite fmap_app; apply elem_of_app; by left|done].
    by rewrite pass_ids.
Qed.

(** A pass takes the oldest eligible events.  The polled rows are distinct
    unpublished rows below the attempt limit that no other pass has locked, in
    order of creation; there are as many as the batch size and the eligible rows
    allow, and every eligible row left out was created no earlier than each row
    taken. *)
Theorem poll_oldest_first (db : rdb) log locked n :
  relay_reachable db log →
  let polled := poll_outbox db locked n in
  NoDup (ob_id <$> polled) ∧
  (∀ r, r ∈ polled → r ∈ outbox_events db ∧ eligible locked r = true) ∧
  StronglySorted (λ r s, by_created r s = true) polled ∧
  length polled = n `min` length (List.filter (eligible locked) (outbox_events db)) ∧
  (∀ r s, r ∈ outbox_events db → eligible locked r = true → r ∉ polled → s ∈ polled →
     (ob_created_at s ≤ ob_created_at r)%Z).
Proof.
  intros HI%reachable_inv. simpl.
  set (sorted := sorted_by by_created (List.filter (eligible locked) (outbox_events db))).
  assert (StronglySorted (λ r s, by_created r s = true) sorted) as Hs.
  { apply Sorted_StronglySorted; [|apply sorted_by_sorted].
    - intros x y z. unfold by_created. rewrite !Z.leb_le. lia.
    - intros x y. unfold by_created. rewrite !Z.leb_le. lia. }
  assert (poll_outbox db locked n = take n sorted) as Hp by done.
  rewrite <- (take_drop n sorted) in Hs. apply StronglySorted_split in Hs as [Hs Hle].
  split_and!.
  - apply poll_NoDup, HI.
  - intros r (?&?&?)%poll_elem. split; [done|]. by apply andb_true_iff; rewrite bool_decide_eq_true.
  - done.
  - rewrite Hp, length_take. unfold sorted. by rewrite length_sorted_by.
  - intros r s Hr He Hnp Hsp. rewrite Hp in *.
    assert (r ∈ take n sorted ++ drop n sorted) as Hin.
    { rewrite take_drop. by apply elem_of_sorted_by, elem_of_filter_b. }
    apply elem_of_app in Hin as [|Hd]; [done|].
    apply Z.leb_le. by apply Hle.
Qed.

(** A poisoned event leaves the queue after exactly
    [MAX_OUTBOX_ATTEMPTS] attempts, and not before.  If every delivery of a
    pending event raises, then after [k] committed passes that each reach it,
    the row has [min MAX_OUTBOX_ATTEMPTS (attempts + k)] attempts on record, is
    still unpublished and never acknowledged, and it is in the dead letter queue
    if and only if that is the limit. *)
Theorem poisoned_event_dead_lettered (db : rdb) log r envs :
  relay_reachable db log → r ∈ outbox_events db → pollable r = true →
  Forall (λ env, always_raises (pe_handlers env) r ∧ pe_commits env = true ∧
                 (ob_id r ∉ pe_locked env) ∧ length (outbox_events db) ≤ pe_batch_size env) envs →
  let '(db', log') := passes envs (db, log) in
  ∃ r', r' ∈ outbox_events db' ∧ ob_id r' = ob_id r ∧ ob_published r' = false ∧
    ob_attempt_count r' = (MAX_OUTBOX_ATTEMPTS `min` (ob_attempt_count r + Z.of_nat (length envs)))%Z ∧
    (ob_id r ∉ log'.*1) ∧
    (ob_id r ∈ dl_job_id <$> dead_letter_queue db' ↔
       (MAX_OUTBOX_ATTEMPTS ≤ ob_attempt_count r + Z.of_nat (length envs))%Z).
Proof.
  intros HI%reachable_inv Hr Hp Hf.
  destruct (pollable_pending _ _ _ HI Hr Hp) as (Hpub & Hatt & _).
  destruct (passes_count envs db log r HI Hr Hpub Hf) as (HI' & r' & Hr' & Hid & Hpub' & Ha).
  destruct (passes envs (db, log)) as [db' log']; simpl in *. exists r'. rewrite <- Hid.
  split_and!; [done..| |]; destruct (inv_fates _ _ HI' r' Hr') as [|?|? Ha']; try done; try congruence.
  - split; [done|lia].
  - split; [lia|done].
Qed.
End relay_props.

(** ** A concrete relay

    [audit] appends the event id and asks for an enqueue; [flaky] always raises.
    Event [e1] is delivered, [e2] is poisoned. *)
Definition demo_handler (h : string) (ev : outbox_row) (a : list string) :
    result delivery_exn (list string * option string) :=
  if String.eqb h "flaky" then Err (OtherError "ValueError" "no route")
  else Ok (a ++ [ob_id ev], Some ("enqueue " +:+ ob_id ev)).

Definition demo_catalogue (_ : string) : option EventContract := None.
Definition demo_registry : registry :=
  <["memory.stored" := ["audit"]]> (<["memory.failed" := ["audit"; "flaky"]]> ∅).
Definition demo_env : pass_env := PassEnv demo_registry 50 ∅ true.

Definition demo_row (id ty : string) (t : Z) : outbox_row :=
  OutboxRow id "ns" "memory" "m1" ty (JObj []) 0 None t false.
Definition e1 : outbox_row := demo_row "e1" "memory.stored" 10.
Definition e2 : outbox_row := demo_row "e2" "memory.failed" 5.

Definition demo_start : @relay_db (list string) := RelayDb [] ∅ [] [] [].
Definition demo_db : @relay_db (list string) := RelayDb [e1; e2] ∅ [] [] [].
Definition demo_after := run_outbox_relay_once demo_handler demo_catalogue demo_env demo_db.

Lemma demo_db_reachable : relay_reachable demo_handler demo_catalogue demo_db [].
Proof.
  exists demo_start. split; [done|].
  eapply rtc_l; [apply (move_produce _ _ e1); [apply not_elem_of_nil|done..]|].
  eapply rtc_l; [apply (move_produce _ _ e2); [|done..]|done].
  simpl. intros H%list_elem_of_singleton. done.
Qed.

Lemma demo_after_reachable : relay_reachable demo_handler demo_catalogue demo_after.1.1.1 demo_after.2.
Proof.
  destruct demo_db_reachable as (db0 & H0 & H). exists db0. split; [done|].
  eapply rtc_r; [exact H|]. apply (move_pass _ _ demo_env demo_db []).
Qed.

(** The poisoned event is older, so it is tried first; it does not stop [e1]. *)
Example demo_pass :
  ((λ r, (ob_id r, ob_published r, ob_attempt_count r)) <$> outbox_events demo_after.1.1.1,
   rest demo_after.1.1.1, demo_after.1.1.2, demo_after.1.2, demo_after.2)
  = ([("e1", true, 0%Z); ("e2", false, 1%Z)], ["e1"], [HandlerAction "enqueue e1"], Some (1, 0), [("e1", true)]).
Proof. vm_compute. reflexivity. Qed.

Lemma outbox_no_event_lost_witness :
  ob_id <$> outbox_events demo_after.1.1.1 = ["e1"; "e2"] ∧ NoDup demo_after.2.*1.
Proof.
  split; [vm_compute; reflexivity|].
  apply (outbox_no_event_lost demo_handler demo_catalogue _ _ demo_after_reachable).
Defined.

Lemma poll_oldest_first_witness :
  ob_id <$> poll_outbox demo_db ∅ 1 = ["e2"] ∧
  ∀ r s, r ∈ outbox_events demo_db → eligible ∅ r = true → r ∉ poll_outbox demo_db ∅ 1 →
    s ∈ poll_outbox demo_db ∅ 1 → (ob_created_at s ≤ ob_created_at r)%Z.
Proof.
  split; [vm_compute; reflexivity|].
  apply (poll_oldest_first demo_handler demo_catalogue demo_db [] ∅ 1 demo_db_reachable).
Defined.

Lemma demo_always_raises : always_raises demo_handler demo_registry e2.
Proof.
  intros ev a Hid Hty. exists "ValueError", "no route". unfold subscribers. by rewrite Hty.
Qed.

Lemma poisoned_event_dead_lettered_witness :
  ∃ r', r' ∈ outbox_events (passes demo_handler demo_catalogue (replicate 7 demo_env) (demo_db, [])).1 ∧
    ob_attempt_count r' = 5%Z ∧
    "e2" ∈ dl_job_id <$> dead_letter_queue (passes demo_handler demo_catalogue (replicate 7 demo_env) (demo_db, [])).1.
Proof.
  pose proof (poisoned_event_dead_lettered demo_handler demo_catalogue demo_db [] e2 (replicate 7 demo_env)) as H.
  destruct (passes _ _ _ _) as [db' log'].
  destruct H as (r' & Hr & _ & _ & Ha & _ & Hd); [apply demo_db_reachable|by right; left|done| |].
  - apply Forall_forall. intros env [-> _]%elem_of_replicate.
    split_and!; [apply demo_always_raises|done|apply not_elem_of_empty|simpl; lia].
  - exists r'. split_and!; [exact Hr|exact Ha|]. apply Hd. done.
Defined.
