(* ===== verification/Quotas.v ===== *)
(** * Quotas: namespace and agent resource quotas

    Models [src/nce/quotas.py] (and [manage_quotas] of
    [src/nce/orchestrators/namespace.py]): charging the matching quota rows in one
    PostgreSQL transaction, the Redis hot path with its partial rollback, the
    reservation's rollback, the flush and the admin operations.  The table is a
    list of rows, the Redis counters a map from (namespace, row id); a
    transaction that raises leaves the table as it was.  Every Redis call may
    fail.  Gauges, key text, TTLs and the cost estimators are not modelled. *)
From S2P Require Import Prelude.

Record quota_row := QuotaRow {
  q_id : string;
  q_namespace_id : string;
  q_agent_id : option string;
  q_resource_type : string;
  q_limit_amount : Z;
  q_used_amount : Z;
  q_reset_at : option Z
}.
Abbreviation quota_table := (list quota_row).
Abbreviation counters := (gmap (string * string) Z).

Inductive quota_error :=
  | QuotaExceededError (resource_type : string) (namespace_scope : bool)
  | ValueError (resource_type : string) (delta : Z)
  | RedisError (qid : string).

Definition MAX_QUOTA_DELTA : Z := 10000000.

Record quota_cfg := QuotaCfg {
  NCE_QUOTAS_ENABLED : bool;
  NCE_QUOTA_REDIS_COUNTERS : bool
}.

Record QuotaReservation := Reservation {
  rv_pool : bool;                           (* a pool to roll back with *)
  rv_redis_client : bool;
  rv_namespace_id : option string;
  rv_steps : list (string * Z)
}.
Definition null_reservation : QuotaReservation := Reservation false false None [].

Definition quota_redis_key (namespace_id quota_row_id : string) : string * string :=
  (namespace_id, quota_row_id).

(** ** Rows *)
Definition set_used (f : Z → Z) (r : quota_row) : quota_row :=
  QuotaRow (q_id r) (q_namespace_id r) (q_agent_id r) (q_resource_type r) (q_limit_amount r)
           (f (q_used_amount r)) (q_reset_at r).

(** [UPDATE resource_quotas SET used_amount = f(used_amount) WHERE id = qid] *)
Definition update_used (qid : string) (f : Z → Z) (t : quota_table) : quota_table :=
  (λ r, if String.eqb (q_id r) qid then set_used f r else r) <$> t.

Fixpoint find_row (qid : string) (t : quota_table) : option quota_row :=
  match t with
  | [] => None
  | r :: t => if String.eqb (q_id r) qid then Some r else find_row qid t
  end.

(** The table's CHECK constraints. *)
Definition row_check (r : quota_row) : bool :=
  (0 <=? q_limit_amount r)%Z && (0 <=? q_used_amount r)%Z && (q_used_amount r <=? q_limit_amount r)%Z.

(** [ORDER BY (agent_id IS NULL) DESC] *)
Definition is_none {A} (o : option A) : bool := match o with None => true | Some _ => false end.
Definition ns_first (r s : quota_row) : bool := is_none (q_agent_id r) || negb (is_none (q_agent_id s)).

Definition quota_matches (namespace_id : string) (agent_id : option string) (resource_type : string)
    (now : Z) (r : quota_row) : bool :=
  String.eqb (q_namespace_id r) namespace_id && String.eqb (q_resource_type r) resource_type &&
  match q_reset_at r with None => true | Some at_ => (now <? at_)%Z end &&
  match q_agent_id r, agent_id with
  | None, _ => true
  | Some a, Some b => String.eqb a b
  | Some _, None => false
  end.
Definition select_rows (namespace_id : string) (agent_id : option string) (resource_type : string)
    (now : Z) (t : quota_table) : list quota_row :=
  sorted_by ns_first (List.filter (quota_matches namespace_id agent_id resource_type now) t).

(** The positive deltas, in the mapping's order; the first one too large raises. *)
Fixpoint positive_deltas (amounts : list (string * Z)) : result quota_error (list (string * Z)) :=
  match amounts with
  | [] => Ok []
  | (k, d) :: amounts =>
      if (d <=? 0)%Z then positive_deltas amounts
      else if (MAX_QUOTA_DELTA <? d)%Z then raise (ValueError k d)
      else ds ← positive_deltas amounts; Ok ((k, d) :: ds)
  end.

(** [sorted(deltas.items())]; the keys of a dict are distinct. *)
Definition by_item (x y : string * Z) : bool :=
  leb_of (lex_compare (str_compare x.1 y.1) (x.2 ?= y.2)%Z).

Section consume.
Context (namespace_id : string) (agent_id : option string) (now : Z).

(** ** The PostgreSQL path *)

(** [UPDATE ... WHERE id = $2 AND used_amount + $1 <= limit_amount RETURNING ...] *)
Definition charge_row (delta : Z) (qid : string) (t : quota_table) : option quota_table :=
  match find_row qid t with
  | Some r => if (q_used_amount r + delta <=? q_limit_amount r)%Z
              then Some (update_used qid (λ u, (u + delta)%Z) t) else None
  | None => None
  end.

Fixpoint charge_rows (resource_type : string) (delta : Z) (rows : list quota_row)
    (t : quota_table) (steps : list (string * Z)) : result quota_error (quota_table * list (string * Z)) :=
  match rows with
  | [] => Ok (t, steps)
  | row :: rows =>
      match charge_row delta (q_id row) t with
      | None => raise (QuotaExceededError resource_type (is_none (q_agent_id row)))
      | Some t => charge_rows resource_type delta rows t (steps ++ [(q_id row, delta)])
      end
  end.

Fixpoint charge_all (deltas : list (string * Z)) (t : quota_table) (steps : list (string * Z)) :
    result quota_error (quota_table * list (string * Z)) :=
  match deltas with
  | [] => Ok (t, steps)
  | (resource_type, delta) :: deltas =>
      '(t, steps) ← charge_rows resource_type delta (select_rows namespace_id agent_id resource_type now t) t steps;
      charge_all deltas t steps
  end.

(** ** The Redis path *)

(** [_QUOTA_INCR_LUA] *)
Definition quota_incr (key : string * string) (base delta limit : Z) (c : counters) : counters * Z :=
  let v := default base (c !! key) in
  let newv := (v + delta)%Z in
  if (limit <? newv)%Z then (c, (-1)%Z) else (<[key := newv]> c, newv).
Definition quota_incr_failed (res : Z) : bool := (res =? -1)%Z.

Definition decrby (key : string * string) (delta : Z) (c : counters) : counters :=
  <[key := (default 0 (c !! key) - delta)%Z]> c.

(** Calls to Redis fail at will: [eval_fails qid] is [Some executed] when the
    script call of that row raises, having run on the server or not. *)
Context (eval_fails : string → option bool) (decrby_fails : string → bool).

(** Best-effort: a failing [decrby] is logged and skipped; one that ran before it
    failed has the effect of one that did not fail. *)
Definition redis_undo (steps : list (string * Z)) (c : counters) : counters :=
  foldl (λ c '(qid, delta), if decrby_fails qid then c else decrby (quota_redis_key namespace_id qid) delta c)
        c (reverse steps).

(** An exceeded quota and an exception both undo what was applied so far. *)
Fixpoint redis_rows (resource_type : string) (delta : Z) (rows : list quota_row) (c : counters)
    (applied : list (string * Z)) : counters * result quota_error (list (string * Z)) :=
  match rows with
  | [] => (c, Ok applied)
  | row :: rows =>
      let key := quota_redis_key namespace_id (q_id row) in
      let '(c', res) := quota_incr key (q_used_amount row) delta (q_limit_amount row) c in
      match eval_fails (q_id row) with
      | Some executed => (redis_undo applied (if executed : bool then c' else c), Err (RedisError (q_id row)))
      | None =>
          if quota_incr_failed res
          then (redis_undo applied c', Err (QuotaExceededError resource_type (is_none (q_agent_id row))))
          else redis_rows resource_type delta rows c' (applied ++ [(q_id row, delta)])
      end
  end.

Fixpoint redis_all (t : quota_table) (deltas : list (string * Z)) (c : counters)
    (applied : list (string * Z)) : counters * result quota_error (list (string * Z)) :=
  match deltas with
  | [] => (c, Ok applied)
  | (resource_type, delta) :: deltas =>
      match redis_rows resource_type delta (select_rows namespace_id agent_id resource_type now t) c applied with
      | (c, Ok applied) => redis_all t deltas c applied
      | (c, Err e) => (c, Err e)
      end
  end.

Definition consume_resources_redis (amounts : list (string * Z)) (t : quota_table) (c : counters) :
    counters * result quota_error QuotaReservation :=
  match positive_deltas amounts with
  | Err e => (c, Err e)
  | Ok deltas =>
      let '(c, r) := redis_all t (sorted_by by_item deltas) c [] in
      (c, (λ steps, Reservation true true (Some namespace_id) steps) <$> r)
  end.

(** ** [consume_resources] *)
Definition consume_resources (cfg : quota_cfg) (redis_client : bool) (amounts : list (string * Z))
    (t : quota_table) (c : counters) : quota_table * counters * result quota_error QuotaReservation :=
  if negb (NCE_QUOTAS_ENABLED cfg) then (t, c, Ok null_reservation)
  else match positive_deltas amounts with
  | Err e => (t, c, Err e)
  | Ok [] => (t, c, Ok (Reservation true false None []))
  | Ok deltas =>
      if NCE_QUOTA_REDIS_COUNTERS cfg && redis_client then
        let '(c, r) := consume_resources_redis amounts t c in (t, c, r)
      else match charge_all (sorted_by by_item deltas) t [] with
           | Ok (t', steps) => (t', c, Ok (Reservation true false None steps))
           | Err e => (t, c, Err e)
           end
  end.
End consume.

(** ** [QuotaReservation.rollback] *)
Definition uncharge (steps : list (string * Z)) (t : quota_table) : quota_table :=
  foldl (λ t '(qid, delta), update_used qid (λ u, Z.max 0 (u - delta)) t) t steps.

Definition rollback (decrby_fails : string → bool) (rv : QuotaReservation) (t : quota_table) (c : counters) :
    quota_table * counters * QuotaReservation :=
  let cleared := Reservation (rv_pool rv) (rv_redis_client rv) (rv_namespace_id rv) [] in
  match rv_redis_client rv, rv_namespace_id rv, rv_steps rv with
  | true, Some ns, _ :: _ => (t, redis_undo ns decrby_fails (rv_steps rv) c, cleared)
  | _, _, _ => (if rv_pool rv then uncharge (rv_steps rv) t else t, c, cleared)
  end.

(** ** Flush

    The counters in the scan's order; a session that fails, or an update the
    CHECK constraint rejects, is logged and skipped. *)
Definition flush_one (session_ok : string → bool) (acc : quota_table * nat)
    (entry : (string * string) * Z) : quota_table * nat :=
  let '(t, flushed) := acc in
  let '((ns, qid), used) := entry in
  let t' := (λ r, if String.eqb (q_id r) qid && String.eqb (q_namespace_id r) ns
                  then set_used (λ u, Z.max u used) r else r) <$> t in
  if session_ok ns && forallb row_check t' then (t', S flushed) else (t, flushed).
Definition flush_quota_counters_to_postgres (session_ok : string → bool)
    (scan : list ((string * string) * Z)) (t : quota_table) : quota_table * nat :=
  foldl (flush_one session_ok) (t, 0) scan.

Definition delete_quota_redis_counter (ns qid : string) (c : counters) : counters :=
  delete (quota_redis_key ns qid) c.

(** ** Admin operations *)
Definition same_quota (ns rt : string) (agent : option string) (r : quota_row) : bool :=
  String.eqb (q_namespace_id r) ns && String.eqb (q_resource_type r) rt &&
  bool_decide (q_agent_id r = agent).

Inductive quota_command :=
  | quota_set (limit : Z) (fresh_id : string)
  | quota_list
  | quota_delete
  | quota_reset.

(** [None]: the CHECK constraint rejects the statement. *)
Definition manage_quotas (ns rt : string) (agent : option string) (redis : bool) (cmd : quota_command)
    (t : quota_table) (c : counters) : option (quota_table * counters) :=
  match cmd with
  | quota_set limit fresh_id =>
      let t' := if existsb (same_quota ns rt agent) t
                then (λ r, if same_quota ns rt agent r
                           then QuotaRow (q_id r) (q_namespace_id r) (q_agent_id r) (q_resource_type r) limit
                                         (q_used_amount r) (q_reset_at r)
                           else r) <$> t
                else t ++ [QuotaRow fresh_id ns agent rt limit 0 None] in
      if forallb row_check t' then Some (t', c) else None
  | quota_list => Some (t, c)
  | quota_delete => Some (List.filter (λ r, negb (same_quota ns rt agent r)) t, c)
  | quota_reset =>
      let hit := List.filter (same_quota ns rt agent) t in
      let t' := (λ r, if same_quota ns rt agent r then set_used (λ _, 0%Z) r else r) <$> t in
      let c' := if redis then foldl (λ c r, delete_quota_redis_counter (q_namespace_id r) (q_id r) c) c hit else c in
      Some (t', c')
  end.
