(* ===== verification/QuotasFacts.v ===== *)
(** * QuotasFacts: lemmas about charging and undoing quota rows *)
From S2P Require Import Prelude Quotas.

(** What a list of steps adds to the row [id]. *)
Definition due (steps : list (string * Z)) (id : string) : Z :=
  foldr (λ s acc, if String.eqb s.1 id then (s.2 + acc)%Z else acc) 0%Z steps.

(** Every row charged with what it is due. *)
Definition charged (steps : list (string * Z)) (t : quota_table) : quota_table :=
  (λ r, set_used (λ u, (u + due steps (q_id r))%Z) r) <$> t.

Definition positive_steps (steps : list (string * Z)) : Prop := Forall (λ s, (0 < s.2)%Z) steps.

Lemma due_app s1 s2 id : due (s1 ++ s2) id = (due s1 id + due s2 id)%Z.
Proof. induction s1 as [|[q d] s1 IH]; simpl; [lia|]. rewrite IH. case_match; lia. Qed.

Lemma due_nonneg s id : positive_steps s → (0 ≤ due s id)%Z.
Proof. induction 1; simpl; [lia|]. case_match; lia. Qed.

Lemma due_perm s1 s2 id : s1 ≡ₚ s2 → due s1 id = due s2 id.
Proof. induction 1; simpl; repeat case_match; lia. Qed.

Lemma due_notin s id : id ∉ s.*1 → due s id = 0%Z.
Proof.
  induction s as [|[q d] s IH]; simpl; [done|]. intros [Hne Hin]%not_elem_of_cons.
  destruct (String.eqb_spec q id); [congruence|auto].
Qed.

Lemma set_used_ext f g r : f (q_used_amount r) = g (q_used_amount r) → set_used f r = set_used g r.
Proof. unfold set_used. by intros ->. Qed.

Lemma set_used_id f r : f (q_used_amount r) = q_used_amount r → set_used f r = r.
Proof. unfold set_used. intros ->. by destruct r. Qed.

Lemma charged_nil t : charged [] t = t.
Proof. unfold charged. rewrite <- (list_fmap_id t) at 2. apply list_fmap_ext. intros ? r _. apply set_used_id. simpl. lia. Qed.

Lemma charged_charged s1 s2 t : charged s2 (charged s1 t) = charged (s1 ++ s2) t.
Proof.
  unfold charged. rewrite <- list_fmap_compose. apply list_fmap_ext. intros ? r _. simpl.
  unfold set_used; simpl. f_equal. rewrite due_app. lia.
Qed.

Lemma charged_ids s t : q_id <$> charged s t = q_id <$> t.
Proof. unfold charged. rewrite <- list_fmap_compose. by apply list_fmap_ext. Qed.

Lemma due_filter (f : string → bool) s id :
  due s id = (due (List.filter (λ x, f x.1) s) id + due (List.filter (λ x, negb (f x.1)) s) id)%Z.
Proof. induction s as [|[q d] s IH]; simpl; [done|]. destruct (f q); simpl; case_match; lia. Qed.

Lemma filter_sublist {A} (f : A → bool) l : List.filter f l `sublist_of` l.
Proof. induction l as [|x l IH]; simpl; [done|]. destruct (f x); by constructor. Qed.

Lemma filter_perm {A} (f : A → bool) l k : l ≡ₚ k → List.filter f l ≡ₚ List.filter f k.
Proof. induction 1 as [|x l k _ IH|x y l|]; simpl; repeat case_match; try done; [by constructor|by constructor|by etrans]. Qed.

Lemma charged_perm s1 s2 t : s1 ≡ₚ s2 → charged s1 t = charged s2 t.
Proof. intros Hp. apply list_fmap_ext. intros ? r _. apply set_used_ext. by rewrite (due_perm _ _ _ Hp). Qed.

Lemma update_charged qid d s t :
  update_used qid (λ u, (u + d)%Z) (charged s t) = charged (s ++ [(qid, d)]) t.
Proof.
  unfold update_used, charged. rewrite <- list_fmap_compose. apply list_fmap_ext. intros ? r _. simpl.
  unfold set_used. rewrite due_app. simpl. rewrite (String.eqb_sym qid).
  case_match; simpl; f_equal; lia.
Qed.

(** ** Rows by id *)
Lemma find_row_fmap f qid t :
  (∀ r, q_id (f r) = q_id r) → find_row qid (f <$> t) = f <$> find_row qid t.
Proof. intros Hf. induction t as [|r t IH]; [done|]. simpl. rewrite Hf. by case_match. Qed.

Lemma find_row_in qid t : qid ∈ q_id <$> t → ∃ r, find_row qid t = Some r ∧ r ∈ t ∧ q_id r = qid.
Proof.
  induction t as [|r t IH]; simpl; [by intros ?%elem_of_nil|]. intros Hin.
  destruct (String.eqb_spec (q_id r) qid) as [E|Hne].
  - exists r. split_and!; [done|by left|done].
  - apply elem_of_cons in Hin as [E|Hin]; [congruence|].
    destruct (IH Hin) as (r' & ? & ? & ?). exists r'. split_and!; [done|by right|done].
Qed.

Lemma find_row_self t r : NoDup (q_id <$> t) → r ∈ t → find_row (q_id r) t = Some r.
Proof.
  intros Hnd Hr. destruct (find_row_in (q_id r) t) as (r' & -> & Hr' & E).
  - by apply list_elem_of_fmap_2.
  - by rewrite (key_inj q_id t r' r).
Qed.

(** ** Selecting commutes with changing used amounts *)
Lemma select_rows_fmap ns agent rt now (g : quota_row → Z → Z) t :
  select_rows ns agent rt now ((λ r, set_used (g r) r) <$> t) =
  (λ r, set_used (g r) r) <$> select_rows ns agent rt now t.
Proof. unfold select_rows. rewrite filter_fmap. by apply sorted_by_fmap. Qed.

Lemma elem_of_select_rows ns agent rt now t r :
  r ∈ select_rows ns agent rt now t ↔ r ∈ t ∧ quota_matches ns agent rt now r = true.
Proof. unfold select_rows. by rewrite elem_of_sorted_by, elem_of_filter_b. Qed.

Lemma quota_matches_ns ns agent rt now r : quota_matches ns agent rt now r = true → q_namespace_id r = ns.
Proof. unfold quota_matches. rewrite !andb_true_iff. intros [[[H%String.eqb_eq _] _] _]. done. Qed.

(** ** The plan: which rows a call charges, and by how much *)
Section plan.
Context (ns : string) (agent : option string) (now : Z).

Definition steps_of (delta : Z) (rows : list quota_row) : list (string * Z) :=
  (λ r, (q_id r, delta)) <$> rows.
Fixpoint plan (t : quota_table) (deltas : list (string * Z)) : list (string * Z) :=
  match deltas with
  | [] => []
  | (rt, d) :: deltas => steps_of d (select_rows ns agent rt now t) ++ plan t deltas
  end.

(** The demand on one row, read off the request alone. *)
Definition demand (deltas : list (string * Z)) (r : quota_row) : Z :=
  foldr (λ x acc, if quota_matches ns agent x.1 now r then (x.2 + acc)%Z else acc) 0%Z deltas.

Lemma demand_perm d1 d2 r : d1 ≡ₚ d2 → demand d1 r = demand d2 r.
Proof. induction 1; simpl; repeat case_match; lia. Qed.

Lemma due_steps_of t delta rows r :
  NoDup (q_id <$> t) → r ∈ t → (∀ x, x ∈ rows → x ∈ t) → NoDup (q_id <$> rows) →
  (r ∈ rows → due (steps_of delta rows) (q_id r) = delta) ∧
  (r ∉ rows → due (steps_of delta rows) (q_id r) = 0%Z).
Proof.
  intros Ht Hr. induction rows as [|x rows IH]; intros Hsub Hnd.
  { split; [by intros ?%elem_of_nil|done]. }
  rewrite fmap_cons in Hnd. apply NoDup_cons in Hnd as [Hx Hnd].
  destruct IH as [IH1 IH2]; [intros y Hy; apply Hsub; by right|done|].
  simpl. rewrite elem_of_cons.
  destruct (String.eqb_spec (q_id x) (q_id r)) as [E|Hne].
  - assert (x = r) as -> by (apply (key_inj q_id t); [done|apply Hsub; by left|done..]).
    split; [|intros Hn; destruct Hn; by left]. intros _. rewrite due_notin; [lia|]. unfold steps_of.
    rewrite <- list_fmap_compose. done.
  - split; [intros [->|Hin]; [done|auto]|]. intros Hn. apply IH2. contradict Hn. by right.
Qed.

Lemma select_NoDup rt t : NoDup (q_id <$> t) → NoDup (q_id <$> select_rows ns agent rt now t).
Proof. unfold select_rows. rewrite sorted_by_perm. eauto with rows. Qed.

Lemma due_plan t deltas r :
  NoDup (q_id <$> t) → r ∈ t → due (plan t deltas) (q_id r) = demand deltas r.
Proof.
  intros Ht Hr. induction deltas as [|[rt d] deltas IH]; [done|]. simpl. rewrite due_app, IH.
  destruct (due_steps_of t d (select_rows ns agent rt now t) r) as [H1 H2]; [done..| |by apply select_NoDup|].
  - intros x ?%elem_of_select_rows. tauto.
  - rewrite elem_of_select_rows in H1, H2. case_match; [rewrite H1 by done|rewrite H2 by (intros []; congruence)]; lia.
Qed.

Lemma plan_positive t deltas : Forall (λ x, (0 < x.2)%Z) deltas → positive_steps (plan t deltas).
Proof.
  induction 1 as [|[rt d] deltas Hd _ IH]; simpl; [constructor|]. apply Forall_app. split; [|done].
  unfold steps_of. apply Forall_fmap, Forall_true. done.
Qed.

Lemma plan_fmap g t deltas : plan ((λ r, set_used (g r) r) <$> t) deltas = plan t deltas.
Proof.
  induction deltas as [|[rt d] deltas IH]; [done|]. simpl. rewrite select_rows_fmap, IH. f_equal.
  unfold steps_of. rewrite <- list_fmap_compose. by apply list_fmap_ext.
Qed.

(** ** Charging in PostgreSQL *)

(** Every row that is due something has room for it. *)
Definition fits (steps : list (string * Z)) (t : quota_table) : Prop :=
  ∀ r, r ∈ t → (0 < due steps (q_id r))%Z → (q_used_amount r + due steps (q_id r) ≤ q_limit_amount r)%Z.

Lemma not_fits_row steps t :
  ¬ fits steps t → ∃ r, r ∈ t ∧ (0 < due steps (q_id r))%Z ∧ (q_limit_amount r < q_used_amount r + due steps (q_id r))%Z.
Proof.
  intros Hn. induction t as [|r t IH]; [destruct Hn; by intros ? ?%elem_of_nil|].
  destruct (decide (0 < due steps (q_id r) ∧ q_limit_amount r < q_used_amount r + due steps (q_id r))%Z) as [[??]|Hr].
  - exists r. split_and!; [by left|done..].
  - destruct IH as (r' & ? & ? & ?); [|exists r'; split_and!; [by right|done..]].
    contradict Hn. intros x [->|Hx]%elem_of_cons ?; [lia|by apply Hn].
Qed.

Lemma fits_snoc t s r delta :
  NoDup (q_id <$> t) → r ∈ t → fits s t →
  (q_used_amount r + due s (q_id r) + delta ≤ q_limit_amount r)%Z → fits (s ++ [(q_id r, delta)]) t.
Proof.
  intros Ht Hr Hf Hle r' Hr'. rewrite due_app. simpl.
  destruct (String.eqb_spec (q_id r) (q_id r')) as [E|Hne].
  - rewrite (key_inj q_id t r' r) by done. lia.
  - rewrite Z.add_0_r. by apply Hf.
Qed.

Lemma not_fits t s r delta more :
  r ∈ t → positive_steps s → (0 < delta)%Z → positive_steps more →
  (q_limit_amount r < q_used_amount r + due s (q_id r) + delta)%Z →
  ¬ fits (s ++ (q_id r, delta) :: more) t.
Proof.
  intros Hr Hs Hd Hm Hlt Hf. specialize (Hf r Hr). rewrite due_app in Hf. simpl in Hf.
  rewrite String.eqb_refl in Hf. pose proof (due_nonneg s (q_id r) Hs).
  pose proof (due_nonneg more (q_id r) Hm). lia.
Qed.

Lemma positive_snoc s q d : positive_steps s → (0 < d)%Z → positive_steps (s ++ [(q, d)]).
Proof. intros. apply Forall_app. split; [done|]. by repeat constructor. Qed.

Lemma positive_steps_of delta rows : (0 < delta)%Z → positive_steps (steps_of delta rows).
Proof. intros. unfold steps_of. apply Forall_fmap, Forall_true. done. Qed.

Lemma charge_rows_steps rt delta rows t s t' s' :
  charge_rows rt delta rows t s = Ok (t', s') → s' = s ++ steps_of delta rows.
Proof.
  revert t s; induction rows as [|row rows IH]; intros t s; simpl.
  - intros [= _ <-]. by rewrite app_nil_r.
  - destruct (charge_row _ _ _); [|done]. intros ->%IH. by rewrite <- app_assoc.
Qed.

Lemma charge_rows_spec t rt delta rows s :
  NoDup (q_id <$> t) → (∀ r, r ∈ rows → q_id r ∈ q_id <$> t) → (0 < delta)%Z → positive_steps s →
  fits s t →
  match charge_rows rt delta rows (charged s t) s with
  | Ok (t', s') => s' = s ++ steps_of delta rows ∧ t' = charged s' t ∧ fits s' t
  | Err e => (∃ b, e = QuotaExceededError rt b) ∧
             ∀ more, positive_steps more → ¬ fits (s ++ steps_of delta rows ++ more) t
  end.
Proof.
  intros Ht Hin Hd. revert s. induction rows as [|row rows IH]; intros s Hs Hf.
  { simpl. by rewrite app_nil_r. }
  destruct (find_row_in (q_id row) t) as (r & Er & Hr & Eid); [apply Hin; by left|].
  assert (∀ r', r' ∈ rows → q_id r' ∈ q_id <$> t) as Hin' by (intros r' Hr'; apply Hin; by right).
  cbn [charge_rows]. unfold charge_row. unfold charged at 1. rewrite find_row_fmap, Er by done.
  cbn [fmap option_fmap option_map set_used q_used_amount q_limit_amount].
  change (steps_of delta (row :: rows)) with ((q_id row, delta) :: steps_of delta rows). rewrite <- Eid.
  destruct (_ <=? _)%Z eqn:Hle; [apply Z.leb_le in Hle|apply Z.leb_gt in Hle].
  - rewrite update_charged. specialize (IH Hin' (s ++ [(q_id r, delta)])).
    replace (s ++ (q_id r, delta) :: steps_of delta rows) with ((s ++ [(q_id r, delta)]) ++ steps_of delta rows)
      by (by rewrite <- app_assoc).
    destruct (charge_rows _ _ _ _ _) as [[t' s']|e]; [by apply IH; [apply positive_snoc|apply fits_snoc]|].
    destruct IH as [He Hn]; [by apply positive_snoc|by apply fits_snoc|]. split; [done|].
    intros more Hm. specialize (Hn more Hm). by rewrite <- !app_assoc in Hn.
  - split; [by eexists|]. intros more Hm. apply not_fits; [done..| |done].
    apply Forall_app. split; [by apply positive_steps_of|done].
Qed.

Lemma charge_all_spec t deltas s :
  NoDup (q_id <$> t) → Forall (λ x, (0 < x.2)%Z) deltas → positive_steps s → fits s t →
  match charge_all ns agent now deltas (charged s t) s with
  | Ok (t', s') => s' = s ++ plan t deltas ∧ t' = charged s' t ∧ fits s' t
  | Err e => (∃ rt b, e = QuotaExceededError rt b) ∧ ¬ fits (s ++ plan t deltas) t
  end.
Proof.
  intros Ht Hd. revert s. induction Hd as [|[rt d] deltas Hd Hds IH]; intros s Hs Hf.
  { simpl. by rewrite app_nil_r. }
  simpl in Hd. cbn [charge_all plan]. unfold charged at 1.
  rewrite (select_rows_fmap ns agent rt now (λ r u, (u + due s (q_id r))%Z)).
  pose proof (charge_rows_spec t rt d ((λ r, set_used (λ u, (u + due s (q_id r))%Z) r) <$> select_rows ns agent rt now t) s) as H.
  assert (steps_of d ((λ r, set_used (λ u, (u + due s (q_id r))%Z) r) <$> select_rows ns agent rt now t)
          = steps_of d (select_rows ns agent rt now t)) as Es.
  { unfold steps_of. rewrite <- list_fmap_compose. by apply list_fmap_ext. }
  rewrite Es in H. destruct (charge_rows _ _ _ _ _) as [[t1 s1]|e]; simpl.
  - destruct H as (-> & -> & Hf1); [done| |done..|].
    { intros r (x & -> & [Hx _]%elem_of_select_rows)%list_elem_of_fmap. exact (list_elem_of_fmap_2 q_id _ _ Hx). }
    specialize (IH (s ++ steps_of d (select_rows ns agent rt now t))).
    rewrite <- app_assoc in IH. apply IH; [|done]. apply Forall_app. split; [done|by apply positive_steps_of].
  - destruct H as ([b ->] & Hn); [done| |done..|].
    { intros r (x & -> & [Hx _]%elem_of_select_rows)%list_elem_of_fmap. exact (list_elem_of_fmap_2 q_id _ _ Hx). }
    split; [by eexists _, _|]. apply Hn. by apply plan_positive.
Qed.

(** From an empty list of steps. *)
Lemma charge_all_start t deltas :
  NoDup (q_id <$> t) → Forall (λ x, (0 < x.2)%Z) deltas →
  match charge_all ns agent now deltas t [] with
  | Ok (t', s') => s' = plan t deltas ∧ t' = charged s' t ∧ fits s' t
  | Err e => (∃ rt b, e = QuotaExceededError rt b) ∧ ¬ fits (plan t deltas) t
  end.
Proof.
  intros Ht Hd. pose proof (charge_all_spec t deltas []) as H. rewrite charged_nil in H.
  apply H; [done|done|constructor|]. intros r _. simpl. lia.
Qed.
End plan.

(** ** Undoing *)
Lemma uncharge_charged t steps s1 s2 :
  (∀ r, r ∈ t → (0 ≤ q_used_amount r)%Z) → positive_steps (s1 ++ steps ++ s2) →
  uncharge steps (charged (s1 ++ steps ++ s2) t) = charged (s1 ++ s2) t.
Proof.
  intros Ht. induction steps as [|[q d] steps IH]; intros Hp; [done|]. simpl.
  replace (update_used q (λ u, Z.max 0 (u - d)) (charged (s1 ++ (q, d) :: steps ++ s2) t))
    with (charged (s1 ++ steps ++ s2) t).
  { apply IH. apply Forall_app in Hp as [? Hp]. apply Forall_app. split; [done|].
    by apply Forall_cons in Hp as [_ ?]. }
  assert (positive_steps (s1 ++ steps ++ s2)) as Hp'.
  { apply Forall_app in Hp as [? Hp]. apply Forall_app. split; [done|]. by apply Forall_cons in Hp as [_ ?]. }
  unfold update_used, charged. rewrite <- list_fmap_compose. apply list_fmap_ext.
  intros i r Hr%list_elem_of_lookup_2. specialize (Ht r Hr). simpl.
  pose proof (due_nonneg _ (q_id r) Hp') as Hge.
  assert (due (s1 ++ (q, d) :: steps ++ s2) (q_id r)
          = (due (s1 ++ steps ++ s2) (q_id r) + if String.eqb (q_id r) q then d else 0)%Z) as ->.
  { rewrite !(due_app s1). simpl. rewrite (String.eqb_sym q). case_match; lia. }
  unfold set_used. case_match; simpl; f_equal; lia.
Qed.
