(* ===== verification/QuotasProps.v ===== *)
(** * QuotasProps: what the quota counters guarantee *)
From S2P Require Import Prelude Quotas QuotasFacts.

Lemma positive_deltas_spec amounts deltas :
  positive_deltas amounts = Ok deltas →
  deltas = List.filter (λ x, (0 <? x.2)%Z) amounts ∧
  Forall (λ x, (0 < x.2)%Z) deltas ∧ Forall (λ x, (x.2 ≤ MAX_QUOTA_DELTA)%Z) deltas.
Proof.
  revert deltas; induction amounts as [|[k d] amounts IH]; intros deltas; cbn [positive_deltas List.filter snd].
  - intros [= <-]. by repeat constructor.
  - destruct (Z.leb_spec d 0) as [Hle|Hgt].
    + intros H. destruct (Z.ltb_spec 0 d); [lia|]. by apply IH.
    + destruct (Z.ltb_spec MAX_QUOTA_DELTA d) as [|Hmax]; [done|].
      intros (ds & Hds & [= <-])%bind_Ok. destruct (IH ds Hds) as (-> & ? & ?).
      destruct (Z.ltb_spec 0 d); [|lia]. split_and!; [done|by constructor|by constructor].
Qed.

Lemma positive_deltas_err amounts e : positive_deltas amounts = Err e → ∃ k d, e = ValueError k d.
Proof.
  induction amounts as [|[k d] amounts IH]; [done|]. cbn [positive_deltas].
  destruct (d <=? 0)%Z; [done|]. destruct (MAX_QUOTA_DELTA <? d)%Z; [intros [= <-]; eauto|].
  destruct (positive_deltas amounts); simpl; [done|]. intros [= ->]. by apply IH.
Qed.

Lemma sorted_positive deltas :
  Forall (λ x : string * Z, (0 < x.2)%Z) deltas → Forall (λ x, (0 < x.2)%Z) (sorted_by by_item deltas).
Proof. intros. by rewrite sorted_by_perm. Qed.

(** ** One call *)
Section call.
Context (ns : string) (agent : option string) (now : Z).
Context (eval_fails : string → option bool) (decrby_fails : string → bool).

Abbreviation consume := (consume_resources ns agent now eval_fails decrby_fails).
Abbreviation the_plan t deltas := (plan ns agent now t (sorted_by by_item deltas)).

Lemma consume_pg cfg amounts t c deltas :
  NCE_QUOTAS_ENABLED cfg = true → positive_deltas amounts = Ok deltas →
  consume cfg false amounts t c =
  match charge_all ns agent now (sorted_by by_item deltas) t [] with
  | Ok (t', steps) => (t', c, Ok (Reservation true false None steps))
  | Err e => (t, c, Err e)
  end.
Proof.
  intros He Hd. unfold consume_resources. rewrite He, Hd, andb_false_r. simpl.
  by destruct deltas.
Qed.

Lemma demand_sorted deltas r : demand ns agent now (sorted_by by_item deltas) r = demand ns agent now deltas r.
Proof. apply demand_perm, sorted_by_perm. Qed.

Lemma demand_nonneg deltas r : Forall (λ x, (0 < x.2)%Z) deltas → (0 ≤ demand ns agent now deltas r)%Z.
Proof. induction 1 as [|[k d] deltas Hd _ IH]; simpl in *; [lia|]. case_match; lia. Qed.
End call.

(** ** Effective usage

    A row's usage is its Redis counter if there is one, else its column. *)
Definition usage (c : counters) (r : quota_row) : Z :=
  default (q_used_amount r) (c !! quota_redis_key (q_namespace_id r) (q_id r)).
Definition effective (c : counters) (t : quota_table) : quota_table :=
  (λ r, set_used (λ _, usage c r) r) <$> t.

Section redis.
Context (ns : string) (agent : option string) (now : Z) (t : quota_table).
Context (eval_fails : string → option bool) (decrby_fails : string → bool).
Context (Ht : NoDup (q_id <$> t)).

Abbreviation undo := (redis_undo ns decrby_fails).
Abbreviation key := (quota_redis_key ns).

Lemma undo_step c qid d r :
  r ∈ t → (q_id r = qid → q_namespace_id r = ns ∧ is_Some (c !! key qid)) →
  usage (decrby (key qid) d c) r = (usage c r - if String.eqb qid (q_id r) then d else 0)%Z.
Proof.
  intros Hr Hk. unfold usage, decrby. destruct (String.eqb_spec qid (q_id r)) as [E|Hne].
  - destruct (Hk (eq_sym E)) as [En [v Ev]]. rewrite En, <- E, lookup_insert, Ev, decide_True by done. done.
  - rewrite lookup_insert_ne; [simpl; lia|]. unfold quota_redis_key. congruence.
Qed.

(** The steps that an undo leaves behind, and those it takes back. *)
Definition kept (steps : list (string * Z)) : list (string * Z) := List.filter (λ s, decrby_fails s.1) steps.
Definition undone (steps : list (string * Z)) : list (string * Z) := List.filter (λ s, negb (decrby_fails s.1)) steps.

Lemma undo_usage steps c r :
  r ∈ t → (q_id r ∈ steps.*1 → q_namespace_id r = ns ∧ is_Some (c !! key (q_id r))) →
  usage (undo steps c) r = (usage c r - due (undone steps) (q_id r))%Z.
Proof.
  intros Hr. unfold redis_undo.
  assert (undone (reverse steps) ≡ₚ undone steps) as Hp.
  { apply filter_perm, reverse_Permutation. }
  rewrite <- (due_perm _ _ _ Hp).
  assert (∀ x, x ∈ steps.*1 ↔ x ∈ (reverse steps).*1) as Hrev by (intros; by rewrite reverse_Permutation).
  rewrite Hrev. clear Hrev Hp. generalize (reverse steps). clear steps. intros steps; revert c.
  induction steps as [|[q d] steps IH]; intros c Hk; simpl; [lia|].
  rewrite fmap_cons in Hk. destruct (decrby_fails q); simpl.
  { apply IH. intros Hin. apply Hk. by right. }
  rewrite IH.
  - rewrite undo_step; [case_match; lia|done|]. intros <-. apply Hk. by left.
  - intros Hin. destruct Hk as [En [v Ev]]; [by right|]. split; [done|].
    unfold decrby. destruct (decide (key q = key (q_id r))) as [->|Hne].
    + rewrite lookup_insert, decide_True by done. done.
    + rewrite lookup_insert_ne by done. by exists v.
Qed.

(** What the loop maintains: the applied steps are the difference to the start,
    their rows belong to the namespace, and their counters exist. *)
Record applied_inv (c0 c : counters) (applied : list (string * Z)) : Prop := {
  ai_usage : ∀ r, r ∈ t → usage c r = (usage c0 r + due applied (q_id r))%Z;
  ai_keys : ∀ r, r ∈ t → q_id r ∈ applied.*1 → q_namespace_id r = ns ∧ is_Some (c !! key (q_id r))
}.

Lemma applied_inv_start c : applied_inv c c [].
Proof. split; intros r Hr; simpl; [lia|by intros ?%elem_of_nil]. Qed.

Lemma undo_applied c0 c applied :
  applied_inv c0 c applied → effective (undo applied c) t = charged (kept applied) (effective c0 t).
Proof.
  intros [Hu Hk]. unfold effective, charged. rewrite <- list_fmap_compose. apply list_fmap_ext.
  intros i r Hr%list_elem_of_lookup_2. simpl. unfold set_used; simpl. f_equal.
  rewrite undo_usage by auto. rewrite Hu by done. pose proof (due_filter decrby_fails applied (q_id r)). unfold kept, undone. lia.
Qed.

Lemma applied_incr c0 c applied r delta :
  applied_inv c0 c applied → r ∈ t → q_namespace_id r = ns →
  applied_inv c0 (<[key (q_id r) := (usage c r + delta)%Z]> c) (applied ++ [(q_id r, delta)]) ∧
  effective (<[key (q_id r) := (usage c r + delta)%Z]> c) t
    = update_used (q_id r) (λ u, (u + delta)%Z) (effective c t).
Proof.
  intros [Hu Hk] Hr Hns.
  assert (∀ r', r' ∈ t → usage (<[key (q_id r) := (usage c r + delta)%Z]> c) r'
                  = (usage c r' + if String.eqb (q_id r) (q_id r') then delta else 0)%Z) as Hstep.
  { intros r' Hr'. unfold usage at 1. destruct (String.eqb_spec (q_id r) (q_id r')) as [E|Hne].
    - rewrite (key_inj q_id t r' r) by done. rewrite Hns, lookup_insert, decide_True by done. done.
    - rewrite lookup_insert_ne; [unfold usage; lia|]. unfold quota_redis_key. congruence. }
  split; [split|].
  - intros r' Hr'. rewrite Hstep, Hu, due_app by done. simpl. case_match; lia.
  - intros r' Hr'. rewrite fmap_app. destruct (decide (q_id r = q_id r')) as [E|Hne].
    + intros _. rewrite (key_inj q_id t r' r) by done. rewrite lookup_insert, decide_True by done. done.
    + rewrite lookup_insert_ne by (unfold quota_redis_key; congruence).
      rewrite elem_of_app. intros [Hin|Hin%list_elem_of_singleton]; [by apply Hk|by destruct Hne].
  - unfold effective, update_used. rewrite <- list_fmap_compose. apply list_fmap_ext.
    intros i r' Hr'%list_elem_of_lookup_2. simpl. unfold set_used; simpl.
    rewrite Hstep, (String.eqb_sym (q_id r)) by done. case_match; simpl; f_equal; lia.
Qed.

Lemma find_effective c r : r ∈ t → find_row (q_id r) (effective c t) = Some (set_used (λ _, usage c r) r).
Proof. intros Hr. unfold effective. rewrite find_row_fmap by done. by rewrite find_row_self. Qed.

(** A leak: steps that stay charged although the call failed.  They are among the
    steps [P] the call meant to take; the undo of each failed, or it is the step whose
    script ran on the server and timed out at the client. *)
Definition leaks (P : list (string * Z)) (timed_out : option string) (leaked : list (string * Z)) : Prop :=
  leaked `sublist_of` P ∧
  ∀ s, s ∈ leaked → decrby_fails s.1 = true ∨ (timed_out = Some s.1 ∧ eval_fails s.1 = Some true).
Definition failed_call (c0 c : counters) (P : list (string * Z)) (e : quota_error) : Prop :=
  ∃ leaked, effective c t = charged leaked (effective c0 t) ∧
    leaks P (match e with RedisError qid => Some qid | _ => None end) leaked.

Lemma leaks_kept P applied o : applied `sublist_of` P → leaks P o (kept applied).
Proof.
  intros Hp. split; [etrans; [apply filter_sublist|done]|]. intros s Hs%list_elem_of_In%filter_In. left. apply Hs.
Qed.
Lemma failed_undone c0 c applied more e : applied_inv c0 c applied → failed_call c0 (undo applied c) (applied ++ more) e.
Proof. intros Hinv. exists (kept applied). split; [by apply undo_applied|]. by apply leaks_kept, sublist_inserts_r. Qed.

(** A script that ran and timed out is not among the steps undone. *)
Lemma failed_timeout c0 c applied r delta more : applied_inv c0 c applied → r ∈ t → q_namespace_id r = ns → eval_fails (q_id r) = Some true →
  failed_call c0 (undo applied (<[key (q_id r) := (usage c r + delta)%Z]> c)) (applied ++ (q_id r, delta) :: more) (RedisError (q_id r)).
Proof.
  intros Hinv Hr Hns He. destruct (applied_incr c0 c applied r delta Hinv Hr Hns) as [[Hu Hk] _].
  exists (kept applied ++ [(q_id r, delta)]). split; [|split].
  - unfold effective, charged. rewrite <- list_fmap_compose. apply list_fmap_ext. intros i r' Hr'%list_elem_of_lookup_2.
    simpl. unfold set_used; simpl. f_equal. rewrite undo_usage; [|done|intros Hin; apply Hk; [done|rewrite fmap_app; set_solver]].
    rewrite Hu by done. rewrite !due_app. pose proof (due_filter decrby_fails applied (q_id r')). unfold kept, undone. lia.
  - apply sublist_app; [apply filter_sublist|]. apply sublist_skip, sublist_nil_l.
  - intros s [Hs%list_elem_of_In%filter_In| ->%list_elem_of_singleton]%elem_of_app; [left; apply Hs|by right].
Qed.

(** How a Redis run relates to a PostgreSQL run on the effective table. *)
Definition redis_sim (c0 : counters) (P : list (string * Z)) (x : counters * result quota_error (list (string * Z)))
    (y : result quota_error (quota_table * list (string * Z))) : Prop :=
  match x with
  | (c, Ok applied) => y = Ok (effective c t, applied) ∧ applied_inv c0 c applied
  | (c, Err e) => failed_call c0 c P e ∧ match e with RedisError qid => is_Some (eval_fails qid) | _ => y = Err e end
  end.

Lemma redis_rows_sim c0 rt delta (g : quota_row → Z → Z) rows c applied more :
  (0 < delta)%Z → (∀ r, r ∈ t → (0 ≤ usage c0 r)%Z) → positive_steps applied →
  (∀ r, r ∈ rows → r ∈ t ∧ q_namespace_id r = ns) → applied_inv c0 c applied →
  redis_sim c0 (applied ++ steps_of delta rows ++ more) (redis_rows ns eval_fails decrby_fails rt delta rows c applied)
               (charge_rows rt delta ((λ r, set_used (g r) r) <$> rows) (effective c t) applied).
Proof.
  intros Hd Hpos. revert c applied. induction rows as [|r rows IH]; intros c applied Hs Hrows Hinv.
  { by split. }
  destruct (Hrows r) as [Hr Hns]; [by left|].
  assert (0 ≤ usage c r)%Z as Hu.
  { rewrite (ai_usage _ _ _ Hinv) by done. pose proof (Hpos r Hr). pose proof (due_nonneg applied (q_id r) Hs). lia. }
  assert (default (q_used_amount r) (c !! key (q_id r)) = usage c r) as Eu by (unfold usage; by rewrite Hns).
  destruct (applied_incr c0 c applied r delta Hinv Hr Hns) as [Hinv' Heff].
  rewrite fmap_cons. cbn [redis_rows charge_rows]. unfold quota_incr. rewrite Eu.
  unfold charge_row. cbn [set_used q_id q_agent_id]. rewrite find_effective by done. cbn [set_used q_used_amount q_limit_amount].
  destruct (Z.ltb_spec (q_limit_amount r) (usage c r + delta)) as [Hlt|Hle].
  - destruct (Z.leb_spec (usage c r + delta) (q_limit_amount r)); [lia|].
    destruct (eval_fails (q_id r)) as [[|]|] eqn:E; simpl; (split; [by apply failed_undone|done]).
  - destruct (Z.leb_spec (usage c r + delta) (q_limit_amount r)); [|lia].
    destruct (eval_fails (q_id r)) as [[|]|] eqn:E; simpl.
    + split; [by apply failed_timeout|done].
    + split; [by apply failed_undone|done].
    + unfold quota_incr_failed. destruct (Z.eqb_spec (usage c r + delta) (-1)); [lia|].
      rewrite <- Heff. assert (∀ r', r' ∈ rows → r' ∈ t ∧ q_namespace_id r' = ns) as Hrows' by (intros ??; apply Hrows; by right).
      specialize (IH _ _ (positive_snoc _ (q_id r) delta Hs Hd) Hrows' Hinv').
      rewrite <- app_assoc in IH. exact IH.
Qed.

Lemma redis_all_sim c0 deltas c applied :
  Forall (λ x, (0 < x.2)%Z) deltas →
  (∀ r, r ∈ t → (0 ≤ usage c0 r)%Z) → positive_steps applied → applied_inv c0 c applied →
  redis_sim c0 (applied ++ plan ns agent now t deltas) (redis_all ns agent now eval_fails decrby_fails t deltas c applied)
               (charge_all ns agent now deltas (effective c t) applied).
Proof.
  intros Hd Hpos. revert c applied. induction Hd as [|[rt d] deltas Hd _ IH]; intros c applied Hs Hinv.
  { by split. }
  cbn [redis_all charge_all plan]. unfold effective at 1.
  rewrite (select_rows_fmap ns agent rt now (λ r _, usage c r)).
  pose proof (redis_rows_sim c0 rt d (λ r _, usage c r) (select_rows ns agent rt now t) c applied (plan ns agent now t deltas) Hd Hpos Hs) as H.
  destruct (redis_rows _ _ _ _ _ _ _ _) as [c' [applied'|e]].
  - destruct H as [Hy Hinv']; [|done|].
    { intros r [? ?%quota_matches_ns]%elem_of_select_rows. done. }
    rewrite Hy. apply charge_rows_steps in Hy as ->. rewrite app_assoc. simpl.
    assert (steps_of d ((λ r, set_used (λ _, usage c r) r) <$> select_rows ns agent rt now t)
          = steps_of d (select_rows ns agent rt now t)) as Es.
    { unfold steps_of. rewrite <- list_fmap_compose. by apply list_fmap_ext. }
    rewrite Es in *. apply IH; [|done]. apply Forall_app. split; [done|by apply positive_steps_of].
  - destruct H as [Hf Hy]; [|done|].
    { intros r [? ?%quota_matches_ns]%elem_of_select_rows. done. }
    split; [exact Hf|]. by destruct e; rewrite ?Hy.
Qed.
End redis.

(** ** Properties *)

(** Charging quotas in PostgreSQL is all or nothing.  Let each row's demand
    be the sum of the positive amounts whose resource type, namespace, agent and
    reset time match it.  If every row with a demand has room for it, the call
    returns a reservation whose steps are exactly the demands, and exactly those
    rows grow by exactly their demand.  Otherwise some row lacks the room, the
    call raises [QuotaExceededError], and nothing has changed. *)
Theorem consume_resources_all_or_nothing ns agent now ef df cfg amounts t c deltas :
  NCE_QUOTAS_ENABLED cfg = true → NoDup (q_id <$> t) → positive_deltas amounts = Ok deltas →
  let d := demand ns agent now (List.filter (λ x, (0 <? x.2)%Z) amounts) in
  let '(t', c', res) := consume_resources ns agent now ef df cfg false amounts t c in
  c' = c ∧
  ((∀ r, r ∈ t → (0 < d r)%Z → (q_used_amount r + d r ≤ q_limit_amount r)%Z) ∧
   t' = (λ r, set_used (λ u, (u + d r)%Z) r) <$> t ∧
   (∃ steps, res = Ok (Reservation true false None steps) ∧ ∀ r, r ∈ t → due steps (q_id r) = d r)
   ∨
   (∃ r, r ∈ t ∧ (0 < d r)%Z ∧ (q_limit_amount r < q_used_amount r + d r)%Z) ∧
   t' = t ∧ ∃ rt b, res = Err (QuotaExceededError rt b)).
Proof.
  intros He Ht Hd. destruct (positive_deltas_spec _ _ Hd) as (<- & Hpos & _). simpl.
  rewrite (consume_pg _ _ _ _ _ cfg amounts t c deltas) by done.
  pose proof (charge_all_start ns agent now t (sorted_by by_item deltas) Ht (sorted_positive _ Hpos)) as H.
  assert (∀ r, r ∈ t → due (plan ns agent now t (sorted_by by_item deltas)) (q_id r) = demand ns agent now deltas r) as Hdue.
  { intros r Hr. by rewrite due_plan, demand_sorted. }
  destruct (charge_all _ _ _ _ _ _) as [[t' s']|e].
  - destruct H as (-> & -> & Hf). split; [done|]. left. split_and!.
    + intros r Hr. rewrite <- Hdue by done. by apply Hf.
    + apply list_fmap_ext. intros ? r Hr%list_elem_of_lookup_2. apply set_used_ext. by rewrite Hdue.
    + by eexists.
  - destruct H as ((rt & b & ->) & Hf). split; [done|]. right. split_and!; [|done|by eexists _, _].
    apply not_fits_row in Hf as (r & Hr & H1 & H2). exists r. by rewrite <- Hdue.
Qed.

(** ** The ledger

    The PostgreSQL path over time: calls of any namespace and agent, and
    rollbacks of reservations still held, each at most once. *)
Section ledger.
Context (cfg : quota_cfg).

Inductive ledger_move : quota_table * list (list (string * Z)) → quota_table * list (list (string * Z)) → Prop :=
  | ledger_consume ns agent now ef df amounts t c t' c' rv live :
      consume_resources ns agent now ef df cfg false amounts t c = (t', c', Ok rv) →
      ledger_move (t, live) (t', live ++ [rv_steps rv])
  | ledger_refused ns agent now ef df amounts t c t' c' e live :
      consume_resources ns agent now ef df cfg false amounts t c = (t', c', Err e) →
      ledger_move (t, live) (t', live)
  | ledger_rollback df t c live1 steps live2 :
      ledger_move (t, live1 ++ steps :: live2)
                  ((rollback df (Reservation true false None steps) t c).1.1, live1 ++ live2).

Lemma consume_pg_cases ns agent now ef df amounts t c :
  NoDup (q_id <$> t) →
  let '(t', _, res) := consume_resources ns agent now ef df cfg false amounts t c in
  match res with
  | Ok rv => t' = charged (rv_steps rv) t ∧ positive_steps (rv_steps rv) ∧ fits (rv_steps rv) t
  | Err _ => t' = t
  end.
Proof.
  intros Ht. destruct (NCE_QUOTAS_ENABLED cfg) eqn:He.
  - destruct (positive_deltas amounts) as [deltas|e] eqn:Hd.
    + rewrite (consume_pg _ _ _ _ _ cfg amounts t c deltas He Hd).
      destruct (positive_deltas_spec _ _ Hd) as (_ & Hpos & _).
      pose proof (charge_all_start ns agent now t _ Ht (sorted_positive _ Hpos)) as H.
      destruct (charge_all _ _ _ _ _ _) as [[t' s']|e]; [|done]. destruct H as (-> & -> & Hf); simpl.
      split_and!; [done| |done]. by apply plan_positive, sorted_positive.
    + unfold consume_resources. by rewrite He, Hd.
  - unfold consume_resources. rewrite He. simpl. rewrite charged_nil.
    split_and!; [done|constructor|]. intros r _. simpl. lia.
Qed.

Lemma fits_check steps t :
  positive_steps steps → fits steps t → Forall (λ r, row_check r = true) t →
  Forall (λ r, row_check r = true) (charged steps t).
Proof.
  intros Hp Hf Hc. apply Forall_forall. intros r' (r & -> & Hr)%list_elem_of_fmap.
  rewrite Forall_forall in Hc. specialize (Hc r Hr). specialize (Hf r Hr).
  pose proof (due_nonneg steps (q_id r) Hp). unfold row_check in *. simpl.
  rewrite !andb_true_iff, !Z.leb_le in *. lia.
Qed.

Definition ledger_ok (t0 : quota_table) (s : quota_table * list (list (string * Z))) : Prop :=
  s.1 = charged (concat s.2) t0 ∧ positive_steps (concat s.2) ∧ Forall (λ r, row_check r = true) s.1.

Lemma ledger_move_ok t0 s s' :
  NoDup (q_id <$> t0) → Forall (λ r, row_check r = true) t0 →
  ledger_ok t0 s → ledger_move s s' → ledger_ok t0 s'.
Proof.
  intros Hnd Hc0 (Hs & Hp & Hc) Hm. destruct Hm as [ns agent now ef df amounts t c t' c' rv live E|
    ns agent now ef df amounts t c t' c' e live E|df t c live1 steps live2]; simpl in *.
  - pose proof (consume_pg_cases ns agent now ef df amounts t c) as H. rewrite E in H.
    destruct H as (-> & Hpr & Hf); [by rewrite Hs, charged_ids|].
    split; simpl; [|split].
    + rewrite Hs, charged_charged, concat_app. simpl. by rewrite app_nil_r.
    + rewrite concat_app. simpl. rewrite app_nil_r. by apply Forall_app.
    + by apply fits_check.
  - pose proof (consume_pg_cases ns agent now ef df amounts t c) as H. rewrite E in H.
    rewrite H by (by rewrite Hs, charged_ids). done.
  - rewrite concat_app in Hs, Hp. simpl in Hs, Hp.
    assert (uncharge steps t = charged (concat live1 ++ concat live2) t0) as Hu.
    { rewrite Hs. apply uncharge_charged; [|done]. intros r Hr. rewrite Forall_forall in Hc0.
      specialize (Hc0 r Hr). unfold row_check in Hc0. rewrite !andb_true_iff, !Z.leb_le in Hc0. lia. }
    assert (positive_steps (concat live1 ++ concat live2)) as Hp'.
    { apply Forall_app in Hp as [? Hp]. apply Forall_app in Hp as [? ?]. by apply Forall_app. }
    unfold ledger_ok; simpl. rewrite Hu, concat_app. split_and!; [done..|].
    apply Forall_forall. intros r' (r & -> & Hr)%list_elem_of_fmap. rewrite Forall_forall in Hc, Hc0.
    specialize (Hc0 r Hr). rewrite Hs in Hc.
    specialize (Hc _ (list_elem_of_fmap_2 _ _ r Hr)).
    pose proof (due_nonneg _ (q_id r) Hp') as Hge. apply Forall_app in Hp as [Hp1 Hp].
    apply Forall_app in Hp as [Hps Hp2]. pose proof (due_nonneg _ (q_id r) Hps).
    unfold row_check in *. simpl in *. rewrite !due_app in *. rewrite !andb_true_iff, !Z.leb_le in *. lia.
Qed.
End ledger.

(** C33: The ledger balances, on the PostgreSQL path (no Redis counters) and with no
    administrator's set, reset or delete in between.  Starting from any table that
    satisfies its CHECK constraints, after any sequence of calls (of any namespaces and agents,
    successful or refused) and rollbacks of held reservations, every row's usage
    is its initial usage plus exactly the steps of the reservations still held,
    and stays between 0 and its limit.  In particular a rollback gives back what
    was taken, and never clips at zero. *)
Theorem quota_ledger_balanced cfg t0 t live :
  NoDup (q_id <$> t0) → Forall (λ r, row_check r = true) t0 →
  rtc (ledger_move cfg) (t0, []) (t, live) →
  t = (λ r, set_used (λ u, (u + due (concat live) (q_id r))%Z) r) <$> t0 ∧
  Forall (λ r, 0 ≤ q_used_amount r ≤ q_limit_amount r)%Z t.
Proof.
  intros Hnd Hc H. assert (ledger_ok t0 (t, live)) as (Et & _ & Hck).
  { refine (rtc_preserves _ (ledger_ok t0) _ _ _ H _); [intros; by eapply ledger_move_ok|].
    split_and!; simpl; [by rewrite charged_nil|constructor|done]. }
  split; [exact Et|]. eapply Forall_impl; [exact Hck|]. intros r. unfold row_check.
  rewrite !andb_true_iff, !Z.leb_le. lia.
Qed.

(** C8: The Redis path implements the PostgreSQL path.  Take one call on its own, on a
    table and counters with no negative usage, with no other client in between.  If
    it succeeds, the PostgreSQL call on the effective table (counter if present, else
    column) succeeds with the same steps and leaves the same effective table; rolling
    the reservation back then restores the table, except for the steps whose
    [DECRBY] fails.  If it exceeds a quota or rejects an amount, so does the PostgreSQL
    call, and if it fails it is because a Redis call failed; either way the effective
    table is the original one but for leaked steps, a part of what the call meant to
    charge: those whose [DECRBY] fails, and the step whose script ran on the server
    and timed out at the client.  The columns themselves are not touched. *)
Theorem redis_refines_postgres ns agent now ef df cfg amounts t c :
  NCE_QUOTAS_ENABLED cfg = true → NCE_QUOTA_REDIS_COUNTERS cfg = true → NoDup (q_id <$> t) →
  (∀ r, r ∈ t → (0 ≤ usage c r)%Z) →
  let '(t1, c1, res1) := consume_resources ns agent now ef df cfg true amounts t c in
  let '(t2, _, res2) := consume_resources ns agent now ef df cfg false amounts (effective c t) c in
  t1 = t ∧
  match res1 with
  | Ok rv =>
      res2 = Ok (Reservation true false None (rv_steps rv)) ∧ effective c1 t = t2 ∧
      effective (rollback df rv t c1).1.2 t = charged (List.filter (λ s, df s.1) (rv_steps rv)) (effective c t)
  | Err e =>
      (∃ leaked, effective c1 t = charged leaked (effective c t) ∧
         leaked `sublist_of` plan ns agent now t (sorted_by by_item (List.filter (λ x, (0 <? x.2)%Z) amounts)) ∧
         ∀ s, s ∈ leaked → df s.1 = true ∨ (e = RedisError s.1 ∧ ef s.1 = Some true)) ∧
      match e with RedisError qid => is_Some (ef qid) | _ => res2 = Err e ∧ t2 = effective c t end
  end.
Proof.
  intros He Hr Ht Hu. destruct (positive_deltas amounts) as [deltas|e] eqn:Hd.
  2:{ unfold consume_resources. rewrite He, Hd. simpl.
      assert (∃ k z, e = ValueError k z) as (k & z & ->) by by eapply positive_deltas_err. split; [done|].
      split; [|done]. exists []. rewrite charged_nil. split; [done|]. split; [apply sublist_nil_l|by intros s ?%elem_of_nil]. }
  rewrite (consume_pg _ _ _ _ _ cfg amounts (effective c t) c deltas He Hd).
  destruct (positive_deltas_spec _ _ Hd) as (<- & Hpos & _).
  pose proof (redis_all_sim ns agent now t ef df Ht c (sorted_by by_item deltas) c []
    (sorted_positive _ Hpos) Hu ltac:(constructor) (applied_inv_start ns t c)) as Hsim.
  unfold consume_resources. rewrite He, Hr, Hd; cbn [negb andb].
  destruct deltas as [|d0 deltas'].
  { split; [done|]. split_and!; [done|done|]. unfold rollback; simpl. by rewrite charged_nil. }
  unfold consume_resources_redis. rewrite Hd.
  destruct (redis_all _ _ _ _ _ _ _ _ _) as [c1 [steps|e]]; unfold redis_sim in Hsim.
  - destruct Hsim as [-> Hinv]. cbn [fmap result_fmap]. split_and!; [done..|].
    change (List.filter (λ s, df s.1) (rv_steps (Reservation true true (Some ns) steps))) with (kept df steps).
    rewrite <- (undo_applied ns t df c c1 steps Hinv). by destruct steps.
  - destruct Hsim as [(leaked & H1 & H2 & H3) Hy]. cbn [fmap result_fmap].
    destruct (charge_all _ _ _ _ _ _) as [[t2 s2]|e2]; (split; [done|]); (split;
      [exists leaked; split; [done|]; split; [done|]; intros s Hs; destruct (H3 s Hs) as [?|[??]]; [by left|right; destruct e; by simplify_eq]|
       destruct e; simplify_eq; done]).
Qed.

(** ** The flush *)
Definition flush_entry (e : (string * string) * Z) (r : quota_row) : quota_row :=
  if String.eqb (q_id r) e.1.2 && String.eqb (q_namespace_id r) e.1.1
  then set_used (λ u, Z.max u e.2) r else r.

Lemma flush_entry_key e r : quota_redis_key (q_namespace_id (flush_entry e r)) (q_id (flush_entry e r))
  = quota_redis_key (q_namespace_id r) (q_id r).
Proof. unfold flush_entry. by case_match. Qed.

Lemma flush_entry_hit e r :
  flush_entry e r = if bool_decide (quota_redis_key (q_namespace_id r) (q_id r) = e.1)
                    then set_used (λ u, Z.max u e.2) r else r.
Proof.
  unfold flush_entry, quota_redis_key. destruct e as [[ns qid] v]; simpl.
  destruct (String.eqb_spec (q_id r) qid), (String.eqb_spec (q_namespace_id r) ns);
    case_bool_decide; simplify_eq; done.
Qed.

Lemma flush_entries scan r v :
  (∀ v', (quota_redis_key (q_namespace_id r) (q_id r), v') ∈ scan → v' = v) →
  foldl (λ r e, flush_entry e r) r scan =
  if bool_decide (quota_redis_key (q_namespace_id r) (q_id r) ∈ scan.*1)
  then set_used (λ u, Z.max u v) r else r.
Proof.
  revert r; induction scan as [|[k v1] scan IH]; intros r Hv; [done|]. cbn [foldl].
  rewrite IH; rewrite flush_entry_key; [|intros v' ?; apply Hv; by right].
  rewrite flush_entry_hit, fmap_cons. cbn [fst snd].
  destruct (decide (quota_redis_key (q_namespace_id r) (q_id r) = k)) as [<-|Hne].
  - rewrite !(bool_decide_eq_true_2 (_ = _)) by done.
    rewrite (bool_decide_eq_true_2 (_ ∈ _ :: _)) by by left.
    rewrite (Hv v1) by by left. case_bool_decide; [|done]. unfold set_used; simpl. f_equal. lia.
  - rewrite (bool_decide_eq_false_2 (_ = _)) by done. repeat case_bool_decide; try done.
    + destruct H0. by right.
    + apply elem_of_cons in H0 as [|]; done.
Qed.

Lemma flush_all session_ok scan t n :
  (∀ ns, session_ok ns = true) →
  (∀ r v, r ∈ t → (quota_redis_key (q_namespace_id r) (q_id r), v) ∈ scan → (v ≤ q_limit_amount r)%Z) →
  Forall (λ r, row_check r = true) t →
  foldl (flush_one session_ok) (t, n) scan =
  ((λ r, foldl (λ r e, flush_entry e r) r scan) <$> t, n + length scan).
Proof.
  intros Hok. revert t n; induction scan as [|[[ns qid] v] scan IH]; intros t n Hlim Hc.
  - simpl. rewrite Nat.add_0_r. f_equal. by rewrite list_fmap_id.
  - cbn [foldl flush_one]. rewrite Hok. simpl.
    change (λ r, if String.eqb (q_id r) qid && String.eqb (q_namespace_id r) ns
                 then set_used (λ u, Z.max u v) r else r) with (flush_entry ((ns, qid), v)).
    assert (Forall (λ r, row_check r = true) (flush_entry ((ns, qid), v) <$> t)) as Hc'.
    { apply Forall_forall. intros r' (r & -> & Hr)%list_elem_of_fmap. rewrite Forall_forall in Hc.
      specialize (Hc r Hr). rewrite flush_entry_hit. case_bool_decide as E; [|done]. simpl in *.
      specialize (Hlim r v Hr). rewrite E in Hlim. specialize (Hlim ltac:(by left)).
      unfold row_check in *. simpl. rewrite !andb_true_iff, !Z.leb_le in *. lia. }
    assert (forallb row_check (flush_entry ((ns, qid), v) <$> t) = true) as ->.
    { apply forallb_elem. by apply Forall_forall. }
    rewrite IH; [| |done].
    + rewrite <- list_fmap_compose. simpl. f_equal. lia.
    + intros r' v' (r & -> & Hr)%list_elem_of_fmap. rewrite flush_entry_key. intros Hin.
      unfold flush_entry. specialize (Hlim r v' Hr). case_match; simpl; apply Hlim; by right.
Qed.

(** A flush makes the counters durable.  If every counter is scanned (in
    any order, perhaps repeatedly, as SCAN allows), every session opens, and no
    counter exceeds its row's limit, then each row's column becomes the larger of
    its old value and its usage: losing every Redis counter afterwards lowers no
    row's usage, and while the counters live the flush changes no row's usage. *)
Theorem flush_makes_durable session_ok scan c t :
  (∀ ns, session_ok ns = true) → Forall (λ r, row_check r = true) t →
  (∀ k v, (k, v) ∈ scan ↔ c !! k = Some v) →
  (∀ r, r ∈ t → (usage c r ≤ q_limit_amount r)%Z) →
  let '(t', flushed) := flush_quota_counters_to_postgres session_ok scan t in
  effective ∅ t' = (λ r, set_used (λ u, Z.max u (usage c r)) r) <$> t ∧
  effective c t' = effective c t ∧ flushed = length scan.
Proof.
  intros Hok Hc Hscan Hu. unfold flush_quota_counters_to_postgres.
  assert (∀ r v, (quota_redis_key (q_namespace_id r) (q_id r), v) ∈ scan → v = usage c r) as Hv.
  { intros r v Hin%Hscan. unfold usage. by rewrite Hin. }
  rewrite flush_all; [|done| |done].
  2:{ intros r v Hr Hin. rewrite (Hv r v Hin). by apply Hu. }
  assert ((λ r, foldl (λ r e, flush_entry e r) r scan) <$> t
          = (λ r, set_used (λ u, Z.max u (usage c r)) r) <$> t) as ->.
  { apply list_fmap_ext. intros i r Hr%list_elem_of_lookup_2.
    rewrite (flush_entries scan r (usage c r)) by (intros v'; apply Hv). case_bool_decide as E; [done|].
    symmetry. apply set_used_id. unfold usage.
    destruct (c !! quota_redis_key (q_namespace_id r) (q_id r)) as [v|] eqn:Ec; simpl; [|lia].
    destruct E. apply Hscan in Ec. apply list_elem_of_fmap. by eexists (_, v). }
  unfold effective. rewrite <- !list_fmap_compose. split_and!; [| |done].
  - apply list_fmap_ext. intros ? r _. unfold compose, set_used, usage; simpl. by rewrite lookup_empty.
  - apply list_fmap_ext. intros i r Hr. simpl. unfold usage, set_used; simpl. f_equal.
    destruct (c !! quota_redis_key (q_namespace_id r) (q_id r)) eqn:Ec; simpl; [done|lia].
Qed.

(** ** Concrete calls *)
Definition ns_row : quota_row := QuotaRow "q1" "acme" None "llm_tokens" 100 90 None.
Definition agent_row : quota_row := QuotaRow "q2" "acme" (Some "bot") "llm_tokens" 20 3 None.
Definition other_row : quota_row := QuotaRow "q3" "acme" None "storage_bytes" 50 0 None.
Definition demo_quotas : quota_table := [agent_row; other_row; ns_row].
Definition pg_cfg : quota_cfg := QuotaCfg true false.
Definition redis_cfg : quota_cfg := QuotaCfg true true.
Definition no_fault (_ : string) : option bool := None.
Definition no_decr_fault (_ : string) : bool := false.

Lemma demo_quotas_NoDup : NoDup (q_id <$> demo_quotas).
Proof. apply (bool_decide_unpack _). vm_compute. exact I. Qed.

Abbreviation demo_consume cfg redis amounts :=
  (consume_resources "acme" (Some "bot") 0 no_fault no_decr_fault cfg redis amounts demo_quotas ∅).

Lemma consume_resources_all_or_nothing_witness :
  (demo_consume pg_cfg false [("storage_bytes", 7); ("llm_tokens", 5); ("memory_count", 0)]%Z).2
    = Ok (Reservation true false None [("q1", 5); ("q2", 5); ("q3", 7)]%Z) ∧
  ∃ r, r ∈ demo_quotas ∧ (q_limit_amount r < q_used_amount r + demand "acme" (Some "bot") 0 [("llm_tokens", 11%Z)] r)%Z.
Proof.
  split; [vm_compute; reflexivity|].
  pose proof (consume_resources_all_or_nothing "acme" (Some "bot") 0 no_fault no_decr_fault pg_cfg
    [("llm_tokens", 11%Z)] demo_quotas ∅ [("llm_tokens", 11%Z)] eq_refl demo_quotas_NoDup eq_refl) as H.
  destruct (consume_resources _ _ _ _ _ _ _ _ _ _) as [[t' c'] res] eqn:E.
  destruct H as [_ [(Hroom & _)|((r & Hr & _ & Hlt) & _)]]; [|exists r; done].
  assert (101 <= 100)%Z as Habs; [|done].
  apply (Hroom ns_row); [by do 2 right; left|vm_compute; reflexivity].
Defined.

Lemma quota_ledger_balanced_witness :
  Forall (λ r, 0 ≤ q_used_amount r ≤ q_limit_amount r)%Z
         (demo_consume pg_cfg false [("llm_tokens", 5%Z)]).1.1.
Proof.
  apply (quota_ledger_balanced pg_cfg demo_quotas _ [[("q1", 5); ("q2", 5)]%Z]);
    [apply demo_quotas_NoDup|by repeat constructor|].
  eapply rtc_l; [|done].
  by apply (ledger_consume pg_cfg "acme" (Some "bot") 0 no_fault no_decr_fault [("llm_tokens", 5%Z)] demo_quotas ∅ _ ∅
    (Reservation true false None [("q1", 5); ("q2", 5)]%Z) []).
Defined.

Lemma redis_refines_postgres_witness :
  match (demo_consume redis_cfg true [("llm_tokens", 5%Z)]).2 with
  | Ok rv => rv_steps rv = [("q1", 5); ("q2", 5)]%Z
  | Err _ => False
  end ∧
  (demo_consume redis_cfg true [("llm_tokens", 5%Z)]).1.1 = demo_quotas.
Proof.
  pose proof (redis_refines_postgres "acme" (Some "bot") 0 no_fault no_decr_fault redis_cfg
    [("llm_tokens", 5%Z)] demo_quotas ∅ eq_refl eq_refl demo_quotas_NoDup) as H.
  destruct (demo_consume redis_cfg true [("llm_tokens", 5%Z)]) as [[t1 c1] res1] eqn:E1.
  destruct (consume_resources _ _ _ _ _ _ _ _ (effective ∅ demo_quotas) _) as [[t2 c2] res2].
  destruct H as [-> H].
  - intros r Hr. unfold demo_quotas in Hr. rewrite !elem_of_cons in Hr. by destruct Hr as [->|[->|[->|Hr%elem_of_nil]]].
  - split; [|done]. vm_compute in E1. by injection E1 as _ <-.
Defined.

Lemma flush_makes_durable_witness :
  q_used_amount <$> effective ∅ (flush_quota_counters_to_postgres (λ _, true) [(("acme", "q1"), 95%Z)] demo_quotas).1
  = [3; 0; 95]%Z.
Proof.
  pose proof (flush_makes_durable (λ _, true) [(("acme", "q1"), 95%Z)] {[("acme", "q1") := 95%Z]} demo_quotas) as H.
  destruct (flush_quota_counters_to_postgres _ _ _) as [t' n]. simpl.
  destruct H as [-> _]; [done|by repeat constructor| | |vm_compute; reflexivity].
  - intros k v. rewrite list_elem_of_singleton, lookup_singleton_Some. split; [intros [= -> ->]|intros [-> ->]]; done.
  - intros r Hr. unfold demo_quotas in Hr. rewrite !elem_of_cons in Hr. by destruct Hr as [->|[->|[->|Hr%elem_of_nil]]].
Defined.

(** A rollback that arrives after an administrator's reset deleted the counter
    leaves the counter negative, and the namespace then spends beyond its limit:
    the row below has limit 100, and 104 are granted after the reset. *)
Definition late_rollback : counters :=
  let t := [ns_row] in
  let '(_, c, res) := consume_resources "acme" None 0 no_fault no_decr_fault redis_cfg true [("llm_tokens", 4%Z)] t ∅ in
  match res, manage_quotas "acme" "llm_tokens" None true quota_reset t c with
  | Ok rv, Some (t, c) =>
      let '(t, c, _) := rollback no_decr_fault rv t c in
      (consume_resources "acme" None 0 no_fault no_decr_fault redis_cfg true [("llm_tokens", 104%Z)] t c).1.2
  | _, _ => c
  end.
Example late_rollback_extends_limit :
  late_rollback !! quota_redis_key "acme" "q1" = Some 100%Z ∧
  (consume_resources "acme" None 0 no_fault no_decr_fault redis_cfg true [("llm_tokens", 104%Z)]
     [set_used (λ _, 0%Z) ns_row] ∅).2 = Err (QuotaExceededError "llm_tokens" true).
Proof. vm_compute. done. Qed.

(** A Redis call that runs on the server but times out at the client is not
    undone: the amount stays charged although the call raised. *)
Example redis_timeout_leaks :
  let '(_, c, res) := consume_resources "acme" None 0 (λ _, Some true) no_decr_fault redis_cfg true
                        [("llm_tokens", 4%Z)] [ns_row] ∅ in
  res = Err (RedisError "q1") ∧ effective c [ns_row] = [set_used (λ _, 94%Z) ns_row].
Proof. vm_compute. done. Qed.
