(* ===== verification/CircuitBreaker.v ===== *)
(** * CircuitBreaker: retries and circuit breaking for LLM providers

    Models [CircuitBreaker], [RetryPolicy] and [LLMProvider.execute_with_retry] of
    [src/nce/providers/base.py].  Clock values, delays and timeouts are integers
    in one unit (milliseconds); the backoff factor is a rational, so float
    rounding and overflow of the factor's powers are not modelled.  The request
    acts on the shared breaker as well: other callers may use it meanwhile.
    [tenacity]'s retry loop is a parameter with its documented behaviour as
    hypothesis; metrics and log output are omitted. *)
From S2P Require Import Prelude.
From Stdlib Require Import QArith_base.
Local Open Scope Z_scope.

(** ** Exceptions *)
Inductive llm_exn :=
  | LLMTimeoutError
  | LLMRateLimitError (retry_after : option Z)      (* seconds *)
  | LLMUpstreamError
  | LLMAuthenticationError
  | LLMBadRequestError
  | LLMValidationError
  | LLMCircuitOpenError
  | AsyncioTimeoutError
  | OtherException (ty : string)
  | LLMRetriesExhaustedError (last_error : llm_exn) (attempts : nat).

(** ** The breaker *)
Inductive CircuitBreakerState := CLOSED | OPEN | HALF_OPEN.

Record breaker_cfg := BreakerCfg {
  failure_threshold : Z;
  recovery_timeout : Z;
  half_open_max_requests : Z
}.

Record CircuitBreaker := Breaker {
  cb_state : CircuitBreakerState;
  cb_failure_count : Z;
  cb_last_failure_time : Z;
  cb_half_open_used : Z
}.
Definition breaker_init : CircuitBreaker := Breaker CLOSED 0 0 0.

Section breaker.
Context (cfg : breaker_cfg).

Definition check (now : Z) (cb : CircuitBreaker) : CircuitBreaker * bool :=
  match cb_state cb with
  | CLOSED => (cb, true)
  | OPEN =>
      if recovery_timeout cfg <=? now - cb_last_failure_time cb
      then (Breaker HALF_OPEN (cb_failure_count cb) (cb_last_failure_time cb) 1, true)
      else (cb, false)
  | HALF_OPEN =>
      if cb_half_open_used cb <? half_open_max_requests cfg
      then (Breaker HALF_OPEN (cb_failure_count cb) (cb_last_failure_time cb) (cb_half_open_used cb + 1), true)
      else (cb, false)
  end.

Definition record_success (cb : CircuitBreaker) : CircuitBreaker :=
  Breaker (match cb_state cb with HALF_OPEN => CLOSED | s => s end) 0
          (cb_last_failure_time cb) (cb_half_open_used cb).

Definition record_failure (now : Z) (cb : CircuitBreaker) : CircuitBreaker :=
  let count := cb_failure_count cb + 1 in
  Breaker (if failure_threshold cfg <=? count then OPEN else cb_state cb) count now (cb_half_open_used cb).
End breaker.

(** ** Retry policy *)
Record RetryPolicy := MkRetryPolicy {
  max_retries : Z;
  base_delay_ms : Z;
  max_delay_ms : Z;
  max_total_ms : Z;
  backoff_factor : Q
}.

Definition is_retryable (e : llm_exn) : bool :=
  match e with
  | LLMTimeoutError | LLMRateLimitError _ | LLMUpstreamError | AsyncioTimeoutError => true
  | _ => false
  end.

(** [int] truncates towards zero. *)
Definition int_of_Q (q : Q) : Z := Z.quot (Qnum q) (Zpos (Qden q)).

Definition backoff_cap_ms (rp : RetryPolicy) (attempt : nat) : Z :=
  Z.min (int_of_Q (inject_Z (base_delay_ms rp) * Qpower (backoff_factor rp) (Z.of_nat attempt - 1)))
        (max_delay_ms rp).

(** [wait_policy]; [jitter attempt m] is [int(random.uniform(0, m))]. *)
Definition wait_cap_ms (rp : RetryPolicy) (attempt : nat) (e : llm_exn) : Z :=
  let cap := backoff_cap_ms rp attempt in
  match e with
  | LLMRateLimitError (Some after) =>
      if 0 <? after then Z.max cap (Z.min (max_delay_ms rp) (after * 1000)) else cap
  | _ => cap
  end.
Definition wait_policy (jitter : nat → Z → Z) (rp : RetryPolicy) (attempt : nat) (e : llm_exn) : Z :=
  Z.max 1 (jitter attempt (Z.max 1 (wait_cap_ms rp attempt e))).

(** ** One attempt *)
Section execute.
Context {W A : Type}.
Context (cfg : breaker_cfg) (clock : W → Z).
Context (operation : CircuitBreaker * W → (CircuitBreaker * W) * result llm_exn A).

Definition records_failure (e : llm_exn) : bool :=
  match e with
  | LLMTimeoutError | LLMRateLimitError _ | LLMUpstreamError
  | LLMAuthenticationError | LLMBadRequestError | LLMValidationError => true
  | _ => false
  end.

Definition run_once (s : CircuitBreaker * W) : (CircuitBreaker * W) * result llm_exn A :=
  let '(cb, w) := s in
  let '(cb, allowed) := check cfg (clock w) cb in
  if negb allowed then ((cb, w), Err LLMCircuitOpenError)
  else
    let '((cb, w), r) := operation (cb, w) in
    match r with
    | Ok a => ((record_success cb, w), Ok a)
    | Err e => ((if records_failure e then record_failure cfg (clock w) cb else cb, w), Err e)
    end.

(** ** The retry loop

    What [tenacity.AsyncRetrying] reports: the value, the exception its predicate
    does not retry, or [RetryError] with the last exception and the number of
    attempts. *)
Inductive retry_outcome :=
  | Returned (a : A)
  | Raised (e : llm_exn)
  | RetryError (last : llm_exn) (attempts : nat).

Record retry_config := RetryConfig {
  stop_after_attempt : Z;
  stop_after_delay : Z;
  rc_wait : nat → llm_exn → Z;
  rc_retry : llm_exn → bool
}.

(** Its documented behaviour: run; return or re-raise what is not to be retried;
    stop when the attempts or the elapsed time reach their bounds; else sleep
    and go round. *)
Context (sleep : Z → W → W).
Definition should_stop (rc : retry_config) (attempt : nat) (start : Z) (w : W) : bool :=
  (stop_after_attempt rc <=? Z.of_nat attempt) || (stop_after_delay rc <=? clock w - start).

Inductive retrying (rc : retry_config) (f : CircuitBreaker * W → (CircuitBreaker * W) * result llm_exn A)
    (start : Z) : nat → CircuitBreaker * W → (CircuitBreaker * W) * retry_outcome → Prop :=
  | retrying_returned n s s' a : f s = (s', Ok a) → retrying rc f start n s (s', Returned a)
  | retrying_raised n s s' e :
      f s = (s', Err e) → rc_retry rc e = false → retrying rc f start n s (s', Raised e)
  | retrying_stopped n s s' e :
      f s = (s', Err e) → rc_retry rc e = true → should_stop rc n start (snd s') = true →
      retrying rc f start n s (s', RetryError e n)
  | retrying_again n s cb w e r :
      f s = ((cb, w), Err e) → rc_retry rc e = true → should_stop rc n start w = false →
      retrying rc f start (S n) (cb, sleep (rc_wait rc n e) w) r → retrying rc f start n s r.

Context (AsyncRetrying : retry_config → (CircuitBreaker * W → (CircuitBreaker * W) * result llm_exn A) →
                         CircuitBreaker * W → (CircuitBreaker * W) * retry_outcome).

Definition execute_with_retry (jitter : nat → Z → Z) (rp : RetryPolicy) (s : CircuitBreaker * W) :
    (CircuitBreaker * W) * result llm_exn A :=
  let rc := RetryConfig (max_retries rp + 1) (max_total_ms rp) (wait_policy jitter rp) is_retryable in
  match AsyncRetrying rc run_once s with
  | (s, Returned a) => (s, Ok a)
  | (s, Raised e) => (s, Err e)
  | (s, RetryError last attempts) =>
      if (max_retries rp =? 0) && (Nat.eqb attempts 1) then (s, Err last)
      else (s, Err (LLMRetriesExhaustedError last attempts))
  end.
End execute.
Arguments Returned {A} a.
Arguments Raised {A} e.
Arguments RetryError {A} last attempts.
