(* ===== verification/CircuitBreakerProps.v ===== *)
(** * CircuitBreakerProps: what the breaker and the retry loop guarantee *)
From S2P Require Import Prelude CircuitBreaker.
Local Open Scope Z_scope.

(** ** Timed use of one breaker by any number of callers *)
Inductive breaker_op := Check | Success | Failure.

Section props.
Context (cfg : breaker_cfg).

Definition do_op (now : Z) (o : breaker_op) (cb : CircuitBreaker) : CircuitBreaker * list bool :=
  match o with
  | Check => let '(cb, ok) := check cfg now cb in (cb, [ok])
  | Success => (record_success cb, [])
  | Failure => (record_failure cfg now cb, [])
  end.

(** The breaker after a history, and the answers of its checks. *)
Fixpoint run_ops (ops : list (Z * breaker_op)) (cb : CircuitBreaker) : CircuitBreaker * list bool :=
  match ops with
  | [] => (cb, [])
  | (now, o) :: ops =>
      let '(cb, a) := do_op now o cb in
      let '(cb, answers) := run_ops ops cb in (cb, a ++ answers)
  end.

Lemma run_ops_app ops1 ops2 cb :
  run_ops (ops1 ++ ops2) cb =
  ((run_ops ops2 (run_ops ops1 cb).1).1, (run_ops ops1 cb).2 ++ (run_ops ops2 (run_ops ops1 cb).1).2).
Proof.
  revert cb; induction ops1 as [|[now o] ops1 IH]; intros cb; simpl; [by destruct (run_ops ops2 cb)|].
  destruct (do_op now o cb) as [cb1 a]. rewrite IH.
  destruct (run_ops ops1 cb1) as [cb2 b]; simpl. by rewrite app_assoc.
Qed.

(** ** State invariant *)
Definition breaker_ok (cb : CircuitBreaker) : Prop :=
  0 ≤ cb_failure_count cb ∧
  match cb_state cb with
  | CLOSED => cb_failure_count cb < failure_threshold cfg
  | OPEN => True
  | HALF_OPEN => 1 ≤ cb_half_open_used cb ≤ Z.max 1 (half_open_max_requests cfg)
  end.

Lemma do_op_ok now o cb : 1 ≤ failure_threshold cfg → breaker_ok cb → breaker_ok (do_op now o cb).1.
Proof.
  intros Ht [Hc Hs]. destruct o; simpl.
  - unfold check. destruct (cb_state cb) eqn:E.
    + unfold breaker_ok. simpl. by rewrite E.
    + destruct (_ <=? _); unfold breaker_ok; simpl; rewrite ?E; split; (done || lia).
    + destruct (cb_half_open_used cb <? half_open_max_requests cfg) eqn:Hb; unfold breaker_ok; simpl;
        rewrite ?E; [apply Z.ltb_lt in Hb|]; split; (done || lia).
  - unfold breaker_ok; simpl. destruct (cb_state cb); split; simpl; lia.
  - unfold breaker_ok, record_failure; simpl. destruct (Z.leb_spec (failure_threshold cfg) (cb_failure_count cb + 1)).
    + split; [lia|done].
    + destruct (cb_state cb); split; lia.
Qed.

Lemma run_ops_ok ops cb : 1 ≤ failure_threshold cfg → breaker_ok cb → breaker_ok (run_ops ops cb).1.
Proof.
  intros Ht. revert cb; induction ops as [|[now o] ops IH]; intros cb Hok; simpl; [done|].
  pose proof (do_op_ok now o cb Ht Hok) as H1. destruct (do_op now o cb) as [cb1 a].
  specialize (IH cb1 H1). by destruct (run_ops ops cb1).
Qed.

(** Without a success the failures add up. *)
Definition failures (ops : list (Z * breaker_op)) : Z :=
  Z.of_nat (length (List.filter (λ x, match x.2 with Failure => true | _ => false end) ops)).

Lemma run_ops_count ops cb :
  Forall (λ x, x.2 ≠ Success) ops →
  cb_failure_count (run_ops ops cb).1 = cb_failure_count cb + failures ops.
Proof.
  unfold failures. revert cb; induction ops as [|[now o] ops IH]; intros cb Hns; [simpl; lia|].
  apply Forall_cons in Hns as [Ho Hns]. simpl in Ho. cbn [run_ops].
  destruct (do_op now o cb) as [cb1 a] eqn:E. specialize (IH cb1 Hns).
  destruct (run_ops ops cb1) as [cb2 b]. simpl in *. rewrite IH.
  destruct o; [|done|]; simpl in *.
  - destruct (check cfg now cb) as [cb' ok] eqn:Ec. injection E as <- <-.
    unfold check in Ec. repeat case_match; injection Ec as <- <-; done.
  - injection E as <- <-. simpl. lia.
Qed.

Lemma open_refuses ops cb last :
  cb_state cb = OPEN → last ≤ cb_last_failure_time cb →
  Forall (λ x, last ≤ x.1 < last + recovery_timeout cfg) ops →
  cb_state (run_ops ops cb).1 = OPEN ∧ Forall (λ a, a = false) (run_ops ops cb).2.
Proof.
  revert cb; induction ops as [|[now o] ops IH]; intros cb Ho Hl Hops; [by split|].
  apply Forall_cons in Hops as [Hnow Hops]. simpl in Hnow. cbn [run_ops].
  assert (cb_state (do_op now o cb).1 = OPEN ∧ last ≤ cb_last_failure_time (do_op now o cb).1 ∧
          Forall (λ a, a = false) (do_op now o cb).2) as (Ho1 & Hl1 & Ha).
  { destruct o; simpl.
    - unfold check. rewrite Ho. destruct (Z.leb_spec (recovery_timeout cfg) (now - cb_last_failure_time cb)); [lia|].
      split_and!; [done..|]. by repeat constructor.
    - rewrite Ho. split_and!; [done..|constructor].
    - rewrite Ho. split_and!; [by case_match|lia|constructor]. }
  destruct (do_op now o cb) as [cb1 a]; simpl in *. destruct (IH cb1 Ho1 Hl1 Hops) as [IH1 IH2].
  destruct (run_ops ops cb1) as [cb2 b]; simpl in *. split; [done|]. by apply Forall_app.
Qed.

(** The probes an unanswered breaker can still admit. *)
Definition probes_left (cb : CircuitBreaker) : Z :=
  match cb_state cb with
  | HALF_OPEN => Z.max 0 (half_open_max_requests cfg - cb_half_open_used cb)
  | _ => Z.max 1 (half_open_max_requests cfg)
  end.

Lemma checks_admitted checks cb :
  cb_state cb ≠ CLOSED → Forall (λ x, x.2 = Check) checks →
  Z.of_nat (length (List.filter id (run_ops checks cb).2)) ≤ probes_left cb.
Proof.
  revert cb; induction checks as [|[now o] checks IH]; intros cb Hc Hch.
  - simpl. unfold probes_left. case_match; lia.
  - apply Forall_cons in Hch as [Ho Hch]. simpl in Ho. subst o. cbn [run_ops do_op].
    destruct (check cfg now cb) as [cb1 ok] eqn:E.
    assert (cb_state cb1 ≠ CLOSED ∧ (if ok : bool then 1 else 0) + probes_left cb1 ≤ probes_left cb) as [Hc1 Hle].
    { unfold check, probes_left in *. destruct (cb_state cb) eqn:Es; [done| |].
      - destruct (_ <=? _); injection E as <- <-; simpl; rewrite ?Es; (split; [done|lia]).
      - destruct (Z.ltb_spec (cb_half_open_used cb) (half_open_max_requests cfg));
          injection E as <- <-; simpl; rewrite ?Es; (split; [done|lia]). }
    specialize (IH cb1 Hc1 Hch). destruct (run_ops checks cb1) as [cb2 b]; simpl in *.
    destruct ok; simpl; lia.
Qed.

Lemma probes_bounded checks cb :
  cb_state cb = OPEN → Forall (λ x, x.2 = Check) checks →
  Z.of_nat (length (List.filter id (run_ops checks cb).2)) ≤ Z.max 1 (half_open_max_requests cfg).
Proof.
  intros Ho Hch. pose proof (checks_admitted checks cb ltac:(by rewrite Ho) Hch) as H.
  unfold probes_left in H. by rewrite Ho in H.
Qed.

(** A half-open circuit whose probes are used up refuses every check for ever. *)
Lemma half_open_stuck checks cb :
  cb_state cb = HALF_OPEN → half_open_max_requests cfg ≤ cb_half_open_used cb →
  Forall (λ x, x.2 = Check) checks →
  (run_ops checks cb).1 = cb ∧ Forall (λ a, a = false) (run_ops checks cb).2.
Proof.
  intros Hs Hu. induction 1 as [|[now o] checks Ho _ IH]; [by split|]. simpl in Ho. subst o.
  cbn [run_ops do_op]. unfold check. rewrite Hs.
  destruct (Z.ltb_spec (cb_half_open_used cb) (half_open_max_requests cfg)); [lia|].
  destruct (run_ops checks cb) as [cb2 b]; simpl in *. destruct IH as [-> ?]. split; [done|by constructor].
Qed.

(** ** Properties *)

(** The breaker's state machine.  After any history of checks, successes and
    failures at any times, by any callers, from the initial state: while closed
    it has counted fewer failures than the threshold, and while half open it has
    admitted at least one and at most [half_open_max_requests] (at least one)
    probes.  As many failures as the threshold, with any checks but no success in
    between, leave the circuit open, dated at the last of them. *)
Theorem breaker_invariant ops :
  1 ≤ failure_threshold cfg →
  breaker_ok (run_ops ops breaker_init).1 ∧
  ∀ more now, Forall (λ x, x.2 ≠ Success) more → failure_threshold cfg ≤ failures more + 1 →
    let cb := (run_ops (ops ++ more ++ [(now, Failure)]) breaker_init).1 in
    cb_state cb = OPEN ∧ cb_last_failure_time cb = now.
Proof.
  intros Ht. assert (breaker_ok (run_ops ops breaker_init).1) as Hok by (apply run_ops_ok; [done|split; simpl; lia]).
  split; [done|]. intros more now Hns Hn. rewrite run_ops_app. simpl. rewrite run_ops_app. simpl.
  split; [|done]. rewrite run_ops_count by done. destruct Hok as [Hc _].
  by destruct (Z.leb_spec (failure_threshold cfg) (cb_failure_count (run_ops ops breaker_init).1 + failures more + 1)); [|lia].
Qed.

(** C9: An open circuit fails fast.  From the moment the circuit is open, and
    until [recovery_timeout] has passed since the failure that opened it, every
    check is refused, whatever late successes and failures of requests still in
    flight are recorded in the meantime; and from then on, until an outcome is
    recorded, at most [half_open_max_requests] (at least one) checks are
    admitted. *)
Theorem open_circuit_fails_fast cb ops checks :
  cb_state cb = OPEN →
  Forall (λ x, cb_last_failure_time cb ≤ x.1 < cb_last_failure_time cb + recovery_timeout cfg) ops →
  Forall (λ x, x.2 = Check) checks →
  let '(cb1, answers) := run_ops ops cb in
  cb_state cb1 = OPEN ∧ Forall (λ a, a = false) answers ∧
  Z.of_nat (length (List.filter id (run_ops checks cb1).2)) ≤ Z.max 1 (half_open_max_requests cfg).
Proof.
  intros Ho Hops Hch. pose proof (open_refuses ops cb (cb_last_failure_time cb) Ho ltac:(lia) Hops) as [H1 H2].
  destruct (run_ops ops cb) as [cb1 answers]; simpl in *. split_and!; [done..|].
  by apply probes_bounded.
Qed.
End props.

(** ** The retry loop *)
Section retries.
Context {W A : Type}.
Context (cfg : breaker_cfg) (clock : W → Z).
Context (operation : CircuitBreaker * W → (CircuitBreaker * W) * result llm_exn A).
Context (sleep : Z → W → W) (jitter : nat → Z → Z).
Context (AsyncRetrying : retry_config → (CircuitBreaker * W → (CircuitBreaker * W) * result llm_exn A) →
                         CircuitBreaker * W → (CircuitBreaker * W) * @retry_outcome A).

Hypothesis AsyncRetrying_documented : ∀ rc f s,
  retrying clock sleep rc f (clock s.2) 1 s (AsyncRetrying rc f s).
Hypothesis jitter_range : ∀ n m, 0 ≤ m → 0 ≤ jitter n m ≤ m.

Abbreviation run := (run_once cfg clock operation).

(** A sequence of attempts with their results; between two attempts the caller
    sleeps at least 1 ms and at most [max_delay_ms]. *)
Inductive attempts (rp : RetryPolicy) :
    CircuitBreaker * W → list (result llm_exn A) → CircuitBreaker * W → Prop :=
  | attempts_last s s' r : run s = (s', r) → attempts rp s [r] s'
  | attempts_more s cb w e d rs s' :
      run s = ((cb, w), Err e) → is_retryable e = true → 1 ≤ d ≤ Z.max 1 (max_delay_ms rp) →
      attempts rp (cb, sleep d w) rs s' → attempts rp s (Err e :: rs) s'.

Lemma wait_policy_range rp n e : 1 ≤ wait_policy jitter rp n e ≤ Z.max 1 (max_delay_ms rp).
Proof.
  unfold wait_policy. assert (wait_cap_ms rp n e ≤ max_delay_ms rp) as Hcap.
  { unfold wait_cap_ms, backoff_cap_ms. destruct e; try lia. destruct retry_after as [a|]; [|lia].
    case_match; lia. }
  pose proof (jitter_range n (Z.max 1 (wait_cap_ms rp n e)) ltac:(lia)). lia.
Qed.

(** The loop's outcome, in terms of the attempts made. *)
Definition explains (rp : RetryPolicy) (n : nat) (s s' : CircuitBreaker * W) (o : @retry_outcome A) : Prop :=
  ∃ rs r, attempts rp s (rs ++ [r]) s' ∧ Forall (λ x, ∃ e, x = Err e ∧ is_retryable e = true) rs ∧
    (rs = [] ∨ Z.of_nat (n + length rs) ≤ max_retries rp + 1) ∧
    match o with
    | Returned a => r = Ok a
    | Raised e => r = Err e ∧ is_retryable e = false
    | RetryError e k => r = Err e ∧ is_retryable e = true ∧ k = (n + length rs)%nat
    end.

Lemma retrying_explains rp start n s x :
  retrying clock sleep (RetryConfig (max_retries rp + 1) (max_total_ms rp) (wait_policy jitter rp) is_retryable)
           run start n s x → explains rp n s x.1 x.2.
Proof.
  induction 1 as [n s s' a E|n s s' e E Hr|n s s' e E Hr Hst|n s cb w e x E Hr Hst _ (rs & r & Ha & Hf & Hlen & Hx)];
    [exists [], (Ok a)|exists [], (Err e)|exists [], (Err e)|].
  1-3: simpl; split; [by apply attempts_last|]; split; [by apply Forall_nil|]; split; [by left|].
  - done.
  - done.
  - split_and!; [done|done|lia].
  - exists (Err e :: rs), r. split_and!.
    + apply (attempts_more rp s cb w e (wait_policy jitter rp n e)); [done|done|apply wait_policy_range|done].
    + constructor; [by eexists|done].
    + right. simpl in *. unfold should_stop in Hst. simpl in Hst. apply orb_false_iff in Hst as [Hst _].
      apply Z.leb_gt in Hst. destruct Hlen as [->|?]; simpl; lia.
    + simpl in *. destruct x.2; [done..|]. destruct Hx as (-> & ? & ->). split_and!; [done..|lia].
Qed.

(** [execute_with_retry] makes at most [max_retries + 1] attempts (at least
    one), sleeping between 1 ms and [max_delay_ms] between two of them.  Every
    attempt but the last failed with a retryable exception.  If the last returned,
    its value is the result; if it raised an exception that is not retryable
    (bad credentials, bad request, validation, an open circuit, an unknown
    exception), that exception is the result; otherwise the result is
    [LLMRetriesExhaustedError] carrying the last exception and the number of
    attempts, or the exception itself when retries are disabled. *)
Theorem execute_with_retry_outcome rp s :
  let '(s', r) := execute_with_retry cfg clock operation AsyncRetrying jitter rp s in
  ∃ rs last, attempts rp s (rs ++ [last]) s' ∧
    Z.of_nat (length rs) ≤ Z.max 0 (max_retries rp) ∧
    Forall (λ x, ∃ e, x = Err e ∧ is_retryable e = true) rs ∧
    match last with
    | Ok a => r = Ok a
    | Err e =>
        if is_retryable e
        then r = Err (if (max_retries rp =? 0) && Nat.eqb (length rs) 0 then e
                      else LLMRetriesExhaustedError e (S (length rs)))
        else r = Err e
    end.
Proof.
  unfold execute_with_retry.
  match goal with |- context [AsyncRetrying ?rc ?f ?s] => pose proof (AsyncRetrying_documented rc f s) as H end.
  apply retrying_explains in H. destruct (AsyncRetrying _ _ _) as [s' o]; simpl in H.
  destruct H as (rs & r & Ha & Hf & Hlen & Ho).
  assert (Z.of_nat (length rs) ≤ Z.max 0 (max_retries rp)) as Hb by (destruct Hlen as [->|?]; simpl; lia).
  destruct o as [a|e|e k]; simpl.
  - subst r. by exists rs, (Ok a).
  - destruct Ho as [-> He]. exists rs, (Err e). by rewrite He.
  - destruct Ho as (-> & He & ->). simpl.
    destruct ((max_retries rp =? 0) && Nat.eqb (length rs) 0) eqn:E; exists rs, (Err e); by rewrite He, E.
Qed.

End retries.

(** ** A concrete retry loop and concrete runs *)
Section tenacity.
Context {W A : Type} (clock : W → Z) (sleep : Z → W → W).
Abbreviation st := (CircuitBreaker * W)%type.

Fixpoint tenacity_loop (fuel : nat) (rc : retry_config) (f : st → st * result llm_exn A) (start : Z)
    (n : nat) (s : st) : st * @retry_outcome A :=
  match f s with
  | (s', Ok a) => (s', Returned a)
  | (s', Err e) =>
      if negb (rc_retry rc e) then (s', Raised e)
      else if should_stop clock rc n start s'.2 then (s', RetryError e n)
      else match fuel with
           | O => (s', RetryError e n)
           | S fuel => tenacity_loop fuel rc f start (S n) (s'.1, sleep (rc_wait rc n e) s'.2)
           end
  end.

(** The attempts allowed are fuel enough. *)
Definition tenacity (rc : retry_config) (f : st → st * result llm_exn A) (s : st) :=
  tenacity_loop (Z.to_nat (stop_after_attempt rc)) rc f (clock s.2) 1 s.

Lemma tenacity_loop_documented fuel rc f start n s :
  (Z.to_nat (stop_after_attempt rc) ≤ n + fuel)%nat →
  retrying clock sleep rc f start n s (tenacity_loop fuel rc f start n s).
Proof.
  revert n s; induction fuel as [|fuel IH]; intros n s Hf; simpl; destruct (f s) as [[cb w] [a|e]] eqn:E;
    [by constructor| |by constructor|]; destruct (rc_retry rc e) eqn:Er; simpl; [|by constructor| |by constructor];
    destruct (should_stop clock rc n start w) eqn:Es; [by constructor| |by constructor|].
  - unfold should_stop in Es. apply orb_false_iff in Es as [Es _]. apply Z.leb_gt in Es. lia.
  - eapply retrying_again; [done..|]. apply IH. lia.
Qed.

Lemma tenacity_documented rc f s : retrying clock sleep rc f (clock s.2) 1 s (tenacity rc f s).
Proof. apply tenacity_loop_documented. lia. Qed.
End tenacity.

Definition demo_cfg : breaker_cfg := BreakerCfg 2 30 1.
Definition demo_policy : RetryPolicy := MkRetryPolicy 3 1000 30000 60000 (QArith_base.inject_Z 2).
(** The world: the clock and the answers still to come. *)
Definition demo_world : Type := Z * list (result llm_exn string).
Definition demo_operation (s : CircuitBreaker * demo_world) :
    (CircuitBreaker * demo_world) * result llm_exn string :=
  match s with
  | (cb, (now, r :: rs)) => ((cb, (now + 100, rs)), r)
  | (cb, (now, [])) => ((cb, (now, [])), Err (OtherException "EOF"))
  end.
Definition demo_sleep (d : Z) (w : demo_world) : demo_world := (w.1 + d, w.2).
Definition demo_jitter (_ : nat) (m : Z) : Z := m / 2.
Definition demo_execute rp w :=
  execute_with_retry demo_cfg fst demo_operation (tenacity fst demo_sleep) demo_jitter rp (breaker_init, w).

Example execute_recovers :
  demo_execute demo_policy (0, [Err LLMUpstreamError; Ok "answer"])
  = ((Breaker CLOSED 0 100 0, (700, [])), Ok "answer").
Proof. vm_compute. reflexivity. Qed.

Lemma execute_with_retry_outcome_witness :
  let '(s', r) := demo_execute demo_policy (0, [Err LLMUpstreamError; Ok "answer"]) in
  r = Ok "answer" ∧
  ∃ rs last, attempts demo_cfg fst demo_operation demo_sleep demo_policy
    (breaker_init, (0, [Err LLMUpstreamError; Ok "answer"])) (rs ++ [last]) s' ∧ Z.of_nat (length rs) ≤ 3.
Proof.
  pose proof (execute_with_retry_outcome demo_cfg fst demo_operation demo_sleep demo_jitter
    (tenacity fst demo_sleep) (tenacity_documented fst demo_sleep)) as H.
  specialize (H ltac:(intros n m Hm; unfold demo_jitter; split;
    [by apply Z.div_pos|apply Z.div_le_upper_bound; lia])
    demo_policy (breaker_init, (0, [Err LLMUpstreamError; Ok "answer"]))).
  unfold demo_execute. destruct (execute_with_retry _ _ _ _ _ _ _) as [s' r] eqn:E.
  destruct H as (rs & last & Ha & Hl & _). split; [|by exists rs, last].
  vm_compute in E. by injection E as _ <-.
Defined.

Lemma breaker_invariant_witness :
  cb_state (run_ops demo_cfg ([(0, Check); (1, Success)] ++ [(2, Failure); (3, Check)] ++ [(4, Failure)]) breaker_init).1 = OPEN.
Proof.
  apply (breaker_invariant demo_cfg [(0, Check); (1, Success)]); [simpl; lia|by repeat constructor|].
  vm_compute. discriminate.
Defined.

Lemma open_circuit_fails_fast_witness :
  (run_ops demo_cfg [(5, Success); (20, Check); (29, Check)] (Breaker OPEN 2 0 0)).2 = [false; false] ∧
  Forall (λ a, a = false) (run_ops demo_cfg [(5, Success); (20, Check); (29, Check)] (Breaker OPEN 2 0 0)).2.
Proof.
  split; [vm_compute; reflexivity|].
  pose proof (open_circuit_fails_fast demo_cfg (Breaker OPEN 2 0 0) [(5, Success); (20, Check); (29, Check)] []
    eq_refl) as H.
  destruct (run_ops demo_cfg [(5, Success); (20, Check); (29, Check)] (Breaker OPEN 2 0 0)) as [cb1 answers]. apply H; [|constructor].
  repeat constructor; simpl; lia.
Defined.

(** Two ways into a half-open circuit that never recovers: (a) the probe raises
    an exception outside the provider's classes, so nothing is recorded; (b) a
    late success resets the failure count while the circuit is open, so the
    failed probe stays below the threshold. *)
Example probe_times_out :
  let s := (Breaker OPEN 2 0 0, (30, [Err AsyncioTimeoutError; Ok "answer"])) in
  let '((cb, w), _) := run_once demo_cfg fst demo_operation s in
  cb = Breaker HALF_OPEN 2 0 1 ∧
  ∀ checks, Forall (λ x, x.2 = Check) checks → (run_ops demo_cfg checks cb).1 = cb ∧
    Forall (λ a, a = false) (run_ops demo_cfg checks cb).2.
Proof. simpl. split; [done|]. intros checks Hc. by apply half_open_stuck. Qed.

Example late_success_then_failed_probe :
  let cb := (run_ops demo_cfg [(0, Check); (0, Check); (0, Check); (1, Failure); (2, Failure); (3, Success);
                               (40, Check); (41, Failure)] breaker_init).1 in
  cb = Breaker HALF_OPEN 1 41 1 ∧
  ∀ checks, Forall (λ x, x.2 = Check) checks → Forall (λ a, a = false) (run_ops demo_cfg checks cb).2.
Proof. simpl. split; [done|]. intros checks Hc. by apply half_open_stuck. Qed.
