(* ===== verification/ToolGovernance.v ===== *)
(** * ToolGovernance: the cache of administratively disabled tools

    Models [ToolGovernanceCache] of [src/nce/tool_governance.py].  Times are
    integers read from one monotonic clock; a call takes time, so it reads the
    clock when it starts and again when its fetch ends.  The degraded counter and
    log output are not modelled. *)
From S2P Require Import Prelude.
Local Open Scope Z_scope.

Record governance_cfg := GovernanceCfg {
  STALE_OK_SEC : Z;
  STALE_HARD_SEC : Z;
  IS_PROD : bool
}.

(** [_snapshot] and [_fetched_at] are set together by [_store]. *)
Record governance_cache := GovernanceCache {
  _snapshot : option (gset string);
  _fetched_at : option Z
}.
Definition never_initialized : governance_cache := GovernanceCache None None.

Inductive governance_error := GovernanceUnavailable.

Section governance.
Context (cfg : governance_cfg).

Definition initialized (c : governance_cache) : bool := bool_decide (is_Some (_snapshot c)).

(** [None] is the infinite age of a cache that was never filled. *)
Definition _age (now : Z) (c : governance_cache) : option Z := (λ t, now - t) <$> _fetched_at c.
Definition age_below (b : Z) (strict : bool) (age : option Z) : bool :=
  match age with None => false | Some a => if strict then a <? b else a <=? b end.

Definition _store (names : gset string) (now : Z) : governance_cache :=
  GovernanceCache (Some names) (Some now).

(** The fetch's result: the names read, or nothing when there is no client or
    Redis raises. *)
Definition warm (now : Z) (fetched : option (gset string)) (c : governance_cache) : governance_cache * bool :=
  match fetched with Some names => (_store names now, true) | None => (c, false) end.

Definition in_snapshot (name : string) (c : governance_cache) : bool :=
  match _snapshot c with Some s => bool_decide (name ∈ s) | None => false end.

Definition _serve_degraded (now : Z) (name : string) (c : governance_cache) : result governance_error bool :=
  if initialized c then
    if age_below (STALE_HARD_SEC cfg) false (_age now c) then Ok (in_snapshot name c)
    else raise GovernanceUnavailable
  else if IS_PROD cfg then raise GovernanceUnavailable
  else Ok false.

(** The first look at the cache, at the call's start: served from a fresh
    snapshot, or [None] when a refresh is needed. *)
Definition serve_fresh (now : Z) (name : string) (c : governance_cache) : option bool :=
  if initialized c && age_below (STALE_OK_SEC cfg) true (_age now c) then Some (in_snapshot name c) else None.

(** What follows when the fetch has ended, on the cache as it is then. *)
Definition finish_refresh (now : Z) (name : string) (fetched : option (gset string)) (c : governance_cache) :
    governance_cache * result governance_error bool :=
  match fetched with
  | Some names => (_store names now, Ok (bool_decide (name ∈ names)))
  | None => (c, _serve_degraded now name c)
  end.

(** A call with no other call in between. *)
Definition is_disabled (t0 t1 : Z) (name : string) (fetched : option (gset string)) (c : governance_cache) :
    governance_cache * result governance_error bool :=
  match serve_fresh t0 name c with
  | Some b => (c, Ok b)
  | None => finish_refresh t1 name fetched c
  end.
End governance.

(** ** Many concurrent calls on one cache

    [disabled t] is the server's set at time [t].  A fetch that ends at [now] has
    read the server at most [latency] before; refreshes of concurrent calls may
    end in any order.  [decision now name answer] labels the end of a call of
    [is_disabled]. *)
Section history.
Context (cfg : governance_cfg) (disabled : Z → gset string) (latency : Z).

Inductive governance_label := decision (now : Z) (name : string) (answer : result governance_error bool) | silent.

Inductive governance_step : governance_cache * Z → governance_label → governance_cache * Z → Prop :=
  | gs_tick c t t' : t ≤ t' → governance_step (c, t) silent (c, t')
  | gs_warm c t ts :
      t - latency ≤ ts ≤ t → governance_step (c, t) silent ((warm t (Some (disabled ts)) c).1, t)
  | gs_fresh c t name b :
      serve_fresh cfg t name c = Some b → governance_step (c, t) (decision t name (Ok b)) (c, t)
  | gs_refreshed c t name ts :
      t - latency ≤ ts ≤ t →
      governance_step (c, t)
        (decision t name (finish_refresh cfg t name (Some (disabled ts)) c).2)
        ((finish_refresh cfg t name (Some (disabled ts)) c).1, t)
  | gs_failed c t name :
      governance_step (c, t) (decision t name (finish_refresh cfg t name None c).2) (c, t).

Inductive governance_run : governance_cache * Z → list governance_label → governance_cache * Z → Prop :=
  | gr_nil s : governance_run s [] s
  | gr_cons s l s1 ls s2 :
      governance_step s l s1 → governance_run s1 ls s2 → governance_run s (l :: ls) s2.

(** The snapshot is what the server had at most [latency] before it was stored. *)
Definition cache_ok (s : governance_cache * Z) : Prop :=
  match _snapshot s.1, _fetched_at s.1 with
  | Some names, Some at_ => at_ ≤ s.2 ∧ ∃ ts, at_ - latency ≤ ts ≤ at_ ∧ names = disabled ts
  | None, None => True
  | _, _ => False
  end.

Lemma store_ok t ts : t - latency ≤ ts ≤ t → cache_ok (_store (disabled ts) t, t).
Proof. intros H. split; [simpl; lia|]. by exists ts. Qed.

Lemma governance_step_ok s l s' : cache_ok s → governance_step s l s' → cache_ok s'.
Proof.
  intros Hok Hs. destruct Hs; simpl; try done; try by apply store_ok.
  unfold cache_ok in *. simpl in *. destruct (_snapshot c), (_fetched_at c); try done.
  destruct Hok as [? Hex]. split; [lia|done].
Qed.

(** A served snapshot was read from the server within the allowed staleness. *)
Lemma decision_read s l s' now name b :
  cache_ok s → governance_step s l s' → l = decision now name (Ok b) →
  (∃ ts, now - Z.max (STALE_OK_SEC cfg) (STALE_HARD_SEC cfg) - latency ≤ ts ≤ now ∧
         b = bool_decide (name ∈ disabled ts)) ∨
  (∃ ts, now - latency ≤ ts ≤ now ∧ b = bool_decide (name ∈ disabled ts)) ∨
  (_snapshot s.1 = None ∧ IS_PROD cfg = false ∧ b = false).
Proof.
  intros Hok Hs El. destruct Hs as [c t t' Ht|c t ts Hts|c t name' b' Hf|c t name' ts Hts|c t name'];
    [done|done|injection El as -> -> ->|injection El as -> -> <-|injection El as -> -> El]; simpl in *.
  - unfold serve_fresh, initialized, in_snapshot, cache_ok, _age in *. simpl in *.
    destruct (_snapshot c) as [names|], (_fetched_at c) as [at_|]; simpl in *; try done.
    destruct Hok as [Hat (ts & Hts & ->)]. destruct (Z.ltb_spec (now - at_) (STALE_OK_SEC cfg)); [|done].
    injection Hf as <-. left. exists ts. split; [lia|done].
  - right; left. exists ts. done.
  - unfold _serve_degraded, initialized, in_snapshot, cache_ok, _age in *. simpl in *.
    destruct (_snapshot c) as [names|], (_fetched_at c) as [at_|]; simpl in *; try done.
    + destruct Hok as [Hat (ts & Hts & ->)]. destruct (Z.leb_spec (now - at_) (STALE_HARD_SEC cfg)); [|done].
      injection El as <-. left. exists ts. split; [lia|done].
    + destruct (IS_PROD cfg); [done|]. injection El as <-. by right; right.
Qed.

Lemma run_decisions s ls s' now name b :
  cache_ok s → governance_run s ls s' → decision now name (Ok b) ∈ ls →
  ∃ s1 s2, cache_ok s1 ∧ governance_step s1 (decision now name (Ok b)) s2.
Proof.
  intros Hok Hr. induction Hr as [s|s l s1 ls s2 Hst _ IH]; [by intros ?%elem_of_nil|].
  intros [->|Hin]%elem_of_cons; [by exists s, s1|]. apply IH; [by eapply governance_step_ok|done].
Qed.

(** C10: Revocations and re-enablements take effect in bounded time.  In a
    production process, whatever the interleaving of calls, refreshes and Redis
    failures, every decision that is not refused was true of the server at some
    moment within the larger staleness bound plus one fetch's latency.  So once a
    tool has been disabled for that long, every call is refused or says
    "disabled"; once it has been enabled for that long, none says "disabled". *)
Theorem governance_bounded_staleness t0 ls s' now name b :
  IS_PROD cfg = true → 0 ≤ STALE_OK_SEC cfg → 0 ≤ latency →
  governance_run (never_initialized, t0) ls s' → decision now name (Ok b) ∈ ls →
  (∃ ts, now - Z.max (STALE_OK_SEC cfg) (STALE_HARD_SEC cfg) - latency ≤ ts ≤ now ∧
         b = bool_decide (name ∈ disabled ts)) ∧
  ∀ since, since + Z.max (STALE_OK_SEC cfg) (STALE_HARD_SEC cfg) + latency ≤ now →
    ((∀ ts, since ≤ ts → name ∈ disabled ts) → b = true) ∧
    ((∀ ts, since ≤ ts → name ∉ disabled ts) → b = false).
Proof.
  intros Hprod Hok0 Hlat Hr Hin.
  destruct (run_decisions (never_initialized, t0) ls s' now name b I Hr Hin) as (s1 & s2 & Hok & Hst).
  assert (∃ ts, now - Z.max (STALE_OK_SEC cfg) (STALE_HARD_SEC cfg) - latency ≤ ts ≤ now ∧
         b = bool_decide (name ∈ disabled ts)) as (ts & Hts & ->).
  { destruct (decision_read s1 _ s2 now name b Hok Hst eq_refl) as [H|[(ts & Hts & ->)|(_ & H & _)]]; [done| |congruence].
    exists ts. split; [lia|done]. }
  split; [by exists ts|]. intros since Hs. split; intros H; specialize (H ts ltac:(lia)).
  - by apply bool_decide_eq_true.
  - by apply bool_decide_eq_false.
Qed.

(** The cache stays available when it safely can.  An initialised cache no
    older than [STALE_HARD_SEC] answers every call, even when Redis is
    unreachable; a call that reaches Redis is never refused; and a cache that was
    never filled lets nothing through in production. *)
Theorem governance_availability t0' t1 name fetched (c : governance_cache) at_ names :
  (_snapshot c = Some names → _fetched_at c = Some at_ → t1 - at_ ≤ STALE_HARD_SEC cfg →
     ∃ b, (is_disabled cfg t0' t1 name fetched c).2 = Ok b) ∧
  (∀ read, fetched = Some read → ∃ b, (is_disabled cfg t0' t1 name fetched c).2 = Ok b) ∧
  (fetched = None → _snapshot c = None → IS_PROD cfg = true →
     is_disabled cfg t0' t1 name fetched c = (c, Err GovernanceUnavailable)).
Proof.
  unfold is_disabled. split_and!.
  - intros Hs Hf Hage. destruct (serve_fresh _ _ _ _) as [b|]; [by exists b|].
    unfold finish_refresh. destruct fetched as [r|]; [by eexists|]. simpl.
    unfold _serve_degraded, initialized, _age. rewrite Hs, Hf. simpl.
    destruct (Z.leb_spec (t1 - at_) (STALE_HARD_SEC cfg)); [by eexists|lia].
  - intros r ->. destruct (serve_fresh _ _ _ _) as [b|]; by eexists.
  - intros -> Hs Hp. unfold serve_fresh, finish_refresh, _serve_degraded, initialized. by rewrite Hs, Hp.
Qed.
End history.

(** ** A concrete history: [rm] is disabled at time 100 *)
Definition demo_gov : governance_cfg := GovernanceCfg 30 300 true.
Definition demo_disabled (t : Z) : gset string := if t <? 100 then ∅ else {["rm"]}.

Definition demo_labels : list governance_label :=
  [silent; silent; decision 110 "rm" (Ok false); silent; decision 450 "rm" (Err GovernanceUnavailable);
   decision 450 "rm" (Ok true)].
Definition demo_cache : governance_cache := _store (demo_disabled 90) 90.

(** Warm at 90; served fresh at 110 (the revocation is 10 old); Redis is
    unreachable at 450, past the hard bound; then it answers. *)
Lemma demo_gov_run :
  governance_run demo_gov demo_disabled 5 (never_initialized, 90) demo_labels
    (_store (demo_disabled 448) 450, 450).
Proof.
  apply (gr_cons _ _ _ _ _ (demo_cache, 90)); [apply (gs_warm _ _ _ never_initialized 90 90); lia|].
  apply (gr_cons _ _ _ _ _ (demo_cache, 110)); [constructor; lia|].
  apply (gr_cons _ _ _ _ _ (demo_cache, 110)); [constructor; vm_compute; reflexivity|].
  apply (gr_cons _ _ _ _ _ (demo_cache, 450)); [constructor; lia|].
  apply (gr_cons _ _ _ _ _ (demo_cache, 450)); [exact (gs_failed demo_gov _ _ demo_cache 450 "rm")|].
  apply (gr_cons _ _ _ _ _ (_store (demo_disabled 448) 450, 450)); [|constructor].
  exact (gs_refreshed demo_gov demo_disabled 5 demo_cache 450 "rm" 448 ltac:(lia)).
Qed.

Lemma governance_bounded_staleness_witness :
  decision 450 "rm" (Ok true) ∈ demo_labels ∧
  ∃ ts, 145 ≤ ts ≤ 450 ∧ true = bool_decide ("rm" ∈ demo_disabled ts).
Proof.
  split; [by do 5 right; left|].
  destruct (governance_bounded_staleness demo_gov demo_disabled 5 90 demo_labels _ 450 "rm" true
    eq_refl ltac:(simpl; lia) ltac:(lia) demo_gov_run) as [(ts & Hts & Hb) _]; [by do 5 right; left|].
  exists ts. split; [simpl in Hts; lia|exact Hb].
Defined.
