(* ===== verification/A2A.v ===== *)
(** * A2A: sharing grants between agents

    Models the grant lifecycle of [src/nce/a2a.py] (creation with the delegation
    check, token verification, revocation, scope updates, status checks)
    and [enforce_scope], with the two handlers of [src/nce/a2a_mcp_handlers.py] and
    [src/nce/a2a_server.py] that use a token.  A statement reads the committed
    state [seen] and writes the current one: other transactions may have
    committed in between.  The audit trail is the interface [AuditLog].  mTLS
    certificate checks are not modelled. *)
From S2P Require Import Prelude PyText PyStr AuditLog.

(** ** Data *)
Inductive resource_type := RNamespace | RMemory | RKgNode | RSubgraph.
#[global] Instance resource_type_eq : EqDecision resource_type.
Proof. solve_decision. Defined.

Record A2AScope := MkScope {
  sc_resource_type : resource_type;
  sc_resource_id : string;
  sc_permissions : list string
}.
#[global] Instance A2AScope_eq : EqDecision A2AScope.
Proof. solve_decision. Defined.

Record A2AGrantRequest := GrantRequest {
  rq_target_namespace_id : option string;
  rq_target_agent_id : option string;
  rq_scopes : list A2AScope;
  rq_expires_in_seconds : Z;
  rq_can_delegate : bool;
  rq_one_time : bool
}.

Inductive grant_status := Active | Revoked | Expired.
#[global] Instance grant_status_eq : EqDecision grant_status.
Proof. solve_decision. Defined.

Record a2a_grant := Grant {
  gr_id : string;
  gr_owner_namespace_id : string;
  gr_owner_agent_id : string;
  gr_target_namespace_id : option string;
  gr_target_agent_id : option string;
  gr_scopes : list A2AScope;
  gr_token_hash : string;
  gr_status : grant_status;
  gr_expires_at : Z;                    (* microseconds *)
  gr_can_delegate : bool;
  gr_one_time : bool;
  gr_usage_count : Z;
  gr_created_at : Z
}.
Abbreviation grants := (list a2a_grant).

Record NamespaceContext := Caller { namespace_id : string; agent_id : string }.

Record VerifiedGrant := Verified {
  vg_grant_id : string;
  vg_owner_namespace_id : string;
  vg_owner_agent_id : string;
  vg_scopes : list A2AScope;
  vg_expires_at : Z;
  vg_can_delegate : bool;
  vg_one_time : bool
}.

Inductive a2a_error :=
  | A2AAuthorizationError
  | A2AScopeViolationError
  | A2AValueError
  | AuditError.                         (* raised by append_event or an INSERT *)

(** ** [enforce_scope] *)
Definition scope_covers (rt : resource_type) (resource_id resource_namespace_id : string) (s : A2AScope) : bool :=
  existsb (String.eqb "read") (sc_permissions s) &&
  ((bool_decide (sc_resource_type s = rt) && String.eqb (sc_resource_id s) resource_id) ||
   (bool_decide (sc_resource_type s = RNamespace) && String.eqb (sc_resource_id s) resource_namespace_id &&
    match rt with RMemory | RKgNode | RSubgraph => true | RNamespace => false end)).
Definition enforce_scope (scopes : list A2AScope) (rt : resource_type)
    (resource_id resource_namespace_id : string) : result a2a_error unit :=
  ensure (existsb (scope_covers rt resource_id resource_namespace_id) scopes) A2AScopeViolationError.

(** ** Resources and their namespaces *)
Record resources := Resources {
  memories : gmap string string;                       (* id to namespace *)
  kg_nodes : list (string * string * string)           (* id, label, namespace *)
}.

Definition _resolve_scope_namespaces (res : resources) (s : A2AScope) : result a2a_error (list string) :=
  match sc_resource_type s with
  | RNamespace | RSubgraph =>
      match UUID (sc_resource_id s) with Some u => Ok [u] | None => raise A2AScopeViolationError end
  | RMemory =>
      match UUID (sc_resource_id s) with
      | Some u => match memories res !! u with Some ns => Ok [ns] | None => raise A2AScopeViolationError end
      | None => raise A2AScopeViolationError
      end
  | RKgNode =>
      match UUID (sc_resource_id s) with
      | Some u => match List.find (λ n, String.eqb n.1.1 u) (kg_nodes res) with
                  | Some n => Ok [n.2]
                  | None => raise A2AScopeViolationError
                  end
      | None => Ok (remove_dups ((λ n, n.2) <$> List.filter (λ n, String.eqb n.1.2 (sc_resource_id s)) (kg_nodes res)))
      end
  end.

(** ** Grants *)
Definition set_status (st : grant_status) (g : a2a_grant) : a2a_grant :=
  Grant (gr_id g) (gr_owner_namespace_id g) (gr_owner_agent_id g) (gr_target_namespace_id g) (gr_target_agent_id g)
    (gr_scopes g) (gr_token_hash g) st (gr_expires_at g) (gr_can_delegate g) (gr_one_time g) (gr_usage_count g)
    (gr_created_at g).
Definition set_scopes (scopes : list A2AScope) (g : a2a_grant) : a2a_grant :=
  Grant (gr_id g) (gr_owner_namespace_id g) (gr_owner_agent_id g) (gr_target_namespace_id g) (gr_target_agent_id g)
    scopes (gr_token_hash g) (gr_status g) (gr_expires_at g) (gr_can_delegate g) (gr_one_time g) (gr_usage_count g)
    (gr_created_at g).
Definition use_grant (g : a2a_grant) : a2a_grant :=
  Grant (gr_id g) (gr_owner_namespace_id g) (gr_owner_agent_id g) (gr_target_namespace_id g) (gr_target_agent_id g)
    (gr_scopes g) (gr_token_hash g) (if gr_one_time g then Expired else gr_status g) (gr_expires_at g)
    (gr_can_delegate g) (gr_one_time g) (gr_usage_count g + 1) (gr_created_at g).

(** [UPDATE a2a_grants SET ... WHERE id = $1 AND p] *)
Definition update_grant (id : string) (p : a2a_grant → bool) (f : a2a_grant → a2a_grant) (gs : grants) : grants :=
  (λ g, if String.eqb (gr_id g) id && p g then f g else g) <$> gs.
Definition is_active (g : a2a_grant) : bool := bool_decide (gr_status g = Active).

(** May the caller re-share resources of namespace [ns]? *)
Definition delegable (now : Z) (ns caller_ns : string) (g : a2a_grant) : bool :=
  String.eqb (gr_owner_namespace_id g) ns &&
  match gr_target_namespace_id g with None => true | Some t => String.eqb t caller_ns end &&
  gr_can_delegate g && is_active g && (now <? gr_expires_at g)%Z.

Fixpoint check_namespaces (now : Z) (caller_ns : string) (gs : grants) (ns_ids : list string) : bool :=
  match ns_ids with
  | [] => true
  | ns :: ns_ids => (String.eqb ns caller_ns || existsb (delegable now ns caller_ns) gs) &&
                    check_namespaces now caller_ns gs ns_ids
  end.
Fixpoint check_scopes (now : Z) (res : resources) (caller_ns : string) (gs : grants) (scopes : list A2AScope) :
    result a2a_error unit :=
  match scopes with
  | [] => Ok ()
  | s :: scopes =>
      ns_ids ← _resolve_scope_namespaces res s;
      _ ← ensure (check_namespaces now caller_ns gs ns_ids) A2AScopeViolationError;
      check_scopes now res caller_ns gs scopes
  end.

Definition opt_str (o : option string) : json := match o with Some s => JStr s | None => JNull end.

Section lifecycle.
Context (sha256 : string → string).
Definition _hash_token (token : string) : string := sha256 token.
Context `{AuditLog Log Env}.

(** [append_event] raises outside a transaction. *)
Definition _append_a2a_event (env : Env) (in_transaction : bool) (log : Log) (ctx : NamespaceContext)
    (event_type : string) (params : jobject) : option Log :=
  if in_transaction then audit_append env log (namespace_id ctx) (agent_id ctx) event_type params else None.

Record a2a_db := A2ADb { a2a_grants : grants; a2a_log : Log }.

(** The instant, a fresh token and a fresh id are the environment's.
    [expires_at.isoformat()] is text. *)
Definition create_grant (env : Env) (now : Z) (token fresh_id : string) (res : resources) (seen : grants)
    (db : a2a_db) (owner : NamespaceContext) (rq : A2AGrantRequest) : result a2a_error (a2a_db * (string * string * Z)) :=
  _ ← check_scopes now res (namespace_id owner) seen (rq_scopes rq);
  let expires_at := (now + rq_expires_in_seconds rq * 1000000)%Z in
  let g := Grant fresh_id (namespace_id owner) (agent_id owner) (rq_target_namespace_id rq) (rq_target_agent_id rq)
             (rq_scopes rq) (_hash_token token) Active expires_at (rq_can_delegate rq) (rq_one_time rq) 0 now in
  if existsb (λ g', String.eqb (gr_id g') fresh_id || String.eqb (gr_token_hash g') (_hash_token token)) (a2a_grants db)
  then raise AuditError
  else
    match _append_a2a_event env true (a2a_log db) owner "a2a_grant_created"
            [("grant_id", JStr fresh_id); ("target_namespace_id", opt_str (rq_target_namespace_id rq));
             ("target_agent_id", opt_str (rq_target_agent_id rq));
             ("scope_count", JInt (Z.of_nat (length (rq_scopes rq))));
             ("expires_at", JStr (isoformat_utc expires_at));
             ("can_delegate", JBool (rq_can_delegate rq)); ("one_time", JBool (rq_one_time rq))] with
    | None => raise AuditError
    | Some log => Ok (A2ADb (a2a_grants db ++ [g]) log, (fresh_id, token, expires_at))
    end.

(** The SELECT reads [seen]; the UPDATEs act on [gs]. *)
Definition verify_token (now : Z) (seen gs : grants) (token : string) (consumer : NamespaceContext) :
    grants * result a2a_error VerifiedGrant :=
  match List.find (λ g, String.eqb (gr_token_hash g) (_hash_token token) && is_active g) seen with
  | None => (gs, Err A2AAuthorizationError)
  | Some row =>
      if (gr_expires_at row <? now)%Z
      then (update_grant (gr_id row) is_active (set_status Expired) gs, Err A2AAuthorizationError)
      else if gr_one_time row && (1 <=? gr_usage_count row)%Z then (gs, Err A2AAuthorizationError)
      else if match gr_target_namespace_id row with
              | Some t => negb (String.eqb t (namespace_id consumer)) | None => false end
      then (gs, Err A2AAuthorizationError)
      else if match gr_target_agent_id row with
              | Some t => negb (String.eqb t (agent_id consumer)) | None => false end
      then (gs, Err A2AAuthorizationError)
      else (update_grant (gr_id row) (λ _, true) use_grant gs,
            Ok (Verified (gr_id row) (gr_owner_namespace_id row) (gr_owner_agent_id row) (gr_scopes row)
                  (gr_expires_at row) (gr_can_delegate row) (gr_one_time row)))
  end.

(** [None]: the audit append raises and the transaction rolls back. *)
Definition revoke_grant (env : Env) (db : a2a_db) (grant_id : string) (owner : NamespaceContext) :
    result a2a_error (a2a_db * bool) :=
  let p g := String.eqb (gr_owner_namespace_id g) (namespace_id owner) && is_active g in
  let hit := List.filter (λ g, String.eqb (gr_id g) grant_id && p g) (a2a_grants db) in
  let gs := update_grant grant_id p (set_status Revoked) (a2a_grants db) in
  if Nat.eqb (length hit) 1 then
    match _append_a2a_event env true (a2a_log db) owner "a2a_grant_revoked" [("grant_id", JStr grant_id)] with
    | Some log => Ok (A2ADb gs log, true)
    | None => raise AuditError
    end
  else Ok (A2ADb gs (a2a_log db), false).

Definition update_grant_scopes (env : Env) (now : Z) (seen : grants) (db : a2a_db) (owner : NamespaceContext)
    (grant_id : string) (scopes : list A2AScope) (mode : string) : result a2a_error (a2a_db * list A2AScope) :=
  match List.find (λ g, String.eqb (gr_id g) grant_id &&
                        String.eqb (gr_owner_namespace_id g) (namespace_id owner)) seen with
  | None => raise A2AAuthorizationError
  | Some row =>
      _ ← ensure (is_active row) A2AAuthorizationError;
      _ ← ensure (negb (gr_expires_at row <? now)%Z) A2AAuthorizationError;
      final_scopes ←
        (if String.eqb mode "append"
         then Ok (foldl (λ merged s, if decide (s ∈ merged) then merged else merged ++ [s]) (gr_scopes row) scopes)
         else if String.eqb mode "replace" then Ok scopes
         else raise A2AValueError);
      match final_scopes with
      | [] => raise A2AValueError
      | _ =>
          match _append_a2a_event env true (a2a_log db) owner "a2a_grant_updated"
                  [("grant_id", JStr grant_id); ("mode", JStr mode);
                   ("scope_count", JInt (Z.of_nat (length final_scopes)))] with
          | None => raise AuditError
          | Some log => Ok (A2ADb (update_grant grant_id (λ _, true) (set_scopes final_scopes) (a2a_grants db)) log,
                            final_scopes)
          end
      end
  end.

(** The row [verify_grant_status] looks up; [None] when not exactly one of token
    and id is given. *)
Definition status_row (seen : grants) (sharing_token grant_id : option string) : option (option a2a_grant) :=
  match sharing_token, grant_id with
  | Some token, None => Some (List.find (λ g, String.eqb (gr_token_hash g) (_hash_token token)) seen)
  | None, Some id => Some (List.find (λ g, String.eqb (gr_id g) id) seen)
  | _, _ => None
  end.

(** [verify_grant_status]: the row read, with its status after the expiry check. *)
Definition verify_grant_status (now : Z) (seen gs : grants) (ctx : NamespaceContext)
    (sharing_token grant_id : option string) : grants * result a2a_error (a2a_grant * grant_status) :=
  match status_row seen sharing_token grant_id with
  | None => (gs, Err A2AValueError)
  | Some None => (gs, Err A2AAuthorizationError)
  | Some (Some row) =>
      let stale := is_active row && (gr_expires_at row <? now)%Z in
      let gs := if stale then update_grant (gr_id row) (λ _, true) (set_status Expired) gs else gs in
      let is_target :=
        match gr_target_namespace_id row with
        | None => true
        | Some t => String.eqb (namespace_id ctx) t &&
                    match gr_target_agent_id row with None => true | Some a => String.eqb (agent_id ctx) a end
        end in
      if String.eqb (namespace_id ctx) (gr_owner_namespace_id row) || is_target
      then (gs, Ok (row, if stale then Expired else gr_status row))
      else (gs, Err A2AAuthorizationError)
  end.

(** ** The handlers that use a token *)

(** What [handle_a2a_query_shared] then hands to [semantic_search]: the namespace
    and the agent whose memories are searched.  The connection it uses comes
    straight from the pool, outside any transaction. *)
Definition handle_a2a_query_shared (env : Env) (now : Z) (in_transaction : bool) (seen : grants) (db : a2a_db)
    (token : string) (consumer : NamespaceContext) (rt : resource_type) (resource_id : option string)
    (query : string) : a2a_db * result a2a_error (string * string) :=
  let '(gs, verified) := verify_token now seen (a2a_grants db) token consumer in
  let db := A2ADb gs (a2a_log db) in
  match verified with
  | Err e => (db, Err e)
  | Ok v =>
      let rid := match resource_id with Some "" | None => vg_owner_namespace_id v | Some r => r end in
      match
        (_ ← ensure (bool_decide (rt = RNamespace) ||
                     match resource_id with Some "" | None => false | Some _ => true end) A2AValueError;
         enforce_scope (vg_scopes v) rt rid (vg_owner_namespace_id v))
      with
      | Err e => (db, Err e)
      | Ok _ =>
          match _append_a2a_event env in_transaction (a2a_log db) (Caller (vg_owner_namespace_id v) (vg_owner_agent_id v))
                  "a2a_shared_query"
                  [("consumer_namespace_id", JStr (namespace_id consumer)); ("consumer_agent_id", JStr (agent_id consumer));
                   ("grant_id", JStr (vg_grant_id v)); ("query", JStr query)] with
          | None => (db, Err AuditError)
          | Some log => (A2ADb gs log, Ok (vg_owner_namespace_id v, vg_owner_agent_id v))
          end
      end
  end.

(** [tasks_send] with a sharing token: the namespace and agent the skill then
    runs as; a failed verification rolls its transaction back. *)
Definition tasks_send_token (now : Z) (seen gs : grants) (token : string) (caller : NamespaceContext) :
    grants * result a2a_error (string * string) :=
  match verify_token now seen gs token caller with
  | (_, Err e) => (gs, Err e)
  | (gs, Ok v) =>
      (gs, _ ← enforce_scope (vg_scopes v) RNamespace (vg_owner_namespace_id v) (vg_owner_namespace_id v);
           Ok (vg_owner_namespace_id v, vg_owner_agent_id v))
  end.
End lifecycle.
