(* ===== verification/A2AProps.v ===== *)
(** * A2AProps: what the sharing grants guarantee *)
From S2P Require Import Prelude PyText PyStr EventLog EventLogProps AuditLog A2A.

Section a2a_props.
Context (sha256 : string → string) `{AuditLog Log Env}.
Abbreviation adb := (@a2a_db Log).
Abbreviation hash := (_hash_token sha256).
Abbreviation verify := (verify_token sha256).

(** ** Token verification, case by case *)

(** The grant a token opens for a caller at an instant. *)
Record opens (now : Z) (token : string) (ctx : NamespaceContext) (g : a2a_grant) : Prop := {
  op_hash : gr_token_hash g = hash token;
  op_active : gr_status g = Active;
  op_time : (now ≤ gr_expires_at g)%Z;
  op_unused : gr_one_time g = true → (gr_usage_count g < 1)%Z;
  op_namespace : ∀ t, gr_target_namespace_id g = Some t → t = namespace_id ctx;
  op_agent : ∀ t, gr_target_agent_id g = Some t → t = agent_id ctx
}.

Definition verified_of (g : a2a_grant) : VerifiedGrant :=
  Verified (gr_id g) (gr_owner_namespace_id g) (gr_owner_agent_id g) (gr_scopes g) (gr_expires_at g)
           (gr_can_delegate g) (gr_one_time g).

Definition find_token (seen : grants) (token : string) : option a2a_grant :=
  List.find (λ g, String.eqb (gr_token_hash g) (hash token) && is_active g) seen.

Lemma find_token_Some seen token g :
  find_token seen token = Some g → g ∈ seen ∧ gr_token_hash g = hash token ∧ gr_status g = Active.
Proof.
  intros [Hin E]%List.find_some. apply list_elem_of_In in Hin.
  apply andb_prop in E as [E1%String.eqb_eq E2%bool_decide_eq_true]. done.
Qed.

Lemma verify_cases now seen gs token ctx :
  match find_token seen token with
  | None => verify now seen gs token ctx = (gs, Err A2AAuthorizationError)
  | Some row =>
      opens now token ctx row ∧
      verify now seen gs token ctx = (update_grant (gr_id row) (λ _, true) use_grant gs, Ok (verified_of row))
      ∨ ¬ opens now token ctx row ∧ (now ≤ gr_expires_at row)%Z ∧
        verify now seen gs token ctx = (gs, Err A2AAuthorizationError)
      ∨ ¬ opens now token ctx row ∧ (gr_expires_at row < now)%Z ∧
        verify now seen gs token ctx
          = (update_grant (gr_id row) is_active (set_status Expired) gs, Err A2AAuthorizationError)
  end.
Proof.
  destruct (find_token seen token) as [row|] eqn:E; unfold verify_token; unfold find_token in E; rewrite E; [|done].
  destruct (find_token_Some _ _ _ E) as (Hin & Hh & Ha).
  destruct (Z.ltb_spec (gr_expires_at row) now) as [Hlt|Hge].
  { right; right. split_and!; [|done|done]. intros []; lia. }
  destruct (gr_one_time row && (1 <=? gr_usage_count row)%Z) eqn:Eu.
  { right; left. apply andb_prop in Eu as [E1 E2%Z.leb_le]. split_and!; [|done|done].
    intros [? ? ? Hu]. specialize (Hu E1). lia. }
  destruct (match gr_target_namespace_id row with Some t => _ | None => _ end) eqn:En.
  { right; left. split_and!; [|done|done]. intros [? ? ? ? Ht]. destruct (gr_target_namespace_id row) as [t|]; [|done].
    rewrite (Ht t eq_refl), String.eqb_refl in En. done. }
  destruct (match gr_target_agent_id row with Some t => _ | None => _ end) eqn:Eg.
  { right; left. split_and!; [|done|done]. intros [? ? ? ? ? Ht]. destruct (gr_target_agent_id row) as [t|]; [|done].
    rewrite (Ht t eq_refl), String.eqb_refl in Eg. done. }
  left. split; [|done]. split; try done.
  - intros E1. rewrite E1 in Eu. simpl in Eu. apply Z.leb_gt in Eu. lia.
  - intros t Et. rewrite Et in En. by apply negb_false_iff, String.eqb_eq in En.
  - intros t Et. rewrite Et in Eg. by apply negb_false_iff, String.eqb_eq in Eg.
Qed.

(** ** How grants evolve *)
Record evolves (g g' : a2a_grant) : Prop := {
  evo_id : gr_id g' = gr_id g;
  evo_hash : gr_token_hash g' = gr_token_hash g;
  evo_owner : gr_owner_namespace_id g' = gr_owner_namespace_id g;
  evo_inactive : gr_status g ≠ Active → gr_status g' ≠ Active
}.
#[local] Instance evolves_preorder : PreOrder evolves.
Proof.
  split; [done|]. intros g1 g2 g3 [A1 A2 A3 A4] [B1 B2 B3 B4]. split; [congruence..|auto].
Qed.

(** Grants keep their places; new ones come last. *)
Definition grants_evolve (gs gs' : grants) : Prop :=
  ∀ i g, gs !! i = Some g → ∃ g', gs' !! i = Some g' ∧ evolves g g'.
#[local] Instance grants_evolve_preorder : PreOrder grants_evolve.
Proof.
  split; [intros gs i g; by exists g|].
  intros gs1 gs2 gs3 H1 H2 i g (g2 & Hg2 & He2)%H1. destruct (H2 i g2 Hg2) as (g3 & Hg3 & He3).
  exists g3. split; [done|]. by etrans.
Qed.

Definition grants_wf (gs : grants) : Prop := NoDup (gr_id <$> gs) ∧ NoDup (gr_token_hash <$> gs).

Lemma update_fmap {B} (k : a2a_grant → B) id p f gs :
  (∀ g, k (f g) = k g) → k <$> update_grant id p f gs = k <$> gs.
Proof.
  intros Hk. unfold update_grant. rewrite <- list_fmap_compose. apply list_fmap_ext. intros ? g _.
  simpl. by case_match.
Qed.

Lemma update_evolves id p f gs : (∀ g, evolves g (f g)) → grants_evolve gs (update_grant id p f gs).
Proof.
  intros Hf i g Hg. unfold update_grant. rewrite list_lookup_fmap, Hg. simpl. eexists. split; [done|].
  case_match; [done|reflexivity].
Qed.

Lemma update_wf id p f gs : (∀ g, evolves g (f g)) → grants_wf gs → grants_wf (update_grant id p f gs).
Proof.
  intros Hf [H1 H2]. split; rewrite update_fmap; try done; intros g; apply (Hf g).
Qed.

Lemma set_status_evolves st g : st ≠ Active → evolves g (set_status st g).
Proof. by split. Qed.
Lemma set_scopes_evolves sc g : evolves g (set_scopes sc g).
Proof. by split. Qed.
Lemma use_grant_evolves g : evolves g (use_grant g).
Proof. split; try done. simpl. by destruct (gr_one_time g). Qed.

(** What an operation may do to the table. *)
Definition safe_change (gs gs' : grants) : Prop := (grants_wf gs → grants_wf gs') ∧ grants_evolve gs gs'.

Lemma safe_refl gs : safe_change gs gs.
Proof. split; [done|reflexivity]. Qed.
Lemma safe_update id p f gs : (∀ g, evolves g (f g)) → safe_change gs (update_grant id p f gs).
Proof. intros. split; [by apply update_wf|by apply update_evolves]. Qed.

Lemma verify_safe now seen gs token ctx : safe_change gs (verify now seen gs token ctx).1.
Proof.
  pose proof (verify_cases now seen gs token ctx) as Hc. destruct (find_token seen token) as [row|].
  - destruct Hc as [[_ ->]|[(_ & _ & ->)|(_ & _ & ->)]]; simpl; [|apply safe_refl|].
    + apply safe_update, use_grant_evolves.
    + apply safe_update. intros. by apply set_status_evolves.
  - rewrite Hc. apply safe_refl.
Qed.

Lemma status_safe now seen gs ctx token gid :
  safe_change gs (verify_grant_status sha256 now seen gs ctx token gid).1.
Proof.
  unfold verify_grant_status. destruct (status_row _ _ _ _) as [[row|]|]; [|apply safe_refl..].
  destruct (is_active row && _); destruct (_ || _); simpl;
    try apply safe_refl; apply safe_update; intros; by apply set_status_evolves.
Qed.

Lemma revoke_safe env (db : adb) id ctx db' b :
  revoke_grant env db id ctx = Ok (db', b) → safe_change (a2a_grants db) (a2a_grants db').
Proof.
  unfold revoke_grant. destruct (Nat.eqb _ _).
  - destruct (_append_a2a_event _ _ _ _ _ _); [|done]. intros [= <- _]. simpl.
    apply safe_update. intros. by apply set_status_evolves.
  - intros [= <- _]. simpl. apply safe_update. intros. by apply set_status_evolves.
Qed.

Lemma update_scopes_safe env now seen (db : adb) ctx id scopes mode db' sc :
  update_grant_scopes env now seen db ctx id scopes mode = Ok (db', sc) →
  safe_change (a2a_grants db) (a2a_grants db').
Proof.
  unfold update_grant_scopes. destruct (List.find _ _) as [row|]; [|done].
  rewrite !ensure_bind. intros (_ & _ & (fs & _ & Hf)%bind_Ok).
  destruct fs as [|s fs]; [done|]. destruct (_append_a2a_event _ _ _ _ _ _); [|done].
  injection Hf as <- _. simpl. apply safe_update, set_scopes_evolves.
Qed.

Lemma create_safe env now token id res seen (db : adb) ctx rq db' r :
  create_grant sha256 env now token id res seen db ctx rq = Ok (db', r) →
  safe_change (a2a_grants db) (a2a_grants db').
Proof.
  unfold create_grant. intros (u & _ & Hc)%bind_Ok. destruct (existsb _ _) eqn:Ex; [done|].
  destruct (_append_a2a_event _ _ _ _ _ _); [|done]. injection Hc as <- _. simpl. split.
  - intros [H1 H2].
    assert (∀ g, g ∈ a2a_grants db → gr_id g ≠ id ∧ gr_token_hash g ≠ hash token) as Hn.
    { intros g Hg. assert (existsb (λ g', String.eqb (gr_id g') id || String.eqb (gr_token_hash g') (hash token))
        (a2a_grants db) ≠ true) as Hne by (by rewrite Ex). rewrite existsb_elem in Hne.
      split; intros E; apply Hne; exists g; (split; [done|]); rewrite E, String.eqb_refl; [done|by apply orb_true_r]. }
    split; rewrite fmap_app; apply NoDup_snoc; try done;
      intros (g & E & Hg)%list_elem_of_fmap; simpl in E; destruct (Hn g Hg); congruence.
  - intros i g Hg. exists g. split; [by apply lookup_app_l_Some|reflexivity].
Qed.

(** ** Histories

    Every statement may have read any earlier (or later) state [seen]. *)
Inductive a2a_move : adb → adb → Prop :=
  | move_create env now token id res seen db ctx rq db' r :
      create_grant sha256 env now token id res seen db ctx rq = Ok (db', r) → a2a_move db db'
  | move_verify now seen db token ctx log :
      a2a_move db (A2ADb (verify now seen (a2a_grants db) token ctx).1 log)
  | move_revoke env db id ctx db' b :
      revoke_grant env db id ctx = Ok (db', b) → a2a_move db db'
  | move_update env now seen db ctx id scopes mode db' sc :
      update_grant_scopes env now seen db ctx id scopes mode = Ok (db', sc) → a2a_move db db'
  | move_status now seen db ctx token gid :
      a2a_move db (A2ADb (verify_grant_status sha256 now seen (a2a_grants db) ctx token gid).1 (a2a_log db)).

Lemma move_safe db db' : a2a_move db db' → safe_change (a2a_grants db) (a2a_grants db').
Proof.
  destruct 1; eauto using create_safe, revoke_safe, update_scopes_safe; simpl;
    [apply verify_safe|apply status_safe].
Qed.

Lemma moves_safe db db' : rtc a2a_move db db' → safe_change (a2a_grants db) (a2a_grants db').
Proof.
  induction 1 as [db|db1 db2 db3 Hm _ [IH1 IH2]]; [apply safe_refl|].
  destruct (move_safe _ _ Hm) as [H1 H2]. split; [auto|by etrans].
Qed.

(** An inactive grant blocks its token. *)
Lemma inactive_refused now gs cur token ctx g :
  grants_wf gs → g ∈ gs → gr_token_hash g = hash token → gr_status g ≠ Active →
  verify now gs cur token ctx = (cur, Err A2AAuthorizationError).
Proof.
  intros [_ Hnd] Hg Hh Hs. pose proof (verify_cases now gs cur token ctx) as Hc.
  destruct (find_token gs token) as [row|] eqn:E; [|done].
  destruct (find_token_Some _ _ _ E) as (Hrow & Hh' & Ha).
  by rewrite (key_inj gr_token_hash gs g row) in Hs by congruence.
Qed.

Lemma inactive_refused_later db db' now cur token ctx g :
  grants_wf (a2a_grants db) → g ∈ a2a_grants db → gr_token_hash g = hash token → gr_status g ≠ Active →
  rtc a2a_move db db' → verify now (a2a_grants db') cur token ctx = (cur, Err A2AAuthorizationError).
Proof.
  intros Hwf [i Hi]%list_elem_of_lookup Hh Hs [H1 H2]%moves_safe.
  destruct (H2 i g Hi) as (g' & Hg' & He). apply (inactive_refused _ _ _ _ _ g'); [auto| | |by apply He].
  - by eapply list_elem_of_lookup_2.
  - by rewrite (evo_hash _ _ He).
Qed.


(** ** The delegation check *)
Lemma check_namespaces_ok now caller gs ns_ids :
  check_namespaces now caller gs ns_ids = true ↔
  ∀ ns, ns ∈ ns_ids → ns = caller ∨ ∃ g, g ∈ gs ∧ delegable now ns caller g = true.
Proof.
  induction ns_ids as [|ns ns_ids IH]; simpl.
  - split; [by intros _ ? ?%elem_of_nil|done].
  - rewrite andb_true_iff, orb_true_iff, String.eqb_eq, existsb_elem, IH. split.
    + intros [H1 H2] x [->|Hx]%elem_of_cons; auto.
    + intros Hall. split; [apply Hall; by left|]. intros x Hx. apply Hall. by right.
Qed.

Lemma delegable_spec now ns caller g :
  delegable now ns caller g = true →
  gr_owner_namespace_id g = ns ∧ gr_status g = Active ∧ (now < gr_expires_at g)%Z ∧ gr_can_delegate g = true ∧
  (gr_target_namespace_id g = None ∨ gr_target_namespace_id g = Some caller).
Proof.
  unfold delegable, is_active. rewrite !andb_true_iff.
  intros [[[[Ho%String.eqb_eq Ht] Hd] Ha%bool_decide_eq_true] Hx%Z.ltb_lt]. split_and!; try done.
  destruct (gr_target_namespace_id g); [right; f_equal; by apply String.eqb_eq|by left].
Qed.

Lemma check_scopes_ok now res caller gs scopes u :
  check_scopes now res caller gs scopes = Ok u →
  ∀ s, s ∈ scopes → ∃ ns_ids, _resolve_scope_namespaces res s = Ok ns_ids ∧
    ∀ ns, ns ∈ ns_ids → ns = caller ∨
      ∃ g, g ∈ gs ∧ gr_owner_namespace_id g = ns ∧ gr_status g = Active ∧ (now < gr_expires_at g)%Z ∧
           gr_can_delegate g = true ∧
           (gr_target_namespace_id g = None ∨ gr_target_namespace_id g = Some caller).
Proof.
  induction scopes as [|s0 scopes IH]; simpl; [by intros _ ? ?%elem_of_nil|].
  intros (ns_ids & Hr & [Hc Hrest]%ensure_bind)%bind_Ok s [->|Hs]%elem_of_cons; [|by apply IH].
  exists ns_ids. split; [done|]. intros ns Hns. rewrite check_namespaces_ok in Hc.
  destruct (Hc ns Hns) as [?|(g & Hg & Hd%delegable_spec)]; [by left|]. right. exists g. tauto.
Qed.

(** ** Properties *)

(** A token opens exactly what was granted.  Verification succeeds exactly
    when an active grant stores the token's hash, has not expired, has not been
    used if it is one-time, and its namespace and agent bindings, where present,
    name the caller; it then reports that grant's owner and scopes, counts one
    use, and expires the grant if it is one-time.  Otherwise the caller gets the
    same authorization error in every case and the grants are unchanged, except
    that an active grant found past its expiry is marked expired. *)
Theorem verify_token_binding now gs token ctx :
  grants_wf gs →
  (∀ gs' v, verify now gs gs token ctx = (gs', Ok v) ↔
     ∃ g, g ∈ gs ∧ opens now token ctx g ∧ v = verified_of g ∧
          gs' = update_grant (gr_id g) (λ _, true) use_grant gs) ∧
  (∀ gs' e, verify now gs gs token ctx = (gs', Err e) →
     e = A2AAuthorizationError ∧ (∀ g, g ∈ gs → ¬ opens now token ctx g) ∧
     ∀ i g g', gs !! i = Some g → gs' !! i = Some g' →
       g' = g ∨ g' = set_status Expired g ∧ gr_status g = Active ∧ (gr_expires_at g < now)%Z).
Proof.
  intros [Hids Hhs]. pose proof (verify_cases now gs gs token ctx) as Hc.
  assert (∀ g, g ∈ gs → opens now token ctx g → find_token gs token = Some g) as Hfind.
  { intros g Hg Ho. destruct (find_token gs token) as [row|] eqn:E.
    - destruct (find_token_Some _ _ _ E) as (? & ? & ?). f_equal.
      apply (key_inj gr_token_hash gs); [done..|]. destruct Ho. congruence.
    - exfalso. unfold find_token in E. eapply List.find_none in E; [|by apply list_elem_of_In].
      destruct Ho as [H1 H2 _ _ _ _]. simpl in E. unfold is_active in E.
      rewrite H1, H2, String.eqb_refl in E. done. }
  split.
  - intros gs' v. split.
    + intros Hv. destruct (find_token gs token) as [row|] eqn:E; [|congruence].
      destruct (find_token_Some _ _ _ E) as (Hin & _).
      destruct Hc as [[Ho Hc]|[(_ & _ & Hc)|(_ & _ & Hc)]]; rewrite Hv in Hc; simplify_eq. by exists row.
    + intros (g & Hg & Ho & -> & ->). rewrite (Hfind g Hg Ho) in Hc.
      destruct Hc as [[_ Hc]|[(Hn & _)|(Hn & _)]]; done.
  - intros gs' e Hv. split_and!.
    + destruct (find_token gs token); [destruct Hc as [[_ Hc]|[(_ & _ & Hc)|(_ & _ & Hc)]]|]; congruence.
    + intros g Hg Ho. rewrite (Hfind g Hg Ho) in Hc.
      destruct Hc as [[_ Hc]|[(Hn & _)|(Hn & _)]]; [congruence|done|done].
    + intros i g g' Hi Hi'. destruct (find_token gs token) as [row|] eqn:E.
      * destruct (find_token_Some _ _ _ E) as (Hin & _ & Ha).
        destruct Hc as [[_ Hc]|[(_ & _ & Hc)|(_ & Hexp & Hc)]]; rewrite Hv in Hc; simplify_eq; [by left|].
        unfold update_grant in Hi'. rewrite list_lookup_fmap, Hi in Hi'. simpl in Hi'. injection Hi' as <-.
        destruct (String.eqb_spec (gr_id g) (gr_id row)) as [Eid|]; [|by left].
        rewrite (key_inj gr_id gs g row) by eauto with rows.
        unfold is_active. rewrite bool_decide_eq_true_2 by done. by right.
      * rewrite Hv in Hc. simplify_eq. by left.
Qed.

(** C30: Revocation is final, expiry is final, and a one-time token opens once.
    Once a grant is not active, its token is refused for ever, to every caller,
    whatever the other agents do (create, verify, revoke, re-scope, check status,
    each perhaps acting on an outdated read); and a verification that succeeds on
    current data with a one-time token leaves the grant inactive, so that every
    later one is refused. *)
Theorem revocation_is_final (db db' : adb) token :
  grants_wf (a2a_grants db) → rtc a2a_move db db' →
  (∀ g, g ∈ a2a_grants db → gr_token_hash g = hash token → gr_status g ≠ Active →
     ∀ now cur ctx, verify now (a2a_grants db') cur token ctx = (cur, Err A2AAuthorizationError)) ∧
  (∀ now gs' v ctx log db'', verify now (a2a_grants db') (a2a_grants db') token ctx = (gs', Ok v) →
     vg_one_time v = true → rtc a2a_move (A2ADb gs' log) db'' →
     ∀ now' cur ctx', verify now' (a2a_grants db'') cur token ctx' = (cur, Err A2AAuthorizationError)).
Proof.
  intros Hwf Hm. split.
  - intros g Hg Hh Hs now cur ctx. by apply (inactive_refused_later db db' now cur token ctx g).
  - intros now gs' v ctx log db'' Hv H1 Hm' now' cur ctx'.
    destruct (moves_safe _ _ Hm) as [Hwf' _]. specialize (Hwf' Hwf).
    pose proof (verify_cases now (a2a_grants db') (a2a_grants db') token ctx) as Hc.
    destruct (find_token (a2a_grants db') token) as [row|] eqn:E; [|congruence].
    destruct (find_token_Some _ _ _ E) as (Hin & Hh & _).
    destruct Hc as [[Ho Hc]|[(_ & _ & Hc)|(_ & _ & Hc)]]; rewrite Hv in Hc; simplify_eq.
    simpl in H1. apply list_elem_of_lookup in Hin as [i Hi].
    apply (inactive_refused_later (A2ADb (update_grant (gr_id row) (λ _, true) use_grant (a2a_grants db')) log)
             db'' now' cur token ctx' (use_grant row)); try done; simpl.
    + apply update_wf; [apply use_grant_evolves|done].
    + apply (list_elem_of_lookup_2 _ i). unfold update_grant. rewrite list_lookup_fmap, Hi. simpl.
      by rewrite String.eqb_refl.
    + by rewrite H1.
Qed.

(** A grant can be created only over the creator's own resources, or those
    of a namespace that has delegated to it.  Every namespace that a scope of the
    new grant resolves to is the creator's own, or owns an active, unexpired,
    delegable grant open to the creator's namespace; the new grant is added,
    active and unused, under its owner and the hash of the token returned, with
    one audit entry, and nothing else changes. *)
Theorem create_grant_confined env now token id res seen (db : adb) ctx rq db' r :
  strip (agent_id ctx) = agent_id ctx →
  create_grant sha256 env now token id res seen db ctx rq = Ok (db', r) →
  (∀ s, s ∈ rq_scopes rq → ∃ ns_ids, _resolve_scope_namespaces res s = Ok ns_ids ∧
     ∀ ns, ns ∈ ns_ids → ns = namespace_id ctx ∨
       ∃ g, g ∈ seen ∧ gr_owner_namespace_id g = ns ∧ gr_status g = Active ∧ (now < gr_expires_at g)%Z ∧
            gr_can_delegate g = true ∧
            (gr_target_namespace_id g = None ∨ gr_target_namespace_id g = Some (namespace_id ctx))) ∧
  (∃ g, a2a_grants db' = a2a_grants db ++ [g] ∧ gr_token_hash g = hash token ∧ gr_status g = Active ∧
     gr_owner_namespace_id g = namespace_id ctx ∧ gr_scopes g = rq_scopes rq ∧ gr_usage_count g = 0%Z ∧
     r = (gr_id g, token, gr_expires_at g)) ∧
  ∃ p, audit_entries (a2a_log db')
       = audit_entries (a2a_log db) ++ [(namespace_id ctx, agent_id ctx, "a2a_grant_created", p)].
Proof.
  intros Hag. unfold create_grant. intros (u & Hs & Hc)%bind_Ok. destruct (existsb _ _); [done|].
  destruct (_append_a2a_event _ _ _ _ _ _) as [log|] eqn:El; [|done]. injection Hc as <- <-. simpl. split_and!.
  - by eapply check_scopes_ok.
  - by eexists.
  - apply audit_append_entries in El as (p & _ & Hp); [|done]. by exists p.
Qed.
End a2a_props.

(** ** Concrete grants

    Audited by the event log; the token hash is a stand-in. *)
#[local] Existing Instance toy_audit.
Definition toy_hash (token : string) : string := "sha256:" +:+ token.

Definition acme : string := "aaaaaaaa-aaaa-aaaa-aaaa-aaaaaaaaaaaa".
Definition bolt : string := "bbbbbbbb-bbbb-bbbb-bbbb-bbbbbbbbbbbb".
Definition memory1 : string := "11111111-1111-1111-1111-111111111111".
Definition demo_resources : resources := Resources {[memory1 := acme]} [].
Definition alice : NamespaceContext := Caller acme "alice".
Definition bob : NamespaceContext := Caller bolt "bob".

Example UUID_normalises : UUID "urn:uuid:{AAAAAAAA-aaaa-aaaa-aaaa-aaaaaaaaaaaa}" = Some acme.
Proof. vm_compute. reflexivity. Qed.
Example UUID_rejects : UUID "pump-7" = None.
Proof. vm_compute. reflexivity. Qed.

Definition memory_scope : A2AScope := MkScope RMemory memory1 ["read"].
Definition demo_request : A2AGrantRequest :=
  GrantRequest (Some bolt) None [memory_scope] 3600 true true.
Definition demo_a2a : @a2a_db log_db := A2ADb [] demo_init.
Definition after {A} (db : @a2a_db log_db) (r : result a2a_error (a2a_db * A)) : a2a_db :=
  match r with Ok (db, _) => db | Err _ => db end.
Definition demo_granted : @a2a_db log_db :=
  after demo_a2a (create_grant toy_hash demo_env 0 "tok" "g1" demo_resources [] demo_a2a alice demo_request).

Lemma demo_granted_created :
  ∃ r, create_grant toy_hash demo_env 0 "tok" "g1" demo_resources [] demo_a2a alice demo_request
       = Ok (demo_granted, r).
Proof. vm_compute. eexists. reflexivity. Qed.

Lemma demo_granted_wf : grants_wf (a2a_grants demo_granted).
Proof. vm_compute. split; apply NoDup_singleton. Qed.

Lemma create_grant_confined_witness :
  ∃ p, audit_entries (a2a_log demo_granted)
       = audit_entries (a2a_log demo_a2a) ++ [(acme, "alice", "a2a_grant_created", p)].
Proof.
  destruct demo_granted_created as [r Hr].
  by apply (create_grant_confined toy_hash demo_env 0 "tok" "g1" demo_resources [] demo_a2a alice demo_request
    demo_granted r eq_refl Hr).
Defined.

Lemma verify_token_binding_witness :
  ∃ gs', verify_token toy_hash 5 (a2a_grants demo_granted) (a2a_grants demo_granted) "tok" bob
         = (gs', Ok (Verified "g1" acme "alice" [memory_scope] 3600000000 true true)).
Proof.
  destruct (verify_token_binding toy_hash 5 (a2a_grants demo_granted) "tok" bob demo_granted_wf) as [H _].
  eexists. apply H. eexists. split_and!; [by left| |vm_compute; reflexivity|reflexivity].
  split; vm_compute; try done; congruence.
Defined.

Lemma revocation_is_final_witness :
  let gs1 := (verify_token toy_hash 5 (a2a_grants demo_granted) (a2a_grants demo_granted) "tok" bob).1 in
  verify_token toy_hash 6 gs1 gs1 "tok" bob = (gs1, Err A2AAuthorizationError).
Proof.
  intros gs1.
  destruct (revocation_is_final toy_hash demo_granted demo_granted "tok" demo_granted_wf (rtc_refl _ _)) as [_ H].
  by apply (H 5%Z gs1 (Verified "g1" acme "alice" [memory_scope] 3600000000 true true) bob demo_init
             (A2ADb gs1 demo_init) (ltac:(vm_compute; reflexivity)) eq_refl (rtc_refl _ _)).
Defined.

(** ** What the code allows besides *)
Definition later_env : call_env := CallEnv 1700000001000000 1700000001000000 "e9" None.

(** Two concurrent uses of a one-time token that read the grant before either
    counted its use both succeed. *)
Example one_time_race :
  let seen := a2a_grants demo_granted in
  let '(gs1, r1) := verify_token toy_hash 5 seen seen "tok" bob in
  let '(gs2, r2) := verify_token toy_hash 5 seen gs1 "tok" bob in
  r1 = r2 ∧ (∃ v, r1 = Ok v ∧ vg_one_time v = true) ∧ gr_usage_count <$> gs2 = [2%Z].
Proof. vm_compute. split_and!; [done|by eexists|done]. Qed.

(** [update_grant_scopes] audits an event type outside the event log's
    vocabulary, so with the event log it never succeeds. *)
Lemma update_grant_scopes_never_commits sha hmac canon jsonb iso uuid env now seen (db : @a2a_db log_db)
    ctx id scopes mode :
  ∃ e, @update_grant_scopes _ _ (event_log_audit sha hmac canon jsonb iso uuid) env now seen db ctx id scopes mode
       = Err e.
Proof.
  unfold update_grant_scopes. destruct (List.find _ _) as [row|]; [|by eexists].
  destruct (is_active row); [|by eexists]. destruct (negb _); [|by eexists]. cbn [ensure mbind result_bind].
  destruct (if String.eqb mode "append" then _ else _) as [[|s fs]|e]; [by eexists| |by eexists]. cbn [mbind result_bind].
  assert (∀ params, @_append_a2a_event _ _ (event_log_audit sha hmac canon jsonb iso uuid) env true (a2a_log db) ctx
            "a2a_grant_updated" params = None) as Hn; [done|]. rewrite Hn. by eexists.
Qed.

(** Re-scoping a grant also skips the check that creating it makes.  With an
    audit trail that took the event, [alice], who cannot share [bolt]'s
    namespace, could re-scope her own grant to it. *)
Definition bolt_scope : A2AScope := MkScope RNamespace bolt ["read"].
Example update_skips_delegation_check :
  create_grant toy_hash later_env 0 "tok2" "g2" demo_resources (a2a_grants demo_granted) demo_granted alice
    (GrantRequest None None [bolt_scope] 3600 false false) = Err A2AScopeViolationError ∧
  match @update_grant_scopes _ _ list_audit () 0 (a2a_grants demo_granted) (A2ADb (a2a_grants demo_granted) [])
          alice "g1" [bolt_scope] "replace" with
  | Ok (db, _) => gr_scopes <$> a2a_grants db = [[bolt_scope]]
  | Err _ => False
  end.
Proof. vm_compute. done. Qed.

(** A delegable grant over one memory lets its receiver share the owner's whole
    namespace. *)
Example delegation_widens :
  gr_scopes <$> a2a_grants (after demo_granted
     (create_grant toy_hash later_env 0 "tok3" "g3" demo_resources (a2a_grants demo_granted) demo_granted bob
        (GrantRequest None None [MkScope RNamespace acme ["read"]] 3600 false false)))
  = [[memory_scope]; [MkScope RNamespace acme ["read"]]].
Proof. vm_compute. done. Qed.

(** A token scoped to one memory searches all memories of the granting agent
    (here with the transaction [append_event] asks for). *)
Example memory_scope_searches_agent :
  (handle_a2a_query_shared toy_hash later_env 5 true (a2a_grants demo_granted) demo_granted "tok" bob
     RMemory (Some memory1) "anything").2 = Ok (acme, "alice").
Proof. vm_compute. reflexivity. Qed.

(** The handler runs outside a transaction, where [append_event] raises: every
    shared query fails, after a one-time token has been used up. *)
Lemma append_event_needs_transaction sha hmac canon jsonb iso uuid env db a :
  in_transaction a = false →
  append_event sha hmac canon jsonb iso uuid env db a = Err EventLogError.
Proof. intros Ha. unfold append_event. by rewrite Ha. Qed.

Lemma query_shared_never_answers (sha : string → string) `{AuditLog Log Env} env now seen (db : @a2a_db Log)
    token ctx rt rid query :
  ∃ e, (handle_a2a_query_shared sha env now false seen db token ctx rt rid query).2 = Err e.
Proof.
  unfold handle_a2a_query_shared. destruct (verify_token _ _ _ _ _ _) as [gs [v|e]]; [|by eexists].
  destruct (_ ← _; _) as [u|e]; by eexists.
Qed.

Example query_shared_uses_up_token :
  let '(db, r) := handle_a2a_query_shared toy_hash later_env 5 false (a2a_grants demo_granted) demo_granted "tok"
                    bob RMemory (Some memory1) "anything" in
  r = Err AuditError ∧ gr_status <$> a2a_grants db = [Expired].
Proof. vm_compute. done. Qed.
