(* ===== verification/Survivorship.v ===== *)
(** * Survivorship: which source's value survives a merge

    Models the pure core of [src/nce/entity_resolution/survivorship.py]: [survive],
    [_elect_winner] and the three-level comparison.  Trust and confidence are
    binary64 floats; [as_of] is a parsed time stamp (a naive one is UTC, as
    [_parse_as_of] reads it; parsing text is not modelled, nor is the
    provenance row written to the ledger). *)
From S2P Require Import Prelude PyFloat PyText.

Record FieldCandidate {V : Type} := Candidate {
  value : V;
  source : string;
  source_trust : float;
  as_of : datetime;
  confidence : float
}.
Arguments FieldCandidate : clear implicits.
Arguments Candidate {V}.

Inductive reason := REASON_SOURCE_TRUST | REASON_RECENCY | REASON_CONFIDENCE.
Inductive survive_error := ValueError.

Section survivorship.
Context {V : Type}.
Abbreviation cand := (FieldCandidate V).

(** A candidate with its [_reason]. *)
Definition tagged : Type := cand * reason.
Definition _with_reason (c : cand) (r : reason) : tagged := (c, r).

Definition _parse_as_of (d : datetime) : Z := utc_us d.

(** [None]: a tie, decided by the next level. *)
Definition _compare_by_trust (current_best : tagged) (challenger : cand) : option tagged :=
  let best_trust := source_trust current_best.1 in
  let chal_trust := source_trust challenger in
  if fltb best_trust chal_trust then Some (_with_reason challenger REASON_SOURCE_TRUST)
  else if fltb chal_trust best_trust then Some current_best
  else None.
Definition _compare_by_recency (current_best : tagged) (challenger : cand) : option tagged :=
  let best_ts := _parse_as_of (as_of current_best.1) in
  let chal_ts := _parse_as_of (as_of challenger) in
  if (best_ts <? chal_ts)%Z then Some (_with_reason challenger REASON_RECENCY)
  else if (chal_ts <? best_ts)%Z then Some (_with_reason current_best.1 REASON_RECENCY)
  else None.
Definition _compare_by_confidence (current_best : tagged) (challenger : cand) : option tagged :=
  let best_conf := confidence current_best.1 in
  let chal_conf := confidence challenger in
  if fltb best_conf chal_conf then Some (_with_reason challenger REASON_CONFIDENCE)
  else if fltb chal_conf best_conf then Some (_with_reason current_best.1 REASON_CONFIDENCE)
  else None.

Definition _compare (current_best : tagged) (challenger : cand) : tagged :=
  match _compare_by_trust current_best challenger with
  | Some d => d
  | None =>
      match _compare_by_recency current_best challenger with
      | Some d => d
      | None => default current_best (_compare_by_confidence current_best challenger)
      end
  end.

Definition _elect_winner (first : cand) (candidates : list cand) : tagged :=
  foldl _compare (_with_reason first REASON_SOURCE_TRUST) candidates.

Definition survive (field_values : list cand) : result survive_error (V * string * reason) :=
  match field_values with
  | [] => raise ValueError
  | c :: cs => let winner := _elect_winner c cs in Ok (value winner.1, source winner.1, winner.2)
  end.

(** ** The precedence order *)

(** [better c d]: [c] beats [d] by trust, else by recency, else by confidence. *)
Definition same_float (x y : float) : Prop := fltb x y = false ∧ fltb y x = false.
Definition better (c d : cand) : Prop :=
  fltb (source_trust d) (source_trust c) = true ∨
  same_float (source_trust c) (source_trust d) ∧
    ((_parse_as_of (as_of d) < _parse_as_of (as_of c))%Z ∨
     _parse_as_of (as_of d) = _parse_as_of (as_of c) ∧ fltb (confidence d) (confidence c) = true).

Definition proper (c : cand) : Prop := is_nan (source_trust c) = false ∧ is_nan (confidence c) = false.

(** The key of a candidate; [better] is the lexicographic order of the keys. *)
Definition key_lex (c d : cand) : Prop :=
  key_lt (fkey (source_trust c)) (fkey (source_trust d)) ∨
  fkey (source_trust c) = fkey (source_trust d) ∧
    ((_parse_as_of (as_of c) < _parse_as_of (as_of d))%Z ∨
     _parse_as_of (as_of c) = _parse_as_of (as_of d) ∧ key_lt (fkey (confidence c)) (fkey (confidence d))).

Lemma same_float_key x y : is_nan x = false → is_nan y = false → same_float x y ↔ fkey x = fkey y.
Proof.
  intros Hx Hy. unfold same_float. rewrite <- !not_true_iff_false, !fltb_key by done. split.
  - intros [H1 H2]. destruct (key_total (fkey x) (fkey y)) as [?|[?|?]]; tauto.
  - intros ->. split; apply key_lt_irrefl.
Qed.

Lemma better_key c d : proper c → proper d → better c d ↔ key_lex d c.
Proof.
  intros [H1 H2] [H3 H4]. unfold better, key_lex.
  rewrite same_float_key, !fltb_key by done. split; intros; break; auto 10.
Qed.

Lemma key_lex_trans c d e : key_lex c d → key_lex d e → key_lex c e.
Proof.
  unfold key_lex. intros [H|(E & [H|(Et & H)])] [H'|(E' & [H'|(Et' & H')])];
    rewrite ?E, ?E' in *; try (left; by eauto using key_lt_trans); right; (split; [congruence|]);
    try (left; lia). right. split; [lia|]. by eapply key_lt_trans.
Qed.
Lemma key_lex_irrefl c : ¬ key_lex c c.
Proof. unfold key_lex. intros [?%key_lt_irrefl|(_ & [?|(_ & ?%key_lt_irrefl)])]; lia || done. Qed.

(** Candidates no level tells apart have the same keys. *)
Definition key_same (c d : cand) : Prop :=
  fkey (source_trust c) = fkey (source_trust d) ∧
  _parse_as_of (as_of c) = _parse_as_of (as_of d) ∧
  fkey (confidence c) = fkey (confidence d).

Lemma key_same_sym c d : key_same c d → key_same d c.
Proof. by intros (? & ? & ?). Qed.

Lemma key_lex_total c d : key_lex c d ∨ key_same c d ∨ key_lex d c.
Proof.
  unfold key_lex, key_same.
  destruct (key_total (fkey (source_trust c)) (fkey (source_trust d))) as [?|[?|?]]; [tauto| |tauto].
  destruct (Z.lt_trichotomy (_parse_as_of (as_of c)) (_parse_as_of (as_of d))) as [?|[?|?]];
    [tauto| |intuition congruence].
  destruct (key_total (fkey (confidence c)) (fkey (confidence d))) as [?|[?|?]]; intuition congruence.
Qed.

Lemma key_same_lex c c' d d' : key_same c c' → key_same d d' → key_lex c d → key_lex c' d'.
Proof. unfold key_same, key_lex. intros (-> & -> & ->) (-> & -> & ->). done. Qed.

Lemma not_lex_trans c d e : ¬ key_lex c d → ¬ key_lex d e → ¬ key_lex c e.
Proof.
  assert (Hself : ∀ x, key_same x x) by done.
  intros H1 H2 H3.
  destruct (key_lex_total c d) as [?|[Hs|Hcd]]; [done| |].
  - apply H2. by apply (key_same_lex c d e e).
  - apply H2. by eapply key_lex_trans.
Qed.

(** ** The election *)
Lemma compare_elects (t : tagged) (d : cand) :
  (_compare t d).1 = d ∧ better d t.1 ∨ (_compare t d).1 = t.1 ∧ ¬ better d t.1.
Proof.
  unfold _compare, _compare_by_trust, _compare_by_recency, _compare_by_confidence, better, same_float.
  destruct (fltb (source_trust t.1) (source_trust d)) eqn:E1; [by auto 10|].
  destruct (fltb (source_trust d) (source_trust t.1)) eqn:E2;
    [right; split; [done|]; intros ?; break; congruence|].
  destruct (Z.ltb_spec (_parse_as_of (as_of t.1)) (_parse_as_of (as_of d))); [by auto 10|].
  destruct (Z.ltb_spec (_parse_as_of (as_of d)) (_parse_as_of (as_of t.1)));
    [right; split; [done|]; intros ?; break; first [lia | congruence]|].
  destruct (fltb (confidence t.1) (confidence d)) eqn:E3; [left; split; [done|]; right; split; [done|]; right; split; [lia|done]|].
  right. split; [by destruct (fltb (confidence d) (confidence t.1))|].
  intros ?; break; first [lia | congruence].
Qed.

(** [first_best l i c]: [c], at [i], is beaten by none and beats all before it. *)
Definition first_best (l : list cand) (i : nat) (c : cand) : Prop :=
  l !! i = Some c ∧ (∀ j d, l !! j = Some d → ¬ better d c) ∧
  (∀ j d, (j < i)%nat → l !! j = Some d → better c d).

Lemma first_best_snoc_keep l i c d :
  first_best l i c → ¬ better d c → first_best (l ++ [d]) i c.
Proof.
  intros (Hi & Hmax & Hfst) Hd. pose proof (lookup_lt_Some _ _ _ Hi) as Hlt. split_and!.
  - by rewrite lookup_app_l.
  - intros j e Hj. apply lookup_snoc_Some in Hj as [[_ Hj]|[_ <-]]; eauto.
  - intros j e Hji Hj. rewrite lookup_app_l in Hj by lia. eauto.
Qed.

Lemma first_best_snoc_new l i c d :
  Forall proper l → proper d → first_best l i c → better d c → first_best (l ++ [d]) (length l) d.
Proof.
  intros Hl Hd (Hi & Hmax & Hfst) Hb.
  assert (Hp : ∀ j e, l !! j = Some e → proper e) by (by apply Forall_lookup).
  assert (Hall : ∀ j e, l !! j = Some e → better d e).
  { intros j e Hj. apply better_key; eauto. apply (better_key d c) in Hb; [|eauto..].
    destruct (key_lex_total e d) as [?|[Hs|Hlt]]; [done| |].
    - destruct (Hmax j e Hj). apply better_key; eauto. apply (key_same_lex c c d e); [done|by apply key_same_sym|done].
    - destruct (Hmax j e Hj). apply better_key; eauto. by eapply key_lex_trans. }
  split_and!.
  - by rewrite lookup_app_r, Nat.sub_diag.
  - intros j e Hj Hbe. apply lookup_snoc_Some in Hj as [[_ Hj]|[_ <-]].
    + pose proof (Hall _ _ Hj) as Hde. apply better_key in Hde, Hbe; eauto.
      by eapply key_lex_irrefl, key_lex_trans.
    + apply better_key in Hbe; eauto. by eapply key_lex_irrefl.
  - intros j e Hji Hj. rewrite lookup_app_l in Hj by lia. eauto.
Qed.

Lemma elect_snoc c l d : _elect_winner c (l ++ [d]) = _compare (_elect_winner c l) d.
Proof. unfold _elect_winner. by rewrite foldl_app. Qed.

Lemma elect_first_best c l :
  Forall proper (c :: l) → ∃ i, first_best (c :: l) i (_elect_winner c l).1.
Proof.
  induction l as [|d l IH] using rev_ind; intros Hp.
  - exists 0%nat. split_and!; [done| |lia]. intros [|j] e Hj; simplify_eq/=.
    inversion_clear Hp. intros Hb%better_key; [|done..]. by eapply key_lex_irrefl.
  - rewrite app_comm_cons in Hp. apply Forall_app in Hp as [Hl Hd].
    rewrite app_comm_cons, elect_snoc. destruct (IH Hl) as (i & Hi).
    destruct (compare_elects (_elect_winner c l) d) as [(-> & Hb)|(-> & Hb)].
    + eexists. eapply first_best_snoc_new; eauto. by inversion_clear Hd.
    + exists i. by apply first_best_snoc_keep.
Qed.

Lemma first_best_unique l i j c d : first_best l i c → first_best l j d → i = j ∧ c = d.
Proof.
  intros (Hi & Hm & Hf) (Hj & Hm' & Hf').
  destruct (lt_eq_lt_dec i j) as [[Hlt| ->]|Hlt].
  - by destruct (Hm _ _ Hj (Hf' _ _ Hlt Hi)).
  - split; congruence.
  - by destruct (Hm' _ _ Hi (Hf _ _ Hlt Hj)).
Qed.

(** [survive] implements its precedence exactly.  For a non-empty list of
    candidates without NaN scores there is one candidate that is beaten by no
    other (by trust, then recency, then confidence) and that beats every
    candidate before it; [survive] returns the value and source of that
    candidate, so equal candidates resolve to the first and nothing else of the
    order matters.  The empty list is the [ValueError]. *)
Theorem survive_elects_first_best (l : list cand) :
  Forall proper l →
  match l with
  | [] => survive l = Err ValueError
  | _ :: _ =>
      (∃ i c, first_best l i c) ∧
      ∀ i c, first_best l i c → ∃ r, survive l = Ok (value c, source c, r)
  end.
Proof.
  intros Hp. destruct l as [|c l]; [done|].
  destruct (elect_first_best c l Hp) as (i & Hi). split; [by eauto|].
  intros j d Hd. destruct (first_best_unique _ _ _ _ _ Hi Hd) as [_ <-]. by eexists.
Qed.
End survivorship.

(** ** Concrete candidates *)
Definition cand_of (v : Z) (trust conf : Z) (us : Z) : FieldCandidate Z :=
  Candidate v "crm"%string (of_ratio trust 10) (Datetime us (Some 0%Z)) (of_ratio conf 10).

Lemma survive_elects_first_best_witness :
  survive [cand_of 1 8 5 10; cand_of 2 9 5 10; cand_of 3 9 5 20; cand_of 4 9 5 20]
    = Ok (3%Z, "crm"%string, REASON_RECENCY) ∧
  ∃ i c, first_best [cand_of 1 8 5 10; cand_of 2 9 5 10; cand_of 3 9 5 20; cand_of 4 9 5 20] i c.
Proof.
  split; [vm_compute; reflexivity|].
  apply (survive_elects_first_best
           [cand_of 1 8 5 10; cand_of 2 9 5 10; cand_of 3 9 5 20; cand_of 4 9 5 20]).
  repeat constructor; vm_compute; reflexivity.
Defined.

(** The reported reason is the level of the last comparison that changed it, not
    of a decision about the winner alone: the same three candidates, with the
    same winner, report "confidence" or "recency" by their order. *)
Lemma reason_depends_on_order :
  survive [cand_of 1 9 5 20; cand_of 2 9 5 10; cand_of 3 9 4 20]
    = Ok (1%Z, "crm"%string, REASON_CONFIDENCE) ∧
  survive [cand_of 1 9 5 20; cand_of 3 9 4 20; cand_of 2 9 5 10]
    = Ok (1%Z, "crm"%string, REASON_RECENCY).
Proof. split; vm_compute; reflexivity. Qed.
