(* ===== verification/EventBus.v ===== *)
(** * EventBus: publishing graph events

    Models [src/nce/events/bus.py] ([publish]) and [src/nce/events/emit.py]: an
    event goes to the outbox when a handler is registered for it or an active
    webhook of the namespace selects it, and is dropped otherwise.  [id] and
    [now] are the column defaults the database fills in; the unconsumed-event
    counter and the subscriber registration ([register_handler], modelled in
    [OutboxRelay]) are elsewhere. *)
From S2P Require Import Prelude PyText OutboxRelay.

Definition _selector_key (node_type op : string) : string := node_type +:+ "." +:+ op.

Section bus.
Context (OUTBOX_HANDLERS : registry).

Definition consumed (hooks : list webhook) (namespace_id event_type : string) : bool :=
  match OUTBOX_HANDLERS !! event_type with
  | Some (_ :: _) => true
  | _ => match get_matching_webhooks hooks namespace_id event_type with [] => false | _ => true end
  end.

Definition publish (hooks : list webhook) (id : string) (now : Z)
    (namespace_id node_type op aggregate_id : string) (payload : json)
    (outbox : list outbox_row) : list outbox_row :=
  let event_type := _selector_key node_type op in
  if consumed hooks namespace_id event_type
  then outbox ++ [OutboxRow id namespace_id node_type aggregate_id event_type payload 0 None now false]
  else outbox.

Definition graph_write_payload (namespace_id node_type op node_id : string) : json :=
  JObj [("node_type", JStr node_type); ("op", JStr op); ("id", JStr node_id); ("namespace", JStr namespace_id)].

Definition emit_graph_write (hooks : list webhook) (id : string) (now : Z)
    (namespace_id node_type op node_id : string) : list outbox_row → list outbox_row :=
  publish hooks id now namespace_id node_type op node_id
    (graph_write_payload namespace_id node_type op node_id).

Definition emit_status_change (hooks : list webhook) (id : string) (now : Z)
    (namespace_id node_type op node_id project_id status : string) : list outbox_row → list outbox_row :=
  publish hooks id now namespace_id node_type op node_id
    (JObj [("node_type", JStr node_type); ("op", JStr op); ("id", JStr node_id);
           ("namespace", JStr namespace_id); ("project_id", JStr project_id); ("status", JStr status)]).

(** A published event is pending: the relay will poll it. *)
Lemma publish_pending hooks id now ns ty op agg payload outbox r :
  r ∈ publish hooks id now ns ty op agg payload outbox → r ∉ outbox → pollable r = true.
Proof.
  unfold publish. case_match; [|by intros]. intros [?|Hr]%elem_of_app; [done|].
  apply list_elem_of_singleton in Hr as ->. intros _. done.
Qed.
End bus.
