(* ===== verification/Inventory.v ===== *)
(** * Inventory: stock rows, the movement ledger and reservations

    Models [src/nce/vertical_modules/inventory/stock.py] (levels, transfers,
    consumption, the graph mirror), [transactions.py] (the ledger's only writer)
    and [reservation.py], with [assert_owner] of
    [src/nce/entity_resolution/ownership.py].  A public function is one database
    transaction of the monad [tx]; every statement reads only rows it locks, so
    committed transactions take effect one after the other.  Quantities are
    [Decimal] in Python and thousandths of a unit in the table ([NUMERIC(18,3)]),
    costs are hundredths ([NUMERIC(18,2)]).  Log output, lock order beyond the
    order of the writes and column values that never vary (confidence, change
    origin) are not modelled. *)
From S2P Require Import Prelude PyText PyStr PyDecimal Txn OutboxRelay EventBus.
Local Open Scope Z_scope.

(** ** Data *)

Record item := Item { qty_on_hand : Z; qty_reserved : Z; qty_blocked : Z; it_created_at : Z }.

Record txn := Txn {
  tx_id : string;
  tx_namespace_id : string;
  tx_sku : string;
  tx_location_id : string;
  tx_delta : Z;
  tx_reason_category : string;
  tx_unit_cost : option Z;
  tx_ref : option string;
  tx_created_at : Z
}.

Record receipt := Receipt {
  gr_id : string;
  gr_namespace_id : string;
  gr_po_ref : string;
  gr_delivery_note_ref : option string;
  gr_location_id : string;
  gr_receipt_hash : string
}.

Record rma := Rma {
  rm_id : string;
  rm_sku : string;
  rm_serial : option string;
  rm_location_id : string;
  rm_qty : Z;
  rm_reason : string;
  rm_weee_state : string;
  rm_disposal_ref : option string;
  rm_stock_movement_state : string
}.

Record po_line := PoLine {
  pl_namespace_id : string;
  pl_po_number : string;
  pl_line_ref : string;
  pl_project_id : option string;
  pl_bom_line_label : option string;
  pl_artnr : option string;
  pl_quantity : decimal;
  pl_status : string
}.

Record inv_db := InvDb {
  namespaces : gset string;
  stock_locations : gset (string * string);                  (* namespace, id *)
  inventory_items : gmap (string * string * string) item;    (* namespace, sku, location *)
  inventory_transactions : list txn;
  goods_receipts : list receipt;
  inventory_rma : gmap (string * string) rma;                (* namespace, rma_ref *)
  procurement_po_lines : list po_line;
  node_ownership_registry : gmap (string * string) string;   (* namespace, node type *)
  kg_nodes : gmap (string * string) string;                  (* namespace, label *)
  kg_edges : gset (string * string * string * string);       (* namespace, subject, predicate, object *)
  inv_outbox : list outbox_row;
  inv_webhooks : list webhook;
  uuids : nat                                                (* ids generated so far *)
}.

Definition set_items f d := InvDb (namespaces d) (stock_locations d) (f (inventory_items d)) (inventory_transactions d)
  (goods_receipts d) (inventory_rma d) (procurement_po_lines d) (node_ownership_registry d) (kg_nodes d)
  (kg_edges d) (inv_outbox d) (inv_webhooks d) (uuids d).
Definition set_ledger f d := InvDb (namespaces d) (stock_locations d) (inventory_items d) (f (inventory_transactions d))
  (goods_receipts d) (inventory_rma d) (procurement_po_lines d) (node_ownership_registry d) (kg_nodes d)
  (kg_edges d) (inv_outbox d) (inv_webhooks d) (uuids d).
Definition set_receipts f d := InvDb (namespaces d) (stock_locations d) (inventory_items d) (inventory_transactions d)
  (f (goods_receipts d)) (inventory_rma d) (procurement_po_lines d) (node_ownership_registry d) (kg_nodes d)
  (kg_edges d) (inv_outbox d) (inv_webhooks d) (uuids d).
Definition set_rmas f d := InvDb (namespaces d) (stock_locations d) (inventory_items d) (inventory_transactions d)
  (goods_receipts d) (f (inventory_rma d)) (procurement_po_lines d) (node_ownership_registry d) (kg_nodes d)
  (kg_edges d) (inv_outbox d) (inv_webhooks d) (uuids d).
Definition set_po_lines f d := InvDb (namespaces d) (stock_locations d) (inventory_items d) (inventory_transactions d)
  (goods_receipts d) (inventory_rma d) (f (procurement_po_lines d)) (node_ownership_registry d) (kg_nodes d)
  (kg_edges d) (inv_outbox d) (inv_webhooks d) (uuids d).
Definition set_kg_nodes f d := InvDb (namespaces d) (stock_locations d) (inventory_items d) (inventory_transactions d)
  (goods_receipts d) (inventory_rma d) (procurement_po_lines d) (node_ownership_registry d) (f (kg_nodes d))
  (kg_edges d) (inv_outbox d) (inv_webhooks d) (uuids d).
Definition set_kg_edges f d := InvDb (namespaces d) (stock_locations d) (inventory_items d) (inventory_transactions d)
  (goods_receipts d) (inventory_rma d) (procurement_po_lines d) (node_ownership_registry d) (kg_nodes d)
  (f (kg_edges d)) (inv_outbox d) (inv_webhooks d) (uuids d).
Definition set_outbox f d := InvDb (namespaces d) (stock_locations d) (inventory_items d) (inventory_transactions d)
  (goods_receipts d) (inventory_rma d) (procurement_po_lines d) (node_ownership_registry d) (kg_nodes d)
  (kg_edges d) (f (inv_outbox d)) (inv_webhooks d) (uuids d).
Definition set_uuids f d := InvDb (namespaces d) (stock_locations d) (inventory_items d) (inventory_transactions d)
  (goods_receipts d) (inventory_rma d) (procurement_po_lines d) (node_ownership_registry d) (kg_nodes d)
  (kg_edges d) (inv_outbox d) (inv_webhooks d) (f (uuids d)).

Inductive inv_error :=
  | ValueError (where_ : string)
  | InsufficientStockError (sku location_id : string) (requested : decimal) (available_on_hand : Z)
  | InsufficientAvailableError (sku location_id project_id : string) (requested : decimal)
      (on_hand reserved blocked : Z)
  | OverReleaseError (sku location_id project_id : string) (requested : decimal) (currently_reserved : Z)
  | OwnershipError (node_type writer_engine : string) (owner_engine : option string)
  | RmaNotFoundError (rma_ref : string)
  | RmaAlreadySettledError (rma_ref stock_movement_state : string)
  | RmaNotWeeeScopeError (rma_ref : string)
  | LedgerDivergenceError (pairs : list (string * string * Z))
  | NumericValueOutOfRangeError
  | ForeignKeyViolationError.

(** ** Coercions *)

Definition optional_text (raw : text_arg) (where_ : string) : result inv_error (option string) :=
  match raw with
  | NoText => Ok None
  | SomeText s => Ok (Some s)
  | NotText => raise (ValueError where_)
  end.

Definition _as_decimal (value : pynum) (where_ : string) : result inv_error decimal :=
  match value with
  | PyInt z => Ok (Dec z 0)
  | PyFloat d | PyDecimal d => Ok d
  | PyNone | PyBool _ | PyNonFinite | PyOther => raise (ValueError where_)
  end.

Definition _quantise_qty (value : decimal) (where_ : string) : result inv_error decimal :=
  match quantize ROUND_HALF_UP (-3) value with Some d => Ok d | None => raise (ValueError where_) end.
Definition _quantise_cost (value : decimal) (where_ : string) : result inv_error decimal :=
  match quantize ROUND_HALF_UP (-2) value with Some d => Ok d | None => raise (ValueError where_) end.

Definition _as_quantity (value : pynum) (where_ : string) : result inv_error decimal :=
  candidate ← _as_decimal value where_;
  candidate ← _quantise_qty candidate where_;
  ensure (negb (dec_leb candidate (Dec 0 (-3)))) (ValueError where_) ≫= λ _,
  Ok candidate.

Definition _as_ns_uuid (raw : option string) (field : string) : result inv_error string :=
  match raw with
  | None | Some EmptyString => raise (ValueError field)
  | Some s => match UUID s with Some u => Ok u | None => raise (ValueError field) end
  end.
Definition _as_location_uuid : option string → string → result inv_error string := _as_ns_uuid.
Definition _as_sku (raw : option string) (where_ : string) : result inv_error string :=
  let sku := strip (default "" raw) in
  ensure (negb (String.eqb sku "")) (ValueError where_) ≫= λ _, Ok sku.

(** The table's unit of a decimal with three places. *)
Definition milli (d : decimal) : Z := at_exp (-3) d.

Abbreviation inv_tx := (tx inv_db inv_error).

(** A value on its way into a [NUMERIC(18, _)] column. *)
Definition numeric18 (n : Z) : inv_tx Z :=
  if Z.abs n <? 10 ^ 18 then mret n else fail NumericValueOutOfRangeError.

Section inventory.
Context (OUTBOX_HANDLERS : registry) (gen_random_uuid : nat → string).

Definition fresh_uuid : inv_tx string :=
  n ← gets uuids; modify (set_uuids S) ≫= λ _, mret (gen_random_uuid n).

(** ** The ledger *)

Definition REASON_TRANSFER_IN := "transfer_in"%string.
Definition REASON_TRANSFER_OUT := "transfer_out"%string.
Definition REASON_CONSUMPTION := "consumption"%string.
Definition REASON_ADJUSTMENT := "adjustment"%string.
Definition REASON_GOODS_RECEIPT := "goods_receipt"%string.
Definition _VALID_REASON_CATEGORIES : list string :=
  [REASON_TRANSFER_IN; REASON_TRANSFER_OUT; REASON_CONSUMPTION; REASON_ADJUSTMENT; REASON_GOODS_RECEIPT].

Definition _assert_sign_matches_category (reason_category : string) (delta : decimal) : result inv_error () :=
  ensure (negb (bool_decide (reason_category ∈ [REASON_TRANSFER_IN; REASON_GOODS_RECEIPT]) &&
                dec_leb delta (Dec 0 (-3)))) (ValueError "delta") ≫= λ _,
  ensure (negb (bool_decide (reason_category ∈ [REASON_TRANSFER_OUT; REASON_CONSUMPTION]) &&
                dec_leb (Dec 0 (-3)) delta)) (ValueError "delta").

Definition insert_txn (t : txn) : inv_tx () :=
  locs ← gets stock_locations;
  if bool_decide ((tx_namespace_id t, tx_location_id t) ∈ locs)
  then modify (set_ledger (λ l, l ++ [t])) else fail ForeignKeyViolationError.

Definition append_transaction (now : Z) (ns_uuid sku location_id : string) (delta : pynum)
    (reason_category : string) (ref : option string) (unit_cost : option pynum) : inv_tx string :=
  lift (ensure (bool_decide (reason_category ∈ _VALID_REASON_CATEGORIES)) (ValueError "reason_category")) ≫= λ _,
  delta ← lift (_as_decimal delta "delta");
  quantised_delta ← lift (_quantise_qty delta "delta");
  lift (ensure (negb (dec_eqb quantised_delta (Dec 0 (-3)))) (ValueError "delta")) ≫= λ _,
  lift (_assert_sign_matches_category reason_category quantised_delta) ≫= λ _,
  quantised_cost ← match unit_cost with
    | None => mret None
    | Some c => c ← lift (_as_decimal c "unit_cost"); c ← lift (_quantise_cost c "unit_cost"); mret (Some c)
    end;
  delta_column ← numeric18 (milli quantised_delta);
  cost_column ← match quantised_cost with
    | None => mret None
    | Some c => n ← numeric18 (at_exp (-2) c); mret (Some n)
    end;
  id ← fresh_uuid;
  insert_txn (Txn id ns_uuid sku location_id delta_column reason_category cost_column ref now) ≫= λ _,
  mret id.

(** ** Stock rows *)

Definition decrement_on_hand (ns_uuid sku location_id : string) (qty : decimal) : inv_tx Z :=
  items ← gets inventory_items;
  match items !! (ns_uuid, sku, location_id) with
  | Some it =>
      if milli qty <=? qty_on_hand it then
        let on_hand := qty_on_hand it - milli qty in
        modify (set_items (<[(ns_uuid, sku, location_id) :=
          Item on_hand (qty_reserved it) (qty_blocked it) (it_created_at it)]>)) ≫= λ _,
        mret on_hand
      else fail (InsufficientStockError sku location_id qty (qty_on_hand it))
  | None => fail (InsufficientStockError sku location_id qty 0)
  end.

(** [INSERT ... ON CONFLICT DO UPDATE]; the foreign key is checked when a row is
    inserted. *)
Definition upsert_on_hand (now : Z) (fk_error : inv_error) (ns_uuid sku location_id : string) (qty : decimal)
    : inv_tx Z :=
  qty_column ← numeric18 (milli qty);
  items ← gets inventory_items;
  locs ← gets stock_locations;
  match items !! (ns_uuid, sku, location_id) with
  | Some it =>
      on_hand ← numeric18 (qty_on_hand it + qty_column);
      modify (set_items (<[(ns_uuid, sku, location_id) :=
        Item on_hand (qty_reserved it) (qty_blocked it) (it_created_at it)]>)) ≫= λ _,
      mret on_hand
  | None =>
      if bool_decide ((ns_uuid, location_id) ∈ locs) then
        modify (set_items (<[(ns_uuid, sku, location_id) := Item qty_column 0 0 now]>)) ≫= λ _,
        mret qty_column
      else fail fk_error
  end.
Definition increment_on_hand (now : Z) : string → string → string → decimal → inv_tx Z :=
  upsert_on_hand now (ValueError "to_location").

(** ** The graph mirror *)

Definition assert_owner (ns_uuid node_type writer_engine : string) : inv_tx () :=
  owners ← gets node_ownership_registry;
  match owners !! (ns_uuid, node_type) with
  | None => fail (OwnershipError node_type writer_engine None)
  | Some owner => if String.eqb owner writer_engine then mret ()
                  else fail (OwnershipError node_type writer_engine (Some owner))
  end.

Definition publish_event (now : Z) (ns_uuid node_type op aggregate_id : string) (payload : json) : inv_tx () :=
  hooks ← gets inv_webhooks;
  if consumed OUTBOX_HANDLERS hooks ns_uuid (_selector_key node_type op) then
    id ← fresh_uuid;
    modify (set_outbox (publish OUTBOX_HANDLERS hooks id now ns_uuid node_type op aggregate_id payload))
  else mret ().

Definition _OWNER_ENGINE := "inventory"%string.
Definition _upsert_kg_node (now : Z) (ns_uuid label entity_type : string) : inv_tx () :=
  assert_owner ns_uuid entity_type _OWNER_ENGINE ≫= λ _,
  modify (set_kg_nodes (<[(ns_uuid, label) := entity_type]>)) ≫= λ _,
  publish_event now ns_uuid entity_type "upserted" label
    (graph_write_payload ns_uuid entity_type "upserted" label).
Definition _upsert_kg_edge (ns_uuid subject predicate object : string) : inv_tx () :=
  modify (set_kg_edges (λ es, {[(ns_uuid, subject, predicate, object)]} ∪ es)).

Definition _stock_location_label (location_id : string) : string := "StockLocation:" +:+ location_id.
Definition _inventory_item_label (sku location_id : string) : string :=
  "InventoryItem:" +:+ sku +:+ ":" +:+ location_id.
Definition mirror_item_at_location (now : Z) (ns_uuid sku location_id : string) : inv_tx () :=
  let location_label := _stock_location_label location_id in
  let item_label := _inventory_item_label sku location_id in
  _upsert_kg_node now ns_uuid location_label "STOCK_LOCATION" ≫= λ _,
  _upsert_kg_node now ns_uuid item_label "INVENTORY_ITEM" ≫= λ _,
  _upsert_kg_edge ns_uuid item_label "at" location_label.

(** ** Levels, transfers, consumption *)

Record level := Level { lv_sku : string; lv_location_id : string; lv_on_hand : Z; lv_reserved : Z;
                        lv_blocked : Z; lv_available : Z }.

Definition level_leb (a b : level) : bool :=
  match String.compare (lv_sku a) (lv_sku b) with
  | Lt => true | Gt => false | Eq => str_leb (lv_location_id a) (lv_location_id b)
  end.
Definition do_stock_levels (namespace_id sku location : option string) : inv_tx (list level) :=
  ns_uuid ← lift (_as_ns_uuid namespace_id "namespace_id");
  sku ← match sku with None => mret None | Some s => s ← lift (_as_sku (Some s) "sku"); mret (Some s) end;
  location ← match location with
    | None => mret None | Some l => l ← lift (_as_location_uuid (Some l) "location"); mret (Some l) end;
  items ← gets inventory_items;
  mret (sorted_by level_leb
    (omap (λ '((ns, s, l), it),
        if String.eqb ns ns_uuid && match sku with Some s' => String.eqb s s' | None => true end
           && match location with Some l' => String.eqb l l' | None => true end
        then Some (Level s l (qty_on_hand it) (qty_reserved it) (qty_blocked it)
                         (qty_on_hand it - qty_reserved it - qty_blocked it))
        else None)
      (map_to_list items))).

Definition _canonical_lock_order (a b : string) : string * string :=
  if str_leb a b then (a, b) else (b, a).

Record transfer_result := Transfer { tr_qty : decimal; tr_from_on_hand : Z; tr_to_on_hand : Z }.

(** A decrement or increment with the ledger row that records it. *)
Definition take_out (now : Z) (ns_uuid sku location_id : string) (qty : decimal) (reason_category : string)
    (ref : option string) : inv_tx Z :=
  on_hand ← decrement_on_hand ns_uuid sku location_id qty;
  append_transaction now ns_uuid sku location_id (PyDecimal (dec_neg qty)) reason_category ref None ≫= λ _,
  mret on_hand.
Definition put_in (now : Z) (ns_uuid sku location_id : string) (qty : decimal) (reason_category : string)
    (ref : option string) : inv_tx Z :=
  on_hand ← increment_on_hand now ns_uuid sku location_id qty;
  append_transaction now ns_uuid sku location_id (PyDecimal qty) reason_category ref None ≫= λ _,
  mret on_hand.

Definition do_transfer_stock (now : Z) (namespace_id sku : option string) (qty : pynum)
    (from_location to_location : option string) : inv_tx transfer_result :=
  ns_uuid ← lift (_as_ns_uuid namespace_id "namespace_id");
  sku ← lift (_as_sku sku "sku");
  qty ← lift (_as_quantity qty "qty");
  from_location ← lift (_as_location_uuid from_location "from_location");
  to_location ← lift (_as_location_uuid to_location "to_location");
  lift (ensure (negb (String.eqb from_location to_location)) (ValueError "to_location")) ≫= λ _,
  let '(first, second) := _canonical_lock_order from_location to_location in
  r ← (if String.eqb first from_location then
         from_on_hand ← take_out now ns_uuid sku from_location qty REASON_TRANSFER_OUT (Some to_location);
         to_on_hand ← put_in now ns_uuid sku to_location qty REASON_TRANSFER_IN (Some from_location);
         mret (from_on_hand, to_on_hand)
       else
         to_on_hand ← put_in now ns_uuid sku to_location qty REASON_TRANSFER_IN (Some from_location);
         from_on_hand ← take_out now ns_uuid sku from_location qty REASON_TRANSFER_OUT (Some to_location);
         mret (from_on_hand, to_on_hand));
  mirror_item_at_location now ns_uuid sku first ≫= λ _,
  mirror_item_at_location now ns_uuid sku second ≫= λ _,
  mret (Transfer qty r.1 r.2).

Definition do_record_consumption (now : Z) (namespace_id sku : option string) (qty : pynum)
    (location : option string) (work_order : text_arg) : inv_tx (decimal * Z) :=
  ns_uuid ← lift (_as_ns_uuid namespace_id "namespace_id");
  sku ← lift (_as_sku sku "sku");
  qty ← lift (_as_quantity qty "qty");
  location ← lift (_as_location_uuid location "location");
  work_order ← lift (optional_text work_order "work_order");
  on_hand ← take_out now ns_uuid sku location qty REASON_CONSUMPTION work_order;
  mirror_item_at_location now ns_uuid sku location ≫= λ _,
  mret (qty, on_hand).

(** ** Reservations *)

Definition _PROJECT_LABEL_PREFIX := "PROJECT:"%string.
Definition _as_project_label (raw : option string) (where_ : string) : result inv_error string :=
  let label := strip (default "" raw) in
  ensure (negb (String.eqb label "")) (ValueError where_) ≫= λ _,
  ensure (String.prefix _PROJECT_LABEL_PREFIX (upper label)) (ValueError where_) ≫= λ _,
  ensure (negb (String.length label <=? String.length _PROJECT_LABEL_PREFIX)%nat) (ValueError where_) ≫= λ _,
  Ok label.

Record reservation := Reserved { rs_sku : string; rs_qty : decimal; rs_on_hand : Z; rs_reserved : Z; rs_blocked : Z;
                                 rs_available : Z }.
Definition reservation_of (sku : string) (qty : decimal) (it : item) : reservation :=
  Reserved sku qty (qty_on_hand it) (qty_reserved it) (qty_blocked it)
    (qty_on_hand it - qty_reserved it - qty_blocked it).

Definition set_reserved (n : Z) (it : item) : item :=
  Item (qty_on_hand it) n (qty_blocked it) (it_created_at it).

Definition do_reserve_stock (namespace_id sku : option string) (qty : pynum) (location project_id : option string)
    : inv_tx reservation :=
  ns_uuid ← lift (_as_ns_uuid namespace_id "namespace_id");
  sku ← lift (_as_sku sku "sku");
  qty ← lift (_as_quantity qty "qty");
  location ← lift (_as_location_uuid location "location");
  project_label ← lift (_as_project_label project_id "do_reserve_stock");
  items ← gets inventory_items;
  match items !! (ns_uuid, sku, location) with
  | Some it =>
      if milli qty <=? qty_on_hand it - qty_reserved it - qty_blocked it then
        reserved ← numeric18 (qty_reserved it + milli qty);
        let it' := set_reserved reserved it in
        modify (set_items (<[(ns_uuid, sku, location) := it']>)) ≫= λ _,
        _upsert_kg_edge ns_uuid (_inventory_item_label sku location) "reserved_for" project_label ≫= λ _,
        mret (reservation_of sku qty it')
      else fail (InsufficientAvailableError sku location project_label qty
                   (qty_on_hand it) (qty_reserved it) (qty_blocked it))
  | None => fail (InsufficientAvailableError sku location project_label qty 0 0 0)
  end.

Definition do_release_stock (namespace_id sku : option string) (qty : pynum) (location project_id : option string)
    : inv_tx reservation :=
  ns_uuid ← lift (_as_ns_uuid namespace_id "namespace_id");
  sku ← lift (_as_sku sku "sku");
  qty ← lift (_as_quantity qty "qty");
  location ← lift (_as_location_uuid location "location");
  project_label ← lift (_as_project_label project_id "do_release_stock");
  items ← gets inventory_items;
  match items !! (ns_uuid, sku, location) with
  | Some it =>
      if milli qty <=? qty_reserved it then
        let it' := set_reserved (qty_reserved it - milli qty) it in
        modify (set_items (<[(ns_uuid, sku, location) := it']>)) ≫= λ _,
        mret (reservation_of sku qty it')
      else fail (OverReleaseError sku location project_label qty (qty_reserved it))
  | None => fail (OverReleaseError sku location project_label qty 0)
  end.
End inventory.
