(* ===== verification/GoodsReceipt.v ===== *)
(** * GoodsReceipt: idempotent inbound deliveries

    Models [src/nce/vertical_modules/inventory/goods_receipt.py]: the aggregation
    of lines, the normalised scans, the receipt hash, and
    [do_record_goods_receipt] with its stock increments, ledger rows, graph
    writes, asset seeding, purchase-order lines and the published events.
    SHA-256 is a parameter.  So is [do_seed_asset_from_bom], which runs in
    transactions of its own on the assets' tables; a failed statement inside one
    of the two [try] blocks that swallow database errors is not modelled. *)
From S2P Require Import Prelude PyText PyStr PyDecimal Txn OutboxRelay EventBus Inventory.
Local Open Scope Z_scope.

(** ** Input and its normal form *)

Record raw_line := RawLine { rl_sku : option string; rl_qty : pynum; rl_unit_cost : pynum }.
Record raw_scan := RawScan { rc_sku : option string; rc_serial : text_arg; rc_barcode : text_arg }.
Record scan := Scan { sc_sku : string; sc_serial : option string; sc_barcode : option string }.
Definition line : Type := string * decimal * option decimal.

Definition _as_po_ref (raw : option string) : result inv_error string :=
  let po_ref := upper (strip (default "" raw)) in
  ensure (negb (String.eqb po_ref "")) (ValueError "po_ref") ≫= λ _, Ok po_ref.
Definition _as_optional_delivery_note_ref (raw : text_arg) : result inv_error (option string) :=
  match raw with
  | NoText => Ok None
  | NotText => raise (ValueError "delivery_note_ref")
  | SomeText s => let normalised := upper (strip s) in
                  Ok (if String.eqb normalised "" then None else Some normalised)
  end.
Definition _as_optional_unit_cost (raw : pynum) (where_ : string) : result inv_error (option decimal) :=
  match raw with
  | PyNone => Ok None
  | _ => d ← _as_decimal raw where_; c ← _quantise_cost d where_; Ok (Some c)
  end.

(** A SKU's total so far, with the distinct costs named for it. *)
Definition add_line (totals : gmap string (decimal * list decimal)) (sku : string) (qty : decimal)
    (unit_cost : option decimal) : gmap string (decimal * list decimal) :=
  let '(total, costs) :=
    match totals !! sku with
    | Some (total, costs) => (dec_add total qty, costs)
    | None => (qty, [])
    end in
  let costs' := match unit_cost with
    | Some c => if existsb (dec_eqb c) costs then costs else costs ++ [c]
    | None => costs
    end in
  <[sku := (total, costs')]> totals.

Fixpoint aggregate_lines (raw_lines : list raw_line) (totals : gmap string (decimal * list decimal))
    : result inv_error (gmap string (decimal * list decimal)) :=
  match raw_lines with
  | [] => Ok totals
  | l :: raw_lines =>
      let sku := strip (default "" (rl_sku l)) in
      ensure (negb (String.eqb sku "")) (ValueError "sku") ≫= λ _,
      qty ← _as_quantity (rl_qty l) "qty";
      unit_cost ← _as_optional_unit_cost (rl_unit_cost l) "unit_cost";
      aggregate_lines raw_lines (add_line totals sku qty unit_cost)
  end.

Definition by_sku {A} (p q : string * A) : bool := str_leb p.1 q.1.
Definition _validate_and_aggregate_lines (raw_lines : list raw_line) : result inv_error (list line) :=
  ensure (match raw_lines with [] => false | _ => true end) (ValueError "lines") ≫= λ _,
  totals ← aggregate_lines raw_lines ∅;
  let sorted := sorted_by by_sku (map_to_list totals) in
  ensure (forallb (λ '(_, (_, costs)), (length costs <=? 1)%nat) sorted) (ValueError "unit_cost") ≫= λ _,
  Ok ((λ '(sku, (total, costs)), (sku, total, head costs)) <$> sorted).

Definition scan_field (t : text_arg) : option (option string) :=
  match t with
  | NoText => Some None
  | NotText => None
  | SomeText s => if String.eqb (strip s) "" then None else Some (Some (strip s))
  end.
Definition normalise_scan (r : raw_scan) : result inv_error scan :=
  let sku := strip (default "" (rc_sku r)) in
  ensure (negb (String.eqb sku "")) (ValueError "scans.sku") ≫= λ _,
  match scan_field (rc_serial r), scan_field (rc_barcode r) with
  | None, _ => raise (ValueError "scans.serial")
  | _, None => raise (ValueError "scans.barcode")
  | Some serial, Some barcode => Ok (Scan sku serial barcode)
  end.
Fixpoint normalise_scans (raw : list raw_scan) : result inv_error (list scan) :=
  match raw with
  | [] => Ok []
  | r :: raw => s ← normalise_scan r; ss ← normalise_scans raw; Ok (s :: ss)
  end.
Definition scan_key (s : scan) : string * string * string :=
  (sc_sku s, default "" (sc_serial s), default "" (sc_barcode s)).
Definition key3_leb (a b : string * string * string) : bool :=
  match String.compare a.1.1 b.1.1 with
  | Lt => true | Gt => false
  | Eq => match String.compare a.1.2 b.1.2 with Lt => true | Gt => false | Eq => str_leb a.2 b.2 end
  end.
Definition _validate_scans (raw_scans : option (list raw_scan)) : result inv_error (list scan) :=
  match raw_scans with
  | None => Ok []
  | Some raw => ss ← normalise_scans raw; Ok (sorted_by (λ a b, key3_leb (scan_key a) (scan_key b)) ss)
  end.

(** ** The idempotency key *)

Definition opt_str (o : option string) : json := match o with Some s => JStr s | None => JNull end.
Definition line_json (l : line) : json :=
  let '(sku, qty, unit_cost) := l in
  JObj [("sku", JStr sku); ("qty", JStr (dec_str qty)); ("unit_cost", opt_str (dec_str <$> unit_cost))].
Definition scan_json (s : scan) : json :=
  JObj [("sku", JStr (sc_sku s)); ("serial", opt_str (sc_serial s)); ("barcode", opt_str (sc_barcode s))].

Definition receipt_payload (po_ref location_id : string) (lines : list line) (scans : list scan)
    (delivery_note_ref : option string) : json :=
  JObj ([("po_ref", JStr po_ref); ("location_id", JStr location_id);
         ("lines", JArr (line_json <$> lines)); ("scans", JArr (scan_json <$> scans))] ++
        match delivery_note_ref with Some n => [("delivery_note_ref", JStr n)] | None => [] end).

Section receipts.
Context (sha256 : string → string) (OUTBOX_HANDLERS : registry) (gen_random_uuid : nat → string).
(** Seeding an asset for [bom_line_id] and [serial]: its report, or the text of
    its exception. *)
Context (do_seed_asset_from_bom : string → string → result string json).

Definition _compute_receipt_hash (po_ref location_id : string) (lines : list line) (scans : list scan)
    (delivery_note_ref : option string) : string :=
  sha256 (json_dumps_compact (receipt_payload po_ref location_id lines scans delivery_note_ref)).

(** ** Statements *)

(** [INSERT INTO goods_receipts ... ON CONFLICT DO NOTHING RETURNING id] *)
Definition insert_receipt (ns_uuid po_ref : string) (delivery_note_ref : option string)
    (location_id receipt_hash : string) : inv_tx (option string) :=
  rows ← gets goods_receipts;
  if existsb (λ r, String.eqb (gr_namespace_id r) ns_uuid && String.eqb (gr_receipt_hash r) receipt_hash) rows
  then mret None
  else
    locs ← gets stock_locations;
    spaces ← gets namespaces;
    if bool_decide ((ns_uuid, location_id) ∈ locs) then
      if bool_decide (ns_uuid ∈ spaces) then
        id ← fresh_uuid gen_random_uuid;
        modify (set_receipts (λ l, l ++ [Receipt id ns_uuid po_ref delivery_note_ref location_id receipt_hash])) ≫= λ _,
        mret (Some id)
      else fail (ValueError "namespace_id")
    else fail (ValueError "location_id").

Definition find_receipt (ns_uuid receipt_hash : string) (rows : list receipt) : option receipt :=
  List.find (λ r, String.eqb (gr_namespace_id r) ns_uuid && String.eqb (gr_receipt_hash r) receipt_hash) rows.

Definition _increment_qty_on_hand (now : Z) : string → string → string → decimal → inv_tx Z :=
  upsert_on_hand now ForeignKeyViolationError.

(** [except NumericValueOutOfRangeError: raise ValueError] *)
Definition fits_column {A} (sku : string) (m : inv_tx A) : inv_tx A := λ d,
  match m d with Err NumericValueOutOfRangeError => Err (ValueError sku) | r => r end.

Record result_line := ResultLine { rl_line : line; rl_on_hand : Z }.
Definition receive_line (now : Z) (ns_uuid location_id receipt_id : string) (l : line) : inv_tx result_line :=
  let '(sku, qty, unit_cost) := l in
  on_hand ← fits_column sku
    (on_hand ← _increment_qty_on_hand now ns_uuid sku location_id qty;
     append_transaction gen_random_uuid now ns_uuid sku location_id (PyDecimal qty) REASON_GOODS_RECEIPT
       (Some receipt_id) (PyDecimal <$> unit_cost) ≫= λ _,
     mret on_hand);
  mret (ResultLine l on_hand).

Definition _goods_receipt_label (receipt_id : string) : string := "GOODS_RECEIPT:" +:+ receipt_id.
Definition _po_label (po_ref : string) : string := "PO:" +:+ upper po_ref.
Definition _sku_label (sku : string) : string := "PRODUCT_SKU:" +:+ upper (strip sku).
Definition _upsert_goods_receipt_node (now : Z) (ns_uuid label : string) : inv_tx () :=
  _upsert_kg_node OUTBOX_HANDLERS gen_random_uuid now ns_uuid label "GOODS_RECEIPT".
Definition graph_writes (now : Z) (ns_uuid po_ref receipt_id : string) (lines : list line) : inv_tx () :=
  let label := _goods_receipt_label receipt_id in
  _upsert_goods_receipt_node now ns_uuid label ≫= λ _,
  _upsert_kg_edge ns_uuid label "against" (_po_label po_ref) ≫= λ _,
  tx_for lines (λ l, _upsert_kg_edge ns_uuid label "of" (_sku_label l.1.1)) ≫= λ _,
  mret ().

(** ** Serials handed to the asset engine, best effort *)

Definition captured_serials (scans : list scan) : list (string * string) :=
  omap (λ s, (λ serial, (sc_sku s, serial)) <$> sc_serial s) scans.
Definition _seed_assets_with_serials (receipt_id : string) (serials : list (string * string)) : list json :=
  (λ '(sku, serial),
     match do_seed_asset_from_bom ("goods-receipt:" +:+ receipt_id +:+ ":" +:+ sku +:+ ":" +:+ serial) serial with
     | Ok seeded => seeded
     | Err e => JObj [("ok", JBool false); ("sku", JStr sku); ("serial", JStr serial); ("error", JStr e)]
     end) <$> serials.

(** ** Purchase-order lines *)

Definition text_of (o : option string) : string := strip (default "" o).
Definition received_qty_by_sku (lines : list line) : gmap string decimal :=
  foldl (λ m l, let k := upper (strip l.1.1) in <[k := dec_add (default (Dec 0 0) (m !! k)) l.1.2]> m) ∅ lines.

Definition line_targets (received : gmap string decimal) (any_article : bool) (rows : list po_line)
    : list (string * string) :=
  omap (λ r, let pid := text_of (pl_project_id r) in let bll := text_of (pl_bom_line_label r) in
             if negb (String.eqb pid "") && negb (String.eqb bll "") &&
                (any_article || bool_decide (is_Some (received !! upper (text_of (pl_artnr r)))))
             then Some (pid, bll) else None) rows.

Definition matched_targets (project_id bom_line_label : string) (received : gmap string decimal)
    (rows : list po_line) : list (string * string) :=
  let found :=
    if negb (String.eqb project_id "") && negb (String.eqb bom_line_label "") then [(project_id, bom_line_label)]
    else match line_targets received false rows with
         | [] => line_targets received true rows
         | ts => ts
         end in
  match found with [] => [(project_id, bom_line_label)] | _ => found end.

Fixpoint unique_targets (ts : list (string * string)) (seen : list (string * string)) : list (string * string) :=
  match ts with
  | [] => seen
  | t :: ts => unique_targets ts (if bool_decide (t ∈ seen) then seen else seen ++ [t])
  end.

(** A line in status ORDERED whose article this delivery covers in full. *)
Definition advances (received : gmap string decimal) (r : po_line) : bool :=
  String.eqb (pl_status r) "ORDERED" &&
  match received !! upper (text_of (pl_artnr r)) with
  | Some rec_qty => negb (dec_ltb rec_qty (pl_quantity r))
  | None => false
  end.
Definition receive_po_line (r : po_line) : po_line :=
  PoLine (pl_namespace_id r) (pl_po_number r) (pl_line_ref r) (pl_project_id r) (pl_bom_line_label r)
    (pl_artnr r) (pl_quantity r) "RECEIVED".
Definition of_po (ns_uuid po_ref : string) (r : po_line) : bool :=
  String.eqb (pl_namespace_id r) ns_uuid && String.eqb (pl_po_number r) po_ref.
Definition advance_po_lines (ns_uuid po_ref : string) (received : gmap string decimal) (rows : list po_line)
    : list po_line :=
  (λ r, if of_po ns_uuid po_ref r && advances received r then receive_po_line r else r) <$> rows.

(** ** The transaction *)

Record receipt_params := ReceiptParams {
  gp_namespace_id : option string;
  gp_po_ref : option string;
  gp_delivery_note_ref : text_arg;
  gp_location_id : option string;
  gp_lines : list raw_line;
  gp_scans : option (list raw_scan);
  gp_project_id : option string;
  gp_bom_line_label : option string;
  gp_project_value : option string       (* [repr] of [float(raw)] when that parses *)
}.

Inductive receipt_outcome :=
  | Duplicate (receipt_id : string)
  | Recorded (receipt_id : string) (lines : list result_line) (assets_seed : option (list json)).

Definition event_payload (ns_uuid receipt_id po_ref : string) (delivery_note_ref : option string)
    (project_value : option string) (lines : list line) (target : string * string) : json :=
  JObj [("namespace_id", JStr ns_uuid); ("receipt_id", JStr receipt_id); ("po_ref", JStr po_ref);
        ("delivery_note_ref", opt_str delivery_note_ref); ("project_id", JStr target.1);
        ("bom_line_label", JStr target.2); ("id", JStr target.2); ("status", JStr "DELIVERED");
        ("project_value", match project_value with Some r => JFloat r | None => JNull end);
        ("lines", JArr (line_json <$> lines))].

Definition do_record_goods_receipt (now : Z) (p : receipt_params) : inv_tx receipt_outcome :=
  ns_uuid ← lift (_as_ns_uuid (gp_namespace_id p) "namespace_id");
  po_ref ← lift (_as_po_ref (gp_po_ref p));
  delivery_note_ref ← lift (_as_optional_delivery_note_ref (gp_delivery_note_ref p));
  location_id ← lift (_as_location_uuid (gp_location_id p) "location_id");
  lines ← lift (_validate_and_aggregate_lines (gp_lines p));
  scans ← lift (_validate_scans (gp_scans p));
  let receipt_hash := _compute_receipt_hash po_ref location_id lines scans delivery_note_ref in
  inserted ← insert_receipt ns_uuid po_ref delivery_note_ref location_id receipt_hash;
  match inserted with
  | None =>
      rows ← gets goods_receipts;
      mret (Duplicate (default "" (gr_id <$> find_receipt ns_uuid receipt_hash rows)))
  | Some receipt_id =>
      result_lines ← tx_for lines (receive_line now ns_uuid location_id receipt_id);
      graph_writes now ns_uuid po_ref receipt_id lines ≫= λ _,
      let serials := captured_serials scans in
      let assets_seed := match serials with [] => None | _ => Some (_seed_assets_with_serials receipt_id serials) end in
      let project_id := text_of (gp_project_id p) in
      let bom_line_label := text_of (gp_bom_line_label p) in
      all_rows ← gets procurement_po_lines;
      let received := received_qty_by_sku lines in
      let po_line_rows := List.filter (of_po ns_uuid po_ref) all_rows in
      (if negb (String.eqb project_id "") && negb (String.eqb bom_line_label "") then mret ()
       else modify (set_po_lines (advance_po_lines ns_uuid po_ref received))) ≫= λ _,
      let targets := unique_targets (matched_targets project_id bom_line_label received po_line_rows) [] in
      tx_for targets (λ t, publish_event OUTBOX_HANDLERS gen_random_uuid now ns_uuid "GOODS_RECEIPT" "created"
        (_goods_receipt_label receipt_id)
        (event_payload ns_uuid receipt_id po_ref delivery_note_ref (gp_project_value p) lines t)) ≫= λ _,
      mret (Recorded receipt_id result_lines assets_seed)
  end.
End receipts.
