(* ===== verification/StockReturns.v ===== *)
(** * StockReturns: returned goods and their settlement

    Models [src/nce/vertical_modules/inventory/rma.py]: recording an RMA, claiming
    it, and the two legs that settle it (restocking, disposal as electronic
    waste). *)
From S2P Require Import Prelude PyText PyStr PyDecimal Txn OutboxRelay EventBus Inventory.
Local Open Scope Z_scope.

Definition WEEE_NOT_APPLICABLE := "not_applicable"%string.
Definition WEEE_PENDING := "pending"%string.
Definition WEEE_AWAITING_COLLECTION := "awaiting_collection"%string.
Definition WEEE_DISPOSED := "disposed"%string.
Definition _VALID_WEEE_STATES : list string :=
  [WEEE_NOT_APPLICABLE; WEEE_PENDING; WEEE_AWAITING_COLLECTION; WEEE_DISPOSED].
Definition STOCK_MOVEMENT_PENDING := "pending"%string.
Definition _STATE_RESTOCKED := "restocked"%string.
Definition _STATE_DISPOSED := "disposed"%string.

Definition _as_required_text (raw : option string) (field : string) : result inv_error string :=
  let text := strip (default "" raw) in
  ensure (negb (String.eqb text "")) (ValueError field) ≫= λ _, Ok text.
Definition _as_optional_text (raw : option string) : option string :=
  match raw with
  | None => None
  | Some r => let text := strip r in if String.eqb text "" then None else Some text
  end.
Definition _assert_weee_state (weee_state : string) : result inv_error () :=
  ensure (bool_decide (weee_state ∈ _VALID_WEEE_STATES)) (ValueError "weee_state").
Definition _assert_disposal_ref_present_when_disposed (weee_state : string) (disposal_ref : option string)
    : result inv_error () :=
  ensure (negb (String.eqb weee_state WEEE_DISPOSED) ||
          match disposal_ref with Some r => negb (String.eqb r "") | None => false end)
    (ValueError "disposal_ref").

Section returns.
Context (OUTBOX_HANDLERS : registry) (gen_random_uuid : nat → string).

Definition _inventory_rma_label (rma_ref : string) : string := "InventoryRma:" +:+ rma_ref.
Definition _upsert_inventory_rma_kg_node (now : Z) (ns_uuid label : string) : inv_tx () :=
  _upsert_kg_node OUTBOX_HANDLERS gen_random_uuid now ns_uuid label "INVENTORY_RMA".

Record rma_params := RmaParams {
  rp_namespace_id : option string;
  rp_rma_ref : option string;
  rp_sku : option string;
  rp_location : option string;
  rp_qty : pynum;
  rp_reason : option string;
  rp_serial : option string;
  rp_weee_state : option string;
  rp_disposal_ref : option string
}.

(** [raw or fallback] *)
Definition or_default (fallback : string) (raw : option string) : string :=
  match raw with None | Some EmptyString => fallback | Some s => s end.

Definition do_record_rma (now : Z) (p : rma_params) : inv_tx (bool * rma) :=
  ns_uuid ← lift (_as_ns_uuid (rp_namespace_id p) "namespace_id");
  rma_ref ← lift (_as_required_text (rp_rma_ref p) "rma_ref");
  sku ← lift (_as_sku (rp_sku p) "do_record_rma");
  location_id ← lift (_as_location_uuid (rp_location p) "do_record_rma");
  qty ← lift (_as_decimal (rp_qty p) "qty");
  qty ← lift (_quantise_qty qty "qty");
  lift (ensure (negb (dec_leb qty (Dec 0 (-3)))) (ValueError "qty")) ≫= λ _,
  reason ← lift (_as_required_text (rp_reason p) "reason");
  let serial := _as_optional_text (rp_serial p) in
  let weee_state := strip (or_default WEEE_NOT_APPLICABLE (rp_weee_state p)) in
  lift (_assert_weee_state weee_state) ≫= λ _,
  let disposal_ref := _as_optional_text (rp_disposal_ref p) in
  lift (_assert_disposal_ref_present_when_disposed weee_state disposal_ref) ≫= λ _,
  qty_column ← numeric18 (milli qty);
  rmas ← gets inventory_rma;
  row ← match rmas !! (ns_uuid, rma_ref) with
    | Some r => mret (false, r)
    | None =>
        locs ← gets stock_locations;
        if bool_decide ((ns_uuid, location_id) ∈ locs) then
          id ← fresh_uuid gen_random_uuid;
          let r := Rma id sku serial location_id qty_column reason weee_state disposal_ref STOCK_MOVEMENT_PENDING in
          modify (set_rmas (<[(ns_uuid, rma_ref) := r]>)) ≫= λ _, mret (true, r)
        else fail ForeignKeyViolationError
    end;
  _upsert_inventory_rma_kg_node now ns_uuid (_inventory_rma_label rma_ref) ≫= λ _,
  mret row.

Definition set_movement (target_state : string) (r : rma) : rma :=
  Rma (rm_id r) (rm_sku r) (rm_serial r) (rm_location_id r) (rm_qty r) (rm_reason r)
      (rm_weee_state r) (rm_disposal_ref r) target_state.
Definition set_disposed (disposal_ref : option string) (r : rma) : rma :=
  Rma (rm_id r) (rm_sku r) (rm_serial r) (rm_location_id r) (rm_qty r) (rm_reason r)
      WEEE_DISPOSED disposal_ref (rm_stock_movement_state r).

Definition _claim_rma (ns_uuid rma_ref target_state : string) (disposal_ref : option string) : inv_tx rma :=
  rmas ← gets inventory_rma;
  match rmas !! (ns_uuid, rma_ref) with
  | None => fail (RmaNotFoundError rma_ref)
  | Some r =>
      let disposing := String.eqb target_state _STATE_DISPOSED in
      let pending := String.eqb (rm_stock_movement_state r) STOCK_MOVEMENT_PENDING in
      let in_scope := negb (String.eqb (rm_weee_state r) WEEE_NOT_APPLICABLE) in
      if pending && (negb disposing || in_scope) then
        let r' := set_movement target_state (if disposing then set_disposed disposal_ref r else r) in
        modify (set_rmas (<[(ns_uuid, rma_ref) := r']>)) ≫= λ _, mret r'
      else if disposing && negb in_scope then fail (RmaNotWeeeScopeError rma_ref)
      else fail (RmaAlreadySettledError rma_ref (rm_stock_movement_state r))
  end.

Record rma_leg := RmaLeg { lg_rma_ref : string; lg_sku : string; lg_location_id : string; lg_qty : Z; lg_on_hand : Z }.

Definition _run_rma_leg (now : Z) (namespace_id rma_ref : option string) (target_state : string) (sign : Z)
    (disposal_ref : option string) : inv_tx rma_leg :=
  ns_uuid ← lift (_as_ns_uuid namespace_id "namespace_id");
  rma_ref ← lift (_as_required_text rma_ref "rma_ref");
  claimed ← _claim_rma ns_uuid rma_ref target_state disposal_ref;
  let sku := rm_sku claimed in
  let location_id := rm_location_id claimed in
  let qty := of_numeric 3 (rm_qty claimed) in
  on_hand ← (if 0 <? sign then increment_on_hand now ns_uuid sku location_id qty
             else decrement_on_hand ns_uuid sku location_id qty);
  append_transaction gen_random_uuid now ns_uuid sku location_id
    (PyDecimal (if 0 <? sign then qty else dec_neg qty)) REASON_ADJUSTMENT
    (Some ("rma:" +:+ rma_ref)) None ≫= λ _,
  mirror_item_at_location OUTBOX_HANDLERS gen_random_uuid now ns_uuid sku location_id ≫= λ _,
  mret (RmaLeg rma_ref sku location_id (rm_qty claimed) on_hand).

Definition do_restock_from_rma (now : Z) (namespace_id rma_ref : option string) : inv_tx rma_leg :=
  _run_rma_leg now namespace_id rma_ref _STATE_RESTOCKED 1 None.

Definition do_dispose_rma_weee (now : Z) (namespace_id rma_ref disposal_ref : option string) : inv_tx rma_leg :=
  let disposal_ref := _as_optional_text disposal_ref in
  lift (_assert_disposal_ref_present_when_disposed WEEE_DISPOSED disposal_ref) ≫= λ _,
  _run_rma_leg now namespace_id rma_ref _STATE_DISPOSED (-1) disposal_ref.
End returns.
