(* ===== verification/Kitting.v ===== *)
(** * Kitting: reserving a project's kits and packages line by line

    Models [src/nce/vertical_modules/inventory/kitting.py].  Every line is a
    transaction of its own, so a kit passes a database along and an exception
    leaves what earlier lines committed; [between] is what other transactions
    commit before each of them.  The report's [float] copies are left out. *)
From S2P Require Import Prelude PyText PyStr PyDecimal Txn OutboxRelay EventBus Inventory.
Local Open Scope Z_scope.

Record component := Component { cm_sku : option string; cm_component_sku : option string; cm_qty : option pynum }.
(** [ki_components] and [ki_accessories] are [None] when the key is absent and
    [Some (Some [])] for an empty or null value; [Some None] is any other value
    that is not a list. *)
Record kit_item := KitItem {
  ki_sku : option string;
  ki_qty : option pynum;                 (* [None]: the key is absent *)
  ki_is_package : bool;
  ki_is_kit : bool;
  ki_type : option string;
  ki_item_type : option string;
  ki_components : option (option (list component));
  ki_accessories : option (option (list component));
  ki_include_parent : bool;              (* [raw_item.get("include_parent", True)] *)
  ki_live : bool                         (* asks to expand live accessory edges *)
}.

Inductive item_type := Package | KitBase | KitComponent | Standard.
#[global] Instance item_type_eq : EqDecision item_type.
Proof. solve_decision. Defined.
Record target := Target { tg_sku : string; tg_qty : decimal; tg_item_type : item_type; tg_parent_sku : option string }.

Definition is_text (s : string) (o : option string) : bool :=
  match o with Some t => String.eqb t s | None => false end.

(** [raw_item.get("components") or raw_item.get("accessories") or []] *)
Definition raw_components (i : kit_item) : result inv_error (list component) :=
  let get f := match f i with Some (Some []) | None => None | Some v => Some v end in
  match get ki_components with
  | Some (Some cs) => Ok cs
  | Some None => raise (ValueError "components")
  | None => match get ki_accessories with
            | Some (Some cs) => Ok cs
            | Some None => raise (ValueError "components")
            | None => Ok []
            end
  end.

Definition component_target (qty : decimal) (parent : string) (c : component) : result inv_error target :=
  comp_sku ← _as_sku (match cm_sku c with Some EmptyString | None => cm_component_sku c | s => s end) "components.sku";
  comp_qty_ratio ← _as_quantity (default (PyInt 1) (cm_qty c)) "components.qty";
  Ok (Target comp_sku (dec_mul qty comp_qty_ratio) KitComponent (Some parent)).

Fixpoint mapR {A B E} (f : A → result E B) (l : list A) : result E (list B) :=
  match l with
  | [] => Ok []
  | x :: l => y ← f x; ys ← mapR f l; Ok (y :: ys)
  end.

Definition item_targets (disallow_unconfirmed_accessories : bool) (i : kit_item) : result inv_error (list target) :=
  ensure (negb (disallow_unconfirmed_accessories && ki_live i)) (ValueError "items") ≫= λ _,
  sku ← _as_sku (ki_sku i) "items.sku";
  qty ← _as_quantity (default (PyInt 1) (ki_qty i)) "items.qty";
  let is_package := ki_is_package i || is_text "package" (ki_type i) || is_text "package" (ki_item_type i) in
  let is_kit := ki_is_kit i || is_text "kit" (ki_type i) || is_text "kit" (ki_item_type i)
                || bool_decide (is_Some (ki_components i)) || bool_decide (is_Some (ki_accessories i)) in
  if is_package then Ok [Target sku qty Package None]
  else if is_kit then
    cs ← raw_components i;
    let parent := if ki_include_parent i then [Target sku qty KitBase (Some sku)] else [] in
    comps ← mapR (component_target qty sku) cs;
    Ok (parent ++ comps)
  else Ok [Target sku qty Standard None].

Definition _expand_kit_targets (items : list kit_item) (disallow_unconfirmed_accessories : bool)
    : result inv_error (list target) :=
  tss ← mapR (item_targets disallow_unconfirmed_accessories) items; Ok (concat tss).

(** ** Many transactions *)

Section kitting.
(** What others commit before the [n]-th transaction of the call. *)
Context (between : nat → inv_db → inv_db).

Record kit_summary := Summary { total_lines : nat; packages : nat; kit_components : nat; standard_items : nat }.
Definition count_type (p : item_type → bool) (l : list target) : nat := length (List.filter (p ∘ tg_item_type) l).
Definition summary (targets : list target) : kit_summary :=
  Summary (length targets)
    (count_type (λ t, match t with Package => true | _ => false end) targets)
    (count_type (λ t, match t with KitBase | KitComponent => true | _ => false end) targets)
    (count_type (λ t, match t with Standard => true | _ => false end) targets).

(** The loop of [do_reserve_kit]: the lines reserved, or how far it got. *)
Fixpoint reserve_lines (n : nat) (ns_uuid location project_label : string) (targets : list target)
    (completed : list target) (lines : list reservation) (d : inv_db)
    : nat * inv_db * (list reservation + list target * inv_error) :=
  match targets with
  | [] => (n, d, inl lines)
  | t :: targets =>
      let d := between n d in
      match do_reserve_stock (Some ns_uuid) (Some (tg_sku t)) (PyDecimal (tg_qty t)) (Some location)
              (Some project_label) d with
      | Ok (d', r) => reserve_lines (S n) ns_uuid location project_label targets (completed ++ [t]) (lines ++ [r]) d'
      | Err e => (S n, d, inr (completed, e))
      end
  end.

(** Releasing the completed lines, newest first; a failure is logged. *)
Fixpoint roll_back (n : nat) (ns_uuid location project_label : string) (completed : list target) (d : inv_db)
    : inv_db :=
  match completed with
  | [] => d
  | t :: completed =>
      let d := between n d in
      let d' := match do_release_stock (Some ns_uuid) (Some (tg_sku t)) (PyDecimal (tg_qty t)) (Some location)
                        (Some project_label) d with
                | Ok (d', _) => d'
                | Err _ => d
                end in
      roll_back (S n) ns_uuid location project_label completed d'
  end.

Definition kit_args (namespace_id location project_id : option string) (raw_items : list kit_item) (where_ : string)
    : result inv_error (string * string * string * list target) :=
  ns_uuid ← _as_ns_uuid namespace_id "namespace_id";
  location ← _as_location_uuid location "location";
  project_label ← _as_project_label project_id where_;
  ensure (match raw_items with [] => false | _ => true end) (ValueError "items") ≫= λ _,
  targets ← _expand_kit_targets raw_items true;
  Ok (ns_uuid, location, project_label, targets).

Definition do_reserve_kit (namespace_id location project_id : option string) (raw_items : list kit_item)
    (all_or_nothing : bool) (d : inv_db) : inv_db * result inv_error (list reservation * kit_summary) :=
  match kit_args namespace_id location project_id raw_items "do_reserve_kit" with
  | Err e => (d, Err e)
  | Ok (ns_uuid, location, project_label, targets) =>
      match reserve_lines 0 ns_uuid location project_label targets [] [] d with
      | (_, d, inl lines) => (d, Ok (lines, summary targets))
      | (n, d, inr (completed, e)) =>
          match e with
          | InsufficientAvailableError _ _ _ _ _ _ _ =>
              if all_or_nothing then (roll_back n ns_uuid location project_label (reverse completed) d, Err e)
              else (d, Err e)
          | _ => (d, Err e)
          end
      end
  end.

Fixpoint release_lines (n : nat) (ns_uuid location project_label : string) (targets : list target)
    (lines : list reservation) (d : inv_db) : inv_db * result inv_error (list reservation) :=
  match targets with
  | [] => (d, Ok lines)
  | t :: targets =>
      let d := between n d in
      match do_release_stock (Some ns_uuid) (Some (tg_sku t)) (PyDecimal (tg_qty t)) (Some location)
              (Some project_label) d with
      | Ok (d', r) => release_lines (S n) ns_uuid location project_label targets (lines ++ [r]) d'
      | Err e => (d, Err e)
      end
  end.

Definition do_release_kit (namespace_id location project_id : option string) (raw_items : list kit_item)
    (d : inv_db) : inv_db * result inv_error (list reservation * kit_summary) :=
  match kit_args namespace_id location project_id raw_items "do_release_kit" with
  | Err e => (d, Err e)
  | Ok (ns_uuid, location, project_label, targets) =>
      match release_lines 0 ns_uuid location project_label targets [] d with
      | (d, Ok lines) => (d, Ok (lines, summary targets))
      | (d, Err e) => (d, Err e)
      end
  end.
End kitting.
