(* ===== verification/Valuation.v ===== *)
(** * Valuation: what the ledger says the stock is worth, and whether it agrees

    Models the read side of [transactions.py] ([_compute_fifo],
    [_compute_average], [do_valuation]) and [reconcile.py] of
    [src/nce/vertical_modules/inventory/].  Quantities are sums of
    [NUMERIC(18,3)] columns, exact in 28 digits, and stay in thousandths; money
    is computed in decimals with their rounding. *)
From S2P Require Import Prelude Txn PyText PyStr PyDecimal OutboxRelay EventBus Inventory.
Local Open Scope Z_scope.

Record val_row := ValRow { vr_delta : Z; vr_unit_cost : option Z }.
Record _ValuationResult := ValResult { total_value : decimal; remaining_qty : Z }.

(** ** First in, first out *)

Definition layers : Type := list (Z * Z).

(** The inner [while]: take [to_remove] from the oldest layers.  A layer that is
    not used up leaves nothing to remove, which ends the loop. *)
Fixpoint remove_oldest (to_remove : Z) (ls : layers) : layers :=
  match ls with
  | [] => []
  | (qty, cost) :: rest =>
      if 0 <? to_remove then
        let take := Z.min qty to_remove in
        if qty - take <=? 0 then remove_oldest (to_remove - take) rest
        else (qty - take, cost) :: rest
      else ls
  end.

Definition fifo_step (ls : layers) (row : val_row) : layers :=
  if 0 <? vr_delta row then ls ++ [(vr_delta row, default 0 (vr_unit_cost row))]
  else remove_oldest (- vr_delta row) ls.
Definition fifo_layers (rows : list val_row) : layers := foldl fifo_step [] rows.

Definition layer_value (l : Z * Z) : decimal := dec_mul (of_numeric 3 l.1) (of_numeric 2 l.2).
Definition layers_value (ls : layers) : decimal := foldl dec_add (Dec 0 (-2)) (layer_value <$> ls).
Definition layers_qty (ls : layers) : Z := foldr Z.add 0 ls.*1.

Definition _compute_fifo (rows : list val_row) : _ValuationResult :=
  let ls := fifo_layers rows in ValResult (layers_value ls) (layers_qty ls).

(** ** Weighted average *)

Definition average_step (s : decimal * Z) (row : val_row) : decimal * Z :=
  let '(running_value, running_qty) := s in
  if 0 <? vr_delta row then
    (dec_add running_value (dec_mul (of_numeric 3 (vr_delta row)) (of_numeric 2 (default 0 (vr_unit_cost row)))),
     running_qty + vr_delta row)
  else
    let qty_out := Z.min (- vr_delta row) running_qty in
    let running_value' :=
      if 0 <? running_qty then
        let avg_cost := dec_div running_value (of_numeric 3 running_qty) in
        dec_sub running_value (dec_mul (of_numeric 3 qty_out) avg_cost)
      else running_value in
    (running_value', running_qty - qty_out).
Definition _compute_average (rows : list val_row) : _ValuationResult :=
  let s := foldl average_step (Dec 0 (-2), 0) rows in ValResult s.1 s.2.

Definition _compute_valuation (rows : list val_row) (method : string) : result inv_error _ValuationResult :=
  if String.eqb method "fifo" then Ok (_compute_fifo rows)
  else if String.eqb method "average" then Ok (_compute_average rows)
  else raise (ValueError "method").

(** [ORDER BY created_at ASC, id ASC] *)
Definition txn_leb (a b : txn) : bool :=
  (tx_created_at a <? tx_created_at b) || ((tx_created_at a =? tx_created_at b) && str_leb (tx_id a) (tx_id b)).
Definition at_pair (ns sku loc : string) (t : txn) : bool :=
  String.eqb (tx_namespace_id t) ns && String.eqb (tx_sku t) sku && String.eqb (tx_location_id t) loc.
Definition valuation_rows (ns sku loc : string) (ledger : list txn) : list val_row :=
  (λ t, ValRow (tx_delta t) (tx_unit_cost t)) <$> sorted_by txn_leb (List.filter (at_pair ns sku loc) ledger).

(** [method] is what the configuration file holds. *)
Definition do_valuation (method : option string) (namespace_id sku location : option string)
    : inv_tx (decimal * Z) :=
  ns_uuid ← lift (_as_ns_uuid namespace_id "namespace_id");
  sku ← lift (_as_sku sku "sku");
  location_id ← lift (_as_location_uuid location "location");
  let method := default "" method in
  lift (ensure (bool_decide (method ∈ ["fifo"; "average"]%string)) (ValueError "method")) ≫= λ _,
  ledger ← gets inventory_transactions;
  r ← lift (_compute_valuation (valuation_rows ns_uuid sku location_id ledger) method);
  value ← lift (_quantise_cost (total_value r) "value");
  mret (value, remaining_qty r).

(** ** Dead stock against the ledger *)

Record dead_pair := DeadPair {
  dp_sku : string;
  dp_location_id : string;
  dp_on_hand : Z;
  dp_items_created_at : Z;
  dp_ledger_txn_count : nat;
  dp_ledger_sum : option Z;
  dp_ledger_first_at : option Z
}.

Record DeadStockBuckets := Buckets {
  balanced : list dead_pair;
  unreconcilable_opening_balance : list dead_pair;
  divergent : list (dead_pair * Z)
}.

Definition unreconcilable (r : dead_pair) : bool :=
  (dp_ledger_txn_count r =? 0)%nat ||
  match dp_ledger_first_at r, dp_ledger_sum r with
  | Some first_at, Some _ => dp_items_created_at r <? first_at
  | _, _ => true
  end.
Definition difference (r : dead_pair) : Z := dp_on_hand r - default 0 (dp_ledger_sum r).

Definition classify_dead_stock_pairs (rows : list dead_pair) : DeadStockBuckets :=
  let comparable := List.filter (λ r, negb (unreconcilable r)) rows in
  Buckets (List.filter (λ r, difference r =? 0) comparable)
    (List.filter unreconcilable rows)
    ((λ r, (r, difference r)) <$> List.filter (λ r, negb (difference r =? 0)) comparable).

Definition ledger_of (ns sku loc : string) (d : inv_db) : list txn :=
  List.filter (at_pair ns sku loc) (inventory_transactions d).
Definition sum_delta (ts : list txn) : Z := foldr (λ t n, tx_delta t + n) 0 ts.
Definition min_of (l : list Z) : option Z := match l with [] => None | x :: l => Some (foldr Z.min x l) end.
Definition max_of (l : list Z) : option Z := match l with [] => None | x :: l => Some (foldr Z.max x l) end.

Definition US_PER_DAY : Z := 86400 * 1000000.

(** [_DEAD_SET_SQL], for one stock row. *)
Definition dead_pair_of (now days : Z) (ns : string) (d : inv_db) (e : string * string * string * item)
    : option dead_pair :=
  let '((ns', sku, loc), it) := e in
  let ts := ledger_of ns sku loc d in
  let last_at := max_of (tx_created_at <$> ts) in
  if String.eqb ns' ns && (0 <? qty_on_hand it) &&
     match last_at with None => true | Some t => t <? now - days * US_PER_DAY end
  then Some (DeadPair sku loc (qty_on_hand it) (it_created_at it) (length ts)
               (match ts with [] => None | _ => Some (sum_delta ts) end)
               (min_of (tx_created_at <$> ts)))
  else None.
Definition pair_leb (a b : dead_pair) : bool :=
  match String.compare (dp_sku a) (dp_sku b) with
  | Lt => true | Gt => false | Eq => str_leb (dp_location_id a) (dp_location_id b)
  end.
Definition dead_set (now days : Z) (ns : string) (d : inv_db) : list dead_pair :=
  sorted_by pair_leb (omap (dead_pair_of now days ns d) (map_to_list (inventory_items d))).

(** [dead_stock_days] is the override, or what the configuration file holds. *)
Definition _as_dead_stock_days (raw : pynum) : result inv_error Z :=
  match raw with
  | PyInt n => ensure (0 <=? n) (ValueError "dead_stock_days") ≫= λ _, Ok n
  | _ => raise (ValueError "dead_stock_days")
  end.
Definition do_reconcile_dead_stock (now : Z) (config_days : pynum) (namespace_id : option string)
    (dead_stock_days : pynum) : inv_tx DeadStockBuckets :=
  ns_uuid ← lift (_as_ns_uuid namespace_id "namespace_id");
  days ← lift (_as_dead_stock_days (match dead_stock_days with PyNone => config_days | v => v end));
  d ← gets id;
  let buckets := classify_dead_stock_pairs (dead_set now days ns_uuid d) in
  match divergent buckets with
  | [] => mret buckets
  | ds => fail (LedgerDivergenceError ((λ '(r, n), (dp_sku r, dp_location_id r, n)) <$> ds))
  end.

(** ** First in, first out keeps the newest units *)
(** The receipts of a ledger, oldest first, and what is left after the issues:
    an issue beyond what is there empties the stock. *)
Definition receipts_of (rows : list val_row) : layers :=
  (λ r, (vr_delta r, default 0 (vr_unit_cost r))) <$> List.filter (λ r, 0 <? vr_delta r) rows.
Definition remaining (rows : list val_row) : Z :=
  foldl (λ n r, if 0 <? vr_delta r then n + vr_delta r else Z.max 0 (n + vr_delta r)) 0 rows.

(** The newest [n] units of some layers. *)
Fixpoint newest (n : Z) (ls : layers) : layers :=
  match ls with
  | [] => []
  | (qty, cost) :: later =>
      if n <=? layers_qty later then newest n later
      else (Z.min qty (n - layers_qty later), cost) :: later
  end.

Definition layers_pos : layers → Prop := Forall (λ l, 0 < l.1).

Lemma layers_qty_cons q c ls : layers_qty ((q, c) :: ls) = q + layers_qty ls.
Proof. done. Qed.
Lemma layers_qty_app l1 l2 : layers_qty (l1 ++ l2) = layers_qty l1 + layers_qty l2.
Proof. induction l1 as [|[q c] l1 IH]; [done|]. simpl. rewrite !layers_qty_cons, IH. lia. Qed.
Lemma layers_qty_nonneg ls : layers_pos ls → 0 ≤ layers_qty ls.
Proof. induction 1 as [|[q c] ls Hq _ IH]; [done|]. rewrite layers_qty_cons. simpl in Hq. lia. Qed.

Lemma newest_pos n ls : layers_pos ls → layers_pos (newest n ls).
Proof.
  induction 1 as [|[q c] ls Hq Hls IH]; simpl; [constructor|].
  destruct (Z.leb_spec n (layers_qty ls)); [done|]. constructor; [simpl in *; lia|done].
Qed.
Lemma newest_qty n ls : layers_pos ls → 0 ≤ n → layers_qty (newest n ls) = Z.min n (layers_qty ls).
Proof.
  intros Hls Hn. induction Hls as [|[q c] ls Hq Hls IH]; simpl; [change (layers_qty []) with 0; lia|].
  pose proof (layers_qty_nonneg _ Hls). simpl in Hq. rewrite layers_qty_cons.
  destruct (Z.leb_spec n (layers_qty ls)); [rewrite IH; lia|]. rewrite layers_qty_cons. lia.
Qed.
Lemma newest_all ls : layers_pos ls → newest (layers_qty ls) ls = ls.
Proof.
  destruct 1 as [|[q c] ls Hq Hls]; [done|]. simpl. rewrite layers_qty_cons. simpl in Hq.
  destruct (Z.leb_spec (q + layers_qty ls) (layers_qty ls)); [lia|]. do 2 f_equal. lia.
Qed.
Lemma newest_newest m n ls : layers_pos ls → 0 ≤ m ≤ n → newest m (newest n ls) = newest m ls.
Proof.
  intros Hls Hm. induction Hls as [|[q c] ls Hq Hls IH]; simpl; [done|].
  destruct (Z.leb_spec n (layers_qty ls)) as [Hn|Hn].
  - rewrite IH. by rewrite (proj2 (Z.leb_le m (layers_qty ls))) by lia.
  - simpl. destruct (Z.leb_spec m (layers_qty ls)); [done|]. do 2 f_equal. lia.
Qed.
Lemma newest_none ls : layers_pos ls → newest 0 ls = [].
Proof.
  induction 1 as [|[q c] ls Hq Hls IH]; simpl; [done|]. pose proof (layers_qty_nonneg _ Hls).
  by rewrite (proj2 (Z.leb_le 0 (layers_qty ls))).
Qed.
Lemma newest_snoc n ls q c :
  layers_pos ls → 0 ≤ n → 0 < q → newest (n + q) (ls ++ [(q, c)]) = newest n ls ++ [(q, c)].
Proof.
  intros Hls Hn Hq. induction Hls as [|[q' c'] ls Hq' Hls IH]; simpl.
  - change (layers_qty []) with 0. rewrite (proj2 (Z.leb_gt (n + q) 0)) by lia. do 2 f_equal. lia.
  - rewrite layers_qty_app, layers_qty_cons. change (layers_qty []) with 0. rewrite IH.
    destruct (Z.leb_spec n (layers_qty ls)), (Z.leb_spec (n + q) (layers_qty ls + (q + 0))); try lia; [done|].
    simpl. do 2 f_equal. lia.
Qed.

(** Removing from the oldest side keeps the newest. *)
Lemma remove_oldest_newest k ls :
  layers_pos ls → 0 ≤ k → remove_oldest k ls = newest (Z.max 0 (layers_qty ls - k)) ls.
Proof.
  intros Hls. revert k. induction Hls as [|[q c] ls Hq Hls IH]; intros k Hk; simpl; [done|]. simpl in Hq.
  pose proof (layers_qty_nonneg _ Hls) as H0. rewrite layers_qty_cons. destruct (Z.ltb_spec 0 k) as [Hk0|Hk0].
  - destruct (Z.leb_spec (q - Z.min q k) 0) as [Hle|Hgt].
    + rewrite IH by lia. rewrite (proj2 (Z.leb_le _ (layers_qty ls))) by lia. f_equal. lia.
    + rewrite (proj2 (Z.leb_gt _ (layers_qty ls))) by lia. do 2 f_equal. lia.
  - assert (k = 0) as -> by lia. rewrite (proj2 (Z.leb_gt _ (layers_qty ls))) by lia. do 2 f_equal. lia.
Qed.

Lemma receipts_pos rows : layers_pos (receipts_of rows).
Proof.
  unfold layers_pos, receipts_of. apply Forall_fmap, Forall_forall. intros r Hr.
  apply list_elem_of_In, filter_In in Hr as [_ Hr%Z.ltb_lt]. done.
Qed.
Lemma receipts_snoc rows r :
  receipts_of (rows ++ [r]) = receipts_of rows ++ (if 0 <? vr_delta r then [(vr_delta r, default 0 (vr_unit_cost r))] else []).
Proof. unfold receipts_of. rewrite List.filter_app, fmap_app. simpl. by destruct (0 <? vr_delta r). Qed.

Lemma fifo_newest rows :
  fifo_layers rows = newest (remaining rows) (receipts_of rows) ∧ 0 ≤ remaining rows ≤ layers_qty (receipts_of rows).
Proof.
  induction rows as [|r rows [IH Hr]] using rev_ind; [done|].
  pose proof (receipts_pos rows) as Hp. unfold fifo_layers, remaining in *. rewrite !foldl_app. simpl.
  rewrite IH, receipts_snoc. unfold fifo_step. destruct (Z.ltb_spec 0 (vr_delta r)) as [Hd|Hd].
  - split; [by rewrite newest_snoc by (done || lia)|]. rewrite layers_qty_app, layers_qty_cons. change (layers_qty []) with 0. lia.
  - rewrite app_nil_r. split; [|lia]. rewrite remove_oldest_newest by (by apply newest_pos || lia).
    rewrite newest_qty by (done || lia). rewrite newest_newest by (done || lia). f_equal. lia.
Qed.

Lemma average_remaining rows : remaining_qty (_compute_average rows) = remaining rows.
Proof.
  unfold _compute_average. simpl. unfold remaining.
  induction rows as [|r rows IH] using rev_ind; [done|]. rewrite !foldl_app. simpl.
  destruct (foldl average_step _ rows) as [v n]. simpl in *. subst n. unfold average_step.
  destruct (0 <? vr_delta r); [done|]. simpl. lia.
Qed.

(** First in, first out keeps the newest units.  The cost layers
    [_compute_fifo] is left with after the oldest layers were used up issue by
    issue are exactly the newest units received, as many as remain; both
    valuation methods agree on how many that is, which is never negative and
    never more than was received. *)
Theorem fifo_keeps_newest rows :
  fifo_layers rows = newest (remaining rows) (receipts_of rows) ∧
  remaining_qty (_compute_fifo rows) = remaining rows ∧
  remaining_qty (_compute_average rows) = remaining rows ∧
  0 ≤ remaining rows ≤ layers_qty (receipts_of rows).
Proof.
  destruct (fifo_newest rows) as [H1 H2]. split_and!; [done| |apply average_remaining|lia..].
  unfold _compute_fifo. simpl. rewrite H1, newest_qty; [lia|apply receipts_pos|lia].
Qed.
