(* ===== verification/InventoryFacts.v ===== *)
(** * InventoryFacts: every movement of stock is in the ledger

    The relation [stock_step] between the databases before and after a
    transaction, and that each statement pair of the inventory programs respects
    it: stock rows stay well formed, the ledger only grows, and the difference
    between a row and its ledger never changes. *)
From S2P Require Import Prelude PyText PyStr PyDecimal Txn OutboxRelay EventBus Inventory Valuation.
Local Open Scope Z_scope.

Abbreviation stock_key := (string * string * string)%type.
Definition on_hand (d : inv_db) (k : stock_key) : Z := from_option qty_on_hand 0 (inventory_items d !! k).
Definition ledger_sum (d : inv_db) (k : stock_key) : Z :=
  sum_delta (ledger_of k.1.1 k.1.2 k.2 d).
(** What a row holds beyond its ledger: its opening balance. *)
Definition drift (d : inv_db) (k : stock_key) : Z := on_hand d k - ledger_sum d k.

(** The sign rule of the ledger's [CHECK] constraint. *)
Definition sign_matches (reason : string) (delta : Z) : Prop :=
  (reason ∈ [REASON_TRANSFER_IN; REASON_GOODS_RECEIPT] → 0 < delta) ∧
  (reason ∈ [REASON_TRANSFER_OUT; REASON_CONSUMPTION] → delta < 0).
Definition row_ok (t : txn) : Prop :=
  tx_reason_category t ∈ _VALID_REASON_CATEGORIES ∧ tx_delta t ≠ 0 ∧ Z.abs (tx_delta t) < 10 ^ 18 ∧
  sign_matches (tx_reason_category t) (tx_delta t).
Definition item_ok (it : item) : Prop :=
  0 ≤ qty_on_hand it < 10 ^ 18 ∧ 0 ≤ qty_reserved it < 10 ^ 18 ∧ 0 ≤ qty_blocked it < 10 ^ 18.
Record stock_ok (d : inv_db) : Prop := {
  ok_items : ∀ k it, inventory_items d !! k = Some it → item_ok it ∧ (k.1.1, k.2) ∈ stock_locations d;
  ok_rows : Forall row_ok (inventory_transactions d);
  ok_rmas : map_Forall (λ _ r, 0 < rm_qty r < 10 ^ 18) (inventory_rma d)
}.

(** Decimals with three places and at most eighteen digits fit every step. *)
Definition qty_of (n : Z) : decimal := Dec n (-3).
Definition is_qty (q : decimal) : Prop := ∃ n, q = qty_of n ∧ 0 < n < 10 ^ PREC.

(** A sum of quantities: a quantity, or too large for the column. *)
Definition is_total (q : decimal) : Prop := is_qty q ∨ 10 ^ 18 ≤ milli q.

Lemma milli_qty n : milli (qty_of n) = n.
Proof. apply at_exp_same. Qed.

Lemma as_quantity_ok v w q : _as_quantity v w = Ok q → is_qty q.
Proof.
  unfold _as_quantity. intros (c & _ & H)%bind_Ok. apply bind_Ok in H as (c' & Hq & H).
  apply ensure_bind in H as [Hpos H]. injection H as <-.
  unfold _quantise_qty in Hq. destruct (quantize _ _ c) as [[n e]|] eqn:E; [|done]. injection Hq as <-.
  apply quantize_spec in E as [E1 E2]. simpl in *. subst e. exists n. split; [done|].
  rewrite dec_leb_same in Hpos. apply negb_true_iff, Z.leb_gt in Hpos. lia.
Qed.

Lemma dec_add_total a q : (is_total a ∧ -3 ≤ dexp a) → is_qty q → is_total (dec_add a q) ∧ -3 ≤ dexp (dec_add a q).
Proof.
  intros [Ha He] (n & -> & Hn). unfold dec_add. simpl. rewrite Z.min_r by lia.
  change (at_exp (-3) (qty_of n)) with (milli (qty_of n)). rewrite milli_qty.
  fold (milli a). set (m := milli a + n).
  assert (0 < m) as Hm.
  { unfold m. destruct Ha as [(k & -> & Hk)|?]; [rewrite milli_qty|]; lia. }
  destruct (Z.lt_ge_cases m (10 ^ PREC)).
  - rewrite fix28_small by (simpl; lia). split; [|done]. left. by exists m.
  - destruct (fix28_large m (-3)) as [H1 H2]; [done|]. split; [|done]. right. unfold milli.
    apply (Z.le_trans _ (10 ^ 27)); [lia|exact H2].
Qed.
Lemma is_qty_total q : is_qty q → is_total q ∧ -3 ≤ dexp q.
Proof. intros (n & -> & Hn). split; [by left; exists n|done]. Qed.

(** ** Statements *)

Lemma numeric18_Ok n d d' m : numeric18 n d = Ok (d', m) ↔ d = d' ∧ m = n ∧ Z.abs n < 10 ^ 18.
Proof.
  unfold numeric18. destruct (Z.ltb_spec (Z.abs n) (10 ^ 18)).
  - rewrite tx_ret_Ok. naive_solver.
  - rewrite fail_Ok. split; [done|lia].
Qed.

Lemma fresh_uuid_Ok g d d' id : fresh_uuid g d = Ok (d', id) → d' = set_uuids S d.
Proof. intros H. unfold fresh_uuid in H. inv_tx. by subst. Qed.

Lemma decrement_Ok ns sku loc q d d' n :
  decrement_on_hand ns sku loc q d = Ok (d', n) →
  ∃ it, inventory_items d !! (ns, sku, loc) = Some it ∧ milli q ≤ qty_on_hand it ∧
    n = qty_on_hand it - milli q ∧
    d' = set_items (<[(ns, sku, loc) := Item n (qty_reserved it) (qty_blocked it) (it_created_at it)]>) d.
Proof.
  intros H. unfold decrement_on_hand in H. inv_tx.
  destruct (inventory_items _ !! _) as [it|] eqn:E; [|inv_tx].
  destruct (Z.leb_spec (milli q) (qty_on_hand it)); inv_tx; subst; eauto 10.
Qed.

Lemma upsert_Ok now e ns sku loc q d d' n :
  upsert_on_hand now e ns sku loc q d = Ok (d', n) →
  Z.abs (milli q) < 10 ^ 18 ∧ Z.abs n < 10 ^ 18 ∧
  ∃ it', d' = set_items (<[(ns, sku, loc) := it']>) d ∧ n = qty_on_hand it' ∧
    match inventory_items d !! (ns, sku, loc) with
    | Some it => it' = Item (qty_on_hand it + milli q) (qty_reserved it) (qty_blocked it) (it_created_at it)
    | None => it' = Item (milli q) 0 0 now ∧ (ns, loc) ∈ stock_locations d
    end.
Proof.
  intros H. unfold upsert_on_hand in H. inv_tx.
  match goal with H : numeric18 _ _ = _ |- _ => apply numeric18_Ok in H as (-> & -> & ?) end.
  destruct (inventory_items _ !! _) as [it|] eqn:E.
  - inv_tx. match goal with H : numeric18 _ _ = _ |- _ => apply numeric18_Ok in H as (-> & -> & ?) end.
    subst. eauto 10.
  - case_bool_decide; inv_tx. subst. split_and!; [done..|]. eauto 10.
Qed.

Lemma insert_txn_Ok t d d' u :
  insert_txn t d = Ok (d', u) → (tx_namespace_id t, tx_location_id t) ∈ stock_locations d ∧ d' = set_ledger (λ l, l ++ [t]) d.
Proof. intros H. unfold insert_txn in H. inv_tx. case_bool_decide; inv_tx. by subst. Qed.

Lemma assert_sign_Ok reason n u :
  _assert_sign_matches_category reason (qty_of n) = Ok u → sign_matches reason n.
Proof.
  unfold _assert_sign_matches_category, qty_of. rewrite !dec_leb_same.
  intros [H1 H2%ensure_Ok]%ensure_bind.
  apply negb_true_iff, andb_false_iff in H1, H2. split; intros Hin.
  - destruct H1 as [H1|H1]; [by apply bool_decide_eq_false in H1|by apply Z.leb_gt in H1].
  - destruct H2 as [H2|H2]; [by apply bool_decide_eq_false in H2|by apply Z.leb_gt in H2].
Qed.

Lemma append_Ok g now ns sku loc n reason ref cost d d' id :
  Z.abs n < 10 ^ PREC →
  append_transaction g now ns sku loc (PyDecimal (qty_of n)) reason ref cost d = Ok (d', id) →
  ∃ t, d' = set_ledger (λ l, l ++ [t]) (set_uuids S d) ∧ row_ok t ∧
    tx_namespace_id t = ns ∧ tx_sku t = sku ∧ tx_location_id t = loc ∧ tx_delta t = n ∧
    tx_reason_category t = reason ∧ tx_ref t = ref ∧ tx_created_at t = now.
Proof.
  intros Hn H. unfold append_transaction in H. inv_tx.
  match goal with H : _as_decimal _ _ = _ |- _ => injection H as <- end.
  match goal with H : _quantise_qty _ _ = _ |- _ =>
    unfold _quantise_qty, qty_of in H; rewrite quantize_same in H by done; injection H as <- end.
  repeat match goal with H : ensure _ _ = _ |- _ => apply ensure_Ok in H end.
  match goal with H : numeric18 (milli _) _ = _ |- _ => apply numeric18_Ok in H as (-> & -> & ?) end.
  match goal with H : fresh_uuid _ _ = _ |- _ => apply fresh_uuid_Ok in H as -> end.
  match goal with H : insert_txn _ _ = _ |- _ => apply insert_txn_Ok in H as [? ->] end.
  change (milli (Dec n (-3))) with (milli (qty_of n)) in *. rewrite milli_qty in *.
  match goal with H : _assert_sign_matches_category _ _ = _ |- _ => apply assert_sign_Ok in H end.
  match goal with H : match cost with _ => _ end ?a = Ok (?b, _) |- _ =>
    assert (b = a) as -> by (clear -H; destruct cost; inv_tx; done) end.
  match goal with H : match ?o with _ => _ end ?a = Ok (?b, _) |- _ =>
    assert (b = a) as -> by (clear -H; destruct o; inv_tx; try done;
      by match goal with H : numeric18 _ _ = _ |- _ => apply numeric18_Ok in H as (-> & _) end) end.
  eexists. split; [reflexivity|]. unfold row_ok; split_and!; simpl; try done; try by eapply bool_decide_eq_true_1.
  intros ->. match goal with H : negb (dec_eqb _ _) = true |- _ =>
    unfold dec_eqb in H; by rewrite dec_compare_same in H end.
Qed.

Lemma rowsum_app l1 l2 : sum_delta (l1 ++ l2) = sum_delta l1 + sum_delta l2.
Proof. unfold sum_delta. induction l1 as [|t l IH]; simpl; [done|]. rewrite IH. lia. Qed.

Lemma at_pair_key t ns sku loc k :
  tx_namespace_id t = ns → tx_sku t = sku → tx_location_id t = loc →
  at_pair k.1.1 k.1.2 k.2 t = bool_decide ((ns, sku, loc) = k).
Proof.
  intros <- <- <-. destruct k as [[a b] c]. unfold at_pair. simpl.
  destruct (String.eqb_spec (tx_namespace_id t) a), (String.eqb_spec (tx_sku t) b),
    (String.eqb_spec (tx_location_id t) c); simpl; symmetry;
    (apply bool_decide_eq_true_2; congruence) || (apply bool_decide_eq_false_2; congruence).
Qed.

Lemma ledger_sum_append d t k :
  ledger_sum (set_ledger (λ l, l ++ [t]) d) k =
  ledger_sum d k + (if bool_decide ((tx_namespace_id t, tx_sku t, tx_location_id t) = k) then tx_delta t else 0).
Proof.
  unfold ledger_sum, ledger_of. simpl. rewrite List.filter_app, rowsum_app. f_equal. simpl.
  rewrite (at_pair_key t _ _ _ k eq_refl eq_refl eq_refl). case_bool_decide; simpl; lia.
Qed.

Lemma on_hand_insert d k0 it k :
  on_hand (set_items (<[k0 := it]>) d) k = if bool_decide (k0 = k) then qty_on_hand it else on_hand d k.
Proof.
  unfold on_hand. simpl. case_bool_decide as E.
  - subst. by rewrite lookup_insert_eq.
  - by rewrite lookup_insert_ne.
Qed.

(** ** The step relation *)

Record stock_change (d d' : inv_db) : Prop := {
  change_ok : stock_ok d';
  change_drift : ∀ k, drift d' k = drift d k;
  change_ledger : inventory_transactions d `prefix_of` inventory_transactions d';
  change_locations : stock_locations d ⊆ stock_locations d'
}.
Definition stock_step (d d' : inv_db) : Prop := stock_ok d → stock_change d d'.
#[global] Instance stock_step_preorder : PreOrder stock_step.
Proof.
  split.
  - intros d Hd. by split.
  - intros d1 d2 d3 H1 H2 Hd. destruct (H1 Hd) as [A1 B1 C1 D1]. destruct (H2 A1) as [A2 B2 C2 D2].
    split; [done|congruence|by etrans|by etrans].
Qed.

(** Nothing of the stock tables changes. *)
Definition same_stock (d d' : inv_db) : Prop :=
  inventory_items d' = inventory_items d ∧ inventory_transactions d' = inventory_transactions d ∧
  stock_locations d' = stock_locations d ∧ inventory_rma d' = inventory_rma d.
#[global] Instance same_stock_preorder : PreOrder same_stock.
Proof. split; [by intros ?|]. intros ??? (?&?&?&?) (?&?&?&?). split_and!; congruence. Qed.

(** Other tables may change, and RMA rows within their invariant. *)
Lemma side_step d d' :
  inventory_items d' = inventory_items d → inventory_transactions d' = inventory_transactions d →
  stock_locations d ⊆ stock_locations d' →
  (stock_ok d → map_Forall (λ _ r, 0 < rm_qty r < 10 ^ 18) (inventory_rma d')) → stock_step d d'.
Proof.
  intros H1 H2 H3 H4 Hd. split; [|intros k|by rewrite H2|done].
  - destruct Hd as [Hi Hr Hm]. split; [|by rewrite H2|by apply H4]. intros k it. rewrite H1. intros Hk.
    destruct (Hi _ _ Hk). auto.
  - unfold drift, on_hand, ledger_sum, ledger_of. by rewrite H1, H2.
Qed.
Lemma same_stock_step d d' : same_stock d d' → stock_step d d'.
Proof. intros (H1 & H2 & H3 & H4). apply side_step; [done..|by rewrite H3|]. rewrite H4. by intros []. Qed.

(** One row changes its on-hand quantity by [n] and the ledger records it. *)
Lemma moved_step d d' k it it' t n :
  inventory_items d !! k = it → d' = set_ledger (λ l, l ++ [t]) (set_uuids S (set_items (<[k := it']>) d)) →
  (tx_namespace_id t, tx_sku t, tx_location_id t) = k → tx_delta t = n →
  qty_on_hand it' = from_option qty_on_hand 0 it + n → row_ok t →
  (stock_ok d → item_ok it' ∧ (k.1.1, k.2) ∈ stock_locations d) → stock_step d d'.
Proof.
  intros Hk -> Htk Hn Hq Hrow Hok Hd. destruct (Hok Hd) as [Hit Hloc]. split; simpl; [| |by eexists|done].
  - destruct Hd as [Hi Hr Hm]. split; simpl; [|apply Forall_app; split; [done|by constructor]|done].
    intros k' it0 [[<- <-]|[? ?]]%lookup_insert_Some; auto.
  - intros k'. unfold drift. rewrite ledger_sum_append, Htk, Hn.
    change (ledger_sum (set_uuids S _) k') with (ledger_sum d k').
    change (on_hand (set_ledger _ _) k') with (on_hand (set_items (<[k := it']>) d) k').
    rewrite on_hand_insert. case_bool_decide as E; [|lia]. subst k'. rewrite Hq. unfold on_hand. rewrite Hk. lia.
Qed.

(** A row changes without moving stock. *)
Lemma row_step d k it it' :
  inventory_items d !! k = Some it → qty_on_hand it' = qty_on_hand it →
  (item_ok it → item_ok it') → stock_step d (set_items (<[k := it']>) d).
Proof.
  intros Hk Hq Hok Hd. split; [|intros k'|done|done].
  - destruct Hd as [Hi Hr Hm]. split; [|done|done]. simpl. intros k' it0 [[<- <-]|[? ?]]%lookup_insert_Some; [|by eauto].
    destruct (Hi _ _ Hk). auto.
  - unfold drift. rewrite on_hand_insert. change (ledger_sum (set_items _ d) k') with (ledger_sum d k').
    case_bool_decide as E; [|done]. subst k'. unfold on_hand. rewrite Hk. simpl. lia.
Qed.

(** ** What the statement pairs do *)

Lemma respects_lift_bind {S E A B} (R : relation S) `{!PreOrder R} (r : result E A) (f : A → tx S E B) :
  (∀ a, r = Ok a → respects R (f a)) → respects R (lift r ≫= f).
Proof. intros Hf s s' b (s1 & a & [-> Hr]%lift_Ok & H2)%tx_bind_Ok. by eapply Hf. Qed.

Lemma respects_weaken {S E A} (R R' : relation S) (m : tx S E A) :
  (∀ s s', R s s' → R' s s') → respects R m → respects R' m.
Proof. intros HR Hm s s' a H. eauto. Qed.

Lemma modify_same f : (∀ d, same_stock d (f d)) → respects same_stock (@modify _ inv_error f).
Proof. apply respects_modify. Qed.
Ltac same := apply modify_same; intros ?; unfold same_stock; by split_and!.

Section steps.
Context (OUTBOX_HANDLERS : registry) (gen_random_uuid : nat → string).

(** A decrement and the ledger row of the opposite sign. *)
Lemma out_step now ns sku loc q reason ref cost {A} (k : Z → inv_tx A) :
  is_qty q → (∀ n, respects stock_step (k n)) →
  respects stock_step
    (n ← decrement_on_hand ns sku loc q;
     append_transaction gen_random_uuid now ns sku loc (PyDecimal (dec_neg q)) reason ref cost ≫= λ _, k n).
Proof.
  intros (n & -> & Hn) Hk0 d d' a H. inv_tx.
  match goal with H : k _ _ = _ |- _ => apply Hk0 in H as Hlast; etrans; [|exact Hlast]; clear H Hlast end.
  match goal with H : decrement_on_hand _ _ _ _ _ = _ |- _ => apply decrement_Ok in H as (it & Hk & Hle & -> & ->) end.
  unfold dec_neg in *. rewrite fix28_small in * by (simpl; lia).
  match goal with H : append_transaction _ _ _ _ _ _ _ _ _ _ = _ |- _ =>
    apply append_Ok in H as (t & -> & Hrow & Hns & Hsku & Hloc & Hd & _); [|simpl; lia] end.
  rewrite milli_qty in *. eapply (moved_step _ _ (ns, sku, loc) (Some it) _ t (- n)); try done.
  - by rewrite Hns, Hsku, Hloc.
  - intros Hok. destruct (ok_items _ Hok _ _ Hk) as [(?&?&?) ?]. split; [|done].
    unfold item_ok. simpl. lia.
Qed.

(** An increment and its ledger row. *)
Lemma in_step now e ns sku loc q reason ref cost {A} (k : Z → inv_tx A) :
  is_total q → (∀ n, respects stock_step (k n)) →
  respects stock_step
    (n ← upsert_on_hand now e ns sku loc q;
     append_transaction gen_random_uuid now ns sku loc (PyDecimal q) reason ref cost ≫= λ _, k n).
Proof.
  intros Hq Hk0 d d' a H. inv_tx.
  match goal with H : k _ _ = _ |- _ => apply Hk0 in H as Hlast; etrans; [|exact Hlast]; clear H Hlast end.
  match goal with H : upsert_on_hand _ _ _ _ _ _ _ = _ |- _ => apply upsert_Ok in H as (Hm & Hs & it' & -> & -> & Hit) end.
  destruct Hq as [(n & -> & Hn)|?]; [|lia].
  match goal with H : append_transaction _ _ _ _ _ _ _ _ _ _ = _ |- _ =>
    apply append_Ok in H as (t & -> & Hrow & Hns & Hsku & Hloc & Hd & _); [|simpl; lia] end.
  rewrite milli_qty in *. eapply (moved_step _ _ (ns, sku, loc) (inventory_items d !! (ns, sku, loc)) _ t n); try done.
  - by rewrite Hns, Hsku, Hloc.
  - destruct (inventory_items d !! _) as [it|]; simpl; [by subst|]. destruct Hit as [-> _]. simpl. lia.
  - intros Hok. destruct (inventory_items d !! _) as [it|] eqn:Hk.
    + destruct (ok_items _ Hok _ _ Hk) as [(?&?&?) ?]. subst it'. split; [|done]. unfold item_ok in *. simpl in *. lia.
    + destruct Hit as [-> ?]. split; [|done]. unfold item_ok. simpl in *. lia.
Qed.

Lemma publish_same now ns ty op agg payload :
  respects same_stock (publish_event OUTBOX_HANDLERS gen_random_uuid now ns ty op agg payload).
Proof. unfold publish_event, fresh_uuid. respect; same. Qed.
#[local] Hint Resolve publish_same : tx.

Lemma node_same now ns label ty :
  respects same_stock (_upsert_kg_node OUTBOX_HANDLERS gen_random_uuid now ns label ty).
Proof. unfold _upsert_kg_node, assert_owner. respect; same. Qed.

Lemma edge_same ns s p o : respects same_stock (_upsert_kg_edge ns s p o).
Proof. same. Qed.
#[local] Hint Resolve node_same edge_same : tx.

Lemma mirror_same now ns sku loc :
  respects same_stock (mirror_item_at_location OUTBOX_HANDLERS gen_random_uuid now ns sku loc).
Proof. unfold mirror_item_at_location. respect. Qed.
End steps.
#[export] Hint Resolve publish_same node_same edge_same mirror_same : tx.
