(* ===== verification/InventoryProps.v ===== *)
(** * InventoryProps: what the inventory guarantees *)
From stdpp Require Import pretty.
From S2P Require Import Prelude PyText PyStr PyDecimal Txn OutboxRelay EventBus Inventory GoodsReceipt StockReturns Valuation InventoryFacts.
Local Open Scope Z_scope.

(** ** Every public operation is a step *)

Section moves.
Context (sha256 : string → string) (OUTBOX_HANDLERS : registry) (gen_random_uuid : nat → string).
Context (do_seed_asset_from_bom : string → string → result string json).

Ltac stock_respect := repeat first
  [ apply respects_lift_bind; [apply _|intros ??]
  | progress respect
  | match goal with |- respects _ (let '(_, _) := ?x in _) => destruct x end ].

Lemma mirror_step now ns sku loc :
  respects stock_step (mirror_item_at_location OUTBOX_HANDLERS gen_random_uuid now ns sku loc).
Proof. eapply respects_weaken; [apply same_stock_step|]. apply mirror_same. Qed.

Lemma take_out_step now ns sku loc q reason ref :
  is_qty q → respects stock_step (take_out gen_random_uuid now ns sku loc q reason ref).
Proof. intros. apply out_step; [done|]. intros n. respect. Qed.
Lemma put_in_step now ns sku loc q reason ref :
  is_qty q → respects stock_step (put_in gen_random_uuid now ns sku loc q reason ref).
Proof. intros. apply in_step; [by left|]. intros n. respect. Qed.
#[local] Hint Resolve mirror_step take_out_step put_in_step as_quantity_ok : tx.

Lemma transfer_step now ns sku q a b :
  respects stock_step (do_transfer_stock OUTBOX_HANDLERS gen_random_uuid now ns sku q a b).
Proof. unfold do_transfer_stock. stock_respect. Qed.

Lemma consumption_step now ns sku q l w :
  respects stock_step (do_record_consumption OUTBOX_HANDLERS gen_random_uuid now ns sku q l w).
Proof. unfold do_record_consumption. stock_respect. Qed.

(** *** Receipts *)

Definition totals_ok (m : gmap string (decimal * list decimal)) : Prop :=
  map_Forall (λ _ t, is_total t.1 ∧ -3 ≤ dexp t.1) m.

Lemma add_line_ok m sku q c : totals_ok m → is_qty q → totals_ok (add_line m sku q c).
Proof.
  intros Hm Hq. unfold add_line.
  destruct (m !! sku) as [[t cs]|] eqn:E; (apply map_Forall_insert_2; [simpl|done]).
  - apply dec_add_total; [|done]. exact (Hm _ _ E).
  - by apply is_qty_total.
Qed.

Lemma aggregate_lines_ok ls m m' : totals_ok m → aggregate_lines ls m = Ok m' → totals_ok m'.
Proof.
  revert m; induction ls as [|l ls IH]; intros m Hm; cbn [aggregate_lines]; [by intros [= <-]|].
  intros [_ H]%ensure_bind. apply bind_Ok in H as (q & Hq & H). apply bind_Ok in H as (c & _ & H).
  eapply IH; [|exact H]. apply add_line_ok; [done|]. by eapply as_quantity_ok.
Qed.

Lemma validated_lines_ok raw lines :
  _validate_and_aggregate_lines raw = Ok lines → Forall (λ l, is_total l.1.2) lines.
Proof.
  unfold _validate_and_aggregate_lines. intros [_ H]%ensure_bind.
  apply bind_Ok in H as (m & Hm & H). apply ensure_bind in H as [_ H]. injection H as <-.
  apply aggregate_lines_ok in Hm; [|apply map_Forall_empty].
  apply Forall_fmap, Forall_forall. intros [sku [t cs]] Hin%elem_of_sorted_by%elem_of_map_to_list.
  exact (proj1 (Hm _ _ Hin)).
Qed.

Lemma fits_column_respects (R : relation inv_db) {A} sku (m : inv_tx A) :
  respects R m → respects R (fits_column sku m).
Proof. intros Hm d d' a. unfold fits_column. destruct (m d) as [[]|[]] eqn:E; try done. intros [= -> ->]. by eapply Hm. Qed.

Lemma receive_line_step now ns loc id l :
  is_total l.1.2 → respects stock_step (receive_line gen_random_uuid now ns loc id l).
Proof.
  destruct l as [[sku q] c]. simpl. intros Hq. unfold receive_line. respect.
  apply fits_column_respects, in_step; [done|]. intros n. respect.
Qed.

Lemma respects_for_in {A B} (R : relation inv_db) `{!PreOrder R} (P : A → Prop) (l : list A) (f : A → inv_tx B) :
  Forall P l → (∀ x, P x → respects R (f x)) → respects R (tx_for l f).
Proof.
  intros Hl Hf. induction Hl as [|x l Hx _ IH]; simpl; [respect|]. apply respects_bind; [apply _|auto|]. intros y.
  apply respects_bind; [apply _|exact IH|intros ?; respect].
Qed.

Lemma insert_receipt_same ns po note loc h :
  respects same_stock (insert_receipt gen_random_uuid ns po note loc h).
Proof. unfold insert_receipt, fresh_uuid. respect; same. Qed.

Lemma graph_writes_same now ns po id lines :
  respects same_stock (graph_writes OUTBOX_HANDLERS gen_random_uuid now ns po id lines).
Proof. unfold graph_writes, _upsert_goods_receipt_node. respect. Qed.
#[local] Hint Resolve insert_receipt_same graph_writes_same : tx.

Lemma same_step {A} (m : inv_tx A) : respects same_stock m → respects stock_step m.
Proof. apply respects_weaken, same_stock_step. Qed.

Lemma receipt_step now p :
  respects stock_step (do_record_goods_receipt sha256 OUTBOX_HANDLERS gen_random_uuid do_seed_asset_from_bom now p).
Proof.
  unfold do_record_goods_receipt.
  repeat (apply respects_lift_bind; [apply _|intros ??]).
  apply respects_bind; [apply _|apply same_step; auto with tx|]. intros [id|]; [|respect].
  apply respects_bind; [apply _| |intros ?].
  { eapply respects_for_in; [apply _|by eapply validated_lines_ok|]. intros l. apply receive_line_step. }
  apply same_step. respect; same.
Qed.

(** *** Returned goods *)

Lemma record_rma_step now p : respects stock_step (do_record_rma OUTBOX_HANDLERS gen_random_uuid now p).
Proof.
  unfold do_record_rma.
  do 4 (apply respects_lift_bind; [apply _|intros ??]).
  apply respects_lift_bind; [apply _|intros q0 ?]. apply respects_lift_bind; [apply _|intros q Hq].
  apply respects_lift_bind; [apply _|intros ? Hpos%ensure_Ok].
  do 3 (apply respects_lift_bind; [apply _|intros ??]).
  intros d d' r Hrun. inv_tx.
  match goal with H : numeric18 _ _ = _ |- _ => apply numeric18_Ok in H as (-> & -> & Hb) end.
  assert (0 < milli q) as Hm.
  { unfold _quantise_qty in Hq. destruct (quantize _ _ _) as [[n e]|] eqn:E; [|done]. injection Hq as <-.
    apply quantize_spec in E as [E1 _]. simpl in E1. subst e. rewrite dec_leb_same in Hpos.
    apply negb_true_iff, Z.leb_gt in Hpos. fold (qty_of n). by rewrite milli_qty. }
  match goal with H : _upsert_inventory_rma_kg_node _ _ _ _ _ _ = _ |- _ => apply node_same, same_stock_step in H as Hs end.
  etrans; [|exact Hs]. clear Hs.
  match goal with H : match ?o with _ => _ end _ = Ok _ |- _ => destruct o eqn:Ho; inv_tx; [done|] end.
  case_bool_decide; inv_tx.
  match goal with H : fresh_uuid _ _ = _ |- _ => apply fresh_uuid_Ok in H as -> end.
  subst. apply side_step; [done..|]. intros [_ _ Hr]. simpl. apply map_Forall_insert_2; [simpl; lia|done].
Qed.

Lemma claim_Ok ns ref st dr d d' r :
  _claim_rma ns ref st dr d = Ok (d', r) →
  ∃ r0, inventory_rma d !! (ns, ref) = Some r0 ∧ rm_stock_movement_state r0 = STOCK_MOVEMENT_PENDING ∧
    rm_qty r = rm_qty r0 ∧ rm_sku r = rm_sku r0 ∧ rm_location_id r = rm_location_id r0 ∧
    rm_stock_movement_state r = st ∧ d' = set_rmas (<[(ns, ref) := r]>) d.
Proof.
  intros H. unfold _claim_rma in H. inv_tx.
  destruct (inventory_rma _ !! _) as [r0|] eqn:E; [|inv_tx].
  destruct (String.eqb (rm_stock_movement_state r0) STOCK_MOVEMENT_PENDING) eqn:Ep; simpl in *;
    [|repeat case_match; inv_tx]. apply String.eqb_eq in Ep.
  destruct (negb _ || _); [|repeat case_match; inv_tx]. inv_tx. exists r0. subst.
  split_and!; try done; by destruct (String.eqb st _).
Qed.

Lemma rma_leg_step now ns ref st sign dr :
  respects stock_step (_run_rma_leg OUTBOX_HANDLERS gen_random_uuid now ns ref st sign dr).
Proof.
  unfold _run_rma_leg. do 2 (apply respects_lift_bind; [apply _|intros ??]).
  intros d d' r (d1 & c & Hc & Hrun)%tx_bind_Ok Hd.
  apply claim_Ok in Hc as (r0 & Hr0 & _ & Hq & _ & _ & _ & ->).
  assert (0 < rm_qty c < 10 ^ 18) as Hb by (rewrite Hq; exact (ok_rmas _ Hd _ _ Hr0)).
  revert Hd. change (stock_step d d'). etrans.
  { apply (side_step d (set_rmas (<[(a, a0) := c]>) d)); [done..|]. intros [_ _ Hr]. by apply map_Forall_insert_2. }
  revert Hrun. match goal with |- ?m _ = _ → _ => assert (respects stock_step m) as Hm; [|apply Hm] end.
  assert (is_qty (of_numeric 3 (rm_qty c))) as Hqty.
  { exists (rm_qty c). split; [done|]. split; [lia|]. transitivity (10 ^ 18); [lia|done]. }
  destruct (0 <? sign); [apply in_step; [by left|]|apply out_step; [done|]]; intros n; stock_respect.
Qed.

Lemma restock_step now ns ref :
  respects stock_step (do_restock_from_rma OUTBOX_HANDLERS gen_random_uuid now ns ref).
Proof. apply rma_leg_step. Qed.
Lemma dispose_step now ns ref dr :
  respects stock_step (do_dispose_rma_weee OUTBOX_HANDLERS gen_random_uuid now ns ref dr).
Proof. unfold do_dispose_rma_weee. apply respects_lift_bind; [apply _|intros ? _]. apply rma_leg_step. Qed.

(** *** Reservations *)

Lemma reserve_step ns sku q l p : respects stock_step (do_reserve_stock ns sku q l p).
Proof.
  unfold do_reserve_stock. do 2 (apply respects_lift_bind; [apply _|intros ??]).
  apply respects_lift_bind; [apply _|intros qty (n & -> & Hn)%as_quantity_ok].
  do 2 (apply respects_lift_bind; [apply _|intros ??]).
  intros d d' r Hrun. inv_tx. destruct (inventory_items _ !! _) as [it|] eqn:Hk; [|inv_tx].
  destruct (Z.leb_spec (milli (qty_of n)) (qty_on_hand it - qty_reserved it - qty_blocked it)); inv_tx.
  match goal with H : numeric18 _ _ = _ |- _ => apply numeric18_Ok in H as (-> & -> & Hb) end.
  match goal with H : _upsert_kg_edge _ _ _ _ _ = _ |- _ => apply edge_same, same_stock_step in H as Hs end.
  etrans; [|exact Hs]. subst. eapply row_step; [done..|].
  rewrite milli_qty in *. intros (?&?&?). split_and!; simpl; lia.
Qed.

Lemma release_step ns sku q l p : respects stock_step (do_release_stock ns sku q l p).
Proof.
  unfold do_release_stock. do 2 (apply respects_lift_bind; [apply _|intros ??]).
  apply respects_lift_bind; [apply _|intros qty (n & -> & Hn)%as_quantity_ok].
  do 2 (apply respects_lift_bind; [apply _|intros ??]).
  intros d d' r Hrun. inv_tx. destruct (inventory_items _ !! _) as [it|] eqn:Hk; [|inv_tx].
  destruct (Z.leb_spec (milli (qty_of n)) (qty_reserved it)); inv_tx. subst. eapply row_step; [done..|].
  rewrite milli_qty in *. intros (?&?&?). split_and!; simpl; lia.
Qed.
End moves.

(** ** Histories

    Public calls of any number of clients, each a committed transaction, in any
    order; other transactions may touch the rest of the database and add
    locations. *)
Inductive inv_call :=
  | Transfer_stock (now : Z) (ns sku : option string) (qty : pynum) (from_location to_location : option string)
  | Record_consumption (now : Z) (ns sku : option string) (qty : pynum) (location : option string) (work_order : text_arg)
  | Record_goods_receipt (now : Z) (p : receipt_params)
  | Record_rma (now : Z) (p : rma_params)
  | Restock_from_rma (now : Z) (ns rma_ref : option string)
  | Dispose_rma_weee (now : Z) (ns rma_ref disposal_ref : option string)
  | Reserve_stock (ns sku : option string) (qty : pynum) (location project_id : option string)
  | Release_stock (ns sku : option string) (qty : pynum) (location project_id : option string).

Section history.
Context (sha256 : string → string) (OUTBOX_HANDLERS : registry) (gen_random_uuid : nat → string).
Context (do_seed_asset_from_bom : string → string → result string json).

Definition run_call (c : inv_call) : inv_tx () :=
  match c with
  | Transfer_stock now ns sku q a b => do_transfer_stock OUTBOX_HANDLERS gen_random_uuid now ns sku q a b ≫= λ _, mret ()
  | Record_consumption now ns sku q l w =>
      do_record_consumption OUTBOX_HANDLERS gen_random_uuid now ns sku q l w ≫= λ _, mret ()
  | Record_goods_receipt now p =>
      do_record_goods_receipt sha256 OUTBOX_HANDLERS gen_random_uuid do_seed_asset_from_bom now p ≫= λ _, mret ()
  | Record_rma now p => do_record_rma OUTBOX_HANDLERS gen_random_uuid now p ≫= λ _, mret ()
  | Restock_from_rma now ns ref => do_restock_from_rma OUTBOX_HANDLERS gen_random_uuid now ns ref ≫= λ _, mret ()
  | Dispose_rma_weee now ns ref dr => do_dispose_rma_weee OUTBOX_HANDLERS gen_random_uuid now ns ref dr ≫= λ _, mret ()
  | Reserve_stock ns sku q l p => do_reserve_stock ns sku q l p ≫= λ _, mret ()
  | Release_stock ns sku q l p => do_release_stock ns sku q l p ≫= λ _, mret ()
  end.

Inductive inv_move (d : inv_db) : inv_db → Prop :=
  | move_call c d' : run_call c d = Ok (d', ()) → inv_move d d'
  | move_other d' :
      inventory_items d' = inventory_items d → inventory_transactions d' = inventory_transactions d →
      inventory_rma d' = inventory_rma d → goods_receipts d' = goods_receipts d →
      stock_locations d ⊆ stock_locations d' → inv_move d d'.

Lemma run_call_step c : respects stock_step (run_call c).
Proof.
  destruct c; unfold run_call; (apply respects_bind; [apply _| |intros ?; respect]).
  - apply transfer_step.
  - apply consumption_step.
  - apply receipt_step.
  - apply record_rma_step.
  - apply restock_step.
  - apply dispose_step.
  - apply reserve_step.
  - apply release_step.
Qed.

Lemma inv_move_step d d' : inv_move d d' → stock_step d d'.
Proof.
  intros [c d2 H|d2 H1 H2 H3 _ H4]; [by eapply run_call_step|].
  apply side_step; [done..|]. rewrite H3. by intros [].
Qed.
Lemma history_step d d' : rtc inv_move d d' → stock_step d d'.
Proof. induction 1 as [|d d1 d2 Hm _ IH]; [done|]. etrans; [by apply inv_move_step|done]. Qed.

(** *** Reconciliation *)

Lemma classify_balanced rows :
  Forall (λ r, unreconcilable r = true ∨ difference r = 0) rows → divergent (classify_dead_stock_pairs rows) = [].
Proof.
  intros H. unfold classify_dead_stock_pairs. simpl.
  induction H as [|r rows Hr _ IH]; [done|]. cbn [List.filter].
  destruct (unreconcilable r) eqn:E; cbn [negb]; [done|]. destruct Hr as [?|Hr]; [done|].
  cbn [List.filter]. by rewrite Hr.
Qed.

Lemma dead_set_balanced now days ns d :
  (∀ k, drift d k = 0) → divergent (classify_dead_stock_pairs (dead_set now days ns d)) = [].
Proof.
  intros Hd. apply classify_balanced, Forall_forall. intros r Hr%elem_of_sorted_by.
  apply list_elem_of_omap in Hr as ([[[ns' sku] loc] it] & Hk%elem_of_map_to_list & Hp). simpl in Hp.
  destruct (_ && _) eqn:E in Hp; [|done]. injection Hp as <-.
  destruct (ledger_of ns sku loc d) as [|t ts] eqn:El; [by left|]. right. unfold difference. simpl.
  apply andb_true_iff in E as [[->%String.eqb_eq _]%andb_true_iff _].
  specialize (Hd (ns, sku, loc)). unfold drift, on_hand, ledger_sum in Hd. simpl in Hd.
  rewrite Hk, El in Hd. simpl in Hd. lia.
Qed.

Lemma as_ns_uuid_err raw field e : _as_ns_uuid raw field = Err e → e = ValueError field.
Proof. unfold _as_ns_uuid. destruct raw as [[|c s]|]; [by intros [= <-]| |by intros [= <-]]. case_match; [done|by intros [= <-]]. Qed.
Lemma as_days_err raw e : _as_dead_stock_days raw = Err e → e = ValueError "dead_stock_days".
Proof.
  destruct raw as [| |z| | | |]; simpl; try by intros [= <-]. unfold mbind, result_bind, ensure.
  destruct (0 <=? z); [done|]. by intros [= <-].
Qed.

(** C24: stock truth.  Along every history of inventory calls, in any
    interleaving, no row's stock or reservation goes negative or past its
    column, the ledger is append-only with the sign its category demands, and a
    row moves by exactly what the ledger records for it.  So from a database
    without unrecorded opening balances, reconciling dead stock never reports a
    divergence. *)
Theorem stock_matches_ledger d0 d :
  stock_ok d0 → rtc inv_move d0 d →
  (∀ k it, inventory_items d !! k = Some it →
     0 ≤ qty_on_hand it < 10 ^ 18 ∧ 0 ≤ qty_reserved it < 10 ^ 18 ∧ (k.1.1, k.2) ∈ stock_locations d) ∧
  (∃ rows, inventory_transactions d = inventory_transactions d0 ++ rows ∧ Forall row_ok rows) ∧
  (∀ k, on_hand d k - on_hand d0 k = ledger_sum d k - ledger_sum d0 k) ∧
  ((∀ k, on_hand d0 k = ledger_sum d0 k) →
   ∀ now config ns days pairs, do_reconcile_dead_stock now config ns days d ≠ Err (LedgerDivergenceError pairs)).
Proof.
  intros Hok Hrun. destruct (history_step _ _ Hrun Hok) as [Hok' Hdrift [rows Hrows] _]. split_and!.
  - intros k it Hk. destruct (ok_items _ Hok' _ _ Hk) as [(?&?&?) ?]. done.
  - exists rows. split; [done|]. pose proof (ok_rows _ Hok') as Hr. rewrite Hrows in Hr. by apply Forall_app in Hr as [_ ?].
  - intros k. specialize (Hdrift k). unfold drift in Hdrift. lia.
  - intros Hstart now config ns days pairs.
    assert (∀ k, drift d k = 0) as Hz.
    { intros k. rewrite Hdrift. unfold drift. specialize (Hstart k). lia. }
    unfold do_reconcile_dead_stock, mbind, tx_bind, lift, gets, id.
    destruct (_as_ns_uuid ns "namespace_id") as [u|e] eqn:Eu; [|by apply as_ns_uuid_err in Eu as ->].
    destruct (_as_dead_stock_days _) as [n|e] eqn:En; [|by apply as_days_err in En as ->].
    by rewrite dead_set_balanced.
Qed.
End history.

(** ** A namespace with two locations and one opening receipt *)
Definition demo_ns := "00000000-0000-4000-8000-000000000001"%string.
Definition demo_a := "00000000-0000-4000-8000-00000000000a"%string.
Definition demo_b := "00000000-0000-4000-8000-00000000000b"%string.
Definition demo_uuid (n : nat) : string := "id-" +:+ pretty n.
Definition demo_stock : inv_db :=
  InvDb {[demo_ns]} {[(demo_ns, demo_a); (demo_ns, demo_b)]}
    {[(demo_ns, "CABLE"%string, demo_a) := Item 10000 0 0 5]}
    [Txn "id-0" demo_ns "CABLE" demo_a 10000 REASON_GOODS_RECEIPT (Some 250) None 5]
    [] ∅ [] {[(demo_ns, "STOCK_LOCATION"%string) := _OWNER_ENGINE; (demo_ns, "INVENTORY_ITEM"%string) := _OWNER_ENGINE;
              (demo_ns, "GOODS_RECEIPT"%string) := _OWNER_ENGINE; (demo_ns, "INVENTORY_RMA"%string) := _OWNER_ENGINE]}
    ∅ ∅ [] [] 1.

Lemma demo_stock_ok : stock_ok demo_stock.
Proof.
  split.
  - unfold demo_stock. cbn [inventory_items]. intros k it [<- <-]%lookup_singleton_Some. split; [by split_and!|]. vm_compute. done.
  - apply Forall_singleton. split_and!; [by apply (bool_decide_eq_true_1 _)|done|done|].
    split; [by intros|]. intros H. exfalso. revert H. by apply (bool_decide_eq_false_1 _).
  - apply map_Forall_empty.
Qed.

Lemma demo_ns_uuid : _as_ns_uuid (Some demo_ns) "namespace_id" = Ok demo_ns.
Proof. vm_compute. reflexivity. Qed.

Definition demo_call : inv_call :=
  Transfer_stock 9 (Some demo_ns) (Some "CABLE"%string) (PyInt 4) (Some demo_a) (Some demo_b).
Definition demo_moved : inv_db :=
  match run_call id ∅ demo_uuid (λ _ _, Ok JNull) demo_call demo_stock with Ok (d, _) => d | Err _ => demo_stock end.

Lemma demo_moved_run : run_call id ∅ demo_uuid (λ _ _, Ok JNull) demo_call demo_stock = Ok (demo_moved, ()).
Proof.
  assert (match run_call id ∅ demo_uuid (λ _ _, Ok JNull) demo_call demo_stock with Ok _ => true | Err _ => false end
          = true) as H by (vm_compute; reflexivity).
  unfold demo_moved. by destruct (run_call _ _ _ _ demo_call demo_stock) as [[d []]|].
Qed.
Lemma demo_moved_stock : on_hand demo_moved (demo_ns, "CABLE"%string, demo_b) = 4000.
Proof. vm_compute. reflexivity. Qed.

Lemma stock_matches_ledger_witness :
  on_hand demo_moved (demo_ns, "CABLE"%string, demo_b) = 4000 ∧
  on_hand demo_moved (demo_ns, "CABLE"%string, demo_b) - on_hand demo_stock (demo_ns, "CABLE"%string, demo_b) =
  ledger_sum demo_moved (demo_ns, "CABLE"%string, demo_b) - ledger_sum demo_stock (demo_ns, "CABLE"%string, demo_b).
Proof.
  split; [exact demo_moved_stock|].
  exact (proj1 (proj2 (proj2 (stock_matches_ledger id ∅ demo_uuid (λ _ _, Ok JNull) demo_stock demo_moved demo_stock_ok
    (rtc_once _ _ (move_call id ∅ demo_uuid (λ _ _, Ok JNull) demo_stock demo_call demo_moved demo_moved_run)))))
    (demo_ns, "CABLE"%string, demo_b)).
Defined.
