(* ===== verification/InventoryRuns.v ===== *)
(** * InventoryRuns: what the inventory calls compute

    Equations that run the inventory programs forwards, and the functional
    properties that follow: a transfer, the settlement of an RMA, receipts and
    their replays. *)
From S2P Require Import Prelude PyText PyStr PyDecimal Txn OutboxRelay EventBus Inventory GoodsReceipt StockReturns Valuation InventoryFacts InventoryProps.
Local Open Scope Z_scope.

(** A stock row after [delta] has moved, and the database with its ledger row. *)
Definition bump (delta now : Z) (o : option item) : item :=
  match o with
  | Some it => Item (qty_on_hand it + delta) (qty_reserved it) (qty_blocked it) (it_created_at it)
  | None => Item delta 0 0 now
  end.
Definition moved (id : string) (now : Z) (ns sku loc : string) (delta : Z) (reason : string) (ref : option string)
    (d : inv_db) : inv_db :=
  set_ledger (λ l, l ++ [Txn id ns sku loc delta reason None ref now])
    (set_uuids S (set_items (<[(ns, sku, loc) := bump delta now (inventory_items d !! (ns, sku, loc))]>) d)).

Lemma moved_on_hand id now ns sku loc n reason ref d k :
  on_hand (moved id now ns sku loc n reason ref d) k =
  on_hand d k + (if bool_decide ((ns, sku, loc) = k) then n else 0).
Proof.
  unfold moved. change (on_hand (set_ledger _ _) k) with
    (on_hand (set_items (<[(ns, sku, loc) := bump n now (inventory_items d !! (ns, sku, loc))]>) d) k).
  rewrite on_hand_insert. case_bool_decide as E; [|lia]. subst k. unfold on_hand.
  destruct (inventory_items d !! _); simpl; lia.
Qed.

Section runs.
Context (OUTBOX_HANDLERS : registry) (gen_random_uuid : nat → string).

Lemma numeric18_run n d : Z.abs n < 10 ^ 18 → numeric18 n d = Ok (d, n).
Proof. intros H. unfold numeric18. by apply Z.ltb_lt in H as ->. Qed.

Lemma append_run now ns sku loc n reason ref d :
  n ≠ 0 → Z.abs n < 10 ^ 18 → reason ∈ _VALID_REASON_CATEGORIES → sign_matches reason n →
  (ns, loc) ∈ stock_locations d →
  append_transaction gen_random_uuid now ns sku loc (PyDecimal (qty_of n)) reason ref None d =
  Ok (set_ledger (λ l, l ++ [Txn (gen_random_uuid (uuids d)) ns sku loc n reason None ref now]) (set_uuids S d),
      gen_random_uuid (uuids d)).
Proof.
  intros Hn Hb Hr [Hpos Hneg] Hloc. unfold append_transaction.
  assert (Z.abs n < 10 ^ PREC) by (transitivity (10 ^ 18); [done|done]).
  rewrite (lift_run (a := ())) by (by rewrite bool_decide_eq_true_2).
  rewrite (lift_run (a := qty_of n)) by done.
  rewrite (lift_run (a := qty_of n)) by (unfold _quantise_qty, qty_of; by rewrite quantize_same).
  rewrite (lift_run (a := ())).
  2: { unfold dec_eqb, qty_of. rewrite dec_compare_same. by destruct (Z.compare_spec n 0). }
  rewrite (lift_run (a := ())).
  2: { unfold _assert_sign_matches_category, qty_of. rewrite !dec_leb_same.
    destruct (bool_decide_reflect (reason ∈ [REASON_TRANSFER_IN; REASON_GOODS_RECEIPT])) as [Hi|_];
      [specialize (Hpos Hi); rewrite (proj2 (Z.leb_gt n 0)) by lia|];
      (destruct (bool_decide_reflect (reason ∈ [REASON_TRANSFER_OUT; REASON_CONSUMPTION])) as [Ho|_];
       [specialize (Hneg Ho); rewrite (proj2 (Z.leb_gt 0 n)) by lia|]); done. }
  rewrite (tx_run (s1 := d) (a := None)) by done.
  rewrite milli_qty, (tx_run (numeric18_run n d Hb)), (tx_run (s1 := d) (a := None)) by done.
  rewrite (tx_run (s1 := set_uuids S d) (a := gen_random_uuid (uuids d))) by done.
  unfold insert_txn. rewrite (tx_run (s1 := set_ledger (λ l, l ++
    [Txn (gen_random_uuid (uuids d)) ns sku loc n reason None ref now]) (set_uuids S d)) (a := ())); [done|].
  rewrite (tx_run (s1 := set_uuids S d) (a := stock_locations d)) by done. by rewrite bool_decide_eq_true_2.
Qed.

Lemma out_reason reason :
  reason ∈ [REASON_TRANSFER_OUT; REASON_CONSUMPTION] →
  reason ∈ _VALID_REASON_CATEGORIES ∧ reason ∉ [REASON_TRANSFER_IN; REASON_GOODS_RECEIPT].
Proof.
  intros [->|[->|[]%elem_of_nil]%elem_of_cons]%elem_of_cons;
    (split; [by apply (bool_decide_eq_true_1 _)|by apply (bool_decide_eq_false_1 _)]).
Qed.

Lemma take_out_run now ns sku loc n reason ref d :
  0 < n < 10 ^ 18 → reason ∈ [REASON_TRANSFER_OUT; REASON_CONSUMPTION] → stock_ok d →
  take_out gen_random_uuid now ns sku loc (qty_of n) reason ref d =
  if n <=? on_hand d (ns, sku, loc)
  then Ok (moved (gen_random_uuid (uuids d)) now ns sku loc (- n) reason ref d, on_hand d (ns, sku, loc) - n)
  else Err (InsufficientStockError sku loc (qty_of n) (on_hand d (ns, sku, loc))).
Proof.
  intros Hn Hr Hok. unfold take_out. destruct (out_reason _ Hr) as [Hv Hi].
  set (d1 := set_items (<[(ns, sku, loc) := bump (- n) now (inventory_items d !! (ns, sku, loc))]>) d).
  assert (decrement_on_hand ns sku loc (qty_of n) d =
    if n <=? on_hand d (ns, sku, loc) then Ok (d1, on_hand d (ns, sku, loc) - n)
    else Err (InsufficientStockError sku loc (qty_of n) (on_hand d (ns, sku, loc)))) as Hdec.
  { unfold decrement_on_hand. rewrite (tx_run (s1 := d) (a := inventory_items d)) by done. unfold d1, on_hand.
    destruct (inventory_items d !! (ns, sku, loc)) as [it|]; simpl; [by rewrite milli_qty; case_match|].
    by rewrite (proj2 (Z.leb_gt n 0)) by lia. }
  destruct (Z.leb_spec n (on_hand d (ns, sku, loc))) as [Hle|]; [|by apply tx_stop].
  assert ((ns, loc) ∈ stock_locations d) as Hloc.
  { unfold on_hand in Hle. destruct (inventory_items d !! (ns, sku, loc)) as [it|] eqn:Hk; simpl in Hle; [|lia].
    exact (proj2 (ok_items _ Hok _ _ Hk)). }
  rewrite (tx_run Hdec). assert (n < 10 ^ PREC) by (transitivity (10 ^ 18); [lia|done]).
  unfold dec_neg. rewrite fix28_small by (simpl; lia).
  rewrite (tx_run (append_run now ns sku loc (- n) reason ref d1 ltac:(lia) ltac:(lia) Hv
      (conj (λ H, False_ind _ (Hi H)) (λ _, proj2 (Z.opp_neg_pos n) (proj1 Hn))) Hloc)). done.
Qed.

Lemma put_in_run now ns sku loc n reason ref d :
  0 < n < 10 ^ 18 → reason ∈ [REASON_TRANSFER_IN; REASON_GOODS_RECEIPT] →
  0 ≤ on_hand d (ns, sku, loc) → on_hand d (ns, sku, loc) + n < 10 ^ 18 → (ns, loc) ∈ stock_locations d →
  put_in gen_random_uuid now ns sku loc (qty_of n) reason ref d =
  Ok (moved (gen_random_uuid (uuids d)) now ns sku loc n reason ref d, on_hand d (ns, sku, loc) + n).
Proof.
  intros Hn Hr H0 Hmax Hloc. unfold put_in, increment_on_hand, upsert_on_hand.
  assert (reason ∈ _VALID_REASON_CATEGORIES ∧ reason ∉ [REASON_TRANSFER_OUT; REASON_CONSUMPTION]) as [Hv Ho].
  { revert Hr. clear. intros [->|[->|[]%elem_of_nil]%elem_of_cons]%elem_of_cons;
      (split; [by apply (bool_decide_eq_true_1 _)|by apply (bool_decide_eq_false_1 _)]). }
  set (d1 := set_items (<[(ns, sku, loc) := bump n now (inventory_items d !! (ns, sku, loc))]>) d).
  rewrite (tx_run (s1 := d1) (a := on_hand d (ns, sku, loc) + n)).
  - rewrite (tx_run (append_run now ns sku loc n reason ref d1 ltac:(lia) ltac:(lia) Hv
      (conj (λ _, proj1 Hn) (λ H, False_ind _ (Ho H))) Hloc)). done.
  - rewrite milli_qty, (tx_run (numeric18_run n d ltac:(lia))), (tx_run (s1 := d) (a := inventory_items d)),
      (tx_run (s1 := d) (a := stock_locations d)) by done.
    unfold on_hand, d1 in *. destruct (inventory_items d !! (ns, sku, loc)) as [it|] eqn:Hk; simpl in *.
    + rewrite (tx_run (numeric18_run (qty_on_hand it + n) d ltac:(lia))). done.
    + by rewrite bool_decide_eq_true_2.
Qed.

(** ** The graph mirror always succeeds when the registry names the inventory *)

Definition mirror_owned (ns : string) (d : inv_db) : Prop :=
  node_ownership_registry d !! (ns, "STOCK_LOCATION"%string) = Some _OWNER_ENGINE ∧
  node_ownership_registry d !! (ns, "INVENTORY_ITEM"%string) = Some _OWNER_ENGINE.

Definition only_graph (d d' : inv_db) : Prop :=
  same_stock d d' ∧ node_ownership_registry d' = node_ownership_registry d ∧ goods_receipts d' = goods_receipts d.

#[local] Instance only_graph_preorder : PreOrder only_graph.
Proof.
  split; [by intros d|]. intros d1 d2 d3 (A1 & B1 & C1) (A2 & B2 & C2).
  split_and!; [by transitivity d2|congruence|congruence].
Qed.

Lemma publish_run now ns ty op agg payload d :
  ∃ d', publish_event OUTBOX_HANDLERS gen_random_uuid now ns ty op agg payload d = Ok (d', ()) ∧ only_graph d d' ∧
    kg_nodes d' = kg_nodes d ∧ kg_edges d' = kg_edges d.
Proof.
  unfold publish_event. rewrite (tx_run (s1 := d) (a := inv_webhooks d)) by done.
  case_match; eexists; (split; [reflexivity|]); unfold only_graph, same_stock; by split_and!.
Qed.

Lemma node_run now ns label ty d :
  node_ownership_registry d !! (ns, ty) = Some _OWNER_ENGINE →
  ∃ d', _upsert_kg_node OUTBOX_HANDLERS gen_random_uuid now ns label ty d = Ok (d', ()) ∧ only_graph d d' ∧
    kg_nodes d' = <[(ns, label) := ty]> (kg_nodes d) ∧ kg_edges d' = kg_edges d.
Proof.
  intros Ho. unfold _upsert_kg_node. rewrite (tx_run (s1 := d) (a := ())).
  - rewrite (tx_run (s1 := set_kg_nodes (<[(ns, label) := ty]>) d) (a := ())) by done.
    destruct (publish_run now ns ty "upserted" label (graph_write_payload ns ty "upserted" label)
      (set_kg_nodes (<[(ns, label) := ty]>) d)) as (d' & E & Hg & N & K).
    exists d'. split_and!; [exact E|exact Hg|exact N|exact K].
  - unfold assert_owner. rewrite (tx_run (s1 := d) (a := node_ownership_registry d)) by done. by rewrite Ho.
Qed.

Lemma mirror_run now ns sku loc d :
  mirror_owned ns d →
  ∃ d', mirror_item_at_location OUTBOX_HANDLERS gen_random_uuid now ns sku loc d = Ok (d', ()) ∧ only_graph d d' ∧
    kg_nodes d' = <[(ns, _inventory_item_label sku loc) := "INVENTORY_ITEM"%string]>
                    (<[(ns, _stock_location_label loc) := "STOCK_LOCATION"%string]> (kg_nodes d)) ∧
    kg_edges d' = {[(ns, _inventory_item_label sku loc, "at"%string, _stock_location_label loc)]} ∪ kg_edges d.
Proof.
  intros [H1 H2]. unfold mirror_item_at_location.
  destruct (node_run now ns (_stock_location_label loc) _ d H1) as (d1 & E1 & G1 & N1 & K1).
  rewrite (tx_run E1). pose proof (proj1 (proj2 G1)) as R1. rewrite <- R1 in H2.
  destruct (node_run now ns (_inventory_item_label sku loc) _ d1 H2) as (d2 & E2 & G2 & N2 & K2).
  rewrite (tx_run E2). eexists. split; [reflexivity|]. simpl. rewrite N2, N1, K2, K1. split_and!; [|done..].
  transitivity d1; [done|]. transitivity d2; [done|]. by split_and!.
Qed.

(** ** Transfers *)

Lemma moved_other id now ns sku loc n reason ref d k :
  (ns, sku, loc) ≠ k → inventory_items (moved id now ns sku loc n reason ref d) !! k = inventory_items d !! k.
Proof. intros. unfold moved. simpl. by rewrite lookup_insert_ne. Qed.

(** The two stock rows and their ledger rows, in lock order. *)
Definition transferred (now : Z) (u s la lb : string) (n : Z) (d d' : inv_db) : Prop :=
  inventory_items d' =
    <[(u, s, lb) := bump n now (inventory_items d !! (u, s, lb))]>
      (<[(u, s, la) := bump (- n) now (inventory_items d !! (u, s, la))]> (inventory_items d)) ∧
  stock_locations d' = stock_locations d ∧
  ∃ id1 id2,
    let out := Txn id1 u s la (- n) REASON_TRANSFER_OUT None (Some lb) now in
    let in_ := Txn id2 u s lb n REASON_TRANSFER_IN None (Some la) now in
    inventory_transactions d' = inventory_transactions d ++ (if str_leb la lb then [out; in_] else [in_; out]).

Lemma transfer_rows_run now u s la lb n d :
  la ≠ lb → 0 < n → stock_ok d → (u, lb) ∈ stock_locations d → on_hand d (u, s, lb) + n < 10 ^ 18 →
  let m :=
    if str_leb la lb then
      from_on_hand ← take_out gen_random_uuid now u s la (qty_of n) REASON_TRANSFER_OUT (Some lb);
      to_on_hand ← put_in gen_random_uuid now u s lb (qty_of n) REASON_TRANSFER_IN (Some la);
      mret (from_on_hand, to_on_hand)
    else
      to_on_hand ← put_in gen_random_uuid now u s lb (qty_of n) REASON_TRANSFER_IN (Some la);
      from_on_hand ← take_out gen_random_uuid now u s la (qty_of n) REASON_TRANSFER_OUT (Some lb);
      mret (from_on_hand, to_on_hand) in
  if n <=? on_hand d (u, s, la)
  then ∃ d', m d = Ok (d', (on_hand d (u, s, la) - n, on_hand d (u, s, lb) + n)) ∧ transferred now u s la lb n d d' ∧
         node_ownership_registry d' = node_ownership_registry d
  else m d = Err (InsufficientStockError s la (qty_of n) (on_hand d (u, s, la))).
Proof.
  intros Hne Hn Hok Hloc Hmax m.
  assert (0 ≤ on_hand d (u, s, lb)) as H0.
  { unfold on_hand. destruct (inventory_items d !! (u, s, lb)) as [it|] eqn:Hk; simpl; [|lia].
    destruct (ok_items _ Hok _ _ Hk) as [(?&?&?) _]. lia. }
  assert (Hout : REASON_TRANSFER_OUT ∈ [REASON_TRANSFER_OUT; REASON_CONSUMPTION]) by apply list_elem_of_here.
  assert (Hin : REASON_TRANSFER_IN ∈ [REASON_TRANSFER_IN; REASON_GOODS_RECEIPT]) by apply list_elem_of_here.
  assert (Hk : (u, s, la) ≠ (u, s, lb)) by congruence.
  unfold m, transferred. destruct (str_leb la lb).
  - pose proof (take_out_run now u s la n _ (Some lb) d ltac:(lia) Hout Hok) as Ht.
    destruct (n <=? on_hand d (u, s, la)); [|by apply tx_stop].
    rewrite (tx_run Ht). set (d1 := moved _ _ _ _ _ _ _ _ _) in *.
    assert (on_hand d1 (u, s, lb) = on_hand d (u, s, lb)) as Hd1.
    { unfold d1. rewrite moved_on_hand, bool_decide_eq_false_2 by done. lia. }
    rewrite (tx_run (put_in_run now u s lb n REASON_TRANSFER_IN (Some la) d1 ltac:(lia) Hin ltac:(lia) ltac:(lia) Hloc)).
    rewrite Hd1. eexists. split; [reflexivity|]. split_and!; try done.
    + unfold moved. cbn [inventory_items set_ledger set_uuids set_items].
      assert (inventory_items d1 = <[(u, s, la) := bump (- n) now (inventory_items d !! (u, s, la))]>
        (inventory_items d)) as -> by done. by rewrite lookup_insert_ne.
    + do 2 eexists. unfold d1, moved. simpl. by rewrite <- app_assoc.
  - pose proof (put_in_run now u s lb n _ (Some la) d ltac:(lia) Hin H0 Hmax Hloc) as Hp.
    rewrite (tx_run Hp).
    assert (stock_ok (moved (gen_random_uuid (uuids d)) now u s lb n REASON_TRANSFER_IN (Some la) d)) as Hok1.
    { assert (is_qty (qty_of n)) as Hqty.
      { exists n. split; [done|]. split; [lia|]. transitivity (10 ^ 18); [lia|done]. }
      exact (change_ok _ _ (put_in_step gen_random_uuid now u s lb _ _ _ Hqty _ _ _ Hp Hok)). }
    set (d1 := moved _ _ _ _ _ _ _ _ _) in *.
    assert (on_hand d1 (u, s, la) = on_hand d (u, s, la)) as Hd1.
    { unfold d1. rewrite moved_on_hand, bool_decide_eq_false_2 by done. lia. }
    pose proof (take_out_run now u s la n _ (Some lb) d1 ltac:(lia) Hout Hok1) as Ht. rewrite Hd1 in Ht.
    destruct (n <=? on_hand d (u, s, la)); [|by apply tx_stop].
    rewrite (tx_run Ht). eexists. split; [reflexivity|]. split_and!; try done.
    + unfold moved. cbn [inventory_items set_ledger set_uuids set_items].
      assert (inventory_items d1 = <[(u, s, lb) := bump n now (inventory_items d !! (u, s, lb))]>
        (inventory_items d)) as -> by done. rewrite lookup_insert_ne by done. by apply insert_insert_ne.
    + do 2 eexists. unfold d1, moved. simpl. by rewrite <- app_assoc.
Qed.

Definition placed (u s loc : string) (d : inv_db) : Prop :=
  (u, _inventory_item_label s loc, "at"%string, _stock_location_label loc) ∈ kg_edges d.
Lemma mirrors_run {A} now u s x y d (r : A) :
  mirror_owned u d →
  ∃ d', (mirror_item_at_location OUTBOX_HANDLERS gen_random_uuid now u s x ≫= λ _,
         mirror_item_at_location OUTBOX_HANDLERS gen_random_uuid now u s y ≫= λ _, mret r) d = Ok (d', r) ∧
    only_graph d d' ∧ placed u s x d' ∧ placed u s y d'.
Proof.
  intros Hown. destruct (mirror_run now u s x d Hown) as (d1 & E1 & G1 & _ & K1). rewrite (tx_run E1).
  assert (mirror_owned u d1) as Hown1 by (unfold mirror_owned; by rewrite (proj1 (proj2 G1))).
  destruct (mirror_run now u s y d1 Hown1) as (d2 & E2 & G2 & _ & K2). rewrite (tx_run E2).
  exists d2. split; [done|]. split; [by transitivity d1|]. unfold placed. rewrite K2, K1. set_solver.
Qed.

(** A transfer moves exactly the quantity asked for.  Between two existing
    locations of a namespace whose mirror the inventory owns, and with room at
    the destination, [do_transfer_stock] succeeds exactly when the source holds
    enough: the two stock rows and no other change by the quantity, one ledger
    row records each side, in lock order, and the graph places the item at both
    locations.  Otherwise it raises [InsufficientStockError] naming what the
    source holds, and nothing is written. *)
Theorem transfer_moves_stock now ns sku qty a b d u s n la lb :
  _as_ns_uuid ns "namespace_id" = Ok u → _as_sku sku "sku" = Ok s → _as_quantity qty "qty" = Ok (qty_of n) →
  _as_location_uuid a "from_location" = Ok la → _as_location_uuid b "to_location" = Ok lb → la ≠ lb →
  stock_ok d → mirror_owned u d → (u, lb) ∈ stock_locations d → on_hand d (u, s, lb) + n < 10 ^ 18 →
  let run := do_transfer_stock OUTBOX_HANDLERS gen_random_uuid now ns sku qty a b d in
  if n <=? on_hand d (u, s, la)
  then ∃ d', run = Ok (d', Transfer (qty_of n) (on_hand d (u, s, la) - n) (on_hand d (u, s, lb) + n)) ∧
         transferred now u s la lb n d d' ∧
         placed u s la d' ∧ placed u s lb d'
  else run = Err (InsufficientStockError s la (qty_of n) (on_hand d (u, s, la))).
Proof.
  intros Hu Hs Hq Ha Hb Hne Hok Hown Hloc Hmax run. unfold run, do_transfer_stock.
  destruct (as_quantity_ok _ _ _ Hq) as (n' & [= <-] & Hn).
  rewrite (lift_run Hu), (lift_run Hs), (lift_run Hq), (lift_run Ha), (lift_run Hb).
  rewrite (lift_run (a := ())) by (apply String.eqb_neq in Hne; by rewrite Hne).
  pose proof (transfer_rows_run now u s la lb n d Hne ltac:(lia) Hok Hloc Hmax) as Hrows. cbv zeta in Hrows.
  unfold _canonical_lock_order.
  destruct (str_leb la lb) eqn:Hord; [rewrite String.eqb_refl|rewrite (proj2 (String.eqb_neq lb la)) by done];
    (destruct (n <=? on_hand d (u, s, la)); [|by apply tx_stop]);
    destruct Hrows as (d1 & Hrun & (Hi & Hl & Hled) & Hreg); rewrite (tx_run Hrun);
    assert (mirror_owned u d1) as Hown1 by (unfold mirror_owned; by rewrite Hreg).
  - destruct (mirrors_run now u s la lb d1 (Transfer (qty_of n) (on_hand d (u, s, la) - n) (on_hand d (u, s, lb) + n)) Hown1)
      as (d2 & E & ((Gi & Gt & Gl & _) & _) & P1 & P2).
    exists d2. split; [exact E|]. unfold transferred. rewrite Gi, Gt, Gl. split_and!; try done; destruct Hled as (i1 & i2 & Hled); exists i1, i2; by rewrite Hled, ?Hord.
  - destruct (mirrors_run now u s lb la d1 (Transfer (qty_of n) (on_hand d (u, s, la) - n) (on_hand d (u, s, lb) + n)) Hown1)
      as (d2 & E & ((Gi & Gt & Gl & _) & _) & P1 & P2).
    exists d2. split; [exact E|]. unfold transferred. rewrite Gi, Gt, Gl. split_and!; try done; destruct Hled as (i1 & i2 & Hled); exists i1, i2; by rewrite Hled, ?Hord.
Qed.
End runs.

Lemma demo_owned : mirror_owned demo_ns demo_stock.
Proof. split; vm_compute; reflexivity. Qed.

Lemma transfer_moves_stock_witness :
  ∃ d, do_transfer_stock ∅ demo_uuid 9 (Some demo_ns) (Some "CABLE"%string) (PyInt 4) (Some demo_a) (Some demo_b) demo_stock
       = Ok (d, Transfer (qty_of 4000) 6000 4000) ∧ placed demo_ns "CABLE" demo_b d.
Proof.
  assert (on_hand demo_stock (demo_ns, "CABLE"%string, demo_a) = 10000) as Ea by (vm_compute; reflexivity).
  assert (on_hand demo_stock (demo_ns, "CABLE"%string, demo_b) = 0) as Eb by (vm_compute; reflexivity).
  assert (demo_a ≠ demo_b) as Hne by done.
  assert (_as_ns_uuid (Some demo_ns) "namespace_id" = Ok demo_ns) as Hu by (vm_compute; reflexivity).
  assert (_as_quantity (PyInt 4) "qty" = Ok (qty_of 4000)) as Hq by (vm_compute; reflexivity).
  assert (_as_location_uuid (Some demo_a) "from_location" = Ok demo_a) as Ha by (vm_compute; reflexivity).
  assert (_as_location_uuid (Some demo_b) "to_location" = Ok demo_b) as Hb by (vm_compute; reflexivity).
  assert ((demo_ns, demo_b) ∈ stock_locations demo_stock) as Hl by (by apply (bool_decide_eq_true_1 _)).
  pose proof (transfer_moves_stock ∅ demo_uuid 9 (Some demo_ns) (Some "CABLE"%string) (PyInt 4) (Some demo_a) (Some demo_b)
    demo_stock demo_ns "CABLE" 4000 demo_a demo_b Hu eq_refl Hq Ha Hb
    Hne demo_stock_ok demo_owned Hl) as H.
  rewrite Ea, Eb in H. destruct (H eq_refl) as (d & Hd & _ & _ & P). exists d. split; [exact Hd|exact P].
Defined.
