(* ===== verification/ReturnsProps.v ===== *)
(** * ReturnsProps: an RMA moves stock once

    The settlement rows of the ledger ([rma:<ref>] adjustments) against the
    state of the RMA rows, along every history of inventory calls. *)
From S2P Require Import Prelude PyText PyStr PyDecimal Txn OutboxRelay EventBus Inventory GoodsReceipt StockReturns Valuation InventoryFacts InventoryProps.
Local Open Scope Z_scope.

Definition is_adjustment (t : txn) : bool := String.eqb (tx_reason_category t) REASON_ADJUSTMENT.
Definition adjustments (d : inv_db) : list txn := List.filter is_adjustment (inventory_transactions d).
Definition settles_ref (ns ref : string) (t : txn) : bool :=
  String.eqb (tx_namespace_id t) ns && bool_decide (tx_ref t = Some ("rma:" +:+ ref)).
Definition settlements (ns ref : string) (d : inv_db) : list txn := List.filter (settles_ref ns ref) (adjustments d).

Definition settled (r : rma) : Prop := rm_stock_movement_state r ≠ STOCK_MOVEMENT_PENDING.
#[global] Instance settled_dec r : Decision (settled r).
Proof. unfold settled. apply _. Defined.

(** The ledger row a settled RMA has. *)
Definition settles (r : rma) (t : txn) : Prop :=
  tx_sku t = rm_sku r ∧ tx_location_id t = rm_location_id r ∧
  ((rm_stock_movement_state r = _STATE_RESTOCKED ∧ tx_delta t = rm_qty r) ∨
   (rm_stock_movement_state r = _STATE_DISPOSED ∧ tx_delta t = - rm_qty r)).
Definition settled_by (o : option rma) (ts : list txn) : Prop :=
  match o with
  | Some r => if decide (settled r) then ∃ t, ts = [t] ∧ settles r t else ts = []
  | None => ts = []
  end.
Definition rma_ok (d : inv_db) : Prop :=
  ∀ ns ref, settled_by (inventory_rma d !! (ns, ref)) (settlements ns ref d).

(** Settled rows stay as they are. *)
Definition settled_kept (d d' : inv_db) : Prop :=
  ∀ k r, inventory_rma d !! k = Some r → settled r → inventory_rma d' !! k = Some r.

(** ** Calls that settle nothing *)

Definition quiet (d d' : inv_db) : Prop := inventory_rma d' = inventory_rma d ∧ adjustments d' = adjustments d.
#[local] Instance quiet_preorder : PreOrder quiet.
Proof. split; [by intros d|]. intros ??? [??] [??]. split; congruence. Qed.
Lemma quiet_rma d d' : quiet d d' → rma_ok d → rma_ok d' ∧ settled_kept d d'.
Proof. intros [H1 H2] Hd. split; [|intros k r; by rewrite H1]. intros ns ref. unfold settlements. rewrite H1, H2. apply Hd. Qed.

Section calls.
Context (sha256 : string → string) (OUTBOX_HANDLERS : registry) (gen_random_uuid : nat → string).
Context (do_seed_asset_from_bom : string → string → result string json).

Lemma modify_quiet f : (∀ d, quiet d (f d)) → respects quiet (@modify _ inv_error f).
Proof. apply respects_modify. Qed.
Lemma numeric18_quiet n : respects quiet (numeric18 n).
Proof. unfold numeric18. respect. Qed.
Lemma fresh_quiet : respects quiet (fresh_uuid gen_random_uuid).
Proof. unfold fresh_uuid. respect. by apply modify_quiet. Qed.
#[local] Hint Resolve numeric18_quiet fresh_quiet : tx.
#[local] Hint Extern 5 (respects quiet (modify _)) => (by apply modify_quiet) : tx.

Lemma append_quiet now ns sku loc n reason ref cost :
  reason ≠ REASON_ADJUSTMENT → respects quiet (append_transaction gen_random_uuid now ns sku loc n reason ref cost).
Proof.
  intros Hr. unfold append_transaction, insert_txn. respect.
  all: apply modify_quiet; intros d; split; [done|]; unfold adjustments; simpl.
  all: rewrite List.filter_app; simpl; unfold is_adjustment at 2; simpl.
  all: apply String.eqb_neq in Hr; rewrite Hr; apply app_nil_r.
Qed.
Lemma decrement_quiet ns sku loc q : respects quiet (decrement_on_hand ns sku loc q).
Proof. unfold decrement_on_hand. respect. Qed.
Lemma upsert_quiet now e ns sku loc q : respects quiet (upsert_on_hand now e ns sku loc q).
Proof. unfold upsert_on_hand. respect. Qed.
#[local] Hint Resolve append_quiet decrement_quiet upsert_quiet : tx.
#[local] Hint Extern 5 (_ ≠ REASON_ADJUSTMENT) => done : tx.

Lemma publish_quiet now ns ty op agg payload :
  respects quiet (publish_event OUTBOX_HANDLERS gen_random_uuid now ns ty op agg payload).
Proof. unfold publish_event. respect. Qed.
#[local] Hint Resolve publish_quiet : tx.
Lemma node_quiet now ns label ty :
  respects quiet (_upsert_kg_node OUTBOX_HANDLERS gen_random_uuid now ns label ty).
Proof. unfold _upsert_kg_node, assert_owner. respect. Qed.
Lemma edge_quiet ns s p o : respects quiet (_upsert_kg_edge ns s p o).
Proof. by apply modify_quiet. Qed.
#[local] Hint Resolve node_quiet edge_quiet : tx.
Lemma mirror_quiet now ns sku loc :
  respects quiet (mirror_item_at_location OUTBOX_HANDLERS gen_random_uuid now ns sku loc).
Proof. unfold mirror_item_at_location. respect. Qed.
#[local] Hint Resolve mirror_quiet : tx.

Ltac quiet := repeat first [ progress respect
  | match goal with |- respects _ (let '(_, _) := ?x in _) => destruct x end
  | apply fits_column_respects ].

Lemma transfer_quiet now ns sku q a b :
  respects quiet (do_transfer_stock OUTBOX_HANDLERS gen_random_uuid now ns sku q a b).
Proof. unfold do_transfer_stock, take_out, put_in, increment_on_hand. quiet. Qed.
Lemma consumption_quiet now ns sku q l w :
  respects quiet (do_record_consumption OUTBOX_HANDLERS gen_random_uuid now ns sku q l w).
Proof. unfold do_record_consumption, take_out. quiet. Qed.
Lemma receipt_quiet now p :
  respects quiet (do_record_goods_receipt sha256 OUTBOX_HANDLERS gen_random_uuid do_seed_asset_from_bom now p).
Proof.
  unfold do_record_goods_receipt, insert_receipt, receive_line, graph_writes, _upsert_goods_receipt_node, _increment_qty_on_hand.
  quiet.
Qed.
Lemma reserve_quiet ns sku q l p : respects quiet (do_reserve_stock ns sku q l p).
Proof. unfold do_reserve_stock. quiet. Qed.
Lemma release_quiet ns sku q l p : respects quiet (do_release_stock ns sku q l p).
Proof. unfold do_release_stock. quiet. Qed.

(** ** Recording and settling *)

Lemma record_rma_ok now p d d' r :
  do_record_rma OUTBOX_HANDLERS gen_random_uuid now p d = Ok (d', r) → rma_ok d → rma_ok d' ∧ settled_kept d d'.
Proof.
  intros Hrun Hd. unfold do_record_rma in Hrun. inv_tx.
  match goal with H : numeric18 _ _ = _ |- _ => apply numeric18_quiet in H as Hq1 end.
  match goal with H : _upsert_inventory_rma_kg_node _ _ _ _ _ _ = _ |- _ => apply node_quiet in H as Hq2 end.
  match goal with H : match ?o with _ => _ end ?a = Ok (?b, _) |- _ =>
    assert (rma_ok a) as Ha by (by apply (quiet_rma _ _ Hq1 Hd)); assert (rma_ok b ∧ settled_kept a b) as [Hb Hk] end.
  { match goal with H : match ?o with _ => _ end _ = Ok _ |- _ => destruct o eqn:Ho; inv_tx; [split; [exact Ha|by intros k ?]|] end.
    case_bool_decide; inv_tx.
    match goal with H : fresh_uuid _ _ = _ |- _ => apply fresh_uuid_Ok in H as -> end. subst. split.
    - intros ns ref. unfold set_rmas at 1. cbn [inventory_rma].
      match goal with |- settled_by (<[?k := ?r]> ?m !! ?k') ?t => destruct (decide (k = k')) as [E|Hne] end.
      + rewrite E, lookup_insert_eq. unfold settled_by. rewrite decide_False by (by intros []).
        specialize (Ha ns ref). rewrite <- E, Ho in Ha. exact Ha.
      + rewrite lookup_insert_ne by done. apply Ha.
    - intros k r' Hk' _. simpl. rewrite lookup_insert_ne; [done|]. intros <-. congruence. }
  destruct (quiet_rma _ _ Hq2 Hb) as [Hok Hk2]. split; [done|].
  intros k r' Hr' Hs. apply Hk2; [|done]. apply Hk; [|done]. by apply (quiet_rma _ _ Hq1 Hd).
Qed.

(** A signed quantity on its way into the ledger. *)
Lemma leg_quantity sign n :
  0 < n < 10 ^ 18 →
  (if 0 <? sign then of_numeric 3 n else dec_neg (of_numeric 3 n)) = qty_of (if 0 <? sign then n else - n) ∧
  Z.abs (if 0 <? sign then n else - n) < 10 ^ PREC.
Proof.
  intros Hn. assert (n < 10 ^ PREC) by (transitivity (10 ^ 18); [lia|done]).
  destruct (0 <? sign); [split; [done|lia]|]. split; [|lia].
  unfold dec_neg, of_numeric. simpl. by rewrite fix28_small by (simpl; lia).
Qed.

Lemma leg_effect now raw ref0 st sign dr d d' leg :
  _run_rma_leg OUTBOX_HANDLERS gen_random_uuid now raw ref0 st sign dr d = Ok (d', leg) → stock_ok d →
  ∃ ns ref r0 r t,
    inventory_rma d !! (ns, ref) = Some r0 ∧ ¬ settled r0 ∧ rm_stock_movement_state r = st ∧
    inventory_rma d' = <[(ns, ref) := r]> (inventory_rma d) ∧ adjustments d' = adjustments d ++ [t] ∧
    tx_namespace_id t = ns ∧ tx_ref t = Some ("rma:" +:+ ref) ∧ tx_sku t = rm_sku r ∧
    tx_location_id t = rm_location_id r ∧ tx_delta t = (if 0 <? sign then rm_qty r else - rm_qty r).
Proof.
  intros Hrun Hsd. unfold _run_rma_leg in Hrun. inv_tx.
  match goal with H : _claim_rma _ _ _ _ _ = _ |- _ => apply claim_Ok in H as (r0 & Hr0 & Hp & Hq & _ & _ & Hst' & ->) end.
  match goal with H : mirror_item_at_location _ _ _ _ _ _ _ = _ |- _ => apply mirror_quiet in H as [E3 E4] end.
  match goal with H : (if 0 <? sign then _ else _) ?a = Ok (?b, _) |- _ => assert (quiet a b) as [E1 E2];
    [clear -H; destruct (0 <? sign); [by eapply upsert_quiet|by eapply decrement_quiet]|] end.
  pose proof (ok_rmas _ Hsd _ _ Hr0) as Hn. simpl in Hn. rewrite <- Hq in Hn.
  destruct (leg_quantity sign _ Hn) as [Eq Hsize].
  match goal with H : append_transaction _ _ _ _ _ _ _ _ _ _ = _ |- _ =>
    rewrite Eq in H; apply append_Ok in H as (t & -> & _ & Hn' & Hts & Htl & Htd & Htr & Htf & _); [|exact Hsize] end.
  do 5 eexists. split_and!; try done.
  - by intros [].
  - rewrite E3. exact E1.
  - rewrite E4. unfold adjustments at 1. cbn [inventory_transactions set_ledger set_uuids].
    rewrite List.filter_app. fold (adjustments x5). f_equal; [exact E2|]. simpl. unfold is_adjustment.
    by rewrite Htr, String.eqb_refl.
Qed.

Lemma rma_leg_ok now raw ref0 st sign dr d d' leg :
  st = (if 0 <? sign then _STATE_RESTOCKED else _STATE_DISPOSED) →
  _run_rma_leg OUTBOX_HANDLERS gen_random_uuid now raw ref0 st sign dr d = Ok (d', leg) →
  stock_ok d → rma_ok d → rma_ok d' ∧ settled_kept d d'.
Proof.
  intros Hst Hrun Hsd Hd. apply leg_effect in Hrun as (ns & ref & r0 & r & t & Hr0 & Hp & Hr & E1 & E2 & Hns & Hrf & Hs & Hl & Hn);
    [|done]. split.
  2: { intros k r1 Hk Hsett. rewrite E1, lookup_insert_ne; [done|]. intros <-. rewrite Hr0 in Hk. by injection Hk as <-. }
  intros ns' ref'. unfold settlements. rewrite E1, E2, List.filter_app. specialize (Hd ns' ref').
  destruct (decide ((ns, ref) = (ns', ref'))) as [[= <- <-]|Hne].
  - rewrite Hr0 in Hd. unfold settled_by in Hd. rewrite decide_False in Hd by done.
    unfold settlements in Hd. rewrite Hd, lookup_insert_eq. simpl. unfold settles_ref.
    rewrite Hns, String.eqb_refl, bool_decide_eq_true_2 by done. unfold settled_by, settled.
    rewrite decide_True by (rewrite Hr, Hst; by destruct (0 <? sign)).
    exists t. split; [done|]. unfold settles. rewrite Hr, Hst, Hn. destruct (0 <? sign); auto 6.
  - rewrite lookup_insert_ne by done. simpl.
    assert (settles_ref ns' ref' t = false) as ->; [|by rewrite app_nil_r].
    unfold settles_ref. rewrite Hns, Hrf. apply andb_false_iff.
    destruct (String.eqb_spec ns ns') as [->|]; [|by left]. right. apply bool_decide_eq_false_2.
    intros [= E]. change (ref = ref') in E. subst. by apply Hne.
Qed.

Lemma run_call_rma c d d' :
  run_call sha256 OUTBOX_HANDLERS gen_random_uuid do_seed_asset_from_bom c d = Ok (d', ()) →
  stock_ok d → rma_ok d → rma_ok d' ∧ settled_kept d d'.
Proof.
  destruct c; unfold run_call; intros (d1 & r & Hrun & [<- _]%tx_ret_Ok)%tx_bind_Ok Hs Hd.
  - apply transfer_quiet in Hrun. by apply (quiet_rma d).
  - apply consumption_quiet in Hrun. by apply (quiet_rma d).
  - apply receipt_quiet in Hrun. by apply (quiet_rma d).
  - by eapply record_rma_ok.
  - by eapply (rma_leg_ok _ _ _ _ 1).
  - unfold do_dispose_rma_weee in Hrun. inv_tx. by eapply (rma_leg_ok _ _ _ _ (-1)).
  - apply reserve_quiet in Hrun. by apply (quiet_rma d).
  - apply release_quiet in Hrun. by apply (quiet_rma d).
Qed.

Lemma history_rma d d' :
  rtc (inv_move sha256 OUTBOX_HANDLERS gen_random_uuid do_seed_asset_from_bom) d d' →
  stock_ok d → rma_ok d → rma_ok d' ∧ settled_kept d d'.
Proof.
  induction 1 as [d|d d1 d2 Hm _ IH]; intros Hs Hd; [split; [done|by intros k ?]|].
  assert (rma_ok d1 ∧ settled_kept d d1) as [Hd1 Hk1].
  { destruct Hm as [c d1 H|d1 _ H2 H3 _ _]; [by eapply run_call_rma|].
    apply quiet_rma; [|done]. split; [done|]. unfold adjustments. by rewrite H2. }
  destruct IH as [Hd2 Hk2]; [by apply (inv_move_step _ _ _ _ _ _ Hm)|done|].
  split; [done|]. intros k r Hk Hst. apply Hk2; [by apply Hk1|done].
Qed.

Lemma claim_settled ns ref st dr d r :
  inventory_rma d !! (ns, ref) = Some r → settled r →
  ∃ e, _claim_rma ns ref st dr d = Err e ∧
    (e = RmaAlreadySettledError ref (rm_stock_movement_state r) ∨
     (e = RmaNotWeeeScopeError ref ∧ st = _STATE_DISPOSED ∧ rm_weee_state r = WEEE_NOT_APPLICABLE)).
Proof.
  intros Hr Hs. unfold _claim_rma. rewrite (tx_run (s1 := d) (a := inventory_rma d)) by done. rewrite Hr.
  apply String.eqb_neq in Hs. rewrite Hs. simpl.
  destruct (String.eqb_spec st _STATE_DISPOSED), (String.eqb_spec (rm_weee_state r) WEEE_NOT_APPLICABLE);
    simpl; eexists; (split; [reflexivity|]); auto.
Qed.

(** C25: an RMA moves stock at most once.  Along every history of inventory
    calls, in any interleaving, a pending RMA has no settlement in the ledger
    and a settled one has exactly one: its SKU at its location, plus its
    quantity when it was restocked and minus when it was disposed of.  A settled
    RMA never changes again, and restocking it or disposing of it is refused
    without effect. *)
Theorem rma_settles_once d0 d :
  stock_ok d0 → rma_ok d0 → rtc (inv_move sha256 OUTBOX_HANDLERS gen_random_uuid do_seed_asset_from_bom) d0 d →
  ∀ ns ref r, inventory_rma d !! (ns, ref) = Some r →
  if decide (settled r) then
    (∃ t, settlements ns ref d = [t] ∧ settles r t) ∧
    (∀ d', rtc (inv_move sha256 OUTBOX_HANDLERS gen_random_uuid do_seed_asset_from_bom) d d' →
       inventory_rma d' !! (ns, ref) = Some r ∧
       ∀ now raw_ns raw_ref raw_disposal, _as_ns_uuid raw_ns "namespace_id" = Ok ns → _as_required_text raw_ref "rma_ref" = Ok ref →
         do_restock_from_rma OUTBOX_HANDLERS gen_random_uuid now raw_ns raw_ref d'
           = Err (RmaAlreadySettledError ref (rm_stock_movement_state r)) ∧
         ∃ e, do_dispose_rma_weee OUTBOX_HANDLERS gen_random_uuid now raw_ns raw_ref raw_disposal d' = Err e)
  else settlements ns ref d = [].
Proof.
  intros Hs0 Hd0 Hrun ns ref r Hr. destruct (history_rma _ _ Hrun Hs0 Hd0) as [Hd _].
  pose proof (Hd ns ref) as Hset. rewrite Hr in Hset. unfold settled_by in Hset.
  destruct (decide (settled r)) as [Hst|_]; [|done]. split; [done|]. intros d' Hrun'.
  assert (stock_ok d) as Hs by (by apply (history_step _ _ _ _ _ _ Hrun)).
  destruct (history_rma _ _ Hrun' Hs Hd) as [_ Hkept]. specialize (Hkept _ _ Hr Hst). split; [done|].
  intros now raw_ns raw_ref raw_disposal Hu Href. split.
  - unfold do_restock_from_rma, _run_rma_leg. rewrite (lift_run Hu), (lift_run Href).
    destruct (claim_settled ns ref _STATE_RESTOCKED None d' r Hkept Hst) as (e & He & [->|(_ & ? & _)]); [|done].
    by apply tx_stop.
  - destruct (claim_settled ns ref _STATE_DISPOSED (_as_optional_text raw_disposal) d' r Hkept Hst) as (e & He & _).
    unfold do_dispose_rma_weee.
    destruct (_assert_disposal_ref_present_when_disposed _ _) as [u|e'] eqn:E.
    + exists e. rewrite (lift_run eq_refl). unfold _run_rma_leg. rewrite (lift_run Hu), (lift_run Href). by apply tx_stop.
    + exists e'. by apply tx_stop.
Qed.
End calls.

Definition demo_rma : rma :=
  Rma "r-1" "CABLE" None demo_b 2000 "wrong length" WEEE_NOT_APPLICABLE None STOCK_MOVEMENT_PENDING.
Definition demo_returned : inv_db := set_rmas (λ _, {[(demo_ns, "RMA-1"%string) := demo_rma]}) demo_stock.
Definition demo_restock : inv_call := Restock_from_rma 9 (Some demo_ns) (Some "RMA-1"%string).
Definition demo_restocked : inv_db :=
  match run_call id ∅ demo_uuid (λ _ _, Ok JNull) demo_restock demo_returned with Ok (d, _) => d | Err _ => demo_returned end.

Lemma demo_returned_ok : stock_ok demo_returned ∧ rma_ok demo_returned.
Proof.
  split.
  - destruct demo_stock_ok as [H1 H2 _]. split; [exact H1|exact H2|]. by apply map_Forall_singleton.
  - intros ns ref. assert (settlements ns ref demo_returned = []) as -> by reflexivity.
    unfold demo_returned, set_rmas. cbn [inventory_rma].
    destruct (decide ((demo_ns, "RMA-1"%string) = (ns, ref))) as [<-|Hne].
    + rewrite lookup_singleton_eq. unfold settled_by. by rewrite decide_False by (by intros []).
    + by rewrite lookup_singleton_ne.
Qed.

Lemma demo_restocked_run : run_call id ∅ demo_uuid (λ _ _, Ok JNull) demo_restock demo_returned = Ok (demo_restocked, ()).
Proof.
  assert (match run_call id ∅ demo_uuid (λ _ _, Ok JNull) demo_restock demo_returned with Ok _ => true | Err _ => false end
          = true) as H by (vm_compute; reflexivity).
  unfold demo_restocked. by destruct (run_call _ _ _ _ demo_restock demo_returned) as [[d []]|].
Qed.
Lemma demo_restocked_row :
  inventory_rma demo_restocked !! (demo_ns, "RMA-1"%string) = Some (set_movement _STATE_RESTOCKED demo_rma).
Proof. vm_compute. reflexivity. Qed.

Lemma rma_settles_once_witness :
  do_restock_from_rma ∅ demo_uuid 10 (Some demo_ns) (Some "RMA-1"%string) demo_restocked
  = Err (RmaAlreadySettledError "RMA-1" _STATE_RESTOCKED).
Proof.
  assert (settled (set_movement _STATE_RESTOCKED demo_rma)) as Hs by done.
  pose proof (rma_settles_once id ∅ demo_uuid (λ _ _, Ok JNull) demo_returned demo_restocked
    (proj1 demo_returned_ok) (proj2 demo_returned_ok)
    (rtc_once _ _ (move_call id ∅ demo_uuid (λ _ _, Ok JNull) demo_returned demo_restock demo_restocked demo_restocked_run))
    demo_ns "RMA-1" _ demo_restocked_row) as H.
  destruct (decide (settled _)) as [_|?]; [|done].
  exact (proj1 (proj2 (proj2 H demo_restocked (rtc_refl _ _)) 10 (Some demo_ns) (Some "RMA-1"%string) None
    demo_ns_uuid eq_refl)).
Defined.
