(* ===== verification/ReceiptProps.v ===== *)
(** * ReceiptProps: a delivery is booked once, and in full *)
From S2P Require Import Prelude PyText PyStr PyDecimal Txn OutboxRelay EventBus Inventory GoodsReceipt StockReturns Valuation InventoryFacts InventoryProps.
Local Open Scope Z_scope.

(** ** The totals of a delivery *)

Definition line_qty (l : raw_line) : Z :=
  match _as_quantity (rl_qty l) "qty" with Ok q => milli q | Err _ => 0 end.
(** What the lines of a delivery add up to for one SKU. *)
Fixpoint delivered (sku : string) (raw : list raw_line) : Z :=
  match raw with
  | [] => 0
  | l :: raw => (if String.eqb (strip (default "" (rl_sku l))) sku then line_qty l else 0) + delivered sku raw
  end.

(** A total is exact, or larger than any column. *)
Definition tracks (m : gmap string (decimal * list decimal)) (sum : string → Z) : Prop :=
  ∀ sku, match m !! sku with
         | Some (t, _) => (t = qty_of (sum sku) ∧ 0 < sum sku < 10 ^ PREC) ∨ (10 ^ 18 ≤ milli t ∧ -3 ≤ dexp t)
         | None => sum sku = 0
         end.

Lemma add_tracks m sum sku n c :
  tracks m sum → 0 < n < 10 ^ PREC →
  tracks (add_line m sku (qty_of n) c) (λ s, sum s + (if String.eqb sku s then n else 0)).
Proof.
  intros Hm Hn s. unfold add_line. pose proof (Hm sku) as Hsku.
  destruct (m !! sku) as [[t cs]|] eqn:E;
    (destruct (String.eqb_spec sku s) as [<-|Hne];
     [rewrite lookup_insert_eq|rewrite lookup_insert_ne by done; specialize (Hm s); destruct (m !! s) as [[]|]; rewrite ?Z.add_0_r; done]).
  - destruct Hsku as [[-> Hs]|[Hbig He]].
    + destruct (Z.lt_ge_cases (sum sku + n) (10 ^ PREC)).
      * left. split; [|lia]. apply dec_add_same. lia.
      * right. unfold dec_add, qty_of. simpl. rewrite Z.min_id, !at_exp_same.
        destruct (fix28_large (sum sku + n) (-3)) as [H1 H2]; [done|]. split; [|done].
        apply (Z.le_trans _ (10 ^ 27)); [lia|exact H2].
    + right. destruct (dec_add_total t (qty_of n)) as [[(k & Hk & Hk2)|?] ?]; [split; [by right|done]|by exists n| |done].
      split; [|done]. unfold dec_add in *. simpl in *. rewrite Z.min_r in * by lia.
      change (at_exp (-3) (qty_of n)) with (milli (qty_of n)) in *. rewrite milli_qty in *.
      fold (milli t) in *. destruct (Z.lt_ge_cases (milli t + n) (10 ^ PREC)) as [Hl|Hl].
      * rewrite fix28_small by (simpl; lia). fold (qty_of (milli t + n)). rewrite milli_qty. lia.
      * destruct (fix28_large (milli t + n) (-3)) as [H1 H2]; [done|].
        apply (Z.le_trans _ (10 ^ 27)); [lia|exact H2].
  - left. rewrite Hsku. split; [done|]. lia.
Qed.

Lemma aggregate_tracks raw m m' sum :
  tracks m sum → aggregate_lines raw m = Ok m' → tracks m' (λ s, sum s + delivered s raw).
Proof.
  revert m sum; induction raw as [|l raw IH]; intros m sum Hm; cbn [aggregate_lines delivered].
  - intros [= <-] s. specialize (Hm s). destruct (m !! s) as [[]|]; by rewrite Z.add_0_r.
  - intros [_ H]%ensure_bind. apply bind_Ok in H as (q & Hq & H). apply bind_Ok in H as (c & _ & H).
    destruct (as_quantity_ok _ _ _ Hq) as (n & -> & Hn).
    assert (line_qty l = n) as Hl by (unfold line_qty; by rewrite Hq, milli_qty).
    specialize (IH _ _ (add_tracks _ _ _ n c Hm Hn) H). intros s. specialize (IH s). simpl in IH. rewrite <- Z.add_assoc in IH.
    by rewrite Hl.
Qed.

Lemma validated_lines raw lines :
  _validate_and_aggregate_lines raw = Ok lines →
  NoDup lines.*1.*1 ∧
  (∀ sku q c, (sku, q, c) ∈ lines → Z.abs (milli q) < 10 ^ 18 → q = qty_of (delivered sku raw)) ∧
  (∀ sku, sku ∉ lines.*1.*1 → delivered sku raw = 0).
Proof.
  unfold _validate_and_aggregate_lines. intros [_ H]%ensure_bind.
  apply bind_Ok in H as (m & Hm & H). apply ensure_bind in H as [_ H]. injection H as <-.
  assert (tracks m (λ s, delivered s raw)) as Ht.
  { apply (aggregate_tracks raw ∅ m (λ _, 0)) in Hm; [done|]. intros s. by rewrite lookup_empty. }
  assert (((λ '(sku, (total, costs)), (sku, total, head costs)) <$> sorted_by by_sku (map_to_list m)).*1.*1
          ≡ₚ (map_to_list m).*1) as Hperm.
  { rewrite (sorted_by_perm by_sku). rewrite <- !list_fmap_compose. apply Permutation_refl'.
    apply list_fmap_ext. by intros i [? []] _. }
  split_and!.
  - rewrite Hperm. apply NoDup_fst_map_to_list.
  - intros sku q c Hin Hq. apply list_elem_of_fmap in Hin as ([s [t cs]] & Heq & Hin).
    injection Heq as -> -> ->. apply elem_of_sorted_by, elem_of_map_to_list in Hin. specialize (Ht s). rewrite Hin in Ht. destruct Ht as [[-> _]|[? _]]; [done|lia].
  - intros sku Hs. rewrite Hperm in Hs. specialize (Ht sku). destruct (m !! sku) as [[t cs]|] eqn:E; [|done].
    exfalso. apply Hs, list_elem_of_fmap. exists (sku, (t, cs)). split; [done|]. by apply elem_of_map_to_list.
Qed.

(** ** Booking the lines *)

Section receipts.
Context (sha256 : string → string) (OUTBOX_HANDLERS : registry) (gen_random_uuid : nat → string).
Context (do_seed_asset_from_bom : string → string → result string json).
#[local] Abbreviation record_receipt :=
  (do_record_goods_receipt sha256 OUTBOX_HANDLERS gen_random_uuid do_seed_asset_from_bom).
#[local] Abbreviation inv_history := (rtc (inv_move sha256 OUTBOX_HANDLERS gen_random_uuid do_seed_asset_from_bom)).

(** The ledger row of a line. *)
Definition books (u loc id : string) (l : line) (t : txn) : Prop :=
  tx_namespace_id t = u ∧ tx_sku t = l.1.1 ∧ tx_location_id t = loc ∧ tx_delta t = milli l.1.2 ∧
  tx_reason_category t = REASON_GOODS_RECEIPT ∧ tx_ref t = Some id.
Definition line_at (u loc : string) (k : stock_key) (l : line) : Z :=
  if bool_decide ((u, l.1.1, loc) = k) then milli l.1.2 else 0.

Lemma receive_line_Ok now u loc id l d d' r :
  is_total l.1.2 → receive_line gen_random_uuid now u loc id l d = Ok (d', r) →
  Z.abs (milli l.1.2) < 10 ^ 18 ∧ goods_receipts d' = goods_receipts d ∧
  (∃ t, inventory_transactions d' = inventory_transactions d ++ [t] ∧ books u loc id l t) ∧
  ∀ k, on_hand d' k = on_hand d k + line_at u loc k l.
Proof.
  destruct l as [[sku q] c]. simpl. intros Hq H. unfold receive_line in H.
  apply tx_bind_Ok in H as (d1 & n & H & [-> _]%tx_ret_Ok).
  unfold fits_column in H. match goal with H : match ?m with _ => _ end = _ |- _ => destruct m as [[d2 n']|[]] eqn:Hrun; try done end.
  injection H as -> ->. inv_tx. unfold _increment_qty_on_hand in *.
  match goal with H : upsert_on_hand _ _ _ _ _ _ _ = _ |- _ => apply upsert_Ok in H as (Hm & Hs & it' & -> & -> & Hit) end.
  destruct Hq as [(m & -> & Hn)|?]; [|lia].
  match goal with H : append_transaction _ _ _ _ _ _ _ _ _ _ = _ |- _ =>
    apply append_Ok in H as (t & -> & Hrow & Hns & Hsku & Hloc & Hd & Hr & Hf & _); [|lia] end.
  split; [done|]. split; [done|]. rewrite milli_qty in *. split.
  - exists t. split; [done|]. unfold books. simpl. rewrite milli_qty. by split_and!.
  - intros k. unfold line_at. simpl. rewrite milli_qty.
    change (on_hand (set_ledger ?f (set_uuids ?g ?d1)) k) with (on_hand d1 k).
    rewrite on_hand_insert. case_bool_decide as E; [|lia]. subst k. unfold on_hand.
    match type of Hit with match ?o with _ => _ end => destruct o as [it|] end; simpl; [by subst|]. by destruct Hit as [-> _].
Qed.

Definition lines_at (u loc : string) (k : stock_key) (ls : list line) : Z :=
  foldr (λ l n, line_at u loc k l + n) 0 ls.

Lemma receive_lines_Ok now u loc id ls d d' rs :
  Forall (λ l, is_total l.1.2) ls → tx_for ls (receive_line gen_random_uuid now u loc id) d = Ok (d', rs) →
  Forall (λ l : line, Z.abs (milli l.1.2) < 10 ^ 18) ls ∧ goods_receipts d' = goods_receipts d ∧
  (∃ ts, inventory_transactions d' = inventory_transactions d ++ ts ∧ Forall2 (books u loc id) ls ts) ∧
  ∀ k, on_hand d' k = on_hand d k + lines_at u loc k ls.
Proof.
  intros Hls. revert d rs; induction Hls as [|l ls Hl _ IH]; intros d rs H; cbn [tx_for] in H; inv_tx.
  - split_and!; [done|done| |intros k; simpl; lia]. exists []. by rewrite app_nil_r.
  - match goal with H : receive_line _ _ _ _ _ _ _ = _ |- _ =>
      apply receive_line_Ok in H as (Hm & Hg & (t & Ht & Hb) & Hk); [|done] end.
    match goal with H : tx_for _ _ _ = _ |- _ => apply IH in H as (Hms & Hgs & (ts & Hts & Hbs) & Hks) end.
    split_and!; [by constructor|congruence| |].
    + exists (t :: ts). rewrite Hts, Ht, <- app_assoc. split; [done|]. by constructor.
    + intros k. rewrite Hks, Hk. simpl. lia.
Qed.

Lemma lines_at_delivered u loc k raw ls :
  _validate_and_aggregate_lines raw = Ok ls → Forall (λ l : line, Z.abs (milli l.1.2) < 10 ^ 18) ls →
  lines_at u loc k ls = if bool_decide (k.1.1 = u ∧ k.2 = loc) then delivered k.1.2 raw else 0.
Proof.
  intros Hv Hm. destruct (validated_lines _ _ Hv) as (Hnd & Hin & Hout).
  assert (∀ ls', ls' ⊆ ls → NoDup ls'.*1.*1 →
    lines_at u loc k ls' = if bool_decide (k.1.1 = u ∧ k.2 = loc ∧ k.1.2 ∈ ls'.*1.*1) then delivered k.1.2 raw else 0) as Hgen.
  { intros ls'. induction ls' as [|[[sku q] c] ls' IH]; intros Hsub Hnd'; cbn [lines_at foldr].
    - rewrite bool_decide_eq_false_2; [done|]. intros (_ & _ & ?%elem_of_nil). done.
    - apply NoDup_cons in Hnd' as [Hnotin Hnd']. fold (lines_at u loc k ls'). rewrite IH; [|set_solver|done].
      assert ((sku, q, c) ∈ ls) as Hl by (apply Hsub, list_elem_of_here).
      rewrite Forall_forall in Hm. specialize (Hm _ Hl). specialize (Hin _ _ _ Hl Hm). simpl in Hm. subst q.
      destruct k as [[u' sku'] loc']. unfold line_at. simpl in *. rewrite milli_qty.
      destruct (decide (u' = u)) as [->|]; [|rewrite !bool_decide_eq_false_2 by naive_solver; done].
      destruct (decide (loc' = loc)) as [->|]; [|rewrite !bool_decide_eq_false_2 by naive_solver; done].
      destruct (decide (sku' = sku)) as [->|].
      + rewrite bool_decide_eq_true_2, (bool_decide_eq_false_2 (u = u ∧ _)), bool_decide_eq_true_2; [lia| |naive_solver|done].
        split_and!; [done..|]. apply list_elem_of_here.
      + rewrite (bool_decide_eq_false_2 (_ = (_, sku', _))) by congruence. simpl. apply (f_equal (λ b : bool, if b then _ else 0)).
        apply bool_decide_ext. set_solver. }
  rewrite (Hgen ls) by done. destruct k as [[u' sku] loc']. simpl.
  destruct (decide (sku ∈ ls.*1.*1)).
  - apply (f_equal (λ b : bool, if b then _ else 0)), bool_decide_ext. naive_solver.
  - rewrite bool_decide_eq_false_2 by naive_solver. rewrite Hout by done. by case_match.
Qed.

(** ** Receipts are kept *)

Definition receipts_grow (d d' : inv_db) : Prop := goods_receipts d `prefix_of` goods_receipts d'.
#[local] Instance receipts_grow_preorder : PreOrder receipts_grow.
Proof. split; [intros d; by exists []; rewrite app_nil_r|]. intros d1 d2 d3. unfold receipts_grow. by etransitivity. Qed.
Lemma same_receipts_grow d d' : goods_receipts d' = goods_receipts d → receipts_grow d d'.
Proof. intros E. unfold receipts_grow. by rewrite E. Qed.
Lemma modify_grow f : (∀ d, goods_receipts (f d) = goods_receipts d) → respects receipts_grow (@modify _ inv_error f).
Proof. intros Hf. apply respects_modify. intros d. by apply same_receipts_grow. Qed.
#[local] Hint Extern 5 (respects receipts_grow (modify _)) => (by apply modify_grow) : tx.

Lemma find_app {A} (f : A → bool) l1 l2 :
  List.find f (l1 ++ l2) = match List.find f l1 with Some x => Some x | None => List.find f l2 end.
Proof. induction l1 as [|x l1 IH]; simpl; [done|]. by destruct (f x). Qed.
Lemma find_receipt_grows u h d d' r :
  receipts_grow d d' → find_receipt u h (goods_receipts d) = Some r → find_receipt u h (goods_receipts d') = Some r.
Proof. unfold find_receipt. intros [l ->] Hr. by rewrite find_app, Hr. Qed.

Lemma insert_receipt_Ok u po note loc h d d' o :
  insert_receipt gen_random_uuid u po note loc h d = Ok (d', o) →
  same_stock d d' ∧ receipts_grow d d' ∧
  match o with
  | None => d' = d ∧ is_Some (find_receipt u h (goods_receipts d))
  | Some id => ∃ r, goods_receipts d' = goods_receipts d ++ [r] ∧ gr_id r = id ∧
                    find_receipt u h (goods_receipts d) = None ∧ find_receipt u h (goods_receipts d') = Some r
  end.
Proof.
  intros H. split; [by eapply insert_receipt_same|]. unfold insert_receipt in H. inv_tx.
  match goal with H : context [existsb ?f ?l] |- _ =>
    assert (existsb f l = bool_decide (is_Some (find_receipt u h l))) as Hex end.
  { unfold find_receipt. apply eq_true_iff_eq. rewrite existsb_exists, bool_decide_eq_true. split.
    - intros (r & Hr & Hf). destruct (List.find _ _) eqn:E; [by eexists|].
      eapply find_none in E; [|exact Hr]. simpl in E. congruence.
    - intros [r Hr%find_some]. naive_solver. }
  rewrite Hex in *. case_bool_decide as Hf; inv_tx; [split_and!; [apply (reflexivity (R := receipts_grow))|done..]|].
  repeat (case_bool_decide; inv_tx).
  match goal with H : fresh_uuid _ _ = _ |- _ => apply fresh_uuid_Ok in H as -> end. subst. split; [by eexists|].
  eexists. split; [reflexivity|]. split; [reflexivity|]. unfold find_receipt in *. simpl.
  match goal with |- ?f = _ ∧ _ => destruct f eqn:E; [by destruct Hf|] end. split; [done|].
  rewrite find_app, E. simpl. by rewrite !String.eqb_refl.
Qed.


Lemma numeric18_grow n : respects receipts_grow (numeric18 n).
Proof. unfold numeric18. respect. Qed.
Lemma fresh_grow : respects receipts_grow (fresh_uuid gen_random_uuid).
Proof. unfold fresh_uuid. respect. Qed.
#[local] Hint Resolve numeric18_grow fresh_grow : tx.
Lemma append_grow now ns sku loc n reason ref cost :
  respects receipts_grow (append_transaction gen_random_uuid now ns sku loc n reason ref cost).
Proof. unfold append_transaction, insert_txn. respect. Qed.
Lemma decrement_grow ns sku loc q : respects receipts_grow (decrement_on_hand ns sku loc q).
Proof. unfold decrement_on_hand. respect. Qed.
Lemma upsert_grow now e ns sku loc q : respects receipts_grow (upsert_on_hand now e ns sku loc q).
Proof. unfold upsert_on_hand. respect. Qed.
Lemma publish_grow now ns ty op agg payload :
  respects receipts_grow (publish_event OUTBOX_HANDLERS gen_random_uuid now ns ty op agg payload).
Proof. unfold publish_event. respect. Qed.
#[local] Hint Resolve append_grow decrement_grow upsert_grow publish_grow : tx.
Lemma node_grow now ns label ty :
  respects receipts_grow (_upsert_kg_node OUTBOX_HANDLERS gen_random_uuid now ns label ty).
Proof. unfold _upsert_kg_node, assert_owner. respect. Qed.
Lemma insert_grow ns po note loc h : respects receipts_grow (insert_receipt gen_random_uuid ns po note loc h).
Proof. intros d d' o H. by apply insert_receipt_Ok in H as (_ & ? & _). Qed.
#[local] Hint Resolve node_grow insert_grow : tx.
Lemma edge_grow ns s p o : respects receipts_grow (_upsert_kg_edge ns s p o).
Proof. by apply modify_grow. Qed.
#[local] Hint Resolve edge_grow : tx.

Lemma run_call_grow c : respects receipts_grow (run_call sha256 OUTBOX_HANDLERS gen_random_uuid do_seed_asset_from_bom c).
Proof.
  destruct c; unfold run_call; (apply respects_bind; [apply _| |intros ?; respect]);
    unfold do_transfer_stock, do_record_consumption, do_record_goods_receipt, do_record_rma, do_restock_from_rma,
      do_dispose_rma_weee, _run_rma_leg, _claim_rma, do_reserve_stock, do_release_stock, take_out, put_in,
      increment_on_hand, mirror_item_at_location, _upsert_inventory_rma_kg_node, receive_line, graph_writes,
      _upsert_goods_receipt_node, _increment_qty_on_hand;
    repeat first [ progress respect
      | match goal with |- respects _ (let '(_, _) := ?x in _) => destruct x end
      | apply fits_column_respects ].
Qed.

Lemma history_grow d d' : inv_history d d' → receipts_grow d d'.
Proof.
  induction 1 as [|d d1 d2 Hm _ IH]; [done|]. etrans; [|exact IH].
  destruct Hm; [by eapply run_call_grow|by apply same_receipts_grow].
Qed.

(** ** The two properties *)

(** What identifies a delivery: its namespace and the hash of its normal form. *)
Definition receipt_key (p : receipt_params) : result inv_error (string * string) :=
  ns_uuid ← _as_ns_uuid (gp_namespace_id p) "namespace_id";
  po_ref ← _as_po_ref (gp_po_ref p);
  delivery_note_ref ← _as_optional_delivery_note_ref (gp_delivery_note_ref p);
  location_id ← _as_location_uuid (gp_location_id p) "location_id";
  lines ← _validate_and_aggregate_lines (gp_lines p);
  scans ← _validate_scans (gp_scans p);
  Ok (ns_uuid, _compute_receipt_hash sha256 po_ref location_id lines scans delivery_note_ref).

Definition outcome_id (o : receipt_outcome) : string :=
  match o with Duplicate id => id | Recorded id _ _ => id end.

#[local] Hint Resolve graph_writes_same : tx.
Lemma record_Ok now p d d' out :
  record_receipt now p d = Ok (d', out) →
  ∃ u h loc lines d1 o,
    receipt_key p = Ok (u, h) ∧ _as_ns_uuid (gp_namespace_id p) "namespace_id" = Ok u ∧
    _as_location_uuid (gp_location_id p) "location_id" = Ok loc ∧ _validate_and_aggregate_lines (gp_lines p) = Ok lines ∧
    (∃ po note, insert_receipt gen_random_uuid u po note loc h d = Ok (d1, o)) ∧
    match out with
    | Duplicate id => o = None ∧ d' = d ∧ ∃ r, find_receipt u h (goods_receipts d) = Some r ∧ id = gr_id r
    | Recorded id rl _ => o = Some id ∧ ∃ d2,
        tx_for lines (receive_line gen_random_uuid now u loc id) d1 = Ok (d2, rl) ∧ same_stock d2 d' ∧ receipts_grow d2 d'
    end.
Proof.
  unfold do_record_goods_receipt, receipt_key. intros H.
  apply tx_bind_Ok in H as (? & u & [<- Hu]%lift_Ok & H). apply tx_bind_Ok in H as (? & po & [<- Hpo]%lift_Ok & H).
  apply tx_bind_Ok in H as (? & note & [<- Hnote]%lift_Ok & H). apply tx_bind_Ok in H as (? & loc & [<- Hloc]%lift_Ok & H).
  apply tx_bind_Ok in H as (? & lines & [<- Hlines]%lift_Ok & H). apply tx_bind_Ok in H as (? & scans & [<- Hscans]%lift_Ok & H).
  rewrite Hu, Hpo, Hnote, Hloc, Hlines, Hscans. apply tx_bind_Ok in H as (d1 & o & Hins & H).
  do 6 eexists. split; [reflexivity|]. split; [done|]. split; [done|]. split; [done|]. split; [by do 2 eexists|].
  apply insert_receipt_Ok in Hins as (_ & _ & Ho). destruct o as [id|].
  - apply tx_bind_Ok in H as (d2 & rl & Hrl & H).
    assert (same_stock d2 d' ∧ receipts_grow d2 d') as [Hs Hg].
    { split.
      - revert H. match goal with |- ?m _ = _ → _ => assert (respects same_stock m) as Hm; [|apply Hm] end.
        respect; same.
      - revert H. match goal with |- ?m _ = _ → _ => assert (respects receipts_grow m) as Hm; [|apply Hm] end.
        unfold graph_writes, _upsert_goods_receipt_node. respect. }
    inv_tx. simpl. split; [done|]. by exists d2.
  - inv_tx. destruct Ho as [-> [r Hr]]. split; [done|]. split; [done|]. exists r. split; [done|]. by rewrite Hr.
Qed.

(** A delivery is booked in full.  When [do_record_goods_receipt] records a
    new delivery, the stock of every SKU at the location grows by exactly what
    the delivery's lines add up to for it, no other stock row moves, and the
    ledger gains one [goods_receipt] row per SKU, in SKU order, that names the
    receipt and carries that total. *)
Theorem delivery_booked_in_full now p d d' id rl seeds u loc :
  _as_ns_uuid (gp_namespace_id p) "namespace_id" = Ok u → _as_location_uuid (gp_location_id p) "location_id" = Ok loc →
  record_receipt now p d = Ok (d', Recorded id rl seeds) →
  (∀ k, on_hand d' k = on_hand d k + (if bool_decide (k.1.1 = u ∧ k.2 = loc) then delivered k.1.2 (gp_lines p) else 0)) ∧
  ∃ lines ts, _validate_and_aggregate_lines (gp_lines p) = Ok lines ∧
    inventory_transactions d' = inventory_transactions d ++ ts ∧ Forall2 (books u loc id) lines ts ∧
    NoDup (tx_sku <$> ts) ∧ Forall (λ t, tx_delta t = delivered (tx_sku t) (gp_lines p)) ts.
Proof.
  intros Hu Hloc (u' & h & loc' & lines & d1 & o & _ & Hu' & Hloc' & Hv & (po & note & Hins) & -> & d2 & Hrl & Hs & _)%record_Ok.
  rewrite Hu in Hu'. rewrite Hloc in Hloc'. injection Hu' as <-. injection Hloc' as <-.
  apply insert_receipt_Ok in Hins as ((Hi1 & Hl1 & _) & _ & _). destruct Hs as (Hi2 & Hl2 & _).
  apply receive_lines_Ok in Hrl as (Hm & _ & (ts & Hts & Hb) & Hk); [|by eapply validated_lines_ok]. split.
  - intros k. unfold on_hand at 1. rewrite Hi2. fold (on_hand d2 k). rewrite Hk.
    unfold on_hand at 1. rewrite Hi1. fold (on_hand d k). f_equal. by apply lines_at_delivered.
  - exists lines, ts. rewrite Hl2, Hts, Hl1. split_and!; [done..| |].
    + destruct (validated_lines _ _ Hv) as (Hnd & _). clear -Hnd Hb.
      replace (tx_sku <$> ts) with (lines.*1.*1); [done|].
      induction Hb as [|l t ls ts (_ & E & _) _ IH]; [done|]. rewrite !fmap_cons, E. f_equal. apply IH. by apply NoDup_cons in Hnd as [_ ?].
    + destruct (validated_lines _ _ Hv) as (_ & Hin & _). clear -Hin Hb Hm.
      assert (∀ l, l ∈ lines → milli l.1.2 = delivered l.1.1 (gp_lines p)) as Hq.
      { intros [[sku q] c] Hl. rewrite Forall_forall in Hm. rewrite (Hin _ _ _ Hl (Hm _ Hl)) at 1. apply milli_qty. }
      clear Hin Hm. induction Hb as [|l t ls ts (_ & E & _ & E2 & _) _ IH]; [constructor|]. constructor.
      * rewrite E2, E. apply Hq, list_elem_of_here.
      * apply IH. intros l' Hl'. by apply Hq, list_elem_of_further.
Qed.

(** A delivery is booked once.  After [do_record_goods_receipt] has
    answered for a delivery, recording a delivery with the same normal form,
    after any history of inventory calls, answers with the same receipt id and
    changes nothing. *)
Theorem delivery_booked_once now p d d1 out d2 now' p' :
  receipt_key p' = receipt_key p → record_receipt now p d = Ok (d1, out) → inv_history d1 d2 →
  record_receipt now' p' d2 = Ok (d2, Duplicate (outcome_id out)).
Proof.
  intros Hkey (u & h & loc & lines & d0 & o & Hp & _ & _ & _ & (po & note & Hins) & Hout)%record_Ok Hhist%history_grow.
  assert (∃ r, find_receipt u h (goods_receipts d1) = Some r ∧ gr_id r = outcome_id out) as (r & Hr & Hid).
  { apply insert_receipt_Ok in Hins as (_ & _ & Ho). destruct out as [id|id rl seeds]; simpl.
    - destruct Hout as (-> & -> & r & Hr & ->). by exists r.
    - destruct Hout as (-> & d3 & Hrl & _ & Hg). destruct Ho as (r & _ & <- & _ & Hr). exists r. split; [|done].
      eapply find_receipt_grows; [exact Hg|]. eapply find_receipt_grows; [|exact Hr].
      revert Hrl. match goal with |- ?m _ = _ → _ => assert (respects receipts_grow m) as Hm; [|apply Hm] end.
      unfold receive_line, _increment_qty_on_hand.
      repeat first [ progress respect | match goal with |- respects _ (let '(_, _) := ?x in _) => destruct x end
        | apply fits_column_respects ]. }
  rewrite Hp in Hkey. eapply find_receipt_grows in Hr; [|exact Hhist].
  unfold receipt_key in Hkey. apply bind_Ok in Hkey as (u' & Hu & Hkey). apply bind_Ok in Hkey as (po' & Hpo & Hkey).
  apply bind_Ok in Hkey as (note' & Hn & Hkey). apply bind_Ok in Hkey as (loc' & Hl & Hkey).
  apply bind_Ok in Hkey as (lines' & Hls & Hkey). apply bind_Ok in Hkey as (scans' & Hsc & Hkey). injection Hkey as -> Hh.
  unfold do_record_goods_receipt. rewrite (lift_run Hu), (lift_run Hpo), (lift_run Hn), (lift_run Hl), (lift_run Hls), (lift_run Hsc).
  rewrite Hh. rewrite (tx_run (s1 := d2) (a := None)).
  - rewrite (tx_run (s1 := d2) (a := goods_receipts d2)) by done. by rewrite Hr, <- Hid.
  - unfold insert_receipt. rewrite (tx_run (s1 := d2) (a := goods_receipts d2)) by done.
    assert (existsb (λ r, String.eqb (gr_namespace_id r) u && String.eqb (gr_receipt_hash r) h) (goods_receipts d2) = true) as ->; [|done].
    apply existsb_exists. exists r. by apply find_some in Hr.
Qed.
End receipts.

Definition demo_line (sku : string) (n : Z) : raw_line := RawLine (Some sku) (PyInt n) PyNone.
Definition demo_delivery (lines : list raw_line) : receipt_params :=
  ReceiptParams (Some demo_ns) (Some "po-7"%string) NoText (Some demo_a) lines None None None None.
Definition demo_lines : list raw_line := [demo_line "CABLE" 2; demo_line "PLUG" 1; demo_line "CABLE" 3].
Definition demo_record (p : receipt_params) : inv_db → result inv_error (inv_db * receipt_outcome) :=
  do_record_goods_receipt id ∅ demo_uuid (λ _ _, Ok JNull) 9 p.
Definition demo_received : inv_db :=
  match demo_record (demo_delivery demo_lines) demo_stock with Ok (d, _) => d | Err _ => demo_stock end.
Definition demo_rows : list result_line :=
  [ResultLine ("CABLE"%string, qty_of 5000, None) 15000; ResultLine ("PLUG"%string, qty_of 1000, None) 1000].

Lemma demo_received_run :
  demo_record (demo_delivery demo_lines) demo_stock = Ok (demo_received, Recorded "id-1" demo_rows None).
Proof.
  assert (match demo_record (demo_delivery demo_lines) demo_stock with
          | Ok (_, r) => Some r | Err _ => None end = Some (Recorded "id-1" demo_rows None)) as H by (vm_compute; reflexivity).
  unfold demo_received. destruct (demo_record _ demo_stock) as [[d r]|]; [|done]. by injection H as ->.
Qed.
Lemma demo_location : _as_location_uuid (Some demo_a) "location_id" = Ok demo_a.
Proof. vm_compute. reflexivity. Qed.

Lemma delivery_booked_in_full_witness :
  delivered "CABLE" demo_lines = 5000 ∧
  ∀ k, on_hand demo_received k =
    on_hand demo_stock k + (if bool_decide (k.1.1 = demo_ns ∧ k.2 = demo_a) then delivered k.1.2 demo_lines else 0).
Proof.
  split; [reflexivity|].
  exact (proj1 (delivery_booked_in_full id ∅ demo_uuid (λ _ _, Ok JNull) 9 (demo_delivery demo_lines) demo_stock demo_received
    "id-1" demo_rows None demo_ns demo_a demo_ns_uuid demo_location demo_received_run)).
Defined.

(** The same lines in another spelling. *)
Definition demo_replay : receipt_params :=
  ReceiptParams (Some demo_ns) (Some " PO-7"%string) (SomeText " "%string) (Some demo_a)
    [demo_line "PLUG" 1; demo_line " CABLE" 5] (Some []) None None None.
Lemma demo_replay_key : receipt_key id demo_replay = receipt_key id (demo_delivery demo_lines).
Proof. vm_compute. reflexivity. Qed.

Lemma delivery_booked_once_witness :
  demo_record demo_replay demo_received = Ok (demo_received, Duplicate "id-1").
Proof.
  exact (delivery_booked_once id ∅ demo_uuid (λ _ _, Ok JNull) 9 (demo_delivery demo_lines) demo_stock demo_received
    (Recorded "id-1" demo_rows None) demo_received 9 demo_replay demo_replay_key demo_received_run (rtc_refl _ _)).
Defined.
