(* ===== verification/KittingProps.v ===== *)
(** * KittingProps: a kit is reserved whole or not at all

    For a kit that runs with nobody else: each line's reservation and its
    compensation, and what the loop leaves of them. *)
From S2P Require Import Prelude PyText PyStr PyDecimal Txn OutboxRelay EventBus Inventory GoodsReceipt StockReturns Valuation InventoryFacts InventoryProps Kitting.
Local Open Scope Z_scope.

Definition reserved_at (d : inv_db) (k : stock_key) : Z := from_option qty_reserved 0 (inventory_items d !! k).
Abbreviation stock_rows := (gmap stock_key item).

(** The key and quantity a target reserves. *)
Definition demand (u l : string) (t : target) : option (stock_key * Z) :=
  match _as_sku (Some (tg_sku t)) "sku", _as_quantity (PyDecimal (tg_qty t)) "qty" with
  | Ok sku, Ok q => Some ((u, sku, l), milli q)
  | _, _ => None
  end.
Definition demand_at (u l : string) (k : stock_key) (t : target) : Z :=
  match demand u l t with Some (k', n) => if bool_decide (k' = k) then n else 0 | None => 0 end.

(** [holds ts m m']: [m'] is [m] with a reservation for each target. *)
Inductive holds (u l : string) : list target → stock_rows → stock_rows → Prop :=
  | holds_nil m : holds u l [] m m
  | holds_snoc ts t m m' k n it :
      holds u l ts m m' → demand u l t = Some (k, n) → 0 < n → m' !! k = Some it →
      n ≤ qty_on_hand it - qty_reserved it - qty_blocked it → 0 ≤ qty_reserved it →
      holds u l (ts ++ [t]) m (<[k := set_reserved (qty_reserved it + n) it]> m').

Section kit.
Context (u l p ns_raw l_raw p_raw : string).
Context (Hu : _as_ns_uuid (Some ns_raw) "namespace_id" = Ok u) (Hl : _as_location_uuid (Some l_raw) "location" = Ok l).

Lemma reserve_Ok t d d' r :
  do_reserve_stock (Some ns_raw) (Some (tg_sku t)) (PyDecimal (tg_qty t)) (Some l_raw) (Some p_raw) d = Ok (d', r) →
  ∃ k n it, demand u l t = Some (k, n) ∧ 0 < n ∧ inventory_items d !! k = Some it ∧
    n ≤ qty_on_hand it - qty_reserved it - qty_blocked it ∧
    inventory_items d' = <[k := set_reserved (qty_reserved it + n) it]> (inventory_items d).
Proof.
  unfold do_reserve_stock. intros H.
  apply tx_bind_Ok in H as (? & u' & [<- Hu']%lift_Ok & H). rewrite Hu in Hu'. injection Hu' as <-.
  apply tx_bind_Ok in H as (? & sku & [<- Hs]%lift_Ok & H). apply tx_bind_Ok in H as (? & q & [<- Hq]%lift_Ok & H).
  apply tx_bind_Ok in H as (? & l' & [<- Hl']%lift_Ok & H). rewrite Hl in Hl'. injection Hl' as <-.
  apply tx_bind_Ok in H as (? & lab & [<- Hp']%lift_Ok & H).
  destruct (as_quantity_ok _ _ _ Hq) as (n & -> & Hn). inv_tx.
  destruct (inventory_items _ !! (u, sku, l)) as [it|] eqn:Hk; [|inv_tx].
  destruct (Z.leb_spec (milli (qty_of n)) (qty_on_hand it - qty_reserved it - qty_blocked it)); inv_tx.
  match goal with H : numeric18 _ _ = _ |- _ => apply numeric18_Ok in H as (-> & -> & _) end.
  match goal with H : _upsert_kg_edge _ _ _ _ _ = _ |- _ => apply edge_same in H as (-> & _) end.
  rewrite milli_qty in *. eexists (u, sku, l), n, it. split_and!; [|lia|done|lia|by subst].
  unfold demand. by rewrite Hs, Hq, milli_qty.
Qed.

Lemma release_run t d k n it :
  demand u l t = Some (k, n) → inventory_items d !! k = Some it → n ≤ qty_reserved it →
  (∃ lab, _as_project_label (Some p_raw) "do_release_stock" = Ok lab) →
  ∃ r, do_release_stock (Some ns_raw) (Some (tg_sku t)) (PyDecimal (tg_qty t)) (Some l_raw) (Some p_raw) d =
       Ok (set_items (<[k := set_reserved (qty_reserved it - n) it]>) d, r).
Proof.
  unfold demand. intros Hd Hk Hn [lab Hp].
  destruct (_as_sku _ _) as [sku|] eqn:Hs; [|done]. destruct (_as_quantity _ _) as [q|] eqn:Hq; [|done].
  injection Hd as <- <-. unfold do_release_stock.
  rewrite (lift_run Hu), (lift_run Hs), (lift_run Hq), (lift_run Hl), (lift_run Hp).
  rewrite (tx_run (s1 := d) (a := inventory_items d)) by done. rewrite Hk.
  rewrite (proj2 (Z.leb_le (milli q) (qty_reserved it))) by done. by eexists.
Qed.

(** *** What a set of reservations adds up to *)

Lemma holds_on_hand ts m m' k :
  holds u l ts m m' → qty_on_hand <$> m' !! k = qty_on_hand <$> m !! k.
Proof.
  induction 1 as [|ts t m m' k' n it _ IH _ _ Hk]; [done|]. destruct (decide (k' = k)) as [->|].
  - rewrite lookup_insert_eq, <- IH, Hk. done.
  - by rewrite lookup_insert_ne.
Qed.
Lemma holds_reserved ts m m' k :
  holds u l ts m m' →
  from_option qty_reserved 0 (m' !! k) = from_option qty_reserved 0 (m !! k) + foldr (λ t n, demand_at u l k t + n) 0 ts.
Proof.
  induction 1 as [m|ts t m m' k' n it _ IH Hd _ Hk]; [simpl; lia|]. rewrite foldr_app. simpl.
  assert (∀ x, foldr (λ t n, demand_at u l k t + n) x ts = foldr (λ t n, demand_at u l k t + n) 0 ts + x) as Hx.
  { intros x. clear. induction ts as [|t ts IH]; simpl; [lia|]. rewrite IH. lia. }
  rewrite Hx. unfold demand_at at 2. rewrite Hd. case_bool_decide as E.
  - subst k'. rewrite lookup_insert_eq. rewrite Hk in IH. simpl in *. lia.
  - rewrite lookup_insert_ne by done. lia.
Qed.

Lemma holds_nothing m m' : holds u l [] m m' → m' = m.
Proof. remember [] as ts eqn:E. destruct 1; [done|by destruct ts]. Qed.

(** *** The loops, with nobody else *)
Abbreviation alone := (λ (_ : nat) (d : inv_db), d).

Lemma roll_back_undoes n ts d m :
  holds u l ts m (inventory_items d) → (∃ lab, _as_project_label (Some p_raw) "do_release_stock" = Ok lab) →
  inventory_items (roll_back alone n ns_raw l_raw p_raw (reverse ts) d) = m.
Proof.
  intros Hh Hp. remember (inventory_items d) as m' eqn:Hm. revert d n Hm.
  induction Hh as [|ts t m m' k n0 it Hh IH Hd Hn Hk Hav Hr]; intros d n Hm; [done|].
  rewrite reverse_snoc. cbn [roll_back].
  destruct (release_run t d k n0 (set_reserved (qty_reserved it + n0) it)) as [r ->]; [done|by rewrite <- Hm, lookup_insert_eq|simpl; lia|done|].
  apply IH. unfold set_items. cbn [inventory_items]. rewrite <- Hm, insert_insert_eq. unfold set_reserved. simpl.
  rewrite insert_id; [done|]. rewrite Hk. f_equal. destruct it as [a b c e]. simpl. f_equal. lia.
Qed.

Lemma reserve_lines_holds n ts m :
  ∀ done lines d, stock_ok d → holds u l done m (inventory_items d) →
  match reserve_lines alone n ns_raw l_raw p_raw ts done lines d with
  | (_, d', inl _) => holds u l (done ++ ts) m (inventory_items d')
  | (_, d', inr (done', e)) => holds u l done' m (inventory_items d') ∧
      (∀ t ts', done' = t :: ts' → done = [] → ∃ lab, _as_project_label (Some p_raw) "do_release_stock" = Ok lab)
  end.
Proof.
  revert n; induction ts as [|t ts IH]; intros n completed lines d Hok Hh; cbn [reserve_lines].
  - by rewrite app_nil_r.
  - destruct (do_reserve_stock _ _ _ _ _ d) as [[d' r]|e] eqn:E; [|split; [done|by intros ?? -> ?]].
    pose proof (reserve_step _ _ _ _ _ _ _ _ E Hok) as [Hok' _ _ _].
    destruct (reserve_Ok _ _ _ _ E) as (k & n0 & it & Hd & Hn & Hk & Hav & Hi).
    assert (holds u l (completed ++ [t]) m (inventory_items d')) as Hh'.
    { rewrite Hi. apply holds_snoc; try done. apply (ok_items _ Hok _ _ Hk). }
    specialize (IH (S n) (completed ++ [t]) (lines ++ [r]) d' Hok' Hh').
    destruct (reserve_lines _ _ _ _ _ ts _ _ d') as [[n' d''] [ls|[done' e]]]; [by rewrite <- app_assoc in IH|].
    destruct IH as [IH _]. split; [done|]. intros _ _ _ _. clear -E. unfold do_reserve_stock in E. inv_tx.
    match goal with H : _as_project_label _ _ = Ok ?x |- _ => exists x; revert H end.
    unfold _as_project_label, ensure, mbind, result_bind. by repeat case_match.
Qed.
End kit.

Lemma as_ns_uuid_canonical raw field u : _as_ns_uuid raw field = Ok u → ∀ field', _as_ns_uuid (Some u) field' = Ok u.
Proof.
  unfold _as_ns_uuid. destruct raw as [[|c s]|]; [done| |done]. destruct (UUID (String c s)) as [u'|] eqn:E; [|done].
  intros [= ->] field'. apply UUID_canonical in E. by destruct u; [vm_compute in E|rewrite E].
Qed.

(** A kit is reserved whole or not at all.  A kit that runs with nobody
    else either reserves the quantity of every line it expands to, component
    quantities multiplied out, on top of what was reserved; or a line lacks
    stock, the error names it, and with [all_or_nothing] every stock row is back
    as it was.  Stock on hand never changes. *)
Theorem kit_all_or_nothing namespace_id location project_id raw_items d :
  stock_ok d →
  let '(d', r) := do_reserve_kit (λ _ d, d) namespace_id location project_id raw_items true d in
  (∀ k, on_hand d' k = on_hand d k) ∧
  match r with
  | Ok _ => ∃ u l p ts, kit_args namespace_id location project_id raw_items "do_reserve_kit" = Ok (u, l, p, ts) ∧
      (∀ t, t ∈ ts → is_Some (demand u l t)) ∧
      ∀ k, reserved_at d' k = reserved_at d k + foldr (λ t n, demand_at u l k t + n) 0 ts
  | Err (InsufficientAvailableError _ _ _ _ _ _ _) => inventory_items d' = inventory_items d
  | Err _ => True
  end.
Proof.
  intros Hok. unfold do_reserve_kit.
  destruct (kit_args _ _ _ _ _) as [[[[u l] p] ts]|e] eqn:Ea.
  2: { split; [done|]. by destruct e. }
  assert (_as_ns_uuid (Some u) "namespace_id" = Ok u ∧ _as_location_uuid (Some l) "location" = Ok l) as [Hu Hl].
  { unfold kit_args in Ea. apply bind_Ok in Ea as (u' & Hu & Ea). apply bind_Ok in Ea as (l' & Hl & Ea).
    apply bind_Ok in Ea as (p' & Hp & Ea). apply ensure_bind in Ea as [_ Ea]. apply bind_Ok in Ea as (ts' & _ & Ea).
    injection Ea as -> -> -> ->. split; by eapply as_ns_uuid_canonical. }
  pose proof (reserve_lines_holds u l u l p Hu Hl 0 ts (inventory_items d) [] [] d Hok (holds_nil _ _ _)) as Hres.
  destruct (reserve_lines _ _ _ _ _ ts _ _ d) as [[n d'] [lines|[completed e]]]; simpl in Hres.
  - split; [intros k; unfold on_hand|exists u, l, p, ts; split; [done|split]].
    + pose proof (holds_on_hand _ _ _ _ _ k Hres) as H. destruct (_ !! k), (_ !! k); simpl in *; congruence.
    + clear -Hres. induction Hres as [|ts t m m' k n it _ IH Hd]; intros t' Ht; [by apply elem_of_nil in Ht|].
      apply elem_of_app in Ht as [?|Ht%list_elem_of_singleton]; [auto|]. subst. by rewrite Hd.
    + intros k. unfold reserved_at. by apply holds_reserved.
  - destruct Hres as [Hh Hlab].
    assert (∀ k, on_hand d' k = on_hand d k) as Hon.
    { intros k. unfold on_hand. pose proof (holds_on_hand _ _ _ _ _ k Hh) as H.
      destruct (_ !! k), (_ !! k); simpl in *; congruence. }
    destruct e; try by split. assert (inventory_items (roll_back (λ _ d, d) n u l p (reverse completed) d') = inventory_items d) as Hr.
    { destruct completed as [|t completed]; [by apply (holds_nothing u l) in Hh|].
      apply (roll_back_undoes u l u l p); try done. by eapply Hlab. }
    split; [|done]. intros k. unfold InventoryFacts.on_hand. by rewrite Hr.
Qed.

(** ** A cabinet with two plugs each *)
Definition demo_project := "PROJECT:7"%string.
Definition demo_cabinet (plug_qty : pynum) : kit_item :=
  KitItem (Some "CABLE"%string) (Some (PyInt 3)) false true None None
    (Some (Some [Component (Some "PLUG"%string) None (Some plug_qty)])) None true false.
Definition demo_stocked : inv_db :=
  set_items (<[(demo_ns, "PLUG"%string, demo_a) := Item 4000 0 0 5]>) demo_stock.

Lemma demo_stocked_ok : stock_ok demo_stocked.
Proof.
  destruct demo_stock_ok as [H1 H2 H3]. split; [|exact H2|exact H3].
  intros k it. unfold demo_stocked, set_items. cbn [inventory_items stock_locations].
  intros [[<- <-]|[_ ?]]%lookup_insert_Some; [|by apply H1]. split; [by split_and!|]. by apply (bool_decide_eq_true_1 _).
Qed.
Definition demo_reserve_kit (i : list kit_item) : inv_db * result inv_error (list reservation * kit_summary) :=
  do_reserve_kit (λ _ d, d) (Some demo_ns) (Some demo_a) (Some demo_project) i true demo_stocked.

Lemma demo_kit_refused :
  ∃ d', demo_reserve_kit [demo_cabinet (PyInt 2)] =
        (d', Err (InsufficientAvailableError "PLUG" demo_a demo_project (qty_of 6000) 4000 0 0)).
Proof.
  assert ((demo_reserve_kit [demo_cabinet (PyInt 2)]).2 =
    Err (InsufficientAvailableError "PLUG" demo_a demo_project (qty_of 6000) 4000 0 0)) as H by (vm_compute; reflexivity).
  destruct (demo_reserve_kit _) as [d' r]. simpl in H. subst r. by exists d'.
Qed.

Lemma kit_all_or_nothing_witness :
  ∃ d', demo_reserve_kit [demo_cabinet (PyInt 2)] =
        (d', Err (InsufficientAvailableError "PLUG" demo_a demo_project (qty_of 6000) 4000 0 0)) ∧
        inventory_items d' = inventory_items demo_stocked.
Proof.
  destruct demo_kit_refused as [d' H]. exists d'. split; [exact H|].
  pose proof (kit_all_or_nothing (Some demo_ns) (Some demo_a) (Some demo_project) [demo_cabinet (PyInt 2)] demo_stocked
    demo_stocked_ok) as K. unfold demo_reserve_kit in H. rewrite H in K. exact (proj2 K).
Defined.

(** ** What the code allows besides *)

(** A component quantity that rounds to nothing is a [ValueError], which the
    compensation does not cover: the earlier line stays reserved. *)
Example kit_value_error_keeps_reservation :
  let i := KitItem (Some "CABLE"%string) (Some (PyDecimal (Dec 1 (-3)))) false true None None
    (Some (Some [Component (Some "PLUG"%string) None (Some (PyDecimal (Dec 1 (-3))))])) None true false in
  let '(d', r) := demo_reserve_kit [i] in
  r = Err (ValueError "qty") ∧ reserved_at d' (demo_ns, "CABLE"%string, demo_a) = 1.
Proof.
  cbv zeta. match goal with |- let '(_, _) := ?x in _ => assert (x.2 = Err (ValueError "qty") ∧
    reserved_at x.1 (demo_ns, "CABLE"%string, demo_a) = 1) as H by (vm_compute; by split); by destruct x end.
Qed.

(** Consumption looks at what is on hand, not at what is reserved: what remains
    available can be negative. *)
Example consumption_ignores_reservations :
  ∃ r, (d ← do_reserve_stock (Some demo_ns) (Some "CABLE"%string) (PyInt 9) (Some demo_a) (Some demo_project);
        do_record_consumption ∅ demo_uuid 9 (Some demo_ns) (Some "CABLE"%string) (PyInt 5) (Some demo_a) NoText ≫= λ _,
        do_stock_levels (Some demo_ns) None None) demo_stock = r ∧
    match r with Ok (_, [lv]) => lv_available lv = -4000 | _ => False end.
Proof. eexists. split; [reflexivity|]. vm_compute. reflexivity. Qed.
