(* ===== verification/Revenue.v ===== *)
(** * Revenue: ratable recognition of recurring contracts

    Models [src/nce/vertical_modules/economy/recurring.py]: the twelve-month
    schedule of a contract, the MRR snapshot, and [do_recognize_recurring], which
    records each period once in the table [action_idempotency] it shares with the
    autonomy gate.  Money is [Decimal] in steps of 0.01. *)
From S2P Require Import Prelude PyDecimal PyText PyStr Txn.
From stdpp Require Import pretty.
From Stdlib Require Import Ascii.
Local Open Scope Z_scope.

Inductive rev_error := ValueError (where_ : string) | RuntimeError (where_ : string).

(** ** Coercions *)

Definition _MONTHS_PER_YEAR : Z := 12.
Definition _ZERO : decimal := Dec 0 (-2).

Definition _quantise (value : decimal) (where_ : string) : result rev_error decimal :=
  match quantize ROUND_HALF_UP (-2) value with Some d => Ok d | None => raise (ValueError where_) end.

Definition _as_money (value : pynum) (where_ : string) : result rev_error decimal :=
  match value with
  | PyInt z => _quantise (Dec z 0) where_
  | PyFloat d | PyDecimal d => _quantise d where_
  | PyNone | PyBool _ | PyNonFinite | PyOther => raise (ValueError where_)
  end.

Definition _as_ns_uuid (raw : option string) (field : string) : result rev_error string :=
  match raw with
  | None | Some EmptyString => raise (ValueError field)
  | Some s => match UUID s with Some u => Ok u | None => raise (ValueError field) end
  end.

(** [_PERIOD_RE]: four digits, a dash, a month from 01 to 12.  Python's [\d] also
    matches the decimal digits of other scripts, which 8-bit text does not have. *)
Definition digit_of (c : ascii) : option Z :=
  if in_range 48 57 c then Some (Z.of_N (char_code c) - 48) else None.
Definition period_match (s : string) : option (Z * Z) :=
  match s with
  | String a (String b (String c (String d (String "-"%char (String e (String f EmptyString)))))) =>
      a ← digit_of a; b ← digit_of b; c ← digit_of c; d ← digit_of d; e ← digit_of e; f ← digit_of f;
      let month := 10 * e + f in
      if (1 <=? month) && (month <=? 12) then Some (1000 * a + 100 * b + 10 * c + d, month) else None
  | _ => None
  end.
Definition _parse_period (value : text_arg) (where_ : string) : result rev_error (Z * Z) :=
  match value with
  | SomeText s => match period_match (strip s) with Some p => Ok p | None => raise (ValueError where_) end
  | NoText | NotText => raise (ValueError where_)
  end.

Definition _add_months (year month n : Z) : string :=
  let total := year * 12 + (month - 1) + n in
  digits 4 (total / 12) +:+ "-" +:+ digits 2 (total mod 12 + 1).
Definition _finago_ref (contract_id period : string) : string := "ms:" +:+ contract_id +:+ ":" +:+ period.

(** ** The schedule *)

Record period_entry := Period { pe_period : string; pe_finago_ref : string; pe_amount : decimal }.
Record schedule := Schedule {
  sc_contract_id : string;
  sc_annual_amount : decimal;
  sc_start_period : string;
  sc_periods : list period_entry;
  sc_total_recognized : decimal
}.

(** The loop body, for the period [i] of twelve. *)
Definition schedule_step (contract_id : string) (year month : Z) (annual_amount base : decimal)
    (st : decimal * list period_entry) (i : nat) : decimal * list period_entry :=
  let '(running_total, periods) := st in
  let period := _add_months year month (Z.of_nat i) in
  let amount := if (Z.of_nat i <? _MONTHS_PER_YEAR - 1) then base else dec_sub annual_amount running_total in
  (dec_add running_total amount, periods ++ [Period period (_finago_ref contract_id period) amount]).

Definition do_compute_recognition_schedule (contract_id : option string) (annual_amount : pynum)
    (start_period : text_arg) : result rev_error schedule :=
  let contract_id := strip (default "" contract_id) in
  ensure (negb (String.eqb contract_id "")) (ValueError "contract_id") ≫= λ _,
  annual_amount ← _as_money annual_amount "annual_amount";
  ensure (negb (dec_leb annual_amount _ZERO)) (ValueError "annual_amount") ≫= λ _,
  '(year, month) ← _parse_period start_period "start_period";
  base ← _quantise (dec_div annual_amount (Dec _MONTHS_PER_YEAR 0)) "annual_amount / 12";
  let '(running_total, periods) :=
    foldl (schedule_step contract_id year month annual_amount base) (_ZERO, []) (seq 0 12) in
  ensure (dec_eqb running_total annual_amount) (ValueError "internal invariant") ≫= λ _,
  ensure (forallb (λ p, negb (dec_ltb (pe_amount p) _ZERO)) periods) (ValueError "negative period") ≫= λ _,
  Ok (Schedule contract_id annual_amount (_add_months year month 0) periods running_total).

(** ** The snapshot *)

Record mrr_snapshot := Snapshot {
  mrr : decimal; arr : decimal; churned_mrr : decimal; churn_rate : option decimal;
  active_count : nat; churned_count : nat
}.
Definition _VALID_CONTRACT_STATUSES : list string := ["active"; "churned"]%string.

Definition snapshot_step (st : decimal * decimal * nat * nat) (c : decimal * string)
    : result rev_error (decimal * decimal * nat * nat) :=
  let '(m, ch, na, nc) := st in
  monthly ← _quantise (dec_div c.1 (Dec _MONTHS_PER_YEAR 0)) "annual_amount / 12";
  Ok (if String.eqb c.2 "active" then (dec_add m monthly, ch, S na, nc)
      else (m, dec_add ch monthly, na, S nc)).
Fixpoint snapshot_loop (st : decimal * decimal * nat * nat) (cs : list (decimal * string))
    : result rev_error (decimal * decimal * nat * nat) :=
  match cs with
  | [] => Ok st
  | c :: cs => st ← snapshot_step st c; snapshot_loop st cs
  end.
Fixpoint _as_snapshot_contracts (raw : list (pynum * option string)) : result rev_error (list (decimal * string)) :=
  match raw with
  | [] => Ok []
  | (annual_amount, status) :: raw =>
      annual_amount ← _as_money annual_amount "annual_amount";
      let status := default "" status in
      ensure (bool_decide (status ∈ _VALID_CONTRACT_STATUSES)) (ValueError "status") ≫= λ _,
      rest ← _as_snapshot_contracts raw;
      Ok ((annual_amount, status) :: rest)
  end.
Definition do_snapshot_mrr_arr_churn (contracts : list (pynum * option string)) : result rev_error mrr_snapshot :=
  contracts ← _as_snapshot_contracts contracts;
  '(m, ch, na, nc) ← snapshot_loop (_ZERO, _ZERO, 0%nat, 0%nat) contracts;
  let total_prior_mrr := dec_add m ch in
  Ok (Snapshot m (dec_mul m (Dec _MONTHS_PER_YEAR 0)) ch
        (if dec_ltb _ZERO total_prior_mrr then Some (dec_div ch total_prior_mrr) else None) na nc).

(** ** Recognition *)

Record idem_row := IdemRow { ir_action_type : string; ir_target_entity_id : option string;
                             ir_response_hash : option string }.
Abbreviation rev_db := (gmap (string * string) idem_row).     (* action_idempotency *)
Abbreviation rev_tx := (tx rev_db rev_error).

Definition _ACTION_TYPE := "economy_recognize_recurring"%string.

Record raw_contract := RawContract {
  rk_contract_id : option string;
  rk_annual_amount : pynum;
  rk_start_period : text_arg;
  rk_status : option string
}.
Record contract := Contract {
  ct_contract_id : string;
  ct_annual_amount : decimal;
  ct_start_period : string;
  ct_status : string
}.

Fixpoint _as_contracts (seen : list string) (raw : list raw_contract) : result rev_error (list contract) :=
  match raw with
  | [] => Ok []
  | entry :: raw =>
      let contract_id := strip (default "" (rk_contract_id entry)) in
      ensure (negb (String.eqb contract_id "")) (ValueError "contract_id") ≫= λ _,
      ensure (bool_decide (contract_id ∉ seen)) (ValueError "duplicate contract_id") ≫= λ _,
      annual_amount ← _as_money (rk_annual_amount entry) "annual_amount";
      '(year, month) ← _parse_period (rk_start_period entry) "start_period";
      let status := default "" (rk_status entry) in
      ensure (bool_decide (status ∈ _VALID_CONTRACT_STATUSES)) (ValueError "status") ≫= λ _,
      rest ← _as_contracts (contract_id :: seen) raw;
      Ok (Contract contract_id annual_amount (_add_months year month 0) status :: rest)
  end.

Section recognition.
Context (sha256 : string → string).

Definition _response_digest (amount : decimal) : string := sha256 (dec_str amount).

Definition _record_recognition (ns_uuid finago_ref contract_id : string) (amount : decimal) : rev_tx bool :=
  let digest := _response_digest amount in
  rows ← gets id;
  match rows !! (ns_uuid, finago_ref) with
  | None =>
      modify <[(ns_uuid, finago_ref) := IdemRow _ACTION_TYPE (Some contract_id) (Some digest)]> ≫= λ _, mret true
  | Some row =>
      if bool_decide (ir_response_hash row = Some digest) then mret false else fail (ValueError finago_ref)
  end.

Record recognised := Recognised { rc_contract_id : string; rc_finago_ref : string; rc_amount : decimal }.
Inductive outcome := IsNew (r : recognised) | Already (r : recognised) | NotDue (contract_id : string).

(** One contract of the loop. *)
Definition recognize_contract (ns_uuid period : string) (c : contract) : rev_tx outcome :=
  s ← lift (do_compute_recognition_schedule (Some (ct_contract_id c)) (PyDecimal (ct_annual_amount c))
              (SomeText (ct_start_period c)));
  match List.find (λ p, String.eqb (pe_period p) period) (sc_periods s) with
  | None => mret (NotDue (ct_contract_id c))
  | Some entry =>
      is_new ← _record_recognition ns_uuid (pe_finago_ref entry) (ct_contract_id c) (pe_amount entry);
      let r := Recognised (ct_contract_id c) (pe_finago_ref entry) (pe_amount entry) in
      mret (if (is_new : bool) then IsNew r else Already r)
  end.

Record recognition := Recognition {
  rg_period : string;
  rg_recognized : list recognised;
  rg_already_recognized : list recognised;
  rg_not_due : list string;
  rg_mrr_snapshot : mrr_snapshot
}.

(** The transaction commits before the snapshot is computed. *)
Definition do_recognize_recurring (namespace_id : option string) (period : text_arg) (contracts : list raw_contract)
    (d : rev_db) : rev_db * result rev_error recognition :=
  match (ns_uuid ← _as_ns_uuid namespace_id "namespace_id";
         '(year, month) ← _parse_period period "period";
         contracts ← _as_contracts [] contracts;
         Ok (ns_uuid, _add_months year month 0, contracts)) with
  | Err e => (d, Err e)
  | Ok (ns_uuid, period, contracts) =>
      match tx_for contracts (recognize_contract ns_uuid period) d with
      | Err e => (d, Err e)
      | Ok (d', outcomes) =>
          (d', snapshot ← do_snapshot_mrr_arr_churn ((λ c, (PyDecimal (ct_annual_amount c), Some (ct_status c))) <$> contracts);
               Ok (Recognition period
                     (omap (λ o, match o with IsNew r => Some r | _ => None end) outcomes)
                     (omap (λ o, match o with Already r => Some r | _ => None end) outcomes)
                     (omap (λ o, match o with NotDue c => Some c | _ => None end) outcomes) snapshot))
      end
  end.
End recognition.

Example add_months_rolls_over : _add_months 2026 11 3 = "2027-02".
Proof. vm_compute. reflexivity. Qed.
Example schedule_first_residual :
  (λ s, pe_amount <$> sc_periods s) <$> match do_compute_recognition_schedule (Some "C1"%string) (PyInt 1000) (SomeText "2026-11"%string) with
    | Ok s => Some s | Err _ => None end
  = Some (repeat (Dec 8333 (-2)) 11 ++ [Dec 8337 (-2)]).
Proof. vm_compute. reflexivity. Qed.
