(* ===== verification/RevenueFacts.v ===== *)
(** * RevenueFacts: the arithmetic of a schedule, and the text of its months *)
From S2P Require Import Prelude PyDecimal PyText PyStr Txn Revenue.
From Stdlib Require Import Ascii.
Local Open Scope Z_scope.

(** Money in steps of 0.01. *)
Definition ore (n : Z) : decimal := Dec n (-2).
(** A twelfth, rounded half up, and the entries of the twelve periods. *)
Definition twelfth (n : Z) : Z := (n + 6) / 12.
Definition amount_of (n : Z) (i : nat) : Z := if Z.of_nat i <? 11 then twelfth n else n - 11 * twelfth n.
Definition entry_of (cid : string) (year month n : Z) (i : nat) : period_entry :=
  Period (_add_months year month (Z.of_nat i)) (_finago_ref cid (_add_months year month (Z.of_nat i))) (ore (amount_of n i)).
Definition total_ore (ps : list period_entry) : Z := foldr (λ p n, coef (pe_amount p) + n) 0 ps.

Lemma twelfth_bounds n : 0 < n → 0 ≤ twelfth n ∧ 12 * twelfth n ≤ n + 6 ∧ n < 12 * twelfth n + 6.
Proof.
  intros Hn. unfold twelfth. pose proof (Z.div_mod (n + 6) 12 ltac:(lia)). pose proof (Z.mod_pos_bound (n + 6) 12 ltac:(lia)). lia.
Qed.

(** Only amounts below 0.55 have a negative last period. *)
Lemma residual_nonneg n : 55 ≤ n → 0 ≤ n - 11 * twelfth n.
Proof. intros Hn. destruct (twelfth_bounds n); lia. Qed.

Lemma schedule_total cid y m n : total_ore (entry_of cid y m n <$> seq 0 12) = n.
Proof. unfold total_ore, entry_of, amount_of. simpl. lia. Qed.

Lemma schedule_loop cid y m n k :
  0 < n < 10 ^ 25 → (k ≤ 11)%nat →
  foldl (schedule_step cid y m (ore n) (ore (twelfth n))) (_ZERO, []) (seq 0 k) =
  (ore (Z.of_nat k * twelfth n), entry_of cid y m n <$> seq 0 k).
Proof.
  intros Hn. pose proof (twelfth_bounds n ltac:(lia)) as (H0 & H1 & H2).
  induction k as [|k IH]; intros Hk; [done|]. rewrite seq_S, foldl_app, IH, fmap_app by lia. simpl.
  assert ((Z.of_nat k <? _MONTHS_PER_YEAR - 1) = true) as -> by (apply Z.ltb_lt; unfold _MONTHS_PER_YEAR; lia).
  unfold ore at 1 2. rewrite dec_add_same.
  2: { change (10 ^ PREC) with (1000 * 10 ^ 25). nia. }
  f_equal; [unfold ore; f_equal; lia|]. f_equal. cbn [fmap list_fmap]. unfold entry_of, amount_of.
  by rewrite (proj2 (Z.ltb_lt (Z.of_nat k) 11)) by lia.
Qed.

Lemma schedule_run cid y m n :
  0 < n < 10 ^ 25 →
  foldl (schedule_step cid y m (ore n) (ore (twelfth n))) (_ZERO, []) (seq 0 12) =
  (ore n, entry_of cid y m n <$> seq 0 12).
Proof.
  intros Hn. pose proof (twelfth_bounds n ltac:(lia)) as (H0 & H1 & H2).
  change (seq 0 12) with (seq 0 (S 11)). rewrite seq_S, foldl_app, schedule_loop, fmap_app by lia. simpl.
  change (Z.of_nat 11) with 11. assert (10 ^ PREC = 1000 * 10 ^ 25) as Hp by done.
  unfold dec_sub, ore. cbn [coef dexp]. rewrite !dec_add_same by lia.
  replace (n + - (11 * twelfth n)) with (n - 11 * twelfth n) by lia.
  replace (11 * twelfth n + (n - 11 * twelfth n)) with n by lia. done.
Qed.

Lemma quantise_ore n w : Z.abs n < 10 ^ PREC → _quantise (ore n) w = Ok (ore n).
Proof. intros H. unfold _quantise, ore. by rewrite quantize_same. Qed.

Lemma schedule_cases raw_id cid v n start y m :
  strip (default "" raw_id) = cid → cid ≠ ""%string → _as_money v "annual_amount" = Ok (ore n) → 0 < n < 10 ^ 25 →
  _parse_period start "start_period" = Ok (y, m) →
  do_compute_recognition_schedule raw_id v start =
  if 0 <=? n - 11 * twelfth n
  then Ok (Schedule cid (ore n) (_add_months y m 0) (entry_of cid y m n <$> seq 0 12) (ore n))
  else Err (ValueError "negative period").
Proof.
  intros Hid Hne Hv Hn Hs. pose proof (twelfth_bounds n ltac:(lia)) as (H0 & _ & _).
  assert (dec_leb (ore n) _ZERO = false) as E1 by (unfold ore, _ZERO; rewrite dec_leb_same; apply Z.leb_gt; lia).
  assert (_quantise (dec_div (ore n) (Dec _MONTHS_PER_YEAR 0)) "annual_amount / 12" = Ok (ore (twelfth n))) as E2.
  { unfold _quantise. change (Dec _MONTHS_PER_YEAR 0) with (Dec 12 0). unfold ore at 1. by rewrite div_twelfth. }
  assert (dec_eqb (ore n) (ore n) = true) as E3 by (unfold dec_eqb, ore; by rewrite dec_compare_same, Z.compare_refl).
  assert (forallb (λ p, negb (dec_ltb (pe_amount p) _ZERO)) (entry_of cid y m n <$> seq 0 12) = (0 <=? n - 11 * twelfth n)) as E4.
  { assert (∀ k, negb (dec_ltb (ore k) _ZERO) = (0 <=? k)) as Hk
      by (intros k; unfold ore, _ZERO; rewrite dec_ltb_same, Z.leb_antisym; done).
    change (forallb (λ p, negb (dec_ltb (pe_amount p) _ZERO)) _) with
      (forallb (λ i, negb (dec_ltb (ore (amount_of n i)) _ZERO)) (seq 0 12)).
    cbn [seq forallb]. rewrite !Hk. change (amount_of n 11) with (n - 11 * twelfth n).
    repeat match goal with |- context [amount_of n ?i] => change (amount_of n i) with (twelfth n) end.
    rewrite (proj2 (Z.leb_le 0 (twelfth n))) by lia. cbn [andb]. by rewrite andb_true_r. }
  unfold do_compute_recognition_schedule. rewrite Hid, Hv, Hs. apply String.eqb_neq in Hne. rewrite Hne.
  cbn [mbind result_bind negb ensure]. rewrite E1. cbn [negb ensure mbind result_bind]. rewrite E2. cbn [mbind result_bind].
  rewrite schedule_run by done. rewrite E3, E4. by destruct (0 <=? n - 11 * twelfth n).
Qed.

(** ** The text of a period *)
Definition digit_char (d : Z) : ascii := ascii_of_N (Z.to_N (48 + d)).
Definition period_text (y m : Z) : string :=
  String (digit_char (y / 1000)) (String (digit_char (y / 100 mod 10)) (String (digit_char (y / 10 mod 10))
    (String (digit_char (y mod 10)) (String "-" (String (digit_char (m / 10)) (String (digit_char (m mod 10)) "")))))).

Lemma digits_year y : 0 ≤ y < 10000 →
  digits 4 y = String (digit_char (y / 1000)) (String (digit_char (y / 100 mod 10)) (String (digit_char (y / 10 mod 10))
    (String (digit_char (y mod 10)) ""))).
Proof.
  intros Hy. apply String.eqb_eq. revert y Hy.
  assert (forallb (λ k, let y := Z.of_nat k in String.eqb (digits 4 y)
    (String (digit_char (y / 1000)) (String (digit_char (y / 100 mod 10)) (String (digit_char (y / 10 mod 10))
    (String (digit_char (y mod 10)) ""))))) (seq 0 (Z.to_nat 10000)) = true) as H by (vm_compute; reflexivity).
  rewrite forallb_forall in H. intros y Hy. specialize (H (Z.to_nat y)). cbv zeta in H.
  rewrite Z2Nat.id in H by lia. apply H, in_seq. lia.
Qed.
Lemma digits_month m : 0 ≤ m < 100 → digits 2 m = String (digit_char (m / 10)) (String (digit_char (m mod 10)) "").
Proof.
  intros Hy. apply String.eqb_eq. revert m Hy.
  assert (forallb (λ k, let m := Z.of_nat k in String.eqb (digits 2 m)
    (String (digit_char (m / 10)) (String (digit_char (m mod 10)) ""))) (seq 0 (Z.to_nat 100)) = true) as H by (vm_compute; reflexivity).
  rewrite forallb_forall in H. intros y Hy. specialize (H (Z.to_nat y)). cbv zeta in H.
  rewrite Z2Nat.id in H by lia. apply H, in_seq. lia.
Qed.

Lemma add_months_text y m i :
  0 ≤ (y * 12 + (m - 1) + i) < 120000 →
  _add_months y m i = period_text ((y * 12 + (m - 1) + i) / 12) ((y * 12 + (m - 1) + i) mod 12 + 1).
Proof.
  intros Ht. unfold _add_months. set (t := y * 12 + (m - 1) + i) in *.
  pose proof (Z.mod_pos_bound t 12 ltac:(lia)).
  rewrite digits_year, digits_month; [done|lia|]. split; [apply Z.div_pos; lia|apply Z.div_lt_upper_bound; lia].
Qed.

Lemma digit_of_char d : 0 ≤ d < 10 → digit_of (digit_char d) = Some d.
Proof.
  intros Hd. assert (d = 0 ∨ d = 1 ∨ d = 2 ∨ d = 3 ∨ d = 4 ∨ d = 5 ∨ d = 6 ∨ d = 7 ∨ d = 8 ∨ d = 9) as Hc by lia.
  repeat (destruct Hc as [->|Hc]; [vm_compute; reflexivity|]). subst. vm_compute. reflexivity.
Qed.
Lemma digit_of_range c d : digit_of c = Some d → 0 ≤ d < 10.
Proof.
  unfold digit_of, in_range. destruct (_ && _) eqn:E; [|done]. intros [= <-].
  apply andb_true_iff in E as [H1%N.leb_le H2%N.leb_le]. lia.
Qed.

Lemma period_match_bounds s y m : period_match s = Some (y, m) → 0 ≤ y < 10000 ∧ 1 ≤ m ≤ 12.
Proof.
  unfold period_match. do 4 (destruct s as [|? s]; [done|]).
  destruct s as [|c s]; [done|]. destruct c as [[] [] [] [] [] [] [] []]; try done.
  do 2 (destruct s as [|? s]; [done|]). destruct s; [|done].
  repeat match goal with |- context [digit_of ?c] => destruct (digit_of c) eqn:?; simpl; [|done] end.
  repeat match goal with H : digit_of _ = Some _ |- _ => apply digit_of_range in H end.
  destruct (_ && _) eqn:E; [|done]. intros [= <- <-]. apply andb_true_iff in E as [H1%Z.leb_le H2%Z.leb_le]. lia.
Qed.

Lemma parse_period_bounds v w y m : _parse_period v w = Ok (y, m) → 0 ≤ y < 10000 ∧ 1 ≤ m ≤ 12.
Proof.
  destruct v as [|s|]; [done| |done]. simpl. destruct (period_match _) as [[??]|] eqn:E; [|done].
  intros [= -> ->]. by eapply period_match_bounds.
Qed.

Lemma period_match_text y m : 0 ≤ y < 10000 → 1 ≤ m ≤ 12 → period_match (period_text y m) = Some (y, m).
Proof.
  intros Hy Hm. unfold period_match, period_text.
  pose proof (Z.div_mod y 10 ltac:(lia)). pose proof (Z.div_mod (y / 10) 10 ltac:(lia)). pose proof (Z.div_mod (y / 100) 10 ltac:(lia)).
  pose proof (Z.mod_pos_bound y 10 ltac:(lia)). pose proof (Z.mod_pos_bound (y / 10) 10 ltac:(lia)).
  pose proof (Z.mod_pos_bound (y / 100) 10 ltac:(lia)). pose proof (Z.div_mod m 10 ltac:(lia)). pose proof (Z.mod_pos_bound m 10 ltac:(lia)).
  assert (y / 10 / 10 = y / 100) by (rewrite Z.div_div by lia; done).
  assert (y / 100 / 10 = y / 1000) by (rewrite Z.div_div by lia; done).
  rewrite !digit_of_char by lia. simpl.
  replace (10 * (m / 10) + m mod 10) with m by lia.
  rewrite (proj2 (Z.leb_le 1 m)), (proj2 (Z.leb_le m 12)) by lia. simpl. do 2 f_equal. lia.
Qed.

Lemma parse_add_months y m w : 0 ≤ y < 10000 → 1 ≤ m ≤ 12 → _parse_period (SomeText (_add_months y m 0)) w = Ok (y, m).
Proof.
  intros Hy Hm. unfold _parse_period. rewrite add_months_text by lia.
  replace (y * 12 + (m - 1) + 0) with (m - 1 + y * 12) by lia.
  rewrite Z.div_add, Z.div_small, Z.add_0_l, Z.mod_add, Z.mod_small, Z.sub_add by lia.
  assert (strip (period_text y m) = period_text y m) as ->; [|by rewrite period_match_text].
  assert (∀ d, 0 ≤ d < 10 → is_space (digit_char d) = false) as Hs.
  { intros d Hd. assert (digit_of (digit_char d) = Some d) as E by (by apply digit_of_char).
    unfold digit_of, is_space, in_range in *. destruct (_ && _)%bool eqn:Er in E; [|done].
    apply andb_true_iff in Er as [H1%N.leb_le H2%N.leb_le].
    rewrite (proj2 (N.leb_gt (char_code (digit_char d)) 13)), (proj2 (N.leb_gt (char_code (digit_char d)) 32)),
      (proj2 (N.leb_gt 133 (char_code (digit_char d)))), (proj2 (N.leb_gt 160 (char_code (digit_char d)))) by lia.
    by rewrite !andb_false_r. }
  pose proof (Z.mod_pos_bound m 10 ltac:(lia)).
  assert (0 ≤ y / 1000 < 10) by (split; [apply Z.div_pos; lia|apply Z.div_lt_upper_bound; lia]).
  unfold strip, period_text. cbn [lstrip string_rev]. rewrite Hs by done. cbn [lstrip string_rev]. rewrite Hs by done. done.
Qed.

(** Twelve consecutive months are distinct. *)
Lemma app_same_tail (a a' b b' : string) : String.length b = String.length b' → a +:+ b = a' +:+ b' → b = b'.
Proof.
  intros Hl. revert a'; induction a as [|c a IH]; intros [|c' a'] H.
  - done.
  - change ("" +:+ b) with b in H. rewrite H, length_app_string in Hl. simpl in Hl. lia.
  - change ("" +:+ b') with b' in H. rewrite <- H, length_app_string in Hl. simpl in Hl. lia.
  - change (String c (a +:+ b) = String c' (a' +:+ b')) in H. injection H as _ H. by eapply IH.
Qed.
Lemma months_distinct y m (i j : nat) : (i < 12)%nat → (j < 12)%nat →
  _add_months y m (Z.of_nat i) = _add_months y m (Z.of_nat j) → i = j.
Proof.
  intros Hi Hj H. unfold _add_months in H. set (t := y * 12 + (m - 1)) in *.
  pose proof (Z.mod_pos_bound (t + Z.of_nat i) 12 ltac:(lia)). pose proof (Z.mod_pos_bound (t + Z.of_nat j) 12 ltac:(lia)).
  rewrite !digits_month in H by lia. apply app_same_tail in H; [|done]. injection H as Ea Eb.
  assert (∀ a b, 0 ≤ a < 10 → 0 ≤ b < 10 → digit_char a = digit_char b → a = b) as Hinj.
  { intros a b Ha Hb E. assert (Some a = Some b) as [= ->]; [|done]. by rewrite <- (digit_of_char a), <- (digit_of_char b), E. }
  pose proof (Z.mod_pos_bound ((t + Z.of_nat i) mod 12 + 1) 10 ltac:(lia)). pose proof (Z.mod_pos_bound ((t + Z.of_nat j) mod 12 + 1) 10 ltac:(lia)).
  assert (∀ k, 0 ≤ k < 12 → 0 ≤ (k + 1) / 10 < 10) as Hd by (intros k Hk; split; [apply Z.div_pos; lia|apply Z.div_lt_upper_bound; lia]).
  apply Hinj in Ea; [|by apply Hd..]. apply Hinj in Eb; [|done..].
  pose proof (Z.div_mod ((t + Z.of_nat i) mod 12 + 1) 10 ltac:(lia)). pose proof (Z.div_mod ((t + Z.of_nat j) mod 12 + 1) 10 ltac:(lia)).
  assert ((t + Z.of_nat i) mod 12 = (t + Z.of_nat j) mod 12) as E by lia.
  pose proof (Z.div_mod (t + Z.of_nat i) 12 ltac:(lia)). pose proof (Z.div_mod (t + Z.of_nat j) 12 ltac:(lia)). lia.
Qed.
