(* ===== verification/RevenueProps.v ===== *)
(** * RevenueProps: a contract's year is recognised once, and in full *)
From S2P Require Import Prelude Txn PyText PyStr PyDecimal Revenue RevenueFacts.
Local Open Scope Z_scope.

(** ** Any schedule *)
Lemma foldl_refs cid y m annual base (ks : list nat) st :
  Forall (λ p, pe_finago_ref p = _finago_ref cid (pe_period p)) st.2 →
  Forall (λ p, pe_finago_ref p = _finago_ref cid (pe_period p)) (foldl (schedule_step cid y m annual base) st ks).2.
Proof.
  revert st; induction ks as [|i ks IH]; intros [t ps] H; [done|]. apply IH. cbn [snd schedule_step] in *.
  apply Forall_app. split; [done|]. by constructor.
Qed.

Lemma schedule_inv raw_id v start s :
  do_compute_recognition_schedule raw_id v start = Ok s →
  Forall (λ p, pe_finago_ref p = _finago_ref (strip (default "" raw_id)) (pe_period p)) (sc_periods s) ∧
  ∃ a q, _as_money v "annual_amount" = Ok a ∧ _quantise (dec_div a (Dec _MONTHS_PER_YEAR 0)) "annual_amount / 12" = Ok q.
Proof.
  intros H. unfold do_compute_recognition_schedule in H. apply bind_Ok in H as (_ & _ & H).
  apply bind_Ok in H as (a & Ha & H). apply bind_Ok in H as (_ & _ & H).
  apply bind_Ok in H as ([y m] & _ & H). apply bind_Ok in H as (q & Hq & H).
  pose proof (foldl_refs (strip (default "" raw_id)) y m a q (seq 0 12) (_ZERO, []) (Forall_nil_2 _)) as Hf.
  destruct (foldl _ _ _) as [t ps]. apply bind_Ok in H as (_ & _ & H). apply bind_Ok in H as (_ & _ & H).
  injection H as <-. split; [done|]. by exists a, q.
Qed.

(** ** One contract of a call touches its own row only *)
Section recognition.
Context (sha256 : string → string).

Definition outcome_id (o : outcome) : string :=
  match o with IsNew r | Already r => rc_contract_id r | NotDue c => c end.

Lemma recognize_contract_frame ns p c d d' o :
  recognize_contract sha256 ns p c d = Ok (d', o) →
  outcome_id o = ct_contract_id c ∧
  ∀ key, key ≠ (ns, _finago_ref (strip (ct_contract_id c)) p) → d' !! key = d !! key.
Proof.
  unfold recognize_contract. intros H. apply tx_bind_Ok in H as (? & s & [<- Hs]%lift_Ok & H).
  apply schedule_inv in Hs as [Hr _]. destruct (List.find _ _) as [e|] eqn:He.
  2: { apply tx_ret_Ok in H as [<- <-]. done. }
  apply List.find_some in He as [Hin He%String.eqb_eq].
  apply list_elem_of_In in Hin. rewrite Forall_forall in Hr. specialize (Hr e Hin). cbn beta in Hr. rewrite He in Hr.
  apply tx_bind_Ok in H as (d1 & b & H & Ho). apply tx_ret_Ok in Ho as [-> <-]. split; [by destruct b|].
  intros key Hk. unfold _record_recognition in H. apply tx_bind_Ok in H as (? & rows & [<- <-]%gets_Ok & H).
  cbn [id] in H. destruct (d !! _) as [row|].
  - destruct (bool_decide _); [|by apply fail_Ok in H]. apply tx_ret_Ok in H as [<- _]. done.
  - apply tx_bind_Ok in H as (d2 & ? & <-%modify_Ok & H). apply tx_ret_Ok in H as [<- _].
    rewrite lookup_insert_ne; [done|]. intros E. apply Hk. rewrite <- E. by f_equal.
Qed.

Lemma as_contracts_ok seen raw cs :
  _as_contracts seen raw = Ok cs →
  NoDup (ct_contract_id <$> cs) ∧ Forall (λ c, (ct_contract_id c ∉ seen) ∧ strip (ct_contract_id c) = ct_contract_id c ∧
    (ct_status c ∈ _VALID_CONTRACT_STATUSES)) cs.
Proof.
  revert seen cs; induction raw as [|e raw IH]; intros seen cs H; simpl in H.
  - injection H as <-. split; constructor.
  - apply ensure_bind in H as [_ H]. apply ensure_bind in H as [Hn%bool_decide_eq_true H].
    apply bind_Ok in H as (a & _ & H). apply bind_Ok in H as ([y m] & _ & H).
    apply ensure_bind in H as [Hst%bool_decide_eq_true H]. apply bind_Ok in H as (rest & Hr & [= <-]).
    apply IH in Hr as [Hnd Hf]. rewrite Forall_forall in Hf. split.
    + constructor; [|done]. intros (c & Hcc & Hc)%list_elem_of_fmap. cbn [ct_contract_id] in Hcc. destruct (Hf c Hc) as [Hx _]. set_solver.
    + constructor; [split; [done|split; [apply strip_strip|done]]|].
      apply Forall_forall. intros c Hc. destruct (Hf c Hc) as (Hx & Hy & Hz). split; [set_solver|done].
Qed.

Lemma as_contracts_elem seen raw cs e a y m :
  _as_contracts seen raw = Ok cs → e ∈ raw →
  _as_money (rk_annual_amount e) "annual_amount" = Ok a → _parse_period (rk_start_period e) "start_period" = Ok (y, m) →
  Contract (strip (default "" (rk_contract_id e))) a (_add_months y m 0) (default "" (rk_status e)) ∈ cs.
Proof.
  intros H He Ha Hs. revert seen cs H; induction raw as [|e' raw IH]; intros seen cs H; [by apply not_elem_of_nil in He|].
  simpl in H. apply ensure_bind in H as [_ H]. apply ensure_bind in H as [_ H].
  apply bind_Ok in H as (a' & Ha' & H). apply bind_Ok in H as ([y' m'] & Hs' & H).
  apply ensure_bind in H as [_ H]. apply bind_Ok in H as (rest & Hr & [= <-]).
  apply elem_of_cons in He as [->|He]; [|right; by eapply IH].
  rewrite Ha in Ha'. rewrite Hs in Hs'. injection Ha' as <-. injection Hs' as <- <-. left.
Qed.

(** ** The snapshot after the commit cannot fail *)
Definition priced (c : contract) : Prop :=
  ct_status c ∈ _VALID_CONTRACT_STATUSES ∧
  ∃ a q, _as_money (PyDecimal (ct_annual_amount c)) "annual_amount" = Ok a ∧
    _quantise (dec_div a (Dec _MONTHS_PER_YEAR 0)) "annual_amount / 12" = Ok q.
Lemma snapshot_total cs : Forall priced cs →
  ∃ r, do_snapshot_mrr_arr_churn ((λ c, (PyDecimal (ct_annual_amount c), Some (ct_status c))) <$> cs) = Ok r.
Proof.
  intros H. unfold do_snapshot_mrr_arr_churn.
  assert (∃ l, _as_snapshot_contracts ((λ c, (PyDecimal (ct_annual_amount c), Some (ct_status c))) <$> cs) = Ok l ∧
    ∀ st, ∃ st', snapshot_loop st l = Ok st') as (l & -> & Hl).
  { induction H as [|c cs (Hst & a & q & Ha & Hq) _ (l & IH & Hl)]; [by exists []; split; [|intros st; exists st]|].
    exists ((a, ct_status c) :: l). split.
    - cbn [fmap list_fmap _as_snapshot_contracts]. rewrite Ha. cbn [mbind result_bind].
      cbn [default from_option id]. rewrite bool_decide_true by done. cbn [ensure mbind result_bind].
      change (list_fmap _ _ _ cs) with ((λ c, (PyDecimal (ct_annual_amount c), Some (ct_status c))) <$> cs). by rewrite IH.
    - intros [[[m ch] na] nc]. cbn [snapshot_loop snapshot_step fst snd]. rewrite Hq. cbn [mbind result_bind]. apply Hl. }
  cbn [mbind result_bind]. destruct (Hl (_ZERO, _ZERO, 0%nat, 0%nat)) as ([[[m ch] na] nc] & ->). by eexists.
Qed.

Lemma recognize_contract_priced ns p c d d' o :
  recognize_contract sha256 ns p c d = Ok (d', o) → ct_status c ∈ _VALID_CONTRACT_STATUSES → priced c.
Proof.
  intros H Hst. split; [done|]. apply tx_bind_Ok in H as (? & s & [<- Hs]%lift_Ok & H).
  by apply schedule_inv in Hs as [_ Hs].
Qed.
Lemma recognize_all_priced ns p cs d d' os :
  tx_for cs (recognize_contract sha256 ns p) d = Ok (d', os) →
  Forall (λ c, ct_status c ∈ _VALID_CONTRACT_STATUSES) cs → Forall priced cs.
Proof.
  revert d os; induction cs as [|c cs IH]; intros d os H Hst; [done|]. apply Forall_cons in Hst as [Hc Hcs].
  apply tx_bind_Ok in H as (d1 & o & H1 & H). apply tx_bind_Ok in H as (d2 & os' & H2 & H).
  apply tx_ret_Ok in H as [-> _]. constructor; [by eapply recognize_contract_priced|by eapply IH].
Qed.
End recognition.

(** ** The life of one contract

    [k] is the contract: its id, its amount of [n] hundredths, its first month. *)
Section contract.
Context (sha256 : string → string) (ns cid : string) (n y m : Z) (status : string).

Definition month_of (i : nat) : string := _add_months y m (Z.of_nat i).
Definition booked_contract : contract := Contract cid (ore n) (_add_months y m 0) status.
Definition ref_of (i : nat) : string := _finago_ref cid (month_of i).
Definition row_of (i : nat) : idem_row :=
  IdemRow _ACTION_TYPE (Some cid) (Some (_response_digest sha256 (ore (amount_of n i)))).

(** The months [ps] of the year have their row in the table, the others none. *)
Definition booked (ps : list string) (d : rev_db) : Prop :=
  ∀ i, (i < 12)%nat → d !! (ns, ref_of i) = if bool_decide (month_of i ∈ ps) then Some (row_of i) else None.

(** What is due for the months [ps]. *)
Definition due (ps : list string) : Z :=
  foldr (λ i acc, (if bool_decide (month_of i ∈ ps) then amount_of n i else 0) + acc) 0 (seq 0 12).

(** What a list of recognised rows says about this contract. *)
Definition mine (rs : list recognised) : list recognised := filter (λ r, rc_contract_id r = cid) rs.
Definition news (os : list outcome) : list recognised := omap (λ o, match o with IsNew r => Some r | _ => None end) os.
Definition sum_ore (rs : list recognised) : Z := foldr (λ r acc, coef (rc_amount r) + acc) 0 rs.

(** What the caller wrote for the contract. *)
Record contract_terms (k : raw_contract) : Prop := Terms {
  terms_id : strip (default "" (rk_contract_id k)) = cid;
  terms_amount : _as_money (rk_annual_amount k) "annual_amount" = Ok (ore n);
  terms_start : _parse_period (rk_start_period k) "start_period" = Ok (y, m);
  terms_status : default "" (rk_status k) = status
}.

Context (Hcid : cid ≠ ""%string) (Hstrip : strip cid = cid) (Hn : 55 ≤ n < 10 ^ 25).
Context (Hm : 1 ≤ m ≤ 12) (Hy : 0 ≤ y) (Hend : y * 12 + (m - 1) + 11 < 120000).

Lemma booked_schedule : do_compute_recognition_schedule (Some cid) (PyDecimal (ore n)) (SomeText (_add_months y m 0)) =
  Ok (Schedule cid (ore n) (_add_months y m 0) (entry_of cid y m n <$> seq 0 12) (ore n)).
Proof.
  assert (_as_money (PyDecimal (ore n)) "annual_amount" = Ok (ore n)) as Hv.
  { apply quantise_ore. change (10 ^ PREC) with (1000 * 10 ^ 25). lia. }
  rewrite (schedule_cases (Some cid) cid _ n _ y m Hstrip Hcid Hv); [|lia|apply parse_add_months; lia].
  by rewrite (proj2 (Z.leb_le _ _) (residual_nonneg n ltac:(lia))).
Qed.

Lemma month_of_inj i j : (i < 12)%nat → (j < 12)%nat → month_of i = month_of j → i = j.
Proof. by apply months_distinct. Qed.
Lemma ref_of_inj i j : (i < 12)%nat → (j < 12)%nat → ref_of i = ref_of j → i = j.
Proof.
  intros Hi Hj H. apply month_of_inj; [done..|]. unfold ref_of, _finago_ref in H.
  by repeat apply (inj (String.append _)) in H.
Qed.

Lemma find_month i : (i < 12)%nat →
  List.find (λ p, String.eqb (pe_period p) (month_of i)) (entry_of cid y m n <$> seq 0 12) = Some (entry_of cid y m n i).
Proof.
  intros Hi. destruct (List.find _ _) as [e|] eqn:E.
  - apply List.find_some in E as [Hin He%String.eqb_eq]. apply list_elem_of_In, list_elem_of_fmap in Hin as (j & -> & Hj%elem_of_seq).
    f_equal. f_equal. apply month_of_inj; [lia|done|exact He].
  - exfalso. eapply List.find_none in E; [|apply list_elem_of_In, list_elem_of_fmap; exists i; split; [done|apply elem_of_seq; lia]].
    by rewrite String.eqb_refl in E.
Qed.

Lemma month_of_dec p : (∃ i, (i < 12)%nat ∧ p = month_of i) ∨ ∀ i, (i < 12)%nat → p ≠ month_of i.
Proof.
  destruct (decide (p ∈ month_of <$> seq 0 12)) as [(i & -> & Hi%elem_of_seq)%list_elem_of_fmap|Hp].
  - left. exists i. split; [lia|done].
  - right. intros i Hi ->. apply Hp, list_elem_of_fmap. exists i. split; [done|]. apply elem_of_seq. lia.
Qed.

(** *** The contract's turn in a call *)
Lemma recognize_due i d ps :
  (i < 12)%nat → booked ps d →
  ∃ d', recognize_contract sha256 ns (month_of i) booked_contract d =
      Ok (d', (if bool_decide (month_of i ∈ ps) then Already else IsNew) (Recognised cid (ref_of i) (ore (amount_of n i)))) ∧
    booked (month_of i :: ps) d'.
Proof.
  intros Hi Hb. unfold recognize_contract. cbn [booked_contract ct_contract_id ct_annual_amount ct_start_period].
  rewrite (lift_run booked_schedule). cbn [sc_periods]. rewrite find_month by done.
  cbn [entry_of pe_finago_ref pe_amount]. change (_finago_ref cid _) with (ref_of i).
  unfold _record_recognition. pose proof (Hb i Hi) as Hrow.
  unfold mbind at 1, tx_bind at 1. unfold mbind at 1, tx_bind at 1. unfold gets. cbn [id]. rewrite Hrow.
  destruct (bool_decide_reflect (month_of i ∈ ps)) as [Hin|Hin].
  - cbn [ir_response_hash row_of]. rewrite bool_decide_true by done. exists d. split; [done|].
    intros j Hj. rewrite (Hb j Hj). rewrite (bool_decide_ext (month_of j ∈ month_of i :: ps) (month_of j ∈ ps)); [done|].
    rewrite elem_of_cons. split; [|by right]. by intros [->|?].
  - exists (<[(ns, ref_of i) := row_of i]> d). split; [done|]. intros j Hj.
    destruct (decide (j = i)) as [->|Hne].
    + rewrite lookup_insert_eq, bool_decide_true; [done|left].
    + rewrite lookup_insert_ne by (intros E%(f_equal snd); apply Hne; symmetry; by apply ref_of_inj). rewrite (Hb j Hj).
      rewrite (bool_decide_ext (month_of j ∈ month_of i :: ps) (month_of j ∈ ps)); [done|].
      rewrite elem_of_cons. split; [|by right]. intros [E|?]; [|done]. exfalso. apply Hne. by apply month_of_inj.
Qed.

Lemma recognize_not_due p d ps :
  (∀ i, (i < 12)%nat → p ≠ month_of i) → booked ps d →
  recognize_contract sha256 ns p booked_contract d = Ok (d, NotDue cid) ∧ booked (p :: ps) d.
Proof.
  intros Hp Hb. split.
  - unfold recognize_contract. cbn [booked_contract ct_contract_id ct_annual_amount ct_start_period].
    rewrite (lift_run booked_schedule). cbn [sc_periods]. destruct (List.find _ _) as [e|] eqn:E; [|done].
    apply List.find_some in E as [Hin He%String.eqb_eq]. apply list_elem_of_In, list_elem_of_fmap in Hin as (j & -> & Hj%elem_of_seq).
    exfalso. apply (Hp j); [lia|]. by symmetry.
  - intros j Hj. rewrite (Hb j Hj). rewrite (bool_decide_ext (month_of j ∈ p :: ps) (month_of j ∈ ps)); [done|].
    rewrite elem_of_cons. split; [|by right]. intros [E|?]; [|done]. exfalso. apply (Hp j Hj). by symmetry.
Qed.

(** *** The sum *)
Lemma sum_delta (f : nat → Z) (l : list nat) i : NoDup l → i ∈ l →
  foldr (λ j acc, (if bool_decide (j = i) then f j else 0) + acc) 0 l = f i.
Proof.
  intros Hnd. induction Hnd as [|j l Hj Hnd IH]; intros Hi; [by apply not_elem_of_nil in Hi|]. simpl.
  destruct (bool_decide_reflect (j = i)) as [->|Hne].
  - assert (foldr (λ j acc, (if bool_decide (j = i) then f j else 0) + acc) 0 l = 0) as ->; [|lia].
    clear -Hj. induction l as [|j l IH]; [done|]. simpl. apply not_elem_of_cons in Hj as [Hne Hj].
    rewrite bool_decide_false by congruence. rewrite IH by done. done.
  - apply elem_of_cons in Hi as [->|Hi]; [done|]. rewrite IH by done. done.
Qed.

Lemma due_cons_new i ps : (i < 12)%nat → month_of i ∉ ps → due (month_of i :: ps) = due ps + amount_of n i.
Proof.
  intros Hi Hp. rewrite <- (sum_delta (amount_of n) (seq 0 12) i) by (apply NoDup_seq || (apply elem_of_seq; lia)).
  unfold due. assert (∀ j, j ∈ seq 0 12 → (j < 12)%nat) as Hl by (intros j Hj%elem_of_seq; lia).
  induction (seq 0 12) as [|j l IH]; [done|]. simpl. rewrite IH by (intros; apply Hl; by right).
  assert (j < 12)%nat as Hj by (apply Hl; left). destruct (bool_decide_reflect (j = i)) as [->|Hne].
  - rewrite bool_decide_true by left. rewrite bool_decide_false by done. lia.
  - rewrite (bool_decide_ext (month_of j ∈ month_of i :: ps) (month_of j ∈ ps)); [lia|].
    rewrite elem_of_cons. split; [|by right]. intros [E|?]; [|done]. exfalso. apply Hne. by apply month_of_inj.
Qed.
Lemma due_cons_other p ps : (∀ i, (i < 12)%nat → p = month_of i → p ∈ ps) → due (p :: ps) = due ps.
Proof.
  intros Hp. unfold due. assert (∀ j, j ∈ seq 0 12 → (j < 12)%nat) as Hl by (intros j Hj%elem_of_seq; lia).
  induction (seq 0 12) as [|j l IH]; [done|]. simpl. rewrite IH by (intros; apply Hl; by right). f_equal.
  rewrite (bool_decide_ext (month_of j ∈ p :: ps) (month_of j ∈ ps)); [done|].
  rewrite elem_of_cons. split; [|by right]. intros [E|?]; [|done]. rewrite E. apply (Hp j); [apply Hl; left|done].
Qed.

(** *** A whole call *)
Lemma ref_of_other c p i : strip (ct_contract_id c) = ct_contract_id c → ct_contract_id c ≠ cid →
  String.length p = String.length (month_of i) →
  (ns, ref_of i) ≠ (ns, _finago_ref (strip (ct_contract_id c)) p).
Proof.
  intros Hs Hc Hl E%(f_equal snd). rewrite Hs in E. cbn [snd] in E. unfold ref_of, _finago_ref in E.
  apply (inj (String.append "ms:")) in E.
  assert (∀ a b s t : string, String.length s = String.length t → a +:+ s = b +:+ t → a = b) as Happ.
  { clear. intros a. induction a as [|x a IH]; intros [|z b] s t Hl H.
    - done.
    - change ("" +:+ s) with s in H. rewrite H in Hl. rewrite length_app_string in Hl. simpl in Hl. lia.
    - change ("" +:+ t) with t in H. rewrite <- H in Hl. rewrite length_app_string in Hl. simpl in Hl. lia.
    - change (String x (a +:+ s) = String z (b +:+ t)) in H. injection H as -> H. f_equal. by eapply IH. }
  apply Hc. symmetry. eapply Happ, E. rewrite !length_app_string. lia.
Qed.

Lemma loop_absent p cs d d' os ps :
  (∀ i, (i < 12)%nat → String.length p = String.length (month_of i)) →
  Forall (λ c, strip (ct_contract_id c) = ct_contract_id c ∧ ct_contract_id c ≠ cid) cs →
  tx_for cs (recognize_contract sha256 ns p) d = Ok (d', os) → booked ps d → booked ps d' ∧ mine (news os) = [].
Proof.
  intros Hl. revert d os; induction cs as [|c cs IH]; intros d os Hcs H Hb.
  - apply tx_ret_Ok in H as [<- <-]. done.
  - apply Forall_cons in Hcs as [[Hs Hc] Hcs]. apply tx_bind_Ok in H as (d1 & o & H1 & H).
    apply tx_bind_Ok in H as (d2 & os' & H2 & H). apply tx_ret_Ok in H as [-> <-].
    apply recognize_contract_frame in H1 as [Ho Hf]. destruct (IH d1 os' Hcs H2) as [Hb' Hm'].
    { intros i Hi. rewrite Hf; [by apply Hb|]. apply ref_of_other; [done..|by apply Hl]. }
    split; [done|]. unfold news. cbn [omap list_omap]. destruct o as [r| |]; [|done..].
    unfold mine. rewrite filter_cons_False; [exact Hm'|]. cbn [outcome_id] in Ho. congruence.
Qed.

Lemma loop_present p cs d d' os ps :
  (∀ i, (i < 12)%nat → String.length p = String.length (month_of i)) →
  Forall (λ c, strip (ct_contract_id c) = ct_contract_id c) cs → NoDup (ct_contract_id <$> cs) → booked_contract ∈ cs →
  tx_for cs (recognize_contract sha256 ns p) d = Ok (d', os) → booked ps d →
  booked (p :: ps) d' ∧
  ((mine (news os) = [] ∧ ∀ i, (i < 12)%nat → p = month_of i → p ∈ ps) ∨
   ∃ i, (i < 12)%nat ∧ p = month_of i ∧ (p ∉ ps) ∧ mine (news os) = [Recognised cid (ref_of i) (ore (amount_of n i))]).
Proof.
  intros Hl. revert d os; induction cs as [|c cs IH]; intros d os Hs Hnd Hin H Hb; [by apply not_elem_of_nil in Hin|].
  apply Forall_cons in Hs as [Hsc Hs]. cbn [fmap list_fmap] in Hnd. apply NoDup_cons in Hnd as [Hc Hnd].
  apply tx_bind_Ok in H as (d1 & o & H1 & H). apply tx_bind_Ok in H as (d2 & os' & H2 & H). apply tx_ret_Ok in H as [-> <-].
  apply elem_of_cons in Hin as [<-|Hin].
  - assert (Forall (λ c, strip (ct_contract_id c) = ct_contract_id c ∧ ct_contract_id c ≠ cid) cs) as Hcs.
    { rewrite Forall_forall in Hs |- *. intros c Hcin. split; [by apply Hs|]. intros E. apply Hc.
      apply list_elem_of_fmap. by exists c. }
    destruct (month_of_dec p) as [(i & Hi & ->)|Hp].
    + destruct (recognize_due i d ps Hi Hb) as (d1' & H1' & Hb'). rewrite H1' in H1. injection H1 as -> <-.
      destruct (loop_absent _ _ _ _ _ _ Hl Hcs H2 Hb') as [Hb2 Hm2]. split; [done|].
      destruct (bool_decide_reflect (month_of i ∈ ps)) as [Hip|Hip].
      * left. split; [done|]. by intros j _ _.
      * right. exists i. do 3 (split; [done|]). unfold news, mine. cbn [omap list_omap].
        rewrite filter_cons_True by done. f_equal. exact Hm2.
    + destruct (recognize_not_due p d ps Hp Hb) as [H1' Hb']. rewrite H1' in H1. injection H1 as -> <-.
      destruct (loop_absent _ _ _ _ _ _ Hl Hcs H2 Hb') as [Hb2 Hm2]. split; [done|]. left. split; [done|].
      intros i Hi E. by destruct (Hp i Hi).
  - assert (ct_contract_id c ≠ cid) as Hne.
    { intros E. apply Hc. apply list_elem_of_fmap. by exists booked_contract. }
    apply recognize_contract_frame in H1 as [Ho Hf].
    destruct (IH d1 os' Hs Hnd Hin H2) as [Hb' Hm'].
    { intros i Hi. rewrite Hf; [by apply Hb|]. apply ref_of_other; [done..|by apply Hl]. }
    split; [done|].
    assert (mine (news (o :: os')) = mine (news os')) as ->; [|done]. unfold news. cbn [omap list_omap].
    destruct o as [r| |]; [|done..]. unfold mine. rewrite filter_cons_False; [done|]. cbn [outcome_id] in Ho. congruence.
Qed.

Lemma month_length i : (i < 12)%nat → String.length (month_of i) = 7%nat.
Proof. intros Hi. unfold month_of. by rewrite add_months_text by lia. Qed.

(** *** The contract's history

    Calls that name the contract [k], with any others, whatever their result;
    between them other writers leave the contract's rows alone. *)
Inductive recognitions (namespace_id : option string) (k : raw_contract) (d0 : rev_db) : list string → list recognised → rev_db → Prop :=
  | recognitions_start : recognitions namespace_id k d0 [] [] d0
  | recognitions_other ps rs d d' :
      recognitions namespace_id k d0 ps rs d →
      (∀ i, (i < 12)%nat → d' !! (ns, ref_of i) = d !! (ns, ref_of i)) →
      recognitions namespace_id k d0 ps rs d'
  | recognitions_call ps rs d d' period ks res :
      recognitions namespace_id k d0 ps rs d → k ∈ ks →
      do_recognize_recurring sha256 namespace_id period ks d = (d', res) →
      recognitions namespace_id k d0
        (match res with Ok r => rg_period r :: ps | Err _ => ps end)
        (match res with Ok r => rg_recognized r ++ rs | Err _ => rs end) d'.

Lemma call_step namespace_id k period ks d d' res ps :
  _as_ns_uuid namespace_id "namespace_id" = Ok ns → contract_terms k →
  booked ps d → k ∈ ks → do_recognize_recurring sha256 namespace_id period ks d = (d', res) →
  match res with
  | Err _ => d' = d
  | Ok r => booked (rg_period r :: ps) d' ∧
      ((mine (rg_recognized r) = [] ∧ ∀ i, (i < 12)%nat → rg_period r = month_of i → rg_period r ∈ ps) ∨
       ∃ i, (i < 12)%nat ∧ rg_period r = month_of i ∧ (rg_period r ∉ ps) ∧
         mine (rg_recognized r) = [Recognised cid (ref_of i) (ore (amount_of n i))])
  end.
Proof.
  intros Hns [Hid Ham Hstart Hstat] Hb Hk H. unfold do_recognize_recurring in H. rewrite Hns in H. cbn [mbind result_bind] in H.
  destruct (_parse_period period "period") as [[py pm]|] eqn:Hp; cbn [mbind result_bind] in H; [|by injection H as <- <-].
  destruct (_as_contracts [] ks) as [cs|] eqn:Hcs; cbn [mbind result_bind] in H; [|by injection H as <- <-].
  destruct (tx_for cs _ d) as [[d1 os]|] eqn:Hrun; [|by injection H as <- <-].
  pose proof (as_contracts_ok _ _ _ Hcs) as [Hnd Hf].
  assert (Forall (λ c, strip (ct_contract_id c) = ct_contract_id c) cs) as Hs by (eapply Forall_impl; [exact Hf|naive_solver]).
  assert (Forall (λ c, ct_status c ∈ _VALID_CONTRACT_STATUSES) cs) as Hst by (eapply Forall_impl; [exact Hf|naive_solver]).
  destruct (snapshot_total cs) as [snap Hsnap]; [by eapply recognize_all_priced|].
  rewrite Hsnap in H. cbn [mbind result_bind] in H. injection H as <- <-. cbn [rg_period rg_recognized].
  eapply loop_present; [|exact Hs|exact Hnd| |exact Hrun|exact Hb].
  - intros i Hi. rewrite month_length by done. apply parse_period_bounds in Hp. by rewrite add_months_text by lia.
  - eapply (as_contracts_elem _ _ _ _ (ore n) y m) in Hcs; [|exact Hk|exact Ham|exact Hstart].
    rewrite Hid, Hstat in Hcs. exact Hcs.
Qed.

(** A call on the contract alone is never refused. *)
Lemma call_succeeds namespace_id k period d ps py pm :
  _as_ns_uuid namespace_id "namespace_id" = Ok ns → contract_terms k → status ∈ _VALID_CONTRACT_STATUSES →
  _parse_period period "period" = Ok (py, pm) → booked ps d →
  ∃ d' r, do_recognize_recurring sha256 namespace_id period [k] d = (d', Ok r) ∧ rg_period r = _add_months py pm 0.
Proof.
  intros Hns [Hid Ham Hstart Hstat] Hst Hp Hb.
  assert (_as_contracts [] [k] = Ok [booked_contract]) as Hcs.
  { cbn [_as_contracts]. rewrite Hid, Ham, Hstart, Hstat. cbn [mbind result_bind].
    assert (negb (String.eqb cid "") = true) as -> by (apply negb_true_iff; by apply String.eqb_neq).
    rewrite (bool_decide_true (cid ∉ [])) by apply not_elem_of_nil.
    rewrite (bool_decide_true (status ∈ _)) by done. done. }
  set (p := _add_months py pm 0).
  assert (∃ d' o, recognize_contract sha256 ns p booked_contract d = Ok (d', o)) as (d' & o & Hrun).
  { destruct (month_of_dec p) as [(i & Hi & ->)|Hn'].
    - destruct (recognize_due i d ps Hi Hb) as (d' & H & _). eauto.
    - destruct (recognize_not_due p d ps Hn' Hb) as [H _]. eauto. }
  assert (tx_for [booked_contract] (recognize_contract sha256 ns p) d = Ok (d', [o])) as Hall
    by (cbn [tx_for]; by rewrite (tx_run Hrun)).
  destruct (snapshot_total [booked_contract]) as [snap Hsnap].
  { constructor; [|constructor]. by eapply recognize_contract_priced. }
  unfold do_recognize_recurring. rewrite Hns, Hp. cbn [mbind result_bind]. rewrite Hcs. cbn [mbind result_bind].
  fold p. rewrite Hall, Hsnap. by do 2 eexists.
Qed.

Lemma mine_app a b : mine (a ++ b) = mine a ++ mine b.
Proof. apply filter_app. Qed.

(** *** The history's books *)
Lemma history_booked namespace_id k d0 ps rs d :
  _as_ns_uuid namespace_id "namespace_id" = Ok ns → contract_terms k → booked [] d0 →
  recognitions namespace_id k d0 ps rs d →
  booked ps d ∧ sum_ore (mine rs) = due ps ∧ NoDup (rc_finago_ref <$> mine rs) ∧
  ∀ r, r ∈ mine rs → ∃ i, (i < 12)%nat ∧ month_of i ∈ ps ∧ rc_finago_ref r = ref_of i.
Proof.
  intros Hns Hk Hb. induction 1 as [|ps rs d d' _ IH Hsame|ps rs d d' period ks res _ (Hb' & Hsum & Hnd & Hrefs) Hin Hcall].
  - split_and!; [done|done|constructor|]. intros r Hr. by apply not_elem_of_nil in Hr.
  - destruct IH as (Hb' & IH). split; [|done]. intros i Hi. rewrite Hsame by done. by apply Hb'.
  - pose proof (call_step _ _ _ _ _ _ _ _ Hns Hk Hb' Hin Hcall) as Hstep. destruct res as [r|]; [|by subst].
    destruct Hstep as (Hb2 & [[Hm1 Hp]|(i & Hi & Hp & Hnew & Hm1)]); (split; [done|]); rewrite mine_app, Hm1.
    + split_and!; [by rewrite due_cons_other|done|]. intros r' Hr'. destruct (Hrefs r' Hr') as (j & ? & ? & ?).
      exists j. split_and!; [done|by right|done].
    + rewrite Hp in Hnew |- *. split_and!.
      * rewrite due_cons_new by done. cbn [app sum_ore foldr]. cbn [rc_amount ore coef].
        change (foldr _ 0 (mine rs)) with (sum_ore (mine rs)). lia.
      * cbn [app fmap list_fmap]. constructor; [|done]. cbn [rc_finago_ref].
        intros (r' & Hr1 & Hr2)%list_elem_of_fmap. destruct (Hrefs r' Hr2) as (j & Hj & Hjp & Hjr).
        rewrite Hjr in Hr1. apply ref_of_inj in Hr1; [|done..]. by subst.
      * intros r' [->|Hr']%elem_of_cons.
        -- exists i. split_and!; [done|left|done].
        -- destruct (Hrefs r' Hr') as (j & ? & ? & ?). exists j. split_and!; [done|by right|done].
Qed.

Lemma due_all ps : (∀ i, (i < 12)%nat → month_of i ∈ ps) → due ps = n.
Proof.
  intros H. unfold due. cbn [seq foldr]. rewrite !bool_decide_true by (apply H; lia).
  unfold amount_of. cbn [Z.of_nat Z.ltb]. simpl. lia.
Qed.
End contract.

(** ** A contract's year *)
(** C37: The schedule of a positive annual amount has twelve entries for twelve
    distinct months, no amount below zero, all in hundredths, which add up to the
    annual amount exactly: eleven twelfths rounded half up and the remainder.
    Only an amount below 0.55 is refused. *)
Theorem schedule_adds_up raw_id v start n y m :
  strip (default "" raw_id) ≠ ""%string →
  _as_money v "annual_amount" = Ok (ore n) → 0 < n < 10 ^ 25 →
  _parse_period start "start_period" = Ok (y, m) →
  match do_compute_recognition_schedule raw_id v start with
  | Ok s => sc_total_recognized s = ore n ∧ total_ore (sc_periods s) = n ∧
      NoDup (pe_period <$> sc_periods s) ∧
      (pe_amount <$> sc_periods s) = repeat (ore (twelfth n)) 11 ++ [ore (n - 11 * twelfth n)] ∧
      Forall (λ p, 0 ≤ coef (pe_amount p)) (sc_periods s)
  | Err _ => n < 55
  end.
Proof.
  intros Hid Hv Hn Hs. rewrite (schedule_cases raw_id _ v n start y m eq_refl Hid Hv Hn Hs).
  destruct (Z.leb_spec 0 (n - 11 * twelfth n)) as [Hle|Hlt].
  2: { destruct (Z.lt_ge_cases n 55) as [|H55]; [done|]. pose proof (residual_nonneg n H55). lia. }
  cbn [sc_total_recognized sc_periods]. split_and!; [done|apply schedule_total| |done|].
  - rewrite <- list_fmap_compose. apply NoDup_fmap_2_strong; [|apply NoDup_seq].
    intros i j Hi%elem_of_seq Hj%elem_of_seq H. apply (months_distinct y m); [lia|lia|exact H].
  - apply Forall_fmap, Forall_forall. intros i Hi. simpl. unfold amount_of.
    destruct (twelfth_bounds n ltac:(lia)) as (? & _). by destruct (_ <? _).
Qed.

(** C29: Take a contract with fixed terms: a valid status, an annual amount of
    [n] hundredths, 55 <= n < 10^25 (a smaller one may have no schedule), and a year that
    ends before the year 10000.  Take any history of recognition calls that name it
    with these terms, alone or among others, with any periods, in any order, repeated
    or failing, while other writers leave its twelve rows alone, from a table without
    those rows.  Each month of the contract's year is reported as newly recognised at
    most once, the amounts reported are what is due for the months asked for, and
    once all twelve were asked for they add up to the annual amount.  In every
    state reached a call on this contract alone, with the same terms and a valid
    period, succeeds (with another contract in the call, or a changed amount, it can be
    refused). *)
Theorem year_recognised_once sha256 namespace_id ns k cid n y m status d0 ps rs d :
  _as_ns_uuid namespace_id "namespace_id" = Ok ns →
  contract_terms cid n y m status k →
  cid ≠ ""%string → status ∈ _VALID_CONTRACT_STATUSES → 55 ≤ n < 10 ^ 25 → y * 12 + (m - 1) + 11 < 120000 →
  (∀ i, (i < 12)%nat → d0 !! (ns, ref_of cid y m i) = None) →
  recognitions sha256 ns cid y m namespace_id k d0 ps rs d →
  NoDup (rc_finago_ref <$> mine cid rs) ∧
  sum_ore (mine cid rs) = due n y m ps ∧
  ((∀ i, (i < 12)%nat → month_of y m i ∈ ps) → sum_ore (mine cid rs) = n) ∧
  ∀ period py pm, _parse_period period "period" = Ok (py, pm) →
    ∃ d' r, do_recognize_recurring sha256 namespace_id period [k] d = (d', Ok r) ∧ rg_period r = _add_months py pm 0.
Proof.
  intros Hns Hk Hcid Hst Hn Hend Hfresh Hrun. pose proof Hk as [Hid _ Hs _].
  apply parse_period_bounds in Hs as [[Hy _] Hm]. assert (strip cid = cid) as Hstrip by (rewrite <- Hid; apply strip_strip).
  edestruct (history_booked sha256 ns cid n y m status) as (Hb & Hsum & Hnd & _); [done..|].
  split_and!; [done|done| |].
  - intros Hall. rewrite Hsum. by apply due_all.
  - intros period py pm Hp. by eapply call_succeeds.
Qed.

(** ** Witnesses *)
Lemma schedule_adds_up_witness :
  match do_compute_recognition_schedule (Some "C1"%string) (PyInt 1000) (SomeText "2026-11"%string) with
  | Ok s => total_ore (sc_periods s) = 100000
  | Err _ => False
  end.
Proof.
  generalize (schedule_adds_up (Some "C1"%string) (PyInt 1000) (SomeText "2026-11"%string) 100000 2026 11
    ltac:(vm_compute; discriminate) eq_refl ltac:(lia) eq_refl).
  destruct (do_compute_recognition_schedule _ _ _); [by intros (_ & ? & _)|lia].
Defined.

(** The calls of a list of periods, each on the same contracts. *)
Definition play (sha256 : string → string) (namespace_id : option string) (ks : list raw_contract) (d0 : rev_db) :
    list text_arg → list string * list recognised * rev_db :=
  foldr (λ p '(ps, rs, d), let '(d', res) := do_recognize_recurring sha256 namespace_id p ks d in
    (match res with Ok r => rg_period r :: ps | Err _ => ps end,
     match res with Ok r => rg_recognized r ++ rs | Err _ => rs end, d')) ([], [], d0).
Lemma play_runs sha256 ns cid y m namespace_id k ks d0 l : k ∈ ks →
  recognitions sha256 ns cid y m namespace_id k d0 (play sha256 namespace_id ks d0 l).1.1
    (play sha256 namespace_id ks d0 l).1.2 (play sha256 namespace_id ks d0 l).2.
Proof.
  intros Hk. induction l as [|p l IH]; [constructor|]. simpl. destruct (play _ _ _ _ l) as [[ps rs] d].
  destruct (do_recognize_recurring _ _ p ks d) as [d' res] eqn:E. by eapply recognitions_call.
Qed.

Definition demo_ns := "11111111-2222-3333-4444-555555555555"%string.
Definition demo_contract := RawContract (Some " C1 "%string) (PyInt 1000) (SomeText "2026-11"%string) (Some "active"%string).
Definition demo_other := RawContract (Some "C2"%string) (PyInt 240) (SomeText "2026-01"%string) (Some "churned"%string).
(** Out of order, one month twice, one not due, one not a month. *)
Definition demo_periods : list text_arg := SomeText <$>
  ["2027-10"; "2026-12"; "2026-11"; "2027-05"; "2027-05"; "2027-01"; "2027-02"; "2026-01"; "2027-13"; "2027-03";
   "2027-04"; "2027-06"; "2027-07"; "2027-08"; "2027-09"]%string.
Definition demo_play := play id (Some demo_ns) [demo_other; demo_contract] ∅ demo_periods.

Lemma year_recognised_once_witness : sum_ore (mine "C1" demo_play.1.2) = 100000.
Proof.
  refine (proj1 (proj2 (proj2 (year_recognised_once id (Some demo_ns) demo_ns demo_contract "C1" 100000 2026 11 "active"
    ∅ demo_play.1.1 demo_play.1.2 demo_play.2 _ _ _ _ _ _ _ _))) _).
  - vm_compute. reflexivity.
  - constructor; vm_compute; reflexivity.
  - discriminate.
  - left.
  - lia.
  - lia.
  - intros i _. apply lookup_empty.
  - apply play_runs. right. left.
  - assert (forallb (λ i, bool_decide (month_of 2026 11 i ∈ demo_play.1.1)) (seq 0 12) = true) as H by (vm_compute; reflexivity).
    rewrite forallb_forall in H. intros i Hi. apply (bool_decide_eq_true_1 _), H, in_seq. lia.
Defined.
