(* ===== verification/Locks.v ===== *)
(** * Locks: leases in Redis, and the cron locks built on them

    Models [src/nce/redis_lock.py] ([acquire_lock], [release_lock]) and
    [src/nce/cron_lock.py] ([_validated_lock_key], [acquire_cron_lock],
    [release_cron_lock]).  Redis is its clock and its live keys; a call may fail
    before it reaches the server or after it took effect there. *)
From S2P Require Import Prelude PyText.
From Stdlib Require Import Ascii.
Local Open Scope Z_scope.

(** ** Redis *)

(** A key, its value, and the time it expires at. *)
Record redis := Redis { clock : Z; keys : gmap string (string * Z) }.
#[local] Abbreviation live r k := (keys r !! k ≫= λ '(v, dl), if clock r <? dl then Some v else None).
Definition get (r : redis) (k : string) : option string := live r k.
Definition set_nx_ex (k v : string) (ex : Z) (r : redis) : redis * bool :=
  match get r k with
  | Some _ => (r, false)
  | None => (Redis (clock r) (<[k := (v, clock r + ex)]> (keys r)), true)
  end.
Definition del (k : string) (r : redis) : redis := Redis (clock r) (delete k (keys r)).
Definition tick (n : Z) (r : redis) : redis := Redis (clock r + n) (keys r).

(** What happens to a call. *)
Inductive call := Answered | NotSent | ReplyLost.

Inductive lock_error := ValueError (field : string).

(** ** [redis_lock.py] *)

Definition acquire_lock (c : call) (key : string) (ttl_seconds : Z) (token : string) (r : redis)
    : result lock_error (redis * option string) :=
  ensure (1 <=? ttl_seconds) (ValueError "ttl_seconds") ≫= λ _,
  match c with
  | NotSent => Ok (r, None)
  | ReplyLost => Ok ((set_nx_ex key token ttl_seconds r).1, None)
  | Answered => let '(r', acquired) := set_nx_ex key token ttl_seconds r in
                Ok (r', if acquired then Some token else None)
  end.

(** The script: delete the key if it still holds our token. *)
Definition RELEASE_LOCK_LUA (key token : string) (r : redis) : redis * bool :=
  if bool_decide (get r key = Some token) then (del key r, true) else (r, false).

Definition release_lock (c : call) (key token : string) (r : redis) : redis * bool :=
  match c with
  | NotSent => (r, false)
  | ReplyLost => ((RELEASE_LOCK_LUA key token r).1, false)
  | Answered => RELEASE_LOCK_LUA key token r
  end.

(** ** [cron_lock.py] *)

Definition _CRON_LOCK_PREFIX := "nce:cron:lock"%string.
Definition _CRON_LOCK_NS_MARKER := "ns"%string.
Definition _LOCAL_DISABLED := "local-disabled"%string.

Record CronLock := mkCronLock { job_id : string; key : string; token : string; ttl_seconds : Z }.

(** [^[a-zA-Z0-9_.-]{1,128}$]; [_JOB_ID_RE] and [_NAMESPACE_ID_RE] are the same. *)
Definition id_char (c : ascii) : bool :=
  in_range 97 122 c || in_range 65 90 c || in_range 48 57 c ||
  (char_code c =? 95)%N || (char_code c =? 46)%N || (char_code c =? 45)%N.
Fixpoint all_id (s : string) : bool :=
  match s with EmptyString => true | String c s => id_char c && all_id s end.
Definition _JOB_ID_RE (s : string) : bool :=
  all_id s && (1 <=? String.length s)%nat && (String.length s <=? 128)%nat.

Definition _validated_lock_key (job_id : string) (namespace_id : option string) : result lock_error string :=
  ensure (_JOB_ID_RE job_id) (ValueError "job_id") ≫= λ _,
  match namespace_id with
  | None => Ok (_CRON_LOCK_PREFIX +:+ ":" +:+ job_id)
  | Some ns =>
      ensure (_JOB_ID_RE ns) (ValueError "namespace_id") ≫= λ _,
      Ok (_CRON_LOCK_PREFIX +:+ ":" +:+ _CRON_LOCK_NS_MARKER +:+ ":" +:+ ns +:+ ":" +:+ job_id)
  end.

(** The deployment: whether Redis is configured, and whether this is production. *)
Record config := Config { REDIS_URL : bool; IS_PROD : bool }.

Definition acquire_cron_lock (cfg : config) (c : call) (job : string) (ttl : Z) (namespace_id : option string)
    (fresh : string) (r : redis) : result lock_error (redis * option CronLock) :=
  ensure (1 <=? ttl) (ValueError "ttl_seconds") ≫= λ _,
  k ← _validated_lock_key job namespace_id;
  (if negb (REDIS_URL cfg) then
     Ok (r, if IS_PROD cfg then None
            else Some (mkCronLock job ("local-disabled:" +:+ k) _LOCAL_DISABLED ttl))
   else
     match acquire_lock c k ttl fresh r with
     | Ok (r', tok) => Ok (r', (λ t, mkCronLock job k t ttl) <$> tok)
     | Err e => Err e
     end).

Definition release_cron_lock (c : call) (lock : CronLock) (r : redis) : redis * bool :=
  if String.eqb (token lock) _LOCAL_DISABLED then (r, true)
  else release_lock c (key lock) (token lock) r.
