(* ===== verification/LocksProps.v ===== *)
(** * LocksProps: a cron lock excludes, and comes free again *)
From S2P Require Import Prelude PyText PyStr Locks.
From Stdlib Require Import Ascii.
Local Open Scope Z_scope.

(** ** Keys *)
Lemma Ok_inj {E A} (a b : A) : (Ok a : result E A) = Ok b → a = b.
Proof. congruence. Qed.
Lemma id_char_colon : id_char ":"%char = false.
Proof. done. Qed.

(** Text without a colon is read off the front of a key. *)
Lemma all_id_split a b s t :
  all_id a = true → all_id b = true → a +:+ String ":" s = b +:+ String ":" t → a = b ∧ s = t.
Proof.
  revert b; induction a as [|x a IH]; intros [|z b] Ha Hb H; simpl in Ha, Hb.
  - by injection H.
  - change (String ":" s = String z (b +:+ String ":" t)) in H. injection H as <- _. by rewrite id_char_colon in Hb.
  - change (String x (a +:+ String ":" s) = String ":" t) in H. injection H as -> _. by rewrite id_char_colon in Ha.
  - change (String x (a +:+ String ":" s) = String z (b +:+ String ":" t)) in H. injection H as -> H.
    apply andb_true_iff in Ha as [_ Ha]. apply andb_true_iff in Hb as [_ Hb].
    destruct (IH b Ha Hb H) as [-> ->]. done.
Qed.
Lemma all_id_colon a s : all_id a = true → a ≠ "ns" +:+ String ":" s.
Proof. intros H ->. discriminate H. Qed.

Lemma job_id_all s : _JOB_ID_RE s = true → all_id s = true.
Proof. unfold _JOB_ID_RE. by intros [[? _]%andb_true_iff _]%andb_true_iff. Qed.

Definition lock_key (j : string) (n : option string) : string :=
  _CRON_LOCK_PREFIX +:+ ":" +:+ match n with None => j | Some ns => "ns" +:+ String ":" (ns +:+ String ":" j) end.
Lemma validated_lock_key_ok j n k : _validated_lock_key j n = Ok k →
  all_id j = true ∧ (∀ ns, n = Some ns → all_id ns = true) ∧ k = lock_key j n.
Proof.
  unfold _validated_lock_key. intros [Hj%job_id_all H]%ensure_bind. split; [done|]. destruct n as [n|].
  - apply ensure_bind in H as [Hn%job_id_all H]. apply Ok_inj in H as <-. by split; [intros ? [= <-]|].
  - by apply Ok_inj in H as <-.
Qed.

Lemma lock_key_inj j n j' n' k : _validated_lock_key j n = Ok k → _validated_lock_key j' n' = Ok k → j = j' ∧ n = n'.
Proof.
  intros (Hj & Hn & ->)%validated_lock_key_ok (Hj' & Hn' & E)%validated_lock_key_ok. unfold lock_key in E.
  apply (inj (String.append _)) in E. apply (inj (String.append _)) in E. destruct n as [n|], n' as [n'|].
  - apply (inj (String.append _)) in E. assert (n +:+ String ":" j = n' +:+ String ":" j') as E' by congruence.
    apply all_id_split in E' as [-> ->]; [done|by apply Hn|by apply Hn'].
  - by destruct (all_id_colon _ _ Hj' (eq_sym E)).
  - by destruct (all_id_colon _ _ Hj E).
  - by subst.
Qed.

(** ** The instances of the scheduler

    [handed] are the locks handed out so far, [held] those whose owner has not
    released them, with the time the lease ends; [tokens] the tokens drawn. *)
Record fleet := Fleet { store : redis; tokens : gset string; handed : list CronLock; held : list (CronLock * Z) }.

Section fleet.
Context (cfg : config) (max_ttl : Z).

Inductive fleet_step : fleet → fleet → Prop :=
  | fleet_time s n : 0 ≤ n → fleet_step s (Fleet (tick n (store s)) (tokens s) (handed s) (held s))
  | fleet_acquire s c job ttl ns fresh r got :
      fresh ∉ tokens s → fresh ≠ _LOCAL_DISABLED → ttl ≤ max_ttl →
      acquire_cron_lock cfg c job ttl ns fresh (store s) = Ok (r, got) →
      fleet_step s (Fleet r ({[fresh]} ∪ tokens s)
        (match got with Some l => l :: handed s | None => handed s end)
        (match got with Some l => (l, clock r + ttl) :: held s | None => held s end))
  | fleet_release s c l :
      l ∈ handed s →
      fleet_step s (Fleet (release_cron_lock c l (store s)).1 (tokens s) (handed s)
        (filter (λ h, token h.1 ≠ token l) (held s)))
  | fleet_other s r :
      clock r = clock (store s) →
      (∀ j ns k, _validated_lock_key j ns = Ok k → keys r !! k = keys (store s) !! k) →
      fleet_step s (Fleet r (tokens s) (handed s) (held s)).

(** From a Redis without lock keys. *)
Inductive fleet_runs : fleet → Prop :=
  | fleet_start r : (∀ j ns k, _validated_lock_key j ns = Ok k → keys r !! k = None) → fleet_runs (Fleet r ∅ [] [])
  | fleet_next s s' : fleet_runs s → fleet_step s s' → fleet_runs s'.

(** A lock is named by the job and the namespace it was asked for. *)
Definition lock_for (job : string) (ns : option string) (l : CronLock) : Prop :=
  job_id l = job ∧ _validated_lock_key job ns = Ok (key l).

Record fleet_ok (s : fleet) : Prop := {
  ok_handed l : l ∈ handed s → token l ∈ tokens s ∧ token l ≠ _LOCAL_DISABLED ∧ ∃ j ns, lock_for j ns l;
  ok_held l e : (l, e) ∈ held s → l ∈ handed s;
  ok_lease l e : (l, e) ∈ held s → clock (store s) < e → keys (store s) !! key l = Some (token l, e);
  ok_stored j ns k v e : _validated_lock_key j ns = Ok k → keys (store s) !! k = Some (v, e) →
    v ∈ tokens s ∧ e ≤ clock (store s) + max_ttl;
  ok_unique h h' : h ∈ held s → h' ∈ held s → token h.1 = token h'.1 → h = h'
}.

Lemma get_live r k v : get r k = Some v ↔ ∃ e, keys r !! k = Some (v, e) ∧ clock r < e.
Proof.
  unfold get. destruct (keys r !! k) as [[v' e]|]; simpl.
  - destruct (Z.ltb_spec (clock r) e); split; [intros [= ->]; eauto| |done|]; intros (? & ? & ?); simplify_eq; [done|lia].
  - split; [done|]. by intros (? & ? & ?).
Qed.

(** A successful [SET NX EX] found no live value. *)
Lemma set_nx_ex_Some r k v ex r' b : set_nx_ex k v ex r = (r', b) →
  (b = false ∧ r' = r ∧ ∃ v', get r k = Some v') ∨
  (b = true ∧ get r k = None ∧ clock r' = clock r ∧ keys r' = <[k := (v, clock r + ex)]> (keys r)).
Proof.
  unfold set_nx_ex. destruct (get r k) as [v'|] eqn:E; intros [= <- <-]; [left; eauto|right; done].
Qed.

Lemma acquire_cron_lock_inv c job ttl ns fresh r r' got :
  REDIS_URL cfg = true → acquire_cron_lock cfg c job ttl ns fresh r = Ok (r', got) →
  ∃ k, 1 ≤ ttl ∧ _validated_lock_key job ns = Ok k ∧
    ((r' = r ∧ got = None) ∨
     (get r k = None ∧ clock r' = clock r ∧ keys r' = <[k := (fresh, clock r + ttl)]> (keys r) ∧
      (got = None ∨ got = Some (mkCronLock job k fresh ttl)))).
Proof.
  intros Hcfg H. unfold acquire_cron_lock in H. apply ensure_bind in H as [Ht%Z.leb_le H].
  apply bind_Ok in H as (k & Hk & H). exists k. split_and!; [done..|]. rewrite Hcfg in H. cbn [negb] in H.
  unfold acquire_lock in H. rewrite (proj2 (Z.leb_le _ _) Ht) in H. cbn [ensure mbind result_bind] in H.
  destruct (set_nx_ex k fresh ttl r) as [r1 b] eqn:E. apply set_nx_ex_Some in E.
  destruct c; cbn [fst] in H; injection H as <- <-.
  - destruct E as [(-> & -> & _)|(-> & Hn & Hc & Hk')]; [by left|]. right. split_and!; auto.
  - by left.
  - destruct E as [(-> & -> & _)|(-> & Hn & Hc & Hk')]; [by left|]. right. split_and!; auto.
Qed.

Lemma release_cron_lock_inv c l r : token l ≠ _LOCAL_DISABLED →
  (release_cron_lock c l r).1 = r ∨
  (get r (key l) = Some (token l) ∧ (release_cron_lock c l r).1 = del (key l) r).
Proof.
  intros Hl. unfold release_cron_lock. apply String.eqb_neq in Hl. rewrite Hl. unfold release_lock, RELEASE_LOCK_LUA.
  destruct c; [|by left|]; destruct (bool_decide_reflect (get r (key l) = Some (token l))); simpl; auto.
Qed.

Lemma start_ok r : (∀ j ns k, _validated_lock_key j ns = Ok k → keys r !! k = None) → fleet_ok (Fleet r ∅ [] []).
Proof.
  intros Hr. split; simpl; intros *; try by intros ?%not_elem_of_nil.
  intros Hk H. by rewrite (Hr _ _ _ Hk) in H.
Qed.

Lemma time_ok s n : 0 ≤ n → fleet_ok s → fleet_ok (Fleet (tick n (store s)) (tokens s) (handed s) (held s)).
Proof.
  intros Hn [H1 H2 H3 H4 H5]. split; simpl; [done|done| | |done].
  - intros l e Hl He. apply H3; [done|lia].
  - intros j ns k v e Hk H. destruct (H4 j ns k v e Hk H). split; [done|lia].
Qed.

Lemma other_ok s r :
  clock r = clock (store s) → (∀ j ns k, _validated_lock_key j ns = Ok k → keys r !! k = keys (store s) !! k) →
  fleet_ok s → fleet_ok (Fleet r (tokens s) (handed s) (held s)).
Proof.
  intros Hc Hr [H1 H2 H3 H4 H5]. split; simpl; [done|done| | |done].
  - intros l e Hl He. destruct (H1 l (H2 l e Hl)) as (_ & _ & j & ns & _ & Hk). rewrite (Hr _ _ _ Hk).
    apply H3; [done|]. by rewrite <- Hc.
  - intros j ns k v e Hk H. rewrite (Hr _ _ _ Hk) in H. rewrite Hc. by eapply H4.
Qed.

Lemma release_ok s c l : l ∈ handed s → fleet_ok s →
  fleet_ok (Fleet (release_cron_lock c l (store s)).1 (tokens s) (handed s) (filter (λ h, token h.1 ≠ token l) (held s))).
Proof.
  intros Hl [H1 H2 H3 H4 H5]. destruct (H1 l Hl) as (_ & Hne & j0 & ns0 & _ & Hk0).
  assert (∀ l' e, (l', e) ∈ held s → token l' ≠ token l → clock (store s) < e →
    keys (release_cron_lock c l (store s)).1 !! key l' = Some (token l', e)) as Hkeep.
  { intros l' e Hh Ht He. pose proof (H3 _ _ Hh He) as Hst.
    destruct (release_cron_lock_inv c l (store s) Hne) as [->|[Hg ->]]; [done|]. simpl.
    rewrite lookup_delete_ne; [done|]. intros Heq. apply get_live in Hg as (e' & Hg & _). rewrite Heq in Hg. congruence. }
  assert (clock (release_cron_lock c l (store s)).1 = clock (store s)) as Hc
    by (destruct (release_cron_lock_inv c l (store s) Hne) as [->|[_ ->]]; done).
  split; cbn [store tokens handed held].
  - done.
  - intros l' e [_ Hh]%list_elem_of_filter. by eapply H2.
  - intros l' e [Ht Hh]%list_elem_of_filter He. apply Hkeep; [done|done|by rewrite <- Hc].
  - intros j ns k v e Hk H. rewrite Hc. apply (H4 j ns k v e Hk).
    destruct (release_cron_lock_inv c l (store s) Hne) as [E|[_ E]]; rewrite E in H; [done|]. simpl in H.
    by apply lookup_delete_Some in H as [_ H].
  - intros h h' [_ Hh]%list_elem_of_filter [_ Hh']%list_elem_of_filter. by apply H5.
Qed.

Lemma acquire_ok s c job ttl ns fresh r got :
  REDIS_URL cfg = true → fresh ∉ tokens s → fresh ≠ _LOCAL_DISABLED → ttl ≤ max_ttl →
  acquire_cron_lock cfg c job ttl ns fresh (store s) = Ok (r, got) → fleet_ok s →
  fleet_ok (Fleet r ({[fresh]} ∪ tokens s)
    (match got with Some l => l :: handed s | None => handed s end)
    (match got with Some l => (l, clock r + ttl) :: held s | None => held s end)).
Proof.
  intros Hcfg Hf Hloc Htl Hacq [H1 H2 H3 H4 H5].
  apply acquire_cron_lock_inv in Hacq as (k & Ht & Hk & [[-> ->]|(Hg & Hc & Hks & Hgot)]); [| |done].
  { split; simpl; [|done|done| |done].
    - intros l Hl. destruct (H1 l Hl) as (? & ? & ?). split; [set_solver|done].
    - intros j ns' k' v e Hk' H. destruct (H4 _ _ _ _ _ Hk' H). split; [set_solver|done]. }
  assert (∀ l e, (l, e) ∈ held s → clock (store s) < e → key l ≠ k) as Hfree.
  { intros l e Hl He <-. pose proof (H3 l e Hl He) as Hst.
    assert (get (store s) (key l) = Some (token l)) as Hlive by (apply get_live; eauto). congruence. }
  assert (∀ l e, (l, e) ∈ held s → clock r < e → keys r !! key l = Some (token l, e)) as Hkeep.
  { intros l e Hl He. rewrite Hc in He. rewrite Hks, lookup_insert_ne by (symmetry; by eapply Hfree). by apply H3. }
  assert (∀ j ns' k' v e, _validated_lock_key j ns' = Ok k' → keys r !! k' = Some (v, e) →
    v ∈ {[fresh]} ∪ tokens s ∧ e ≤ clock r + max_ttl) as Hst.
  { intros j ns' k' v e Hk' H. rewrite Hks in H. apply lookup_insert_Some in H as [[_ [= <- <-]]|[_ H]].
    - split; [set_solver|lia].
    - destruct (H4 _ _ _ _ _ Hk' H). split; [set_solver|lia]. }
  destruct Hgot as [->| ->].
  - split; simpl; [|done|done|done|done].
    intros l Hl. destruct (H1 l Hl) as (? & ? & ?). split; [set_solver|done].
  - split; cbn [store tokens handed held].
    + intros l [->|Hl]%elem_of_cons; [|destruct (H1 l Hl) as (? & ? & ?); split; [set_solver|done]].
      split_and!; [set_solver|done|]. exists job, ns. by split.
    + intros l e [[= -> ->]|Hl]%elem_of_cons; [left|right]. by eapply H2.
    + intros l e [[= -> ->]|Hl]%elem_of_cons He; [|by apply Hkeep]. simpl. by rewrite Hks, lookup_insert_eq, Hc.
    + done.
    + assert (∀ h, h ∈ held s → token h.1 ≠ fresh) as Hnew.
      { intros [l e] Hh E. simpl in E. destruct (H1 l (H2 l e Hh)) as [Hin _]. by rewrite E in Hin. }
      intros h h' [->|Hh]%elem_of_cons [->|Hh']%elem_of_cons E; simpl in E; [done| | |by apply H5].
      * by destruct (Hnew h' Hh').
      * by destruct (Hnew h Hh).
Qed.

Lemma fleet_runs_ok s : REDIS_URL cfg = true → fleet_runs s → fleet_ok s.
Proof.
  intros Hcfg. induction 1 as [r Hr|s s' _ IH Hstep]; [by apply start_ok|].
  destruct Hstep; [by apply time_ok|by eapply acquire_ok|by apply release_ok|by apply other_ok].
Qed.
End fleet.

(** ** The properties *)

(** C11: Two instances never hold one lock at once.  Take any interleaving of
    acquisitions, releases (late, repeated, or by an owner whose lease is over),
    failing Redis calls, other writes and the passing of time; tokens are fresh.
    Two unreleased locks for the same job and namespace whose leases still run
    are the same lock, and while a lease runs every further attempt on that job
    is refused. *)
Theorem cron_lock_exclusive cfg max_ttl s job ns l e :
  REDIS_URL cfg = true → fleet_runs cfg max_ttl s →
  (l, e) ∈ held s → lock_for job ns l → clock (store s) < e →
  (∀ l' e', (l', e') ∈ held s → lock_for job ns l' → clock (store s) < e' → (l', e') = (l, e)) ∧
  (∀ c ttl fresh r got, acquire_cron_lock cfg c job ttl ns fresh (store s) = Ok (r, got) → got = None ∧ r = store s).
Proof.
  intros Hcfg Hrun Hl [Hj Hk] He. pose proof (fleet_runs_ok _ _ _ Hcfg Hrun) as [H1 H2 H3 _ H5]. split.
  - intros l' e' Hl' [Hj' Hk'] He'. apply H5; [done..|]. simpl.
    pose proof (H3 _ _ Hl He) as E. pose proof (H3 _ _ Hl' He') as E'. assert (key l = key l') by congruence. congruence.
  - intros c ttl fresh r got (k & _ & Hk2 & [[-> ->]|(Hg & _)])%acquire_cron_lock_inv; [done| |done].
    assert (k = key l) as -> by congruence.
    assert (get (store s) (key l) = Some (token l)) as Hlive by (apply get_live; eauto). congruence.
Qed.

(** A lock always comes free: whatever happened, crashed owners and lost
    replies included, once the longest lease has passed without further calls
    the next attempt that Redis answers gets the lock.  A released lock can be
    taken at once.  Distinct jobs or namespaces never wait for one another. *)
Theorem cron_lock_comes_free cfg max_ttl s job ns k ttl fresh n :
  REDIS_URL cfg = true → fleet_runs cfg max_ttl s → _validated_lock_key job ns = Ok k → 1 ≤ ttl →
  let grants r := ∃ r', acquire_cron_lock cfg Answered job ttl ns fresh r = Ok (r', Some (mkCronLock job k fresh ttl)) in
  (max_ttl ≤ n → grants (tick n (store s))) ∧
  (∀ l e, (l, e) ∈ held s → lock_for job ns l → clock (store s) < e → grants (release_cron_lock Answered l (store s)).1) ∧
  (∀ c job' ns' ttl' fresh' r got, (job', ns') ≠ (job, ns) →
    acquire_cron_lock cfg c job' ttl' ns' fresh' (store s) = Ok (r, got) → grants (store s) → grants r).
Proof.
  intros Hcfg Hrun Hk Ht grants. pose proof (fleet_runs_ok _ _ _ Hcfg Hrun) as [H1 H2 H3 H4 _].
  assert (∀ r, get r k = None → grants r) as Hgrant.
  { intros r Hg. unfold grants, acquire_cron_lock, acquire_lock, set_nx_ex. rewrite (proj2 (Z.leb_le _ _) Ht), Hk, Hcfg. simpl.
    rewrite Hg. by eexists. }
  split_and!.
  - intros Hn. apply Hgrant. destruct (get _ k) as [v|] eqn:Hg; [|done]. apply get_live in Hg as (e & Hst & He). simpl in *.
    destruct (H4 _ _ _ _ _ Hk Hst). lia.
  - intros l e Hl [_ Hkl] He. assert (key l = k) as Hkey by congruence.
    destruct (H1 l (H2 l e Hl)) as (_ & Hne & _). apply Hgrant. unfold release_cron_lock, release_lock, RELEASE_LOCK_LUA.
    apply String.eqb_neq in Hne. rewrite Hne. pose proof (H3 l e Hl He) as Hst.
    rewrite bool_decide_true by (apply get_live; eauto). unfold get. simpl. by rewrite Hkey, lookup_delete_eq.
  - intros c job' ns' ttl' fresh' r got Hne Hacq (r0 & Hg0).
    apply Hgrant. apply acquire_cron_lock_inv in Hg0 as (k0 & _ & Hk0 & [[_ ?]|(Hg & _)]); [done| |done].
    assert (k0 = k) as -> by congruence.
    apply acquire_cron_lock_inv in Hacq as (k' & _ & Hk' & [[-> _]|(_ & Hc & Hks & _)]); [done| |done].
    assert (k' ≠ k) as Hkk.
    { intros ->. destruct (lock_key_inj _ _ _ _ _ Hk Hk') as [-> ->]. done. }
    unfold get in *. by rewrite Hks, Hc, lookup_insert_ne.
Qed.

(** ** Witnesses *)
Definition demo_config := Config true true.
Definition demo_lock := mkCronLock "saga_recovery" "nce:cron:lock:saga_recovery" "t1" 600.
Definition demo_redis := Redis 0 {["nce:cron:lock:saga_recovery"%string := ("t1"%string, 600)]}.
Definition demo_fleet := Fleet (tick 5 demo_redis) ({["t1"%string]} ∪ ∅) [demo_lock] [(demo_lock, 600)].
Lemma demo_fleet_runs : fleet_runs demo_config 3600 demo_fleet.
Proof.
  apply (fleet_next _ _ (Fleet demo_redis ({["t1"%string]} ∪ ∅) [demo_lock] [(demo_lock, 600)])); [|by apply (fleet_time _ _ (Fleet _ _ _ _) 5)].
  apply (fleet_next _ _ (Fleet (Redis 0 ∅) ∅ [] [])).
  - apply fleet_start. intros. apply lookup_empty.
  - apply (fleet_acquire _ _ (Fleet (Redis 0 ∅) ∅ [] []) Answered "saga_recovery" 600 None "t1" demo_redis (Some demo_lock));
      [set_solver|discriminate|lia|vm_compute; reflexivity].
Qed.

Lemma cron_lock_exclusive_witness :
  acquire_cron_lock demo_config Answered "saga_recovery" 600 None "t2" (store demo_fleet) = Ok (store demo_fleet, None).
Proof.
  destruct (acquire_cron_lock demo_config Answered "saga_recovery" 600 None "t2" (store demo_fleet)) as [[r got]|] eqn:E;
    [|exfalso; vm_compute in E; discriminate E].
  destruct (proj2 (cron_lock_exclusive demo_config 3600 demo_fleet "saga_recovery" None demo_lock 600 eq_refl demo_fleet_runs
    (list_elem_of_here _ _) (conj eq_refl eq_refl) eq_refl) _ _ _ _ _ E) as [-> ->]. reflexivity.
Defined.

Lemma cron_lock_comes_free_witness : ∃ r',
  acquire_cron_lock demo_config Answered "saga_recovery" 600 None "t2" (tick 3600 (store demo_fleet)) =
    Ok (r', Some (mkCronLock "saga_recovery" "nce:cron:lock:saga_recovery" "t2" 600)).
Proof.
  refine (proj1 (cron_lock_comes_free demo_config 3600 demo_fleet "saga_recovery" None _ 600 "t2" 3600 eq_refl demo_fleet_runs
    eq_refl _) _); lia.
Defined.

(** Without Redis every instance outside production gets its own lock. *)
Example no_redis_no_exclusion :
  acquire_cron_lock (Config false false) Answered "saga_recovery" 600 None "t1" demo_redis =
  acquire_cron_lock (Config false false) Answered "saga_recovery" 600 None "t2" demo_redis.
Proof. reflexivity. Qed.
