(* ===== verification/DeadLetter.v ===== *)
(** * DeadLetter: the dead-letter queue, its triage, and the workers' retry budget

    Models [src/nce/dead_letter_queue.py] and the part of [src/nce/tasks.py] that
    uses it: the sanitiser of stored payloads, the table [dead_letter_queue] with
    its transitions, the triage of failures, the circuit flags and the attempt
    counters in Redis, and what a worker does when its task fails.

    SHA-256 is a parameter.  Each SQL statement is atomic; [triage_dead_letter]
    issues several, and other clients act between them. *)
From S2P Require Import Prelude PyText PyStr.
From Stdlib Require Import Ascii.
Local Open Scope Z_scope.

(** ** Text *)

(** [\w] below 256. *)
Definition is_word (c : ascii) : bool :=
  is_digit c || in_range 65 90 c || in_range 97 122 c ||
  bool_decide (char_code c ∈ [95; 170; 178; 179; 181; 185; 186; 188; 189; 190]%N) ||
  in_range 192 214 c || in_range 216 246 c || in_range 248 255 c.
Definition starts_word (s : string) : bool := match s with EmptyString => false | String c _ => is_word c end.

(** ** The sanitiser *)

Definition _DLQ_SENSITIVE_KEYS : list string :=
  ["access_token"; "accesstoken"; "refresh_token"; "refreshtoken"; "token"; "authorization"; "auth"; "bearer"; "password";
   "passwd"; "secret"; "api_key"; "apikey"; "private_key"; "client_secret"; "clientsecret"; "raw_code"; "code"; "content";
   "file_content"]%string.
Definition _DLQ_SENSITIVE_SUBSTRINGS : list string :=
  ["token"; "secret"; "password"; "private_key"; "api_key"; "apikey"]%string.
Definition _MAX_DLQ_STRING_LEN : nat := 4096.
Definition _MAX_DLQ_NESTED_KEYS : nat := 50.
Definition _ERROR_MESSAGE_MAX_LEN : nat := 1024.

Definition _is_sensitive_key (key : string) : bool :=
  let normalised := replace_char "-" "_" (lower key) in
  bool_decide (normalised ∈ _DLQ_SENSITIVE_KEYS) || existsb (λ m, contains m normalised) _DLQ_SENSITIVE_SUBSTRINGS.

Definition redacted := JStr "[REDACTED]".
Definition truncated := "...[truncated]"%string.
Fixpoint _sanitize_dlq_kwargs (value : json) : json :=
  match value with
  | JObj l => JObj (take _MAX_DLQ_NESTED_KEYS
      (map (λ kv, (kv.1, if _is_sensitive_key kv.1 then redacted else _sanitize_dlq_kwargs kv.2)) l))
  | JArr l => JArr (take _MAX_DLQ_NESTED_KEYS (map _sanitize_dlq_kwargs l))
  | JStr s => if (_MAX_DLQ_STRING_LEN <? String.length s)%nat
              then JStr (String.substring 0 _MAX_DLQ_STRING_LEN s +:+ truncated) else JStr s
  | v => v
  end.

(** ** Fingerprint and class of an error *)

(** [re.sub(r"[\\/]+", "/", filename).lstrip("/")] *)
Definition is_slash (c : ascii) : bool := (char_code c =? 47)%N || (char_code c =? 92)%N.
Fixpoint collapse_slashes (before : bool) (s : string) : string :=
  match s with
  | EmptyString => EmptyString
  | String c s => if is_slash c then (if before then collapse_slashes true s else String "/" (collapse_slashes true s))
                  else String c (collapse_slashes false s)
  end.
Record frame := Frame { filename : string; lineno : string; fn_name : string }.
Definition _normalize_top_frame (tb : option frame) : string :=
  match tb with
  | None => ""
  | Some f => collapse_slashes true (filename f) +:+ ":" +:+ lineno f +:+ ":" +:+ fn_name f
  end.
Definition compute_error_fingerprint (sha256hex : string → string) (task_name exc_class : string) (tb : option frame)
    (top_frame : string) : string :=
  let frame := if String.eqb top_frame "" then _normalize_top_frame tb else top_frame in
  sha256hex (task_name +:+ String zero (exc_class +:+ String zero frame)).

Definition _TRANSIENT_EXC_SUBSTRINGS : list string :=
  ["timeout"; "connectionreset"; "connectionerror"; "connectionrefused"; "brokenpipe"; "operationalerror"; "toomanyrequests";
   "serviceunavailable"; "badgateway"; "gatewaytimeout"; "networkerror"; "connecttimeout"; "readtimeout"; "writetimeout";
   "asynctimeouterror"; "asyncioerror"]%string.
Definition _TRANSIENT_STATUS_CODES : list string := ["429"; "500"; "502"; "503"; "504"]%string.

(** [_STATUS_CODE_RE.findall]; [before]: the character before is a word character. *)
Fixpoint status_codes (before : bool) (s : string) : list string :=
  match s with
  | String a s' =>
      match s' with
      | String b (String c rest) =>
          if negb before && ((char_code a =? 52)%N || (char_code a =? 53)%N) && is_digit b && is_digit c && negb (starts_word rest)
          then String a (String b (String c "")) :: status_codes true rest
          else status_codes (is_word a) s'
      | _ => []
      end
  | EmptyString => []
  end.

Inductive error_class := transient | deterministic.
Definition classify_error (exc_class error_message : string) : error_class :=
  let norm_cls := lower exc_class in
  if existsb (λ sub, contains sub norm_cls) _TRANSIENT_EXC_SUBSTRINGS then transient
  else if existsb (λ code, bool_decide (code ∈ _TRANSIENT_STATUS_CODES)) (status_codes false error_message) then transient
  else deterministic.

(** ** State *)

Inductive dlq_status := pending | replayed | purged.
#[global] Instance dlq_status_eq : EqDecision dlq_status.
Proof. solve_decision. Defined.
Definition status_text (s : dlq_status) : string :=
  match s with pending => "pending" | replayed => "replayed" | purged => "purged" end.

Record dlq_row := DlqRow {
  namespace_id : option string; task_name : string; job_id : string; kwargs : json; error_message : string;
  attempt_count : Z; status : dlq_status; created_at : Z; replayed_at : option Z; purged_at : option Z;
  error_fingerprint : option string; quarantined_until : option Z
}.
Record dlq := Dlq {
  rows : gmap string dlq_row;
  circuits : gmap string Z;           (* the circuit flags, until when *)
  attempts : gmap string (Z * Z)      (* the attempt counters, until when *)
}.
Definition with_rows (f : gmap string dlq_row → gmap string dlq_row) (d : dlq) : dlq := Dlq (f (rows d)) (circuits d) (attempts d).

Record config := Config {
  NCE_DLQ_AUTO_REPLAY_MAX : Z; NCE_DLQ_CIRCUIT_THRESHOLD : Z; NCE_DLQ_CIRCUIT_TTL_S : Z;
  TASK_MAX_RETRIES : Z; TASK_DLQ_REDIS_TTL : Z
}.
Inductive dlq_error := ValueError (what : string) | DataError | ForeignKeyViolation | CheckViolation | ConnectionError.

(** ** Circuit flags *)
Definition is_circuit_open (now : Z) (task : string) (d : dlq) : bool :=
  match circuits d !! task with Some e => now <? e | None => false end.
Definition open_circuit (cfg : config) (now : Z) (task : string) (d : dlq) : dlq :=
  Dlq (rows d) (<[task := now + NCE_DLQ_CIRCUIT_TTL_S cfg]> (circuits d)) (attempts d).
Definition close_circuit (task : string) (d : dlq) : dlq := Dlq (rows d) (delete task (circuits d)) (attempts d).
Definition check_circuit_before_enqueue (now : Z) (task : string) (d : dlq) : result string () :=
  if is_circuit_open now task d then Err "CircuitOpenError"%string else Ok ().

(** ** Attempt counters *)
Definition job_char (c : ascii) : bool :=
  in_range 97 122 c || in_range 65 90 c || in_range 45 58 c || (char_code c =? 95)%N.   (* - . / 0-9 : and _ *)
Fixpoint all_job (s : string) : bool := match s with EmptyString => true | String c s => job_char c && all_job s end.
Definition _JOB_ID_RE (s : string) : bool := all_job s && (1 <=? String.length s)%nat && (String.length s <=? 256)%nat.
Definition attempts_of (now : Z) (job : string) (d : dlq) : Z :=
  match attempts d !! job with Some (n, e) => if now <? e then n else 0 | None => 0 end.
(** [INCR], then [EXPIRE], which deletes the key for a time that is not positive. *)
Definition _track_attempt (cfg : config) (now : Z) (job : string) (d : dlq) : result dlq_error (dlq * Z) :=
  ensure (_JOB_ID_RE job) (ValueError "job_id") ≫= λ _,
  let count := attempts_of now job d + 1 in
  let ttl := TASK_DLQ_REDIS_TTL cfg in
  Ok (Dlq (rows d) (circuits d) (if 0 <? ttl then <[job := (count, now + ttl)]> (attempts d) else delete job (attempts d)), count).
Definition _clear_attempt (job : string) (d : dlq) : result dlq_error dlq :=
  ensure (_JOB_ID_RE job) (ValueError "job_id") ≫= λ _, Ok (Dlq (rows d) (circuits d) (delete job (attempts d))).

(** ** The table *)

(** The column takes a UUID, or nothing for [NULL]. *)
Definition uuid_column (v : json) : result dlq_error (option string) :=
  match v with
  | JNull => Ok None
  | JStr s => match UUID s with Some u => Ok (Some u) | None => Err DataError end
  | _ => Err DataError
  end.
Definition get_item (key : string) (l : list (string * json)) : json :=
  match List.find (λ kv, String.eqb kv.1 key) l with Some kv => kv.2 | None => JNull end.

(** One insertion at the time [now]; [dlq_id] is the [gen_random_uuid()] of the
    row, [up] whether the database answers, [namespaces] the tenants' table.
    Metrics and alerts are logged failures at most. *)
Definition store_dead_letter (up : bool) (namespaces : gset string) (now : Z) (dlq_id task job : string)
    (kw : list (string * json)) (message : string) (attempt_count : Z) (ns : option string) (fingerprint : option string)
    (d : dlq) : result dlq_error (dlq * string) :=
  let ns := match ns with
            | Some s => if String.eqb s "" then get_item "namespace_id" kw else JStr s
            | None => get_item "namespace_id" kw
            end in
  let sanitized := _sanitize_dlq_kwargs (JObj kw) in
  let error_message := String.substring 0 _ERROR_MESSAGE_MAX_LEN message in
  ensure up ConnectionError ≫= λ _,
  ns ← uuid_column ns;
  ensure (match ns with Some u => bool_decide (u ∈ namespaces) | None => true end) ForeignKeyViolation ≫= λ _,
  ensure (0 <? attempt_count) CheckViolation ≫= λ _,
  Ok (with_rows <[dlq_id := DlqRow ns task job sanitized error_message attempt_count pending now None None fingerprint None]> d, dlq_id).

Definition count_where (p : dlq_row → bool) (d : dlq) : Z :=
  Z.of_nat (length (List.filter (λ kr, p kr.2) (map_to_list (rows d)))).
Definition is_fp (fp : string) (s : dlq_status) (r : dlq_row) : bool :=
  bool_decide (error_fingerprint r = Some fp) && bool_decide (status r = s).
Definition _count_fingerprint_entries (fp : string) (d : dlq) : Z := count_where (is_fp fp pending) d.
Definition _count_replayed_for_fingerprint (fp : string) (d : dlq) : Z := count_where (is_fp fp replayed) d.
Definition set_status (s : dlq_status) (replayed_at purged_at quarantined_until : option Z) (r : dlq_row) : dlq_row :=
  DlqRow (namespace_id r) (task_name r) (job_id r) (kwargs r) (error_message r) (attempt_count r) s (created_at r)
    replayed_at purged_at (error_fingerprint r) quarantined_until.
Definition _mark_auto_replay (now : Z) (dlq_id : string) (backoff_s : Z) (d : dlq) : dlq :=
  with_rows (alter (λ r, set_status replayed (Some now) (purged_at r) (Some (now + backoff_s)) r) dlq_id) d.

Definition replay_dead_letter (now : Z) (dlq_id : string) (d : dlq) : result dlq_error (dlq * dlq_row) :=
  match rows d !! dlq_id with
  | Some r =>
      ensure (bool_decide (status r = pending)) (ValueError "not in 'pending' status") ≫= λ _,
      let r' := set_status replayed (Some now) (purged_at r) (quarantined_until r) r in
      Ok (with_rows <[dlq_id := r']> d, r')
  | None => Err (ValueError "not found")
  end.
Definition purge_dead_letter (now : Z) (dlq_id : string) (d : dlq) : result dlq_error dlq :=
  match rows d !! dlq_id with
  | Some r => Ok (with_rows <[dlq_id := set_status purged (replayed_at r) (Some now) (quarantined_until r) r]> d)
  | None => Err (ValueError "not found")
  end.

(** *** Queries *)
Definition _validate_status (s : option string) : result dlq_error (option string) :=
  match s with
  | None => Ok None
  | Some s => if String.eqb s "" then Ok None
              else ensure (bool_decide (s ∈ ["pending"; "replayed"; "purged"]%string)) (ValueError "status") ≫= λ _, Ok (Some s)
  end.
Definition dlq_matches (task status_filter : option string) (r : dlq_row) : bool :=
  match task with Some t => String.eqb t "" || String.eqb (task_name r) t | None => true end &&
  match status_filter with Some s => String.eqb (status_text (status r)) s | None => true end.
Definition count_dead_letters (task status_filter : option string) (d : dlq) : result dlq_error Z :=
  status_filter ← _validate_status status_filter;
  Ok (count_where (dlq_matches task status_filter) d).
Definition newest_first (a b : string * dlq_row) : bool := created_at b.2 <=? created_at a.2.
Definition list_dead_letters (task status_filter : option string) (limit offset : Z) (d : dlq)
    : result dlq_error (list (string * dlq_row)) :=
  status_filter ← _validate_status status_filter;
  let limit := Z.max 1 (Z.min limit 200) in
  let offset := Z.max 0 offset in
  Ok (take (Z.to_nat limit) (drop (Z.to_nat offset)
        (sorted_by newest_first (List.filter (λ kr, dlq_matches task status_filter kr.2) (map_to_list (rows d)))))).

(** ** Triage *)
Inductive triage_action := auto_replay_scheduled | manual_review_required | circuit_opened | deterministic_pending.

(** [other1] acts between the insertion and the count, [other2] between the count
    and what follows from it.  The alerts are logged failures at most. *)
Definition triage_dead_letter (cfg : config) (sha256hex : string → string) (up : bool) (namespaces : gset string) (now : Z)
    (dlq_id task job : string) (kw : list (string * json)) (exc_class exc_text : string) (tb : option frame)
    (attempt_count : Z) (ns : option string) (other1 other2 : dlq → dlq) (d : dlq)
    : result dlq_error (dlq * (string * string * error_class * triage_action)) :=
  let fingerprint := compute_error_fingerprint sha256hex task exc_class tb "" in
  let error_class := classify_error exc_class exc_text in
  let error_message := String.substring 0 _ERROR_MESSAGE_MAX_LEN (exc_class +:+ ": " +:+ exc_text) in
  '(d, dlq_id) ← store_dead_letter up namespaces now dlq_id task job kw error_message attempt_count ns (Some fingerprint) d;
  let d := other1 d in
  let '(d, action) :=
    match error_class with
    | transient =>
        let replayed_count := _count_replayed_for_fingerprint fingerprint d in
        if replayed_count <? NCE_DLQ_AUTO_REPLAY_MAX cfg then
          let backoff_s := 2 ^ replayed_count in
          (_mark_auto_replay now dlq_id backoff_s (other2 d), auto_replay_scheduled)
        else (other2 d, manual_review_required)
    | deterministic =>
        let fp_count := _count_fingerprint_entries fingerprint d in
        if NCE_DLQ_CIRCUIT_THRESHOLD cfg <=? fp_count then (open_circuit cfg now task (other2 d), circuit_opened)
        else (other2 d, deterministic_pending)
    end in
  Ok (d, (dlq_id, fingerprint, error_class, action)).

(** ** The workers of [tasks.py] *)

(** Whether the job is poisoned, its attempt and its message. *)
Definition _check_poison_pill (cfg : config) (now : Z) (job exc_class exc_text : string) (d : dlq)
    : result dlq_error (dlq * (bool * Z * string)) :=
  '(d, attempt) ← _track_attempt cfg now job d;
  let max_retries := TASK_MAX_RETRIES cfg in
  Ok (d, if max_retries <=? 0 then (false, attempt, ""%string)
         else if attempt <=? max_retries then (false, attempt, ""%string)
         else (true, attempt, String.substring 0 1024 (exc_class +:+ ": " +:+ exc_text))).

(** What the task's own work comes to, and what its job does then.  A job that
    raises is left to the queue. *)
Inductive task_run := Returned | RaisedValueError (text : string) | Raised (exc_class exc_text : string).
Inductive job_result := JobDone | JobError (text : string) | JobDeadLettered | JobRaised (exc_class exc_text : string).

(** The handler of an exception, shared by the workers; a failed insertion is
    logged and the job ends all the same. *)
Definition after_failure (cfg : config) (up : bool) (namespaces : gset string) (now : Z) (fresh task job : string)
    (kw : list (string * json)) (exc_class exc_text : string) (d : dlq) : dlq * job_result :=
  match _check_poison_pill cfg now job exc_class exc_text d with
  | Err _ => (d, JobRaised "ValueError" "job_id")
  | Ok (d, (poisoned, attempt, error_msg)) =>
      if (poisoned : bool) then
        (match store_dead_letter up namespaces now fresh task job kw error_msg attempt None None d with
         | Ok (d', _) => d'
         | Err _ => d
         end, JobDeadLettered)
      else (d, JobRaised exc_class exc_text)
  end.
Definition process_bridge_event (cfg : config) (up : bool) (namespaces : gset string) (now : Z) (fresh job provider : string)
    (payload : json) (run : task_run) (d : dlq) : dlq * job_result :=
  let failed := after_failure cfg up namespaces now fresh "process_bridge_event" job
                  [("provider"%string, JStr provider); ("payload"%string, payload)] in
  match run with
  | Returned => match _clear_attempt job d with Ok d' => (d', JobDone) | Err _ => (d, JobError "job_id") end
  | RaisedValueError e => (d, JobError e)
  | Raised c e => failed c e d
  end.
Definition process_d365_event (cfg : config) (up : bool) (namespaces : gset string) (now : Z) (fresh job : string)
    (payload : json) (run : task_run) (d : dlq) : dlq * job_result :=
  let failed := after_failure cfg up namespaces now fresh "process_d365_event" job [("payload"%string, payload)] in
  match run with
  | Returned => match _clear_attempt job d with Ok d' => (d', JobDone) | Err _ => failed "ValueError"%string "job_id"%string d end
  | RaisedValueError e => failed "ValueError"%string e d
  | Raised c e => failed c e d
  end.
