(* ===== verification/DeadLetterProps.v ===== *)
(** * DeadLetterProps: a failing job is parked once, and handed out at most once *)
From S2P Require Import Prelude PyText PyStr DeadLetter.
From Stdlib Require Import Ascii.
Local Open Scope Z_scope.

(** ** JSON by induction *)
Section json_induction.
Context (P : json → Prop) (Hnull : P JNull) (Hbool : ∀ b, P (JBool b)) (Hint : ∀ z, P (JInt z)) (Hfloat : ∀ r, P (JFloat r))
  (Hstr : ∀ s, P (JStr s)) (Harr : ∀ l, Forall P l → P (JArr l)) (Hobj : ∀ l, Forall (λ kv, P kv.2) l → P (JObj l)).
Fixpoint json_rect_deep (v : json) : P v :=
  match v with
  | JNull => Hnull
  | JBool b => Hbool b
  | JInt z => Hint z
  | JFloat r => Hfloat r
  | JStr s => Hstr s
  | JArr l => Harr l ((fix go l : Forall P l :=
      match l with [] => Forall_nil_2 _ | v :: l => Forall_cons_2 _ _ _ (json_rect_deep v) (go l) end) l)
  | JObj l => Hobj l ((fix go l : Forall (λ kv, P kv.2) l :=
      match l with [] => Forall_nil_2 _ | kv :: l => Forall_cons_2 (λ kv : string * json, P kv.2) _ _ (json_rect_deep kv.2) (go l) end) l)
  end.
End json_induction.

(** ** Clean payloads *)

(** Bounded text, at most fifty entries, and nothing but the mark under a
    sensitive key, at every depth. *)
#[warnings="-register-all"]
Inductive clean : json → Prop :=
  | clean_null : clean JNull
  | clean_bool b : clean (JBool b)
  | clean_int z : clean (JInt z)
  | clean_float r : clean (JFloat r)
  | clean_str s : (String.length s ≤ _MAX_DLQ_STRING_LEN + String.length truncated)%nat → clean (JStr s)
  | clean_arr l : (length l ≤ _MAX_DLQ_NESTED_KEYS)%nat → Forall clean l → clean (JArr l)
  | clean_obj l : (length l ≤ _MAX_DLQ_NESTED_KEYS)%nat →
      Forall (λ kv, (_is_sensitive_key kv.1 = true → kv.2 = redacted) ∧ clean kv.2) l → clean (JObj l).

Lemma length_substring n s : (n ≤ String.length s)%nat → String.length (String.substring 0 n s) = n.
Proof. revert s; induction n as [|n IH]; intros [|c s] H; simpl in *; [done|done|lia|]. by rewrite IH by lia. Qed.
Lemma substring_short n s : (String.length s ≤ n)%nat → String.substring 0 n s = s.
Proof. revert s; induction n as [|n IH]; intros [|c s] H; simpl in *; [done|lia|done|]. by rewrite IH by lia. Qed.
Lemma substring_front n s t : (n ≤ String.length s)%nat → String.substring 0 n (s +:+ t) = String.substring 0 n s.
Proof.
  revert s; induction n as [|n IH]; intros [|c s] H; simpl in *; [by destruct t|done|lia|].
  change (String.append s t) with (s +:+ t). by rewrite IH by lia.
Qed.

Lemma redacted_clean : clean redacted.
Proof. constructor. vm_compute. lia. Qed.

Lemma sanitize_clean v : clean (_sanitize_dlq_kwargs v).
Proof.
  induction v as [| | | |s|l IH|l IH] using json_rect_deep; cbn [_sanitize_dlq_kwargs]; try constructor.
  - destruct (Nat.ltb_spec _MAX_DLQ_STRING_LEN (String.length s)); constructor; [|lia].
    rewrite length_app_string, length_substring by lia. done.
  - rewrite length_take. lia.
  - apply Forall_take, Forall_map. exact IH.
  - rewrite length_take. lia.
  - apply Forall_take, Forall_map. eapply Forall_impl; [exact IH|]. intros [k v] Hv. cbn [fst snd] in *.
    destruct (_is_sensitive_key k); [split; [done|exact redacted_clean]|]. by split.
Qed.

Lemma sanitize_string_twice s : (_MAX_DLQ_STRING_LEN < String.length s)%nat →
  _sanitize_dlq_kwargs (JStr (String.substring 0 _MAX_DLQ_STRING_LEN s +:+ truncated)) =
  JStr (String.substring 0 _MAX_DLQ_STRING_LEN s +:+ truncated).
Proof.
  intros H. cbn [_sanitize_dlq_kwargs]. pose proof (length_substring _MAX_DLQ_STRING_LEN s ltac:(lia)) as Hl.
  rewrite length_app_string, Hl. assert (0 < String.length truncated)%nat by (vm_compute; lia).
  rewrite (proj2 (Nat.ltb_lt _ _)) by lia. rewrite substring_front by lia.
  rewrite (substring_short _MAX_DLQ_STRING_LEN (String.substring _ _ s)) by lia. done.
Qed.

Lemma sanitize_sanitize v : _sanitize_dlq_kwargs (_sanitize_dlq_kwargs v) = _sanitize_dlq_kwargs v.
Proof.
  induction v as [| | | |s|l IH|l IH] using json_rect_deep; try done.
  - cbn [_sanitize_dlq_kwargs]. destruct (Nat.ltb_spec _MAX_DLQ_STRING_LEN (String.length s)) as [H|H]; [by apply sanitize_string_twice|].
    cbn [_sanitize_dlq_kwargs]. by rewrite (proj2 (Nat.ltb_ge _ _)) by lia.
  - cbn [_sanitize_dlq_kwargs]. f_equal. rewrite <- firstn_map, map_map, firstn_firstn, Nat.min_id. f_equal.
    apply map_ext_Forall. exact IH.
  - cbn [_sanitize_dlq_kwargs]. f_equal. rewrite <- firstn_map, map_map, firstn_firstn, Nat.min_id. f_equal.
    apply map_ext_Forall. eapply Forall_impl; [exact IH|]. intros [k v] Hv. cbn [fst snd] in *.
    destruct (_is_sensitive_key k); [done|]. by rewrite Hv.
Qed.

(** Entries within the bounds keep their value, unless their key is sensitive. *)
Lemma sanitize_keeps l k v : (length l ≤ _MAX_DLQ_NESTED_KEYS)%nat → (k, v) ∈ l → _is_sensitive_key k = false →
  ∃ l', _sanitize_dlq_kwargs (JObj l) = JObj l' ∧ (k, _sanitize_dlq_kwargs v) ∈ l'.
Proof.
  intros Hl Hin Hk. eexists. split; [reflexivity|]. rewrite take_ge by (rewrite length_map; lia).
  apply list_elem_of_fmap. exists (k, v). cbn [fst snd]. by rewrite Hk.
Qed.

(** ** Counting rows *)
Definition bit (b : bool) : Z := if b then 1 else 0.
Lemma count_where_map p d : count_where p d = Z.of_nat (size (filter (λ kr, p kr.2 = true) (rows d))).
Proof.
  unfold count_where. rewrite <- length_map_to_list. f_equal.
  assert (map_to_list (filter (λ kr : string * dlq_row, p kr.2 = true) (rows d)) ≡ₚ
    filter (λ kr : string * dlq_row, p kr.2 = true) (map_to_list (rows d))) as ->.
  { apply NoDup_Permutation; [apply NoDup_map_to_list|apply NoDup_filter, NoDup_map_to_list|].
    intros [k r]. rewrite elem_of_map_to_list, map_lookup_filter_Some, list_elem_of_filter, elem_of_map_to_list. simpl. tauto. }
  f_equal. induction (map_to_list (rows d)) as [|kr l IH]; [done|]. cbn [List.filter]. rewrite filter_cons.
  destruct (decide (p kr.2 = true)) as [E|E]; [rewrite E; cbn [length]; by f_equal|].
  apply not_true_is_false in E. by rewrite E.
Qed.
Lemma count_insert_new p d k r : rows d !! k = None →
  count_where p (with_rows <[k := r]> d) = count_where p d + bit (p r).
Proof.
  intros Hk. rewrite !count_where_map. cbn [rows with_rows]. rewrite map_filter_insert. cbn [snd]. destruct (p r) eqn:E.
  - rewrite decide_True by done. rewrite map_size_insert_None; [unfold bit; lia|]. apply map_lookup_filter_None. auto.
  - rewrite decide_False by congruence. rewrite delete_id; [unfold bit; lia|done].
Qed.
Lemma count_insert_old p d k r0 r : rows d !! k = Some r0 →
  count_where p (with_rows <[k := r]> d) = count_where p d - bit (p r0) + bit (p r).
Proof.
  intros Hk. rewrite !count_where_map. cbn [rows with_rows].
  set (m := rows d) in *.
  assert (Z.of_nat (size (filter (λ kr, p kr.2 = true) m)) =
    Z.of_nat (size (filter (λ kr, p kr.2 = true) (delete k m))) + bit (p r0)) as ->.
  { rewrite <- (insert_delete_id m k r0 Hk) at 1. rewrite map_filter_insert. cbn [snd]. destruct (p r0) eqn:E.
    - rewrite decide_True by done. rewrite map_size_insert_None; [unfold bit; lia|]. apply map_lookup_filter_None. left. apply lookup_delete_eq.
    - rewrite decide_False by congruence. rewrite delete_id; [unfold bit; lia|]. apply lookup_delete_eq. }
  rewrite <- insert_delete_eq, map_filter_insert. cbn [snd]. destruct (p r) eqn:E.
  - rewrite decide_True by done. rewrite map_size_insert_None; [unfold bit; lia|]. apply map_lookup_filter_None. left. apply lookup_delete_eq.
  - rewrite decide_False by congruence. rewrite delete_id; [unfold bit; lia|]. apply lookup_delete_eq.
Qed.

(** ** What an operation keeps *)

(** The part of a row that never changes. *)
Definition same_job (r r' : dlq_row) : Prop :=
  namespace_id r = namespace_id r' ∧ task_name r = task_name r' ∧ job_id r = job_id r' ∧ kwargs r = kwargs r' ∧
  error_message r = error_message r' ∧ attempt_count r = attempt_count r' ∧ created_at r = created_at r' ∧
  error_fingerprint r = error_fingerprint r'.

(** Rows stay with their payload, none becomes pending again, new ones are clean. *)
Definition evolves (d d' : dlq) : Prop :=
  (∀ k r, rows d !! k = Some r → ∃ r', rows d' !! k = Some r' ∧ same_job r r' ∧ (status r ≠ pending → status r' ≠ pending)) ∧
  (∀ k r', rows d !! k = None → rows d' !! k = Some r' → clean (kwargs r')).
#[global] Instance same_job_preorder : PreOrder same_job.
Proof. unfold same_job. split; [intros r; naive_solver|intros r r' r''; naive_solver congruence]. Qed.
#[global] Instance evolves_preorder : PreOrder evolves.
Proof.
  split.
  - intros d. split; [|congruence]. intros k r Hr. exists r. by split_and!.
  - intros d d' d'' [H1 H2] [H1' H2']. split.
    + intros k r Hr. destruct (H1 k r Hr) as (r' & Hr' & Hj & Hs). destruct (H1' k r' Hr') as (r'' & Hr'' & Hj' & Hs').
      exists r''. split_and!; [done|by etrans|tauto].
    + intros k r'' Hk Hr''. destruct (rows d' !! k) as [r'|] eqn:Hr'; [|by eapply H2'].
      destruct (H1' k r' Hr') as (r & Hr & (_ & _ & _ & Hkw & _) & _). assert (r = r'') as -> by congruence.
      rewrite <- Hkw. by eapply H2.
Qed.

Lemma evolves_rows d d' : rows d' = rows d → evolves d d'.
Proof. intros E. split; rewrite E; [|congruence]. intros k r Hr. exists r. by split_and!. Qed.
Lemma evolves_insert d k r : rows d !! k = None → clean (kwargs r) → evolves d (with_rows <[k := r]> d).
Proof.
  intros Hk Hc. split; cbn [rows with_rows].
  - intros k' r' Hr'. exists r'. rewrite lookup_insert_ne by congruence. by split_and!.
  - intros k' r' Hn Hr'. apply lookup_insert_Some in Hr' as [[<- <-]|[_ ?]]; [done|congruence].
Qed.
Lemma evolves_status d k r s t p q : rows d !! k = Some r → s ≠ pending → evolves d (with_rows <[k := set_status s t p q r]> d).
Proof.
  intros Hk Hs. split; cbn [rows with_rows].
  - intros k' r' Hr'. destruct (decide (k' = k)) as [->|Hne].
    + assert (r' = r) as -> by congruence. rewrite lookup_insert_eq. eexists. split_and!; [done|by repeat split|done].
    + rewrite lookup_insert_ne by done. exists r'. by split_and!.
  - intros k' r' Hn Hr'. apply lookup_insert_Some in Hr' as [[-> _]|[_ ?]]; congruence.
Qed.

Lemma store_inv up nss now k task job kw msg att ns fp d d' k' :
  store_dead_letter up nss now k task job kw msg att ns fp d = Ok (d', k') →
  k' = k ∧ 0 < att ∧ ∃ nsu, d' = with_rows <[k := DlqRow nsu task job (_sanitize_dlq_kwargs (JObj kw))
    (String.substring 0 _ERROR_MESSAGE_MAX_LEN msg) att pending now None None fp None]> d.
Proof.
  unfold store_dead_letter. intros [_ H]%ensure_bind. apply bind_Ok in H as (nsu & _ & H).
  apply ensure_bind in H as [_ H]. apply ensure_bind in H as [Ha%Z.ltb_lt H]. injection H as <- <-. split_and!; [done..|]. by exists nsu.
Qed.
Lemma store_evolves up nss now k task job kw msg att ns fp d d' k' :
  rows d !! k = None → store_dead_letter up nss now k task job kw msg att ns fp d = Ok (d', k') → evolves d d'.
Proof. intros Hk (_ & _ & nsu & ->)%store_inv. apply evolves_insert; [done|apply sanitize_clean]. Qed.

Lemma replay_inv now k d d' r : replay_dead_letter now k d = Ok (d', r) →
  ∃ r0, rows d !! k = Some r0 ∧ status r0 = pending ∧ r = set_status replayed (Some now) (purged_at r0) (quarantined_until r0) r0 ∧
    d' = with_rows <[k := r]> d.
Proof.
  unfold replay_dead_letter. destruct (rows d !! k) as [r0|]; [|done]. intros [Hp%bool_decide_eq_true H]%ensure_bind.
  injection H as <- <-. by exists r0.
Qed.
Lemma purge_inv now k d d' : purge_dead_letter now k d = Ok d' →
  ∃ r0, rows d !! k = Some r0 ∧ d' = with_rows <[k := set_status purged (replayed_at r0) (Some now) (quarantined_until r0) r0]> d.
Proof. unfold purge_dead_letter. destruct (rows d !! k) as [r0|]; [|done]. intros [= <-]. by exists r0. Qed.
Lemma mark_evolves now k b d : evolves d (_mark_auto_replay now k b d).
Proof.
  unfold _mark_auto_replay, with_rows. destruct (rows d !! k) as [r|] eqn:Hk.
  - assert (alter (λ r, set_status replayed (Some now) (purged_at r) (Some (now + b)) r) k (rows d) =
      <[k := set_status replayed (Some now) (purged_at r) (Some (now + b)) r]> (rows d)) as ->.
    { apply map_eq. intros k'. destruct (decide (k = k')) as [<-|Hne].
      - by rewrite lookup_alter_eq, lookup_insert_eq, Hk.
      - by rewrite lookup_alter_ne, lookup_insert_ne. }
    by apply evolves_status.
  - apply evolves_rows. cbn [rows]. apply map_eq. intros k'. destruct (decide (k = k')) as [<-|Hne].
    + by rewrite lookup_alter_eq, Hk.
    + by rewrite lookup_alter_ne.
Qed.

(** ** The queue *)
(** ** Everything that happens to the queue *)
Inductive dlq_move (cfg : config) (sha : string → string) : dlq → dlq → Prop :=
  | move_store up nss now k task job kw msg att ns fp d d' k' :
      rows d !! k = None → store_dead_letter up nss now k task job kw msg att ns fp d = Ok (d', k') → dlq_move cfg sha d d'
  | move_triage up nss now k task job kw cls txt tb att ns other1 other2 d d' res :
      rows d !! k = None → (∀ x, evolves x (other1 x)) → (∀ x, evolves x (other2 x)) →
      triage_dead_letter cfg sha up nss now k task job kw cls txt tb att ns other1 other2 d = Ok (d', res) → dlq_move cfg sha d d'
  | move_replay now k d d' r : replay_dead_letter now k d = Ok (d', r) → dlq_move cfg sha d d'
  | move_purge now k d d' : purge_dead_letter now k d = Ok d' → dlq_move cfg sha d d'
  | move_close task d : dlq_move cfg sha d (close_circuit task d)
  | move_bridge up nss now k job provider payload run d :
      rows d !! k = None → dlq_move cfg sha d (process_bridge_event cfg up nss now k job provider payload run d).1
  | move_d365 up nss now k job payload run d :
      rows d !! k = None → dlq_move cfg sha d (process_d365_event cfg up nss now k job payload run d).1.

Section moves.
Context (cfg : config) (sha : string → string).

Lemma track_rows now job d d' n : _track_attempt cfg now job d = Ok (d', n) →
  rows d' = rows d ∧ n = attempts_of now job d + 1 ∧ circuits d' = circuits d ∧
  (∀ now', 0 < TASK_DLQ_REDIS_TTL cfg → now' < now + TASK_DLQ_REDIS_TTL cfg → attempts_of now' job d' = n) ∧
  (∀ job', job' ≠ job → attempts d' !! job' = attempts d !! job').
Proof.
  unfold _track_attempt. intros [_ H]%ensure_bind. injection H as <- <-. split_and!; [done..| |].
  - intros now' Ht Hn. rewrite (proj2 (Z.ltb_lt _ _)) by done. unfold attempts_of. cbn [attempts].
    rewrite lookup_insert_eq. by rewrite (proj2 (Z.ltb_lt _ _)).
  - intros job' Hne. cbn [attempts]. destruct (_ <? _); [by rewrite lookup_insert_ne|by rewrite lookup_delete_ne].
Qed.
Lemma clear_rows job d d' : _clear_attempt job d = Ok d' → rows d' = rows d.
Proof. unfold _clear_attempt. intros [_ [= <-]]%ensure_bind. done. Qed.

(** The handler of a failure, case by case. *)
Lemma after_failure_cases up nss now k task job kw cls txt d :
  let '(d', res) := after_failure cfg up nss now k task job kw cls txt d in
  (d' = d ∧ res = JobRaised "ValueError" "job_id" ∧ _JOB_ID_RE job = false) ∨
  ∃ d1 n, _track_attempt cfg now job d = Ok (d1, n) ∧
    (((TASK_MAX_RETRIES cfg ≤ 0 ∨ n ≤ TASK_MAX_RETRIES cfg) ∧ d' = d1 ∧ res = JobRaised cls txt) ∨
     (0 < TASK_MAX_RETRIES cfg < n ∧ res = JobDeadLettered ∧
      d' = match store_dead_letter up nss now k task job kw (String.substring 0 1024 (cls +:+ ": " +:+ txt)) n None None d1 with
           | Ok (d2, _) => d2 | Err _ => d1 end)).
Proof.
  unfold after_failure, _check_poison_pill. destruct (_track_attempt cfg now job d) as [[d1 n]|e] eqn:Ht.
  - cbn [mbind result_bind]. destruct (Z.leb_spec (TASK_MAX_RETRIES cfg) 0) as [Hm|Hm].
    + right. exists d1, n. split; [done|]. left. auto.
    + destruct (Z.leb_spec n (TASK_MAX_RETRIES cfg)) as [Hn|Hn]; right; exists d1, n; (split; [done|]); [left; auto|].
      right. split; [lia|done].
  - cbn [mbind result_bind]. left. split_and!; [done..|]. unfold _track_attempt in Ht.
    by destruct (_JOB_ID_RE job).
Qed.

Lemma after_failure_evolves up nss now k task job kw cls txt d : rows d !! k = None →
  evolves d (after_failure cfg up nss now k task job kw cls txt d).1.
Proof.
  intros Hk. pose proof (after_failure_cases up nss now k task job kw cls txt d) as H.
  destruct (after_failure _ _ _ _ _ _ _ _ _ _ d) as [d' res]. cbn [fst].
  destruct H as [(-> & _)|(d1 & n & Ht & H)]; [done|]. apply track_rows in Ht as (Hr & _).
  destruct H as [(_ & -> & _)|(_ & _ & ->)]; [by apply evolves_rows|].
  destruct (store_dead_letter _ _ _ _ _ _ _ _ _ _ _ d1) as [[d2 k']|] eqn:E; [|by apply evolves_rows].
  etrans; [by apply evolves_rows|]. eapply store_evolves; [|exact E]. by rewrite Hr.
Qed.

Lemma triage_evolves up nss now k task job kw cls txt tb att ns other1 other2 d d' res :
  rows d !! k = None → (∀ x, evolves x (other1 x)) → (∀ x, evolves x (other2 x)) →
  triage_dead_letter cfg sha up nss now k task job kw cls txt tb att ns other1 other2 d = Ok (d', res) → evolves d d'.
Proof.
  intros Hk H1 H2 H. unfold triage_dead_letter in H. apply bind_Ok in H as ([d1 k'] & Hs & H).
  pose proof (store_evolves _ _ _ _ _ _ _ _ _ _ _ _ _ _ Hk Hs) as He.
  assert (evolves d (other2 (other1 d1))) as He2 by (etrans; [exact He|]; etrans; [apply H1|apply H2]).
  destruct (classify_error cls txt).
  - destruct (_ <? _); injection H as <- _; [|done]. etrans; [exact He2|apply mark_evolves].
  - destruct (_ <=? _); injection H as <- _; [|done]. etrans; [exact He2|by apply evolves_rows].
Qed.

Lemma move_evolves d d' : dlq_move cfg sha d d' → evolves d d'.
Proof.
  destruct 1 as [* Hk H|* Hk H1 H2 H|* H|* H| |* Hk|* Hk].
  - eapply store_evolves; [exact Hk|exact H].
  - eapply triage_evolves; [exact Hk|exact H1|exact H2|exact H].
  - apply replay_inv in H as (r0 & Hr & Hs & -> & ->). by apply evolves_status.
  - apply purge_inv in H as (r0 & Hr & ->). by apply evolves_status.
  - by apply evolves_rows.
  - unfold process_bridge_event. destruct run; [|done|by apply after_failure_evolves].
    destruct (_clear_attempt job d) eqn:E; [|done]. apply evolves_rows. by eapply clear_rows.
  - unfold process_d365_event. destruct run; [|by apply after_failure_evolves..].
    destruct (_clear_attempt job d) eqn:E; [|by apply after_failure_evolves]. apply evolves_rows. by eapply clear_rows.
Qed.
Lemma moves_evolve d d' : rtc (dlq_move cfg sha) d d' → evolves d d'.
Proof. induction 1 as [|d d1 d' H _ IH]; [done|]. etrans; [by apply move_evolves|exact IH]. Qed.
End moves.

(** ** Triage, one at a time *)
Section triage.
Context (cfg : config) (sha : string → string).

(** A triage that nobody interrupts, in terms of the table it found. *)
Lemma triage_alone up nss now k task job kw cls txt tb att ns d d' k' fp c act :
  rows d !! k = None →
  triage_dead_letter cfg sha up nss now k task job kw cls txt tb att ns id id d = Ok (d', (k', fp, c, act)) →
  k' = k ∧ fp = compute_error_fingerprint sha task cls tb "" ∧ c = classify_error cls txt ∧ attempts d' = attempts d ∧
  ∃ r, error_fingerprint r = Some fp ∧ status r = pending ∧ clean (kwargs r) ∧
  match c with
  | transient =>
      circuits d' = circuits d ∧
      if _count_replayed_for_fingerprint fp d <? NCE_DLQ_AUTO_REPLAY_MAX cfg
      then act = auto_replay_scheduled ∧
        rows d' = <[k := set_status replayed (Some now) None (Some (now + 2 ^ _count_replayed_for_fingerprint fp d)) r]> (rows d)
      else act = manual_review_required ∧ rows d' = <[k := r]> (rows d)
  | deterministic =>
      rows d' = <[k := r]> (rows d) ∧
      if NCE_DLQ_CIRCUIT_THRESHOLD cfg <=? _count_fingerprint_entries fp d + 1
      then act = circuit_opened ∧ circuits d' = <[task := now + NCE_DLQ_CIRCUIT_TTL_S cfg]> (circuits d)
      else act = deterministic_pending ∧ circuits d' = circuits d
  end.
Proof.
  intros Hk H. unfold triage_dead_letter in H. apply bind_Ok in H as ([d1 k1] & Hs & H).
  set (fp0 := compute_error_fingerprint sha task cls tb "") in *.
  apply store_inv in Hs as (-> & _ & nsu & ->). set (r := DlqRow _ _ _ _ _ _ _ _ _ _ _ _) in *.
  assert (∀ s, bit (is_fp fp0 s r) = bit (bool_decide (s = pending))) as Hbit.
  { intros s. unfold is_fp. rewrite (bool_decide_true (error_fingerprint r = Some fp0)) by done. cbn [status r andb].
    by rewrite (bool_decide_ext (pending = s) (s = pending)) by done. }
  assert (_count_replayed_for_fingerprint fp0 (with_rows <[k:=r]> d) = _count_replayed_for_fingerprint fp0 d) as Hrep.
  { unfold _count_replayed_for_fingerprint. rewrite count_insert_new by done. rewrite Hbit. simpl. lia. }
  assert (_count_fingerprint_entries fp0 (with_rows <[k:=r]> d) = _count_fingerprint_entries fp0 d + 1) as Hpend.
  { unfold _count_fingerprint_entries. rewrite count_insert_new by done. rewrite Hbit. simpl. lia. }
  cbn [id] in H. rewrite Hrep, Hpend in H.
  assert (clean (kwargs r)) as Hc by apply sanitize_clean.
  destruct (classify_error cls txt).
  - destruct (_ <? _) eqn:E; injection H as <- <- <- <- <-; (split_and!; [done..|]); exists r; (split_and!; [done..|]); rewrite E; split; try done.
    cbn [rows _mark_auto_replay with_rows]. apply map_eq. intros j. destruct (decide (k = j)) as [<-|Hne].
    + by rewrite lookup_alter_eq, !lookup_insert_eq.
    + by rewrite lookup_alter_ne, !lookup_insert_ne.
  - destruct (_ <=? _) eqn:E; injection H as <- <- <- <- <-; (split_and!; [done..|]); exists r; (split_and!; [done..|]); by rewrite E.
Qed.

(** *** Histories without interference inside a triage

    [n] counts the automatic replays of the fingerprint [fp]; entries of [fp]
    already replayed are not purged. *)
Inductive triages (fp : string) : nat → dlq → Prop :=
  | triages_start d : triages fp 0 d
  | triages_triage n d up nss now k task job kw cls txt tb att ns d' k' fp' c act :
      triages fp n d → rows d !! k = None →
      triage_dead_letter cfg sha up nss now k task job kw cls txt tb att ns id id d = Ok (d', (k', fp', c, act)) →
      triages fp (match act with auto_replay_scheduled => if bool_decide (fp' = fp) then S n else n | _ => n end) d'
  | triages_replay n d now k d' r : triages fp n d → replay_dead_letter now k d = Ok (d', r) → triages fp n d'
  | triages_purge n d now k d' r : triages fp n d → rows d !! k = Some r → is_fp fp replayed r = false →
      purge_dead_letter now k d = Ok d' → triages fp n d'
  | triages_other n d d' : triages fp n d → rows d' = rows d → triages fp n d'.

Lemma count_rows p d d' : rows d' = rows d → count_where p d' = count_where p d.
Proof. unfold count_where. by intros ->. Qed.
Lemma is_fp_set fp s r s' t p q : is_fp fp s (set_status s' t p q r) = bool_decide (error_fingerprint r = Some fp) && bool_decide (s' = s).
Proof. done. Qed.

Lemma triages_counted fp n d : triages fp n d →
  Z.of_nat n ≤ _count_replayed_for_fingerprint fp d ∧ Z.of_nat n ≤ Z.max 0 (NCE_DLQ_AUTO_REPLAY_MAX cfg).
Proof.
  induction 1 as [d|n d up nss now k task job kw cls txt tb att ns d' k' fp' c act _ [IH1 IH2] Hk H|n d now k d' r _ [IH1 IH2] H
    |n d now k d' r _ [IH1 IH2] Hr Hf H|n d d' _ [IH1 IH2] Hd].
  - unfold _count_replayed_for_fingerprint, count_where. lia.
  - apply triage_alone in H as (-> & _ & _ & _ & r & Hfp & Hst & _ & H); [|done].
    assert (∀ r', error_fingerprint r' = Some fp' → rows d' = <[k := r']> (rows d) →
      _count_replayed_for_fingerprint fp d' = _count_replayed_for_fingerprint fp d + bit (bool_decide (fp' = fp) && bool_decide (status r' = replayed))) as Hcount.
    { intros r' Hr' Hrows. unfold _count_replayed_for_fingerprint.
      rewrite (count_rows _ (with_rows <[k := r']> d) d') by done. rewrite count_insert_new by done. f_equal. f_equal.
      unfold is_fp. rewrite Hr'. f_equal. apply bool_decide_ext. split; congruence. }
    assert (rows d' = <[k := r]> (rows d) → _count_replayed_for_fingerprint fp d' = _count_replayed_for_fingerprint fp d) as Hsame.
    { intros Hrows. rewrite (Hcount r Hfp Hrows), Hst. rewrite andb_false_r. unfold bit. lia. }
    destruct c.
    + destruct H as [_ H]. destruct (Z.ltb_spec (_count_replayed_for_fingerprint fp' d) (NCE_DLQ_AUTO_REPLAY_MAX cfg)) as [Hlt|Hge];
        destruct H as [-> Hrows]; [|rewrite Hsame by done; done].
      eapply Hcount in Hrows; [|done]. rewrite Hrows. cbn [status set_status]. rewrite andb_true_r.
      destruct (bool_decide_reflect (fp' = fp)) as [->|]; unfold bit; lia.
    + destruct H as [Hrows H]. rewrite Hsame by done. by destruct (_ <=? _), H as [-> _].
  - apply replay_inv in H as (r0 & Hr & Hs & -> & ->). split; [|done]. unfold _count_replayed_for_fingerprint in *.
    rewrite (count_insert_old _ d k r0) by done. unfold is_fp at 2. rewrite Hs. rewrite is_fp_set.
    destruct (bool_decide (error_fingerprint r0 = Some fp)); simpl; lia.
  - apply purge_inv in H as (r0 & Hr0 & ->). split; [|done]. assert (r0 = r) as -> by congruence. unfold _count_replayed_for_fingerprint in *.
    rewrite (count_insert_old _ d k r) by done. rewrite Hf. rewrite is_fp_set, andb_false_r. unfold bit. lia.
  - split; [|done]. unfold _count_replayed_for_fingerprint. by rewrite (count_rows _ d d').
Qed.
End triage.

(** ** The retry budget of a job

    [n] failures of [job] so far, the last at the time [last]; between them anyone
    does anything that leaves the job's counter alone. *)
Inductive failures (cfg : config) (job : string) : nat → Z → dlq → Prop :=
  | failures_none t d : attempts d !! job = None → failures cfg job 0 t d
  | failures_more n last now up nss k task kw cls txt d :
      failures cfg job n last d → (n = 0%nat ∨ now < last + TASK_DLQ_REDIS_TTL cfg) →
      failures cfg job (S n) now (after_failure cfg up nss now k task job kw cls txt d).1
  | failures_other n last d d' : failures cfg job n last d → attempts d' !! job = attempts d !! job → failures cfg job n last d'.

Lemma store_attempts up nss now k task job kw msg att ns fp d d' k' :
  store_dead_letter up nss now k task job kw msg att ns fp d = Ok (d', k') → attempts d' = attempts d.
Proof. by intros (_ & _ & nsu & ->)%store_inv. Qed.

Lemma failures_counter cfg job n last d : 0 < TASK_DLQ_REDIS_TTL cfg → _JOB_ID_RE job = true → failures cfg job n last d →
  (n = 0%nat ∧ attempts d !! job = None) ∨ attempts d !! job = Some (Z.of_nat n, last + TASK_DLQ_REDIS_TTL cfg).
Proof.
  intros Httl Hjob. induction 1 as [t d H|n last now up nss k task kw cls txt d Hf IH Ht|n last d d' Hf IH Ha].
  - by left.
  - right. assert (attempts_of now job d = Z.of_nat n) as Hn.
    { unfold attempts_of. destruct IH as [[-> ->]| ->]; [done|]. destruct (Z.ltb_spec now (last + TASK_DLQ_REDIS_TTL cfg)); [done|].
      destruct Ht; [subst; done|lia]. }
    pose proof (after_failure_cases cfg up nss now k task job kw cls txt d) as H.
    destruct (after_failure _ _ _ _ _ _ _ _ _ _ d) as [d' res]. cbn [fst].
    destruct H as [(_ & _ & Hj)|(d1 & m & Htr & H)]; [congruence|].
    assert (attempts d1 !! job = Some (Z.of_nat (S n), now + TASK_DLQ_REDIS_TTL cfg)) as H1.
    { unfold _track_attempt in Htr. rewrite Hjob in Htr. cbn [ensure mbind result_bind] in Htr. injection Htr as <- <-.
      cbn [attempts]. rewrite (proj2 (Z.ltb_lt _ _)) by done. rewrite lookup_insert_eq, Hn. do 2 f_equal. lia. }
    destruct H as [(_ & -> & _)|(_ & _ & ->)]; [done|].
    destruct (store_dead_letter _ _ _ _ _ _ _ _ _ _ _ d1) as [[d2 k']|] eqn:E; [|done].
    by rewrite (store_attempts _ _ _ _ _ _ _ _ _ _ _ _ _ _ E).
  - by rewrite Ha.
Qed.

(** ** The properties *)

(** C22: A dead letter is handed out at most once and with the payload it was
    parked with.  After it was stored, whatever happens to the queue (triage with
    any interference, replays, purges, workers, other tenants), the first replay
    returns the sanitised payload, its job and its attempt count unchanged, and
    from then on every further replay of the entry is refused. *)
Theorem dead_letter_handed_out_once cfg sha up nss t k task job kw msg att ns fp now d d0 d1 d2 d3 k' r :
  rows d !! k = None →
  store_dead_letter up nss t k task job kw msg att ns fp d = Ok (d0, k') → rtc (dlq_move cfg sha) d0 d1 →
  replay_dead_letter now k d1 = Ok (d2, r) → rtc (dlq_move cfg sha) d2 d3 →
  task_name r = task ∧ job_id r = job ∧ kwargs r = _sanitize_dlq_kwargs (JObj kw) ∧ clean (kwargs r) ∧ attempt_count r = att ∧
  ∀ now', ∃ e, replay_dead_letter now' k d3 = Err e.
Proof.
  intros Hk (_ & _ & nsu & ->)%store_inv H1 (r0 & Hr0 & Hs & -> & ->)%replay_inv H3.
  apply moves_evolve in H1 as [H1 _]. destruct (H1 k _ (lookup_insert_eq _ _ _)) as (r1 & Hr1 & (E1 & E2 & E3 & E4 & E5 & E6 & _) & _).
  assert (r1 = r0) as -> by congruence. cbn [task_name job_id kwargs attempt_count set_status] in *.
  split_and!; [done..|by rewrite <- E4|rewrite <- E4; apply sanitize_clean|done|].
  intros now'. apply moves_evolve in H3 as [H3 _]. destruct (H3 k _ (lookup_insert_eq _ _ _)) as (r3 & Hr3 & _ & Hp).
  unfold replay_dead_letter. rewrite Hr3. rewrite bool_decide_false by (by apply Hp). by eexists.
Qed.

(** C36: Sanitising a payload leaves bounded text, at most fifty entries per list
    or object and nothing but the mark under a sensitive key, at every depth;
    doing it again changes nothing; and an object within the bounds keeps every
    entry whose key is not sensitive, its value sanitised. *)
Theorem sanitizer_redacts v :
  clean (_sanitize_dlq_kwargs v) ∧
  _sanitize_dlq_kwargs (_sanitize_dlq_kwargs v) = _sanitize_dlq_kwargs v ∧
  ∀ l k w, v = JObj l → (length l ≤ _MAX_DLQ_NESTED_KEYS)%nat → (k, w) ∈ l → _is_sensitive_key k = false →
    ∃ l', _sanitize_dlq_kwargs v = JObj l' ∧ (k, _sanitize_dlq_kwargs w) ∈ l'.
Proof.
  split_and!; [apply sanitize_clean|apply sanitize_sanitize|]. intros l k w ->. apply sanitize_keeps.
Qed.

(** Triage replays a fingerprint automatically at most as often as the
    configuration allows, over any history in which triages run one at a time
    and replayed entries of the fingerprint are not purged; each is put off by
    two to the power of the replays before it. *)
Theorem auto_replays_bounded cfg sha fp n d :
  triages cfg sha fp n d →
  Z.of_nat n ≤ Z.max 0 (NCE_DLQ_AUTO_REPLAY_MAX cfg) ∧
  ∀ up nss now k task job kw cls txt tb att ns d' k' c,
    rows d !! k = None →
    triage_dead_letter cfg sha up nss now k task job kw cls txt tb att ns id id d = Ok (d', (k', fp, c, auto_replay_scheduled)) →
    Z.of_nat n < NCE_DLQ_AUTO_REPLAY_MAX cfg ∧
    ∃ r b, rows d' !! k = Some r ∧ status r = replayed ∧ quarantined_until r = Some (now + b) ∧
      2 ^ Z.of_nat n ≤ b ≤ 2 ^ (NCE_DLQ_AUTO_REPLAY_MAX cfg - 1).
Proof.
  intros Hrun. apply triages_counted in Hrun as [Hc Hn]. split; [done|].
  intros up nss now k task job kw cls txt tb att ns d' k' c Hk H.
  apply triage_alone in H as (-> & _ & _ & _ & r & Hfp & Hst & _ & H); [|done].
  assert (c = transient ∧ _count_replayed_for_fingerprint fp d < NCE_DLQ_AUTO_REPLAY_MAX cfg ∧
    rows d' = <[k := set_status replayed (Some now) None (Some (now + 2 ^ _count_replayed_for_fingerprint fp d)) r]> (rows d)) as (_ & Hlt & Hrows).
  { destruct c.
    - destruct H as [_ H]. destruct (Z.ltb_spec (_count_replayed_for_fingerprint fp d) (NCE_DLQ_AUTO_REPLAY_MAX cfg)); [|by destruct H].
      by destruct H as [_ H].
    - destruct H as [_ H]. by destruct (_ <=? _), H. }
  split; [lia|]. eexists _, _. rewrite Hrows, lookup_insert_eq. split_and!; [done|done|done| |].
  - apply Z.pow_le_mono_r; lia.
  - apply Z.pow_le_mono_r; lia.
Qed.

(** C23: A job is left to the queue exactly [TASK_MAX_RETRIES] times: as long as
    its failures come within the counter's lifetime, each of the first ones
    re-raises and parks nothing, and the next one ends the job and parks its
    payload, sanitised, with the number of attempts.  When the database does not
    answer then, the job ends all the same and nothing is parked. *)
Theorem job_parked_at_the_limit cfg job n last now up nss k task kw cls txt d :
  0 < TASK_MAX_RETRIES cfg → 0 < TASK_DLQ_REDIS_TTL cfg → _JOB_ID_RE job = true →
  failures cfg job n last d → n = 0%nat ∨ now < last + TASK_DLQ_REDIS_TTL cfg → get_item "namespace_id" kw = JNull →
  let '(d', res) := after_failure cfg up nss now k task job kw cls txt d in
  if Z.of_nat n <? TASK_MAX_RETRIES cfg
  then res = JobRaised cls txt ∧ rows d' = rows d
  else res = JobDeadLettered ∧
    rows d' = if up then <[k := DlqRow None task job (_sanitize_dlq_kwargs (JObj kw))
        (String.substring 0 _ERROR_MESSAGE_MAX_LEN (String.substring 0 1024 (cls +:+ ": " +:+ txt)))
        (Z.of_nat n + 1) pending now None None None None]> (rows d)
      else rows d.
Proof.
  intros Hmax Httl Hjob Hf Hnow Hns. pose proof (failures_counter _ _ _ _ _ Httl Hjob Hf) as Hcnt.
  assert (attempts_of now job d = Z.of_nat n) as Hn.
  { unfold attempts_of. destruct Hcnt as [[-> ->]| ->]; [done|]. destruct (Z.ltb_spec now (last + TASK_DLQ_REDIS_TTL cfg)); [done|].
    destruct Hnow; [subst; done|lia]. }
  pose proof (after_failure_cases cfg up nss now k task job kw cls txt d) as H.
  destruct (after_failure _ _ _ _ _ _ _ _ _ _ d) as [d' res].
  destruct H as [(_ & _ & Hj)|(d1 & m & Htr & H)]; [congruence|]. apply track_rows in Htr as (Hr & Hm & _).
  rewrite Hn in Hm. destruct H as [([?|Hle] & -> & ->)|([_ Hlt] & -> & ->)]; [lia| |].
  - rewrite (proj2 (Z.ltb_lt _ _)) by lia. done.
  - rewrite (proj2 (Z.ltb_ge _ _)) by lia. split; [done|]. unfold store_dead_letter. rewrite Hns. destruct up; [|done].
    cbn [uuid_column mbind result_bind ensure]. rewrite (proj2 (Z.ltb_lt 0 m)) by lia. cbn [ensure mbind result_bind rows with_rows].
    by rewrite Hr, Hm.
Qed.

(** ** Witnesses and examples *)
Definition demo_cfg := Config 3 3 3600 1 86400.
Definition demo_empty := Dlq ∅ ∅ ∅.
Definition demo_kw : list (string * json) := [("provider"%string, JStr "gdrive"); ("api_token"%string, JStr "s3cr3t")].
Definition ok_state (r : result dlq_error (dlq * string)) : dlq := match r with Ok (d, _) => d | Err _ => demo_empty end.
Definition demo_stored := ok_state (store_dead_letter true ∅ 1 "e1" "process_bridge_event" "j1" demo_kw "Timeout: x" 6 None None demo_empty).
Definition demo_replay := replay_dead_letter 2 "e1" demo_stored.
Definition demo_row : dlq_row :=
  DlqRow None "process_bridge_event" "j1" (JObj [("provider"%string, JStr "gdrive"); ("api_token"%string, redacted)]) "Timeout: x" 6
    replayed 1 (Some 2) None None None.
Definition demo_replayed := with_rows <["e1"%string := demo_row]> demo_stored.

Lemma dead_letter_handed_out_once_witness : kwargs demo_row = JObj [("provider"%string, JStr "gdrive"); ("api_token"%string, redacted)] ∧
  ∃ e, replay_dead_letter 9 "e1" demo_replayed = Err e.
Proof.
  split; [reflexivity|].
  refine (proj2 (proj2 (proj2 (proj2 (proj2 (dead_letter_handed_out_once demo_cfg id true ∅ 1 "e1" "process_bridge_event" "j1" demo_kw
    "Timeout: x" 6 None None 2 demo_empty demo_stored demo_stored demo_replayed demo_replayed "e1" demo_row _ _ (rtc_refl _ _) _ (rtc_refl _ _)))))) 9).
  - reflexivity.
  - vm_compute. reflexivity.
  - vm_compute. reflexivity.
Defined.

Definition ok_triage (r : result dlq_error (dlq * (string * string * error_class * triage_action))) : dlq :=
  match r with Ok (d, _) => d | Err _ => demo_empty end.
Definition demo_frame := Some (Frame "/app/nce/tasks.py" "42" "work").
Definition demo_fp := compute_error_fingerprint id "t" "ReadTimeout" demo_frame "".
Definition demo_triage (k : string) (other1 other2 : dlq → dlq) :=
  triage_dead_letter demo_cfg id true ∅ 5 k "t" "j1" demo_kw "ReadTimeout" "slow" demo_frame 1 None other1 other2.
Definition demo_triaged := ok_triage (demo_triage "e1" id id demo_empty).

Lemma auto_replays_bounded_witness : triages demo_cfg id demo_fp 1 demo_triaged ∧ Z.of_nat 1 ≤ 3.
Proof.
  assert (triages demo_cfg id demo_fp 1 demo_triaged) as H.
  { apply (triages_triage demo_cfg id demo_fp 0 demo_empty true ∅ 5 "e1" "t" "j1" demo_kw "ReadTimeout" "slow" demo_frame 1 None
      demo_triaged "e1" demo_fp transient auto_replay_scheduled); [constructor|reflexivity|vm_compute; reflexivity]. }
  split; [exact H|]. exact (proj1 (auto_replays_bounded demo_cfg id demo_fp 1 demo_triaged H)).
Defined.

Definition demo_failed := (after_failure demo_cfg true ∅ 10 "e0" "process_d365_event" "j1" demo_kw "ReadTimeout" "slow" demo_empty).1.
Lemma job_parked_at_the_limit_witness :
  (after_failure demo_cfg true ∅ 11 "e1" "process_d365_event" "j1" demo_kw "ReadTimeout" "slow" demo_failed).2 = JobDeadLettered.
Proof.
  assert (failures demo_cfg "j1" 1 10 demo_failed) as Hf by (apply (failures_more _ _ 0 0); [by constructor|by left]).
  pose proof (job_parked_at_the_limit demo_cfg "j1" 1 10 11 true ∅ "e1" "process_d365_event" demo_kw "ReadTimeout" "slow" demo_failed
    eq_refl eq_refl eq_refl Hf (or_intror eq_refl) eq_refl) as H.
  destruct (after_failure _ _ _ _ _ _ _ _ _ _ demo_failed) as [d' res]. exact (proj1 H).
Defined.

(** A purge between the count and the mark of a triage is undone: the entry
    becomes [replayed]. *)
Definition purged_by_admin (d : dlq) : dlq := match purge_dead_letter 6 "e1" d with Ok d' => d' | Err _ => d end.
Example auto_replay_revives_purged :
  match demo_triage "e1" id purged_by_admin demo_empty with
  | Ok (d, _) => match rows d !! "e1"%string with Some r => bool_decide (status r = replayed) && bool_decide (purged_at r = Some 6) | None => false end
  | Err _ => false
  end = true.
Proof. vm_compute. reflexivity. Qed.

(** An entry replayed automatically cannot be replayed by hand: nothing returns
    its payload. *)
Example auto_replayed_never_handed_out :
  match replay_dead_letter 100 "e1" demo_triaged with Ok _ => false | Err _ => true end = true.
Proof. vm_compute. reflexivity. Qed.

(** Purging the replayed entries of a fingerprint renews its automatic replays. *)
Definition replay_then_purge (k : string) (d : dlq) : dlq :=
  match purge_dead_letter 6 k (ok_triage (demo_triage k id id d)) with Ok d' => d' | Err _ => d end.
Example purge_renews_auto_replays :
  let d := foldr replay_then_purge demo_empty ["e1"; "e2"; "e3"]%string in
  match demo_triage "e4" id id d with Ok (_, (_, _, _, auto_replay_scheduled)) => true | _ => false end = true.
Proof. vm_compute. reflexivity. Qed.

(** The payload of a job that ends while the database is down is lost. *)
Example parked_nowhere :
  let '(d, res) := after_failure demo_cfg false ∅ 11 "e1" "process_d365_event" "j1" demo_kw "ReadTimeout" "slow" demo_failed in
  match res with JobDeadLettered => bool_decide (rows d = ∅) | _ => false end = true.
Proof. vm_compute. reflexivity. Qed.
