(* ===== verification/Periodisation.v ===== *)
(** * Periodisation: earned revenue, accruals and work in progress of a project

    Models [src/nce/vertical_modules/economy/ngaap.py]: the coercion of the
    caller's parameters, the accounts each bucket posts to, and the amounts of the
    seven buckets with the identities the module checks.  Configuration files are
    arguments. *)
From S2P Require Import Prelude PyDecimal PyText.
Local Open Scope Z_scope.

(** What a caller or a configuration file hands in: a number (or something that
    is none), text, or an object. *)
#[warnings="-register-all"]
Inductive value := VNum (n : pynum) | VStr (s : string) | VDict (l : list (string * value)).
Abbreviation object := (list (string * value)).
Definition VNone : value := VNum PyNone.

Inductive ngaap_error := ValueError (where_ : string).

(** [d.get(key)]. *)
Definition get (key : string) (d : object) : value :=
  match List.find (λ kv, String.eqb kv.1 key) d with Some kv => kv.2 | None => VNone end.
Definition has (key : string) (d : object) : bool := existsb (λ kv, String.eqb kv.1 key) d.

(** ** Buckets and fields *)
Definition HW_BUCKETS : list string := ["hardware"; "materials"; "freight"]%string.
Definition SOFT_BUCKETS : list string := ["pm"; "tek"; "programming"; "travel"]%string.
Definition ALL_BUCKETS : list string := HW_BUCKETS ++ SOFT_BUCKETS.
Definition _PER_BUCKET_ROLES : list string := ["cogs"; "revenue"; "accrued"; "deferred"]%string.
Definition _SHARED_ROLES : list string := ["wip"%string].
Definition _VALID_BUCKET_INPUT_KEYS : list string :=
  ["expected_revenue"; "expected_cost"; "actual_cost"; "actual_invoiced"; "expected_revenue_from_co"; "delivery_pct";
   "co_recognition_gated"; "bucket"; "_comment"]%string.
Definition _VALID_PARAMS_KEYS : list string := ["buckets"; "project_id"; "period_end"; "_comment"]%string.
Definition _MIN_RATIO : decimal := Dec 0 0.
Definition _MAX_RATIO : decimal := Dec 10 0.
Definition _ZERO : decimal := Dec 0 (-2).

(** ** Coercions *)
Fixpoint normalise_into (what : string) (out raw : object) : result ngaap_error object :=
  match raw with
  | [] => Ok out
  | (key, v) :: raw =>
      let normalised := strip key in
      ensure (negb (has normalised out)) (ValueError what) ≫= λ _,
      normalise_into what (out ++ [(normalised, v)]) raw
  end.
Definition _normalised_keys (raw : object) (what : string) : result ngaap_error object := normalise_into what [] raw.

Definition _as_decimal (v : value) (where_ : string) : result ngaap_error decimal :=
  match v with
  | VNum PyNone => Ok _ZERO
  | VNum (PyInt z) => Ok (Dec z 0)
  | VNum (PyFloat d) | VNum (PyDecimal d) => Ok d
  | _ => raise (ValueError where_)
  end.
Definition _quantise (d : decimal) (where_ : string) : result ngaap_error decimal :=
  match quantize ROUND_HALF_UP (-2) d with Some d => Ok d | None => raise (ValueError where_) end.
Definition _as_money (v : value) (where_ : string) : result ngaap_error decimal :=
  d ← _as_decimal v where_; _quantise d where_.
Definition _as_ratio (v : value) (where_ : string) : result ngaap_error decimal :=
  ratio ← _as_decimal v where_;
  ensure (negb (dec_ltb ratio _MIN_RATIO)) (ValueError where_) ≫= λ _,
  ensure (negb (dec_ltb _MAX_RATIO ratio)) (ValueError where_) ≫= λ _,
  Ok ratio.
Definition _as_gate (v : value) (where_ : string) : result ngaap_error bool :=
  match v with
  | VNum PyNone => Ok false
  | VNum (PyBool b) => Ok b
  | _ => raise (ValueError where_)
  end.
Definition _product (left right : decimal) : decimal := dec_mul left right.

Record bucket_inputs := BucketInputs {
  expected_revenue : decimal; expected_cost : decimal; actual_cost : decimal; actual_invoiced : decimal;
  expected_revenue_from_co : decimal; delivery_pct : decimal; co_recognition_gated : bool
}.
Definition only_keys (valid : list string) (d : object) : bool := forallb (λ kv, bool_decide (kv.1 ∈ valid)) d.
(** An object, or nothing for an empty one. *)
Definition object_or_empty (v : value) (what : string) : result ngaap_error object :=
  match v with VDict d => Ok d | VNum PyNone => Ok [] | _ => raise (ValueError what) end.
Definition _bucket_inputs (params_buckets : object) (bucket : string) : result ngaap_error bucket_inputs :=
  raw ← object_or_empty (get bucket params_buckets) bucket;
  inputs ← _normalised_keys raw bucket;
  ensure (only_keys _VALID_BUCKET_INPUT_KEYS inputs) (ValueError bucket) ≫= λ _,
  ensure (match get "bucket" inputs with
          | VNum PyNone => true
          | VStr declared => String.eqb (strip declared) bucket
          | _ => false
          end) (ValueError bucket) ≫= λ _,
  expected_revenue ← _as_money (get "expected_revenue" inputs) "expected_revenue";
  expected_cost ← _as_money (get "expected_cost" inputs) "expected_cost";
  actual_cost ← _as_money (get "actual_cost" inputs) "actual_cost";
  actual_invoiced ← _as_money (get "actual_invoiced" inputs) "actual_invoiced";
  expected_revenue_from_co ← _as_money (get "expected_revenue_from_co" inputs) "expected_revenue_from_co";
  delivery_pct ← _as_ratio (get "delivery_pct" inputs) "delivery_pct";
  co_recognition_gated ← _as_gate (get "co_recognition_gated" inputs) "co_recognition_gated";
  Ok (BucketInputs expected_revenue expected_cost actual_cost actual_invoiced expected_revenue_from_co delivery_pct
        co_recognition_gated).

Definition _normalised_params (params : value) : result ngaap_error object :=
  match params with
  | VDict d =>
      normalised ← _normalised_keys d "params";
      ensure (only_keys _VALID_PARAMS_KEYS normalised) (ValueError "params") ≫= λ _, Ok normalised
  | _ => raise (ValueError "params")
  end.
Definition _normalised_params_buckets (params : object) : result ngaap_error object :=
  raw ← object_or_empty (get "buckets" params) "buckets";
  buckets ← _normalised_keys raw "buckets";
  ensure (only_keys ALL_BUCKETS buckets) (ValueError "buckets") ≫= λ _, Ok buckets.

(** ** Accounts *)
Record target := Target {
  tg_account : string; tg_account_name : value; tg_account_type : value; tg_mva_code : Z; tg_balance_side : string
}.
Definition _require_mapping (config : object) (key what : string) (optional : bool) : result ngaap_error object :=
  match get key config with
  | VDict d => _normalised_keys d key
  | VNum PyNone => if optional then Ok [] else raise (ValueError what)
  | _ => raise (ValueError what)
  end.
Definition _target (account : value) (role : string) (plan role_mva role_side overrides : object) (bucket : string)
    : result ngaap_error target :=
  match account with
  | VStr account =>
      let account := strip account in
      ensure (negb (String.eqb account "")) (ValueError bucket) ≫= λ _,
      match get account plan with
      | VDict definition =>
          match if has account overrides then get account overrides else get role role_mva with
          | VNum (PyInt raw_mva) =>
              match get role role_side with
              | VStr side =>
                  ensure (bool_decide (side ∈ ["debit"; "credit"]%string)) (ValueError role) ≫= λ _,
                  Ok (Target account (get "name" definition) (get "type" definition) raw_mva side)
              | _ => raise (ValueError role)
              end
          | _ => raise (ValueError role)
          end
      | _ => raise (ValueError account)
      end
  | _ => raise (ValueError bucket)
  end.
Fixpoint targets_for (roles : list string) (of_role : string → result ngaap_error target)
    : result ngaap_error (list (string * target)) :=
  match roles with
  | [] => Ok []
  | role :: roles => t ← of_role role; ts ← targets_for roles of_role; Ok ((role, t) :: ts)
  end.
Fixpoint accounts_for (buckets : list string) (of_bucket : string → result ngaap_error (list (string * target)))
    : result ngaap_error (list (string * list (string * target))) :=
  match buckets with
  | [] => Ok []
  | b :: buckets => ts ← of_bucket b; rest ← accounts_for buckets of_bucket; Ok ((b, ts) :: rest)
  end.
Definition _resolve_accounts (chart mapping : object) : result ngaap_error (list (string * list (string * target))) :=
  bucket_accounts ← _require_mapping chart "bucket_accounts" "chart-of-accounts" false;
  shared_accounts ← _require_mapping chart "shared_accounts" "chart-of-accounts" false;
  plan ← _require_mapping chart "accounts" "chart-of-accounts" false;
  role_mva ← _require_mapping mapping "role_mva_code" "account-mapping" false;
  role_side ← _require_mapping mapping "role_balance_side" "account-mapping" false;
  overrides ← _require_mapping mapping "account_mva_overrides" "account-mapping" true;
  accounts_for ALL_BUCKETS (λ bucket,
    match get bucket bucket_accounts with
    | VDict per_bucket =>
        per_bucket ← _normalised_keys per_bucket bucket;
        own ← targets_for _PER_BUCKET_ROLES (λ role, _target (get role per_bucket) role plan role_mva role_side overrides bucket);
        shared ← targets_for _SHARED_ROLES (λ role, _target (get role shared_accounts) role plan role_mva role_side overrides bucket);
        Ok (own ++ shared)
    | _ => raise (ValueError bucket)
    end).

(** ** The amounts of a bucket *)
Record amounts := Amounts {
  target_accrued : decimal; target_deferred : decimal; target_recognized_cogs : decimal; target_wip : decimal;
  target_unrecognized : decimal; earned_revenue : decimal; am_actual_cost : decimal; am_actual_invoiced : decimal;
  recognition_basis_pct : decimal
}.
Definition _compute_bucket (inputs : bucket_inputs) : result ngaap_error amounts :=
  let gated_base := if co_recognition_gated inputs then dec_sub (expected_revenue inputs) (expected_revenue_from_co inputs)
                    else expected_revenue inputs in
  earned ← _quantise (_product gated_base (delivery_pct inputs)) "earned_revenue";
  let earned := if dec_leb earned _ZERO then _ZERO else earned in
  let revenue_gap := dec_sub earned (actual_invoiced inputs) in
  let accrued := if dec_ltb _ZERO revenue_gap then revenue_gap else _ZERO in
  let deferred := if dec_ltb revenue_gap _ZERO then dec_neg revenue_gap else _ZERO in
  cogs ← _quantise (_product (expected_cost inputs) (delivery_pct inputs)) "recognized_cogs";
  let wip := dec_sub (actual_cost inputs) cogs in
  unrecognized ← (if co_recognition_gated inputs
                  then _quantise (_product (expected_revenue_from_co inputs) (delivery_pct inputs)) "unrecognized"
                  else Ok _ZERO);
  Ok (Amounts accrued deferred cogs wip unrecognized earned (actual_cost inputs) (actual_invoiced inputs)
        (_product (delivery_pct inputs) (Dec 100 0))).
Definition _assert_bucket_identities (bucket : string) (a : amounts) : result ngaap_error () :=
  ensure (dec_eqb (dec_add (target_recognized_cogs a) (target_wip a)) (am_actual_cost a)) (ValueError bucket) ≫= λ _,
  ensure (dec_eqb (dec_sub (dec_add (am_actual_invoiced a) (target_accrued a)) (target_deferred a)) (earned_revenue a))
    (ValueError bucket).

(** ** Totals *)
Record totals := Totals {
  tt_accrued : decimal; tt_deferred : decimal; tt_recognized_cogs : decimal; tt_wip : decimal; tt_unrecognized : decimal;
  tt_earned_revenue : decimal; tt_actual_cost : decimal; tt_actual_invoiced : decimal
}.
Definition no_totals : totals := Totals _ZERO _ZERO _ZERO _ZERO _ZERO _ZERO _ZERO _ZERO.
Definition add_totals (t : totals) (a : amounts) : totals :=
  Totals (dec_add (tt_accrued t) (target_accrued a)) (dec_add (tt_deferred t) (target_deferred a))
    (dec_add (tt_recognized_cogs t) (target_recognized_cogs a)) (dec_add (tt_wip t) (target_wip a))
    (dec_add (tt_unrecognized t) (target_unrecognized a)) (dec_add (tt_earned_revenue t) (earned_revenue a))
    (dec_add (tt_actual_cost t) (am_actual_cost a)) (dec_add (tt_actual_invoiced t) (am_actual_invoiced a)).
Definition _assert_total_identities (t : totals) : result ngaap_error () :=
  ensure (dec_eqb (dec_add (tt_recognized_cogs t) (tt_wip t)) (tt_actual_cost t)) (ValueError "totals") ≫= λ _,
  ensure (dec_eqb (dec_sub (dec_add (tt_actual_invoiced t) (tt_accrued t)) (tt_deferred t)) (tt_earned_revenue t))
    (ValueError "totals").

Record bucket_entry := BucketEntry { be_bucket : string; be_amounts : amounts; be_accounts : list (string * target) }.
Record periodisation := Periodised {
  pd_project_id : value; pd_period_end : value; pd_gaap : value; pd_country : value;
  pd_buckets : list bucket_entry; pd_totals : totals
}.

(** The loop over the buckets. *)
Fixpoint compute_buckets (params_buckets : object) (accounts : list (string * list (string * target))) (t : totals)
    : result ngaap_error (totals * list bucket_entry) :=
  match accounts with
  | [] => Ok (t, [])
  | (bucket, targets) :: accounts =>
      inputs ← _bucket_inputs params_buckets bucket;
      a ← _compute_bucket inputs;
      _assert_bucket_identities bucket a ≫= λ _,
      '(t, rest) ← compute_buckets params_buckets accounts (add_totals t a);
      Ok (t, BucketEntry bucket a targets :: rest)
  end.

Definition do_compute_bucket_targets (chart mapping : object) (params : value) : result ngaap_error periodisation :=
  accounts_by_bucket ← _resolve_accounts chart mapping;
  params ← _normalised_params params;
  params_buckets ← _normalised_params_buckets params;
  '(t, buckets) ← compute_buckets params_buckets accounts_by_bucket no_totals;
  _assert_total_identities t ≫= λ _,
  Ok (Periodised (get "project_id" params) (get "period_end" params) (get "gaap" chart) (get "country" chart) buckets t).
