(* ===== verification/PeriodisationProps.v ===== *)
(** * PeriodisationProps: a period's amounts balance, bucket by bucket and in total *)
From S2P Require Import Prelude PyText PyDecimal Periodisation.
Local Open Scope Z_scope.

(** ** Rounding in both signs *)
Lemma num_digits_opp n : num_digits (- n) = num_digits n.
Proof. unfold num_digits. by rewrite Z.abs_opp. Qed.
Lemma round_coef_opp r n k : r ≠ ROUND_FLOOR → round_coef r (- n) k = - round_coef r n k.
Proof. intros Hr. unfold round_coef. destruct r; try done; rewrite Z.sgn_opp, Z.abs_opp; lia. Qed.
Lemma fix28_opp c e : fix28 (Dec (- c) e) = Dec (- coef (fix28 (Dec c e))) (dexp (fix28 (Dec c e))).
Proof.
  unfold fix28. cbn [coef dexp]. rewrite Z.abs_opp, num_digits_opp, round_coef_opp, Z.abs_opp by done.
  destruct (_ <? _); [done|]. destruct (Z.eqb_spec (Z.abs (round_coef ROUND_HALF_EVEN c (num_digits c - PREC))) (10 ^ PREC)) as [E|]; [|done].
  cbn [coef dexp]. f_equal. assert (0 < 10 ^ PREC) by done. change (10 ^ PREC) with (10 ^ 27 * 10) in *.
  destruct (Z.abs_spec (round_coef ROUND_HALF_EVEN c (num_digits c - PREC))) as [[_ Ha]|[_ Ha]]; rewrite Ha in E.
  - rewrite E. rewrite <- Z.mul_opp_l, !Z.div_mul by done. done.
  - rewrite E. replace (round_coef ROUND_HALF_EVEN c (num_digits c - PREC)) with (- 10 ^ 27 * 10) by lia.
    rewrite !Z.div_mul by done. lia.
Qed.

(** Rounding to the context at most doubles a number, and keeps its sign. *)
Lemma fix28_double c e : ∃ c' k, 0 <= k ∧ fix28 (Dec c e) = Dec c' (e + k) ∧ Z.abs c' * 10 ^ k <= 2 * Z.abs c ∧ (0 <= c → 0 <= c').
Proof.
  assert (∀ c, 0 < c → ∃ c' k, 0 <= k ∧ fix28 (Dec c e) = Dec c' (e + k) ∧ Z.abs c' * 10 ^ k <= 2 * c ∧ 0 <= c') as Hpos.
  { clear c. intros c Hc. destruct (fix28_near c e Hc) as (k & Hk & H1 & H2 & H3 & _).
    exists (coef (fix28 (Dec c e))), k. split; [done|]. split; [rewrite <- H1; by destruct (fix28 (Dec c e))|].
    split; [|lia]. assert (0 < 10 ^ k) by (apply Z.pow_pos_nonneg; lia). rewrite Z.abs_eq by lia.
    destruct (Z.ltb_spec c (10 ^ PREC)) as [Hs|Hl]; [lia|].
    assert (10 ^ (num_digits c - PREC) <= c).
    { destruct (num_digits_bounds c Hc) as [Hlow _]. etrans; [|exact Hlow]. apply Z.pow_le_mono_r; unfold PREC; lia. }
    lia. }
  destruct (Z.lt_trichotomy c 0) as [Hc|[->|Hc]].
  - destruct (Hpos (- c) ltac:(lia)) as (c' & k & Hk & H1 & H2 & H3). exists (- c'), k. split; [done|].
    split; [|rewrite Z.abs_opp, (Z.abs_neq c) by lia; split; [lia|lia]].
    replace c with (- - c) by lia. rewrite fix28_opp, H1. done.
  - exists 0, 0. rewrite Z.add_0_r. split_and!; [done|done|done|lia].
  - destruct (Hpos c Hc) as (c' & k & Hk & H1 & H2 & H3). exists c', k. split_and!; [done|done|by rewrite (Z.abs_eq c) by lia|done].
Qed.

Lemma round_half_up_bound c k : 0 <= k → Z.abs (round_coef ROUND_HALF_UP c k) <= Z.abs c / 10 ^ k + 1 ∧ (0 <= c → 0 <= round_coef ROUND_HALF_UP c k).
Proof.
  intros Hk. assert (0 < 10 ^ k) by (apply Z.pow_pos_nonneg; lia). assert (0 <= Z.abs c / 10 ^ k) by (apply Z.div_pos; lia).
  unfold round_coef. assert (0 <= round_nat ROUND_HALF_UP (Z.abs c) k <= Z.abs c / 10 ^ k + 1) as Hr by (unfold round_nat; case_match; lia).
  split; [rewrite Z.abs_mul; destruct (Z.sgn_spec c) as [[_ ->]|[[_ ->]|[_ ->]]]; lia|].
  intros Hc. apply Z.mul_nonneg_nonneg; [by apply Z.sgn_nonneg|lia].
Qed.

(** ** Money times a ratio of at most ten *)
Definition ore (n : Z) : decimal := Dec n (-2).
(** [n] hundredths times the ratio, rounded half away from zero. *)
Definition share (n : Z) (r : decimal) : Z :=
  if 0 <=? dexp r then n * coef r * 10 ^ dexp r else round_coef ROUND_HALF_UP (n * coef r) (- dexp r).

Lemma ratio_bound c e : dec_ltb (Dec c e) _MIN_RATIO = false → dec_ltb _MAX_RATIO (Dec c e) = false →
  0 <= c ∧ (if 0 <=? e then c * 10 ^ e <= 10 else c <= 10 * 10 ^ (- e)).
Proof.
  unfold dec_ltb, dec_compare, _MIN_RATIO, _MAX_RATIO, at_exp. cbn [coef dexp]. intros H1 H2.
  destruct (Z.leb_spec 0 e) as [He|He].
  - rewrite Z.min_r in H1 by lia. rewrite Z.min_l in H2 by lia. rewrite !Z.sub_0_r in *. change (0 * 10 ^ 0) with 0 in H1. change (10 * 10 ^ 0) with 10 in H2.
    assert (0 < 10 ^ e) by (apply Z.pow_pos_nonneg; lia).
    assert (0 <= c * 10 ^ e) by (destruct (Z.compare_spec (c * 10 ^ e) 0); (lia || done)).
    assert (c * 10 ^ e <= 10) by (destruct (Z.compare_spec 10 (c * 10 ^ e)); (lia || done)). split; [nia|done].
  - rewrite Z.min_l in H1 by lia. rewrite Z.min_r in H2 by lia. rewrite Z.sub_diag, Z.sub_0_l, Z.mul_1_r in *.
    assert (0 < 10 ^ (- e)) by (apply Z.pow_pos_nonneg; lia).
    split; [destruct (Z.compare_spec c (0 * 10 ^ (- e))); (lia || done)|destruct (Z.compare_spec (10 * 10 ^ (- e)) c); (lia || done)].
Qed.

Lemma product_quantised n c e w :
  Z.abs n < 10 ^ 24 → dec_ltb (Dec c e) _MIN_RATIO = false → dec_ltb _MAX_RATIO (Dec c e) = false →
  ∃ q, _quantise (_product (ore n) (Dec c e)) w = Ok (ore q) ∧ Z.abs q < 10 ^ 26 ∧ (0 <= n → 0 <= q) ∧
    (Z.abs (n * c) < 10 ^ PREC → q = share n (Dec c e)).
Proof.
  intros Hn Hlo Hhi. destruct (ratio_bound c e Hlo Hhi) as [Hc Hr]. unfold _quantise, _product, dec_mul, ore. cbn [coef dexp].
  destruct (fix28_double (n * c) (-2 + e)) as (c' & k & Hk & Hfix & Hb & Hpos). rewrite Hfix.
  assert (Z.abs (n * c) = Z.abs n * c) as Habs by (rewrite Z.abs_mul, (Z.abs_eq c) by lia; done). rewrite Habs in Hb.
  assert (0 < 10 ^ k) as Hk0 by (apply Z.pow_pos_nonneg; lia).
  set (q := if -2 <=? -2 + e + k then at_exp (-2) (Dec c' (-2 + e + k)) else round_coef ROUND_HALF_UP c' (-2 - (-2 + e + k))).
  assert (Z.abs q <= 20 * Z.abs n + 1 ∧ (0 <= n → 0 <= q)) as [Hq Hq0].
  { unfold q. destruct (Z.leb_spec (-2) (-2 + e + k)) as [Hs|Hs].
    - unfold at_exp. cbn [coef dexp]. replace (-2 + e + k - -2) with (e + k) by lia.
      assert (0 < 10 ^ (e + k)) by (apply Z.pow_pos_nonneg; lia).
      split; [|intros Hn0; apply Z.mul_nonneg_nonneg; [apply Hpos; nia|lia]].
      rewrite Z.abs_mul, (Z.abs_eq (10 ^ (e + k))) by lia. destruct (Z.leb_spec 0 e) as [He|He].
      + rewrite Z.add_comm, Z.pow_add_r by lia. assert (0 < 10 ^ e) by (apply Z.pow_pos_nonneg; lia).
        assert (Z.abs c' * (10 ^ k * 10 ^ e) <= 2 * (Z.abs n * c) * 10 ^ e) by nia. nia.
      + assert (10 ^ (e + k) * 10 ^ (- e) = 10 ^ k) as E by (rewrite <- Z.pow_add_r by lia; f_equal; lia).
        assert (0 < 10 ^ (- e)) by (apply Z.pow_pos_nonneg; lia).
        assert (Z.abs c' * 10 ^ (e + k) * 10 ^ (- e) <= 20 * Z.abs n * 10 ^ (- e)) by nia. nia.
    - replace (-2 - (-2 + e + k)) with (- (e + k)) by lia.
      destruct (round_half_up_bound c' (- (e + k)) ltac:(lia)) as [H1 H2]. split; [|intros Hn0; apply H2, Hpos; nia].
      etrans; [exact H1|]. apply Zplus_le_compat_r. apply Z.div_le_upper_bound; [apply Z.pow_pos_nonneg; lia|].
      destruct (Z.leb_spec 0 e) as [He|He]; [lia|].
      assert (10 ^ (- (e + k)) * 10 ^ k = 10 ^ (- e)) as E by (rewrite <- Z.pow_add_r by lia; f_equal; lia).
      assert (0 < 10 ^ (- (e + k))) by (apply Z.pow_pos_nonneg; lia).
      assert (Z.abs c' * 10 ^ k <= 20 * Z.abs n * 10 ^ (- (e + k)) * 10 ^ k) by (rewrite <- Z.mul_assoc, E; nia). nia. }
  exists q. assert (Z.abs q < 10 ^ 26) by (change (10 ^ 26) with (100 * 10 ^ 24); lia).
  split_and!; [|done|done|].
  - unfold quantize. cbn [dexp coef]. fold q. rewrite (proj2 (Z.ltb_lt _ _)); [done|]. change (10 ^ PREC) with (100 * 10 ^ 26). lia.
  - intros Hex. rewrite fix28_small in Hfix by done. injection Hfix as <- E. assert (k = 0) as -> by lia.
    unfold q, share. cbn [coef dexp]. rewrite Z.add_0_r. destruct (Z.leb_spec 0 e) as [He|He].
    + rewrite (proj2 (Z.leb_le _ _)) by lia. unfold at_exp. cbn [coef dexp]. by replace (-2 + e - -2) with e by lia.
    + rewrite (proj2 (Z.leb_gt _ _)) by lia. by replace (-2 - (-2 + e)) with (- e) by lia.
Qed.

(** The product is rounded twice when it needs more than 28 digits: to them, then to
    hundredths.  Even so it is off by at most half a hundredth and a two-thousandth. *)
Definition near (n : Z) (r : decimal) (q : Z) : Prop :=
  if 0 <=? dexp r then q = n * coef r * 10 ^ dexp r
  else 2000 * Z.abs (q * 10 ^ (- dexp r) - n * coef r) <= 1001 * 10 ^ (- dexp r).
Definition rounded (n : Z) (r : decimal) (q : Z) : Prop :=
  near n r q ∧ (Z.abs (n * coef r) < 10 ^ PREC → q = share n r).

Lemma fix28_close c e : ∃ c' k, 0 <= k ∧ fix28 (Dec c e) = Dec c' (e + k) ∧
  2 * Z.abs (c' * 10 ^ k - c) <= (if Z.abs c <? 10 ^ PREC then 0 else 10 ^ (num_digits c - PREC)).
Proof.
  assert (∀ c, 0 < c → ∃ c' k, 0 <= k ∧ fix28 (Dec c e) = Dec c' (e + k) ∧
    2 * Z.abs (c' * 10 ^ k - c) <= (if c <? 10 ^ PREC then 0 else 10 ^ (num_digits c - PREC))) as Hpos.
  { clear c. intros c Hc. destruct (fix28_near c e Hc) as (k & Hk & H1 & _ & H2 & _).
    exists (coef (fix28 (Dec c e))), k. split_and!; [done| |done]. rewrite <- H1. by destruct (fix28 (Dec c e)). }
  destruct (Z.lt_trichotomy c 0) as [Hc|[->|Hc]].
  - destruct (Hpos (- c) ltac:(lia)) as (c' & k & Hk & H1 & H2). exists (- c'), k. split; [done|].
    rewrite num_digits_opp in H2. rewrite (Z.abs_neq c) by lia.
    replace (- c' * 10 ^ k - c) with (- (c' * 10 ^ k - - c)) by lia. rewrite Z.abs_opp. split; [|done].
    replace c with (- - c) at 1 by lia. by rewrite fix28_opp, H1.
  - exists 0, 0. rewrite Z.add_0_r. split_and!; done.
  - rewrite Z.abs_eq by lia. by apply Hpos.
Qed.
Lemma round_half_up_near c k : 0 <= k → 2 * Z.abs (round_coef ROUND_HALF_UP c k * 10 ^ k - c) <= 10 ^ k.
Proof.
  intros Hk. assert (0 < 10 ^ k) as Hp by (apply Z.pow_pos_nonneg; lia). unfold round_coef, round_nat.
  pose proof (Z.div_mod (Z.abs c) (10 ^ k)) as E. pose proof (Z.mod_pos_bound (Z.abs c) (10 ^ k) Hp) as B.
  set (T := 10 ^ k) in *. set (q := Z.abs c / T) in *. set (r := Z.abs c mod T) in *. clearbody q r T.
  destruct (Z.leb_spec T (2 * r)), (Z.sgn_spec c) as [[? ->]|[[? ->]|[? ->]]]; nia.
Qed.
Lemma product_rounded n c e w q :
  Z.abs n < 10 ^ 24 → dec_ltb (Dec c e) _MIN_RATIO = false → dec_ltb _MAX_RATIO (Dec c e) = false →
  _quantise (_product (ore n) (Dec c e)) w = Ok (ore q) → (Z.abs (n * c) < 10 ^ PREC → q = share n (Dec c e)) →
  rounded n (Dec c e) q.
Proof.
  intros Hn Hlo Hhi Hq Hex. split; [|done]. destruct (ratio_bound c e Hlo Hhi) as [Hc Hr].
  assert (Z.abs (n * c) = Z.abs n * c) as Habs by (rewrite Z.abs_mul, (Z.abs_eq c) by lia; done).
  unfold near. cbn [coef dexp]. destruct (Z.leb_spec 0 e) as [He|He].
  { rewrite Hex; [unfold share; cbn [coef dexp]; by rewrite (proj2 (Z.leb_le _ _)) by done|].
    assert (0 < 10 ^ e) by (apply Z.pow_pos_nonneg; lia). rewrite Habs. change (10 ^ PREC) with (10000 * 10 ^ 24). nia. }
  unfold _quantise, _product, dec_mul, quantize, ore in Hq. cbn [coef dexp] in Hq.
  destruct (fix28_close (n * c) (-2 + e)) as (c' & k & Hk & Hfix & Hb). rewrite Hfix in Hq. cbn [dexp coef] in Hq.
  destruct (_ <? _) in Hq; [|done]. injection Hq as Hq.
  assert (0 < 10 ^ (- e)) as HE by (apply Z.pow_pos_nonneg; lia).
  assert (2000 * Z.abs (c' * 10 ^ k - n * c) <= 10 ^ (- e)) as Hfirst.
  { destruct (Z.ltb_spec (Z.abs (n * c)) (10 ^ PREC)) as [|Hl]; [lia|].
    assert (num_digits (n * c) <= 25 - e) as Hd.
    { assert (0 < Z.abs (n * c)) as Hp by (assert (0 < 10 ^ PREC) by done; lia).
      assert (num_digits (Z.abs (n * c)) = num_digits (n * c)) as Hd by (unfold num_digits; by rewrite Z.abs_idemp).
      destruct (num_digits_bounds _ Hp) as [Hlow _]. rewrite Hd in Hlow.
      assert (Z.abs (n * c) < 10 ^ (25 - e)).
      { rewrite Habs. replace (25 - e) with (24 + (1 + - e)) by lia. rewrite !Z.pow_add_r by lia. change (10 ^ 1) with 10.
        assert (0 < 10 ^ 24) by done. nia. }
      assert (10 ^ (num_digits (n * c) - 1) < 10 ^ (25 - e)) as Hlt by lia.
      apply Z.pow_lt_mono_r_iff in Hlt; lia. }
    pose proof (num_digits_large (Z.abs (n * c)) Hl) as Hd2.
    assert (num_digits (Z.abs (n * c)) = num_digits (n * c)) as Hd3 by (unfold num_digits; by rewrite Z.abs_idemp). rewrite Hd3 in Hd2.
    assert (1000 * 10 ^ (num_digits (n * c) - PREC) <= 10 ^ (- e)); [|lia].
    change 1000 with (10 ^ 3). rewrite <- Z.pow_add_r by lia. apply Z.pow_le_mono_r; unfold PREC; lia. }
  assert (2 * Z.abs (q * 10 ^ (- e) - c' * 10 ^ k) <= 10 ^ (- e)) as Hsecond.
  { destruct (Z.leb_spec (-2) (-2 + e + k)) as [Hs|Hs].
    - unfold at_exp in Hq. cbn [coef dexp] in Hq. rewrite <- Hq. replace (-2 + e + k - -2) with (e + k) by lia.
      rewrite <- Z.mul_assoc, <- Z.pow_add_r by lia. replace (e + k + - e) with k by lia. rewrite Z.sub_diag. lia.
    - replace (-2 - (-2 + e + k)) with (- e - k) in Hq by lia. pose proof (round_half_up_near c' (- e - k) ltac:(lia)) as H.
      rewrite Hq in H. replace (10 ^ (- e)) with (10 ^ (- e - k) * 10 ^ k) by (rewrite <- Z.pow_add_r by lia; f_equal; lia).
      assert (0 < 10 ^ k) by (apply Z.pow_pos_nonneg; lia). rewrite Z.mul_assoc, <- Z.mul_sub_distr_r, Z.abs_mul, (Z.abs_eq (10 ^ k)) by lia. nia. }
  lia.
Qed.
Lemma product_share n c e w :
  Z.abs n < 10 ^ 24 → dec_ltb (Dec c e) _MIN_RATIO = false → dec_ltb _MAX_RATIO (Dec c e) = false →
  ∃ q, _quantise (_product (ore n) (Dec c e)) w = Ok (ore q) ∧ Z.abs q < 10 ^ 26 ∧ rounded n (Dec c e) q.
Proof.
  intros Hn Hlo Hhi. destruct (product_quantised n c e w Hn Hlo Hhi) as (q & Hq & B & _ & Hex).
  exists q. split_and!; [done|done|by eapply product_rounded].
Qed.

(** ** One bucket *)

(** What coercion guarantees, and magnitudes far below the context's 28 digits. *)
Record modest (i : bucket_inputs) : Prop := Modest {
  modest_expected_revenue : ∃ n, expected_revenue i = ore n ∧ Z.abs n < 10 ^ 23;
  modest_expected_cost : ∃ n, expected_cost i = ore n ∧ Z.abs n < 10 ^ 23;
  modest_actual_cost : ∃ n, actual_cost i = ore n ∧ Z.abs n < 10 ^ 23;
  modest_actual_invoiced : ∃ n, actual_invoiced i = ore n ∧ Z.abs n < 10 ^ 23;
  modest_from_co : ∃ n, expected_revenue_from_co i = ore n ∧ Z.abs n < 10 ^ 23;
  modest_pct : dec_ltb (delivery_pct i) _MIN_RATIO = false ∧ dec_ltb _MAX_RATIO (delivery_pct i) = false
}.

(** The revenue in force, in hundredths: without the change orders when they are gated. *)
Definition gated_base (i : bucket_inputs) : Z :=
  coef (expected_revenue i) - (if co_recognition_gated i then coef (expected_revenue_from_co i) else 0).

(** The amounts of a bucket, as whole hundredths that balance. *)
Record balanced (a : amounts) : Prop := Balanced {
  bal_hundredths : Forall (λ d, dexp d = -2 ∧ Z.abs (coef d) < 2 * 10 ^ 26)
    [target_accrued a; target_deferred a; target_recognized_cogs a; target_wip a; target_unrecognized a; earned_revenue a;
     am_actual_cost a; am_actual_invoiced a];
  bal_cost : coef (target_recognized_cogs a) + coef (target_wip a) = coef (am_actual_cost a);
  bal_revenue : coef (am_actual_invoiced a) + coef (target_accrued a) - coef (target_deferred a) = coef (earned_revenue a);
  bal_signs : 0 <= coef (target_accrued a) ∧ 0 <= coef (target_deferred a) ∧ 0 <= coef (earned_revenue a);
  bal_one_side : coef (target_accrued a) = 0 ∨ coef (target_deferred a) = 0
}.

(** The values: shares of the revenue, the cost and the gated change orders. *)
Definition valued (i : bucket_inputs) (a : amounts) : Prop :=
  (∃ e, rounded (gated_base i) (delivery_pct i) e ∧ coef (earned_revenue a) = Z.max 0 e) ∧
  rounded (coef (expected_cost i)) (delivery_pct i) (coef (target_recognized_cogs a)) ∧
  (if co_recognition_gated i
   then rounded (coef (expected_revenue_from_co i)) (delivery_pct i) (coef (target_unrecognized a))
   else target_unrecognized a = _ZERO) ∧
  am_actual_cost a = actual_cost i ∧ am_actual_invoiced a = actual_invoiced i.

Lemma bind_run {E A B} (x : A) (f : A → result E B) : Ok x ≫= f = f x.
Proof. done. Qed.
Lemma ore_add a b : Z.abs (a + b) < 10 ^ PREC → dec_add (ore a) (ore b) = ore (a + b).
Proof. apply dec_add_same. Qed.
Lemma ore_sub a b : Z.abs (a - b) < 10 ^ PREC → dec_sub (ore a) (ore b) = ore (a - b).
Proof. intros H. unfold dec_sub, ore. cbn [coef dexp]. by rewrite dec_add_same. Qed.
Lemma ore_neg a : Z.abs a < 10 ^ PREC → dec_neg (ore a) = ore (- a).
Proof. intros H. unfold dec_neg, ore. cbn [coef dexp]. rewrite fix28_small; [done|]. cbn [coef]. by rewrite Z.abs_opp. Qed.
Lemma ore_eqb a : dec_eqb (ore a) (ore a) = true.
Proof. unfold dec_eqb, ore. by rewrite dec_compare_same, Z.compare_refl. Qed.

Lemma clamp_ore x : (if dec_leb (ore x) _ZERO then _ZERO else ore x) = ore (Z.max 0 x).
Proof. unfold ore, _ZERO. rewrite dec_leb_same. destruct (Z.leb_spec x 0); f_equal; lia. Qed.
Lemma pos_part_ore x : (if dec_ltb _ZERO (ore x) then ore x else _ZERO) = ore (Z.max 0 x).
Proof. unfold ore, _ZERO. rewrite dec_ltb_same. destruct (Z.ltb_spec 0 x); f_equal; lia. Qed.
Lemma neg_part_ore x : Z.abs x < 10 ^ PREC → (if dec_ltb (ore x) _ZERO then dec_neg (ore x) else _ZERO) = ore (Z.max 0 (- x)).
Proof. intros H. rewrite ore_neg by done. unfold ore, _ZERO. rewrite dec_ltb_same. destruct (Z.ltb_spec x 0); f_equal; lia. Qed.

(** The bucket's amounts from the earned revenue [E], the matched cost [c], the
    unrecognised part [u], the actual cost and what was invoiced. *)
Definition amounts_of (E c u ac ai : Z) (basis : decimal) : amounts :=
  Amounts (ore (Z.max 0 (E - ai))) (ore (Z.max 0 (- (E - ai)))) (ore c) (ore (ac - c)) (ore u) (ore E) (ore ac) (ore ai) basis.
Lemma within a B : - B < a < B → 100 * B = 10 ^ PREC → Z.abs a < 10 ^ PREC.
Proof. intros H <-. apply Z.abs_lt. lia. Qed.
Lemma amounts_of_balanced bucket B E c u ac ai basis :
  100 * B = 10 ^ PREC → 0 <= E < B → - B < c < B → - B < u < B → - B < ac < B → - B < ai < B → B = 10 ^ 26 →
  _assert_bucket_identities bucket (amounts_of E c u ac ai basis) = Ok () ∧ balanced (amounts_of E c u ac ai basis).
Proof.
  intros HP HE Hc Hu Hac Hai HB. split.
  - unfold _assert_bucket_identities, amounts_of.
    cbn [target_recognized_cogs target_wip am_actual_cost am_actual_invoiced target_accrued target_deferred earned_revenue].
    rewrite (ore_add c), (ore_add ai) by (apply Z.abs_lt; lia). replace (c + (ac - c)) with ac by lia. rewrite ore_eqb. cbn [ensure]. rewrite bind_run.
    rewrite ore_sub by (apply Z.abs_lt; lia).
    replace (ai + Z.max 0 (E - ai) - Z.max 0 (- (E - ai))) with E by lia. by rewrite ore_eqb.
  - split; cbn [amounts_of target_recognized_cogs target_wip am_actual_cost am_actual_invoiced target_accrued target_deferred
      earned_revenue target_unrecognized coef ore]; [|lia|lia|lia|lia].
    rewrite <- HB, !Forall_cons, Forall_nil. unfold ore. cbn [coef dexp]. split_and!; first [done | apply Z.abs_lt; lia].
Qed.

Lemma compute_bucket_ok b i : modest i →
  ∃ a, _compute_bucket i = Ok a ∧ _assert_bucket_identities b a = Ok () ∧ balanced a ∧ valued i a.
Proof.
  intros [(er & Her & Ber) (ec & Hec & Bec) (ac & Hac & Bac) (ai & Hai & Bai) (co & Hco & Bco) [Hlo Hhi]].
  apply Z.abs_lt in Ber, Bec, Bac, Bai, Bco.
  assert (10 ^ 24 = 10 * 10 ^ 23 ∧ 10 ^ 26 = 1000 * 10 ^ 23 ∧ 100 * 10 ^ 26 = 10 ^ PREC ∧ 0 < 10 ^ 23) as (H24 & H26 & HP & H0) by done.
  destruct (delivery_pct i) as [pc pe] eqn:Hpct.
  assert ((if co_recognition_gated i then dec_sub (expected_revenue i) (expected_revenue_from_co i) else expected_revenue i) =
    ore (gated_base i) ∧ Z.abs (gated_base i) < 10 ^ 24) as [Hg Bg].
  { unfold gated_base. rewrite Her, Hco. cbn [coef ore].
    destruct (co_recognition_gated i); [rewrite ore_sub by (apply Z.abs_lt; lia)|rewrite Z.sub_0_r]; (split; [done|apply Z.abs_lt; lia]). }
  unfold _compute_bucket. rewrite Hg, Hpct, Hec, Hac, Hai, Hco.
  destruct (product_share (gated_base i) pc pe "earned_revenue" Bg Hlo Hhi) as (e & -> & Be & Ve).
  destruct (product_share ec pc pe "recognized_cogs" ltac:(apply Z.abs_lt; lia) Hlo Hhi) as (c & -> & Bc & Vc).
  destruct (product_share co pc pe "unrecognized" ltac:(apply Z.abs_lt; lia) Hlo Hhi) as (u & Hu & Bu & Vu0).
  assert (∃ u', (if co_recognition_gated i then _quantise (_product (ore co) (Dec pc pe)) "unrecognized" else Ok _ZERO) = Ok (ore u') ∧
    Z.abs u' < 10 ^ 26 ∧ (if co_recognition_gated i then rounded co (Dec pc pe) u' else ore u' = _ZERO)) as (u' & -> & Bu' & Vu).
  { destruct (co_recognition_gated i).
    - exists u. split; [exact Hu|]. split; [exact Bu|exact Vu0].
    - exists 0. split; [reflexivity|]. split; [rewrite Z.abs_0; lia|reflexivity]. }
  apply Z.abs_lt in Be, Bc, Bu'. clear Bu Hu Hlo Hhi Bg Hg. rewrite !bind_run, clamp_ore.
  assert (0 <= Z.max 0 e < 10 ^ 26) as BE by lia.
  rewrite ore_sub by (clear -BE Bai H26 HP H0; apply Z.abs_lt; lia). rewrite pos_part_ore.
  rewrite neg_part_ore by (clear -BE Bai H26 HP H0; apply Z.abs_lt; lia).
  rewrite ore_sub by (clear -Bc Bac H26 HP H0; apply Z.abs_lt; lia).
  change (Amounts _ _ _ _ _ _ _ _ _) with (amounts_of (Z.max 0 e) c u' ac ai (_product (Dec pc pe) (Dec 100 0))).
  eexists. split; [reflexivity|].
  destruct (amounts_of_balanced b (10 ^ 26) (Z.max 0 e) c u' ac ai (_product (Dec pc pe) (Dec 100 0))) as [H1 H2]; [lia..|done|].
  split_and!; [done|done|]. unfold valued. rewrite Hpct, Hec, Hac, Hai, Hco.
  cbn [amounts_of target_recognized_cogs am_actual_cost am_actual_invoiced earned_revenue target_unrecognized coef ore].
  split; [exists e; split; [exact Ve|reflexivity]|]. split; [exact Vc|]. split; [|by split].
  destruct (co_recognition_gated i); exact Vu.
Qed.

(** ** What coercion gives *)
Lemma as_money_ore v w d : _as_money v w = Ok d → ∃ n, d = ore n.
Proof.
  unfold _as_money. intros H. apply bind_Ok in H as (d0 & _ & H). unfold _quantise in H.
  destruct (quantize ROUND_HALF_UP (-2) d0) as [d1|] eqn:Hq; [|done]. injection H as <-.
  apply quantize_spec in Hq as [Hq _]. exists (coef d1). destruct d1 as [c e]. simpl in *. by subst.
Qed.
Lemma as_ratio_ok v w d : _as_ratio v w = Ok d → dec_ltb d _MIN_RATIO = false ∧ dec_ltb _MAX_RATIO d = false.
Proof.
  unfold _as_ratio. intros H. apply bind_Ok in H as (d0 & _ & H). apply ensure_bind in H as [H1%negb_true_iff H].
  apply ensure_bind in H as [H2%negb_true_iff [= <-]]. done.
Qed.

(** The amounts a caller hands in, below 10^21 kroner. *)
Definition small_inputs (i : bucket_inputs) : Prop :=
  Forall (λ d, Z.abs (coef d) < 10 ^ 23)
    [expected_revenue i; expected_cost i; actual_cost i; actual_invoiced i; expected_revenue_from_co i].
Lemma bucket_inputs_modest pb b i : _bucket_inputs pb b = Ok i → small_inputs i → modest i.
Proof.
  unfold _bucket_inputs. intros H Hs. apply bind_Ok in H as (raw & _ & H). apply bind_Ok in H as (inputs & _ & H).
  apply ensure_bind in H as [_ H]. apply ensure_bind in H as [_ H].
  apply bind_Ok in H as (d1 & H1 & H). apply bind_Ok in H as (d2 & H2 & H). apply bind_Ok in H as (d3 & H3 & H).
  apply bind_Ok in H as (d4 & H4 & H). apply bind_Ok in H as (d5 & H5 & H). apply bind_Ok in H as (r & Hr & H).
  apply bind_Ok in H as (g & _ & [= <-]). unfold small_inputs in Hs. cbn [expected_revenue expected_cost actual_cost actual_invoiced
    expected_revenue_from_co] in Hs. rewrite !Forall_cons in Hs. destruct Hs as (S1 & S2 & S3 & S4 & S5 & _).
  apply as_money_ore in H1 as [n1 ->]. apply as_money_ore in H2 as [n2 ->]. apply as_money_ore in H3 as [n3 ->].
  apply as_money_ore in H4 as [n4 ->]. apply as_money_ore in H5 as [n5 ->]. apply as_ratio_ok in Hr.
  split; cbn [expected_revenue expected_cost actual_cost actual_invoiced expected_revenue_from_co delivery_pct]; eauto.
Qed.

(** ** Periods *)
(** The sum of an amount over the buckets, in hundredths. *)
Definition sum_of (f : amounts → decimal) (l : list bucket_entry) : Z := foldr (λ b acc, coef (f (be_amounts b)) + acc) 0 l.

Definition total_amounts : list ((totals → decimal) * (amounts → decimal)) :=
  [(tt_accrued, target_accrued); (tt_deferred, target_deferred); (tt_recognized_cogs, target_recognized_cogs);
   (tt_wip, target_wip); (tt_unrecognized, target_unrecognized); (tt_earned_revenue, earned_revenue);
   (tt_actual_cost, am_actual_cost); (tt_actual_invoiced, am_actual_invoiced)].

(** Each total is the sum of its amounts, in hundredths. *)
Definition totals_are (g : (amounts → decimal) → Z) (t : totals) : Prop :=
  Forall (λ tf : (totals → decimal) * (amounts → decimal), tf.1 t = ore (g tf.2)) total_amounts.

Lemma add_totals_are g t a : totals_are g t → balanced a →
  (∀ tf, tf ∈ total_amounts → Z.abs (g tf.2) <= 20 * 10 ^ 26) →
  totals_are (λ f, g f + coef (f a)) (add_totals t a).
Proof.
  intros Ht [Hb _ _ _ _] Hg. unfold totals_are, total_amounts in *. rewrite !Forall_cons, Forall_nil in *.
  assert (∀ tf d, tf ∈ total_amounts → tf.1 t = ore (g tf.2) → dexp d = -2 ∧ Z.abs (coef d) < 2 * 10 ^ 26 →
    dec_add (tf.1 t) d = ore (g tf.2 + coef d)) as Hadd.
  { intros tf [c e] Hin -> [He Hc]. cbn [dexp coef] in *. subst e. apply ore_add. pose proof (Hg tf Hin) as Hgt.
    change (10 ^ PREC) with (100 * 10 ^ 26). revert Hgt Hc. generalize (10 ^ 26) (g tf.2). intros B x Hx Hc.
    apply Z.abs_lt in Hc. apply Z.abs_le in Hx. apply Z.abs_lt. lia. }
  destruct Ht as (T1 & T2 & T3 & T4 & T5 & T6 & T7 & T8 & _), Hb as (B1 & B2 & B3 & B4 & B5 & B6 & B7 & B8 & _).
  cbn [fst snd] in *. unfold total_amounts in Hadd. split_and!; try done; cbn [fst snd add_totals tt_accrued tt_deferred tt_recognized_cogs tt_wip
    tt_unrecognized tt_earned_revenue tt_actual_cost tt_actual_invoiced].
  - apply (Hadd (tt_accrued, target_accrued)); [set_solver|done|done].
  - apply (Hadd (tt_deferred, target_deferred)); [set_solver|done|done].
  - apply (Hadd (tt_recognized_cogs, target_recognized_cogs)); [set_solver|done|done].
  - apply (Hadd (tt_wip, target_wip)); [set_solver|done|done].
  - apply (Hadd (tt_unrecognized, target_unrecognized)); [set_solver|done|done].
  - apply (Hadd (tt_earned_revenue, earned_revenue)); [set_solver|done|done].
  - apply (Hadd (tt_actual_cost, am_actual_cost)); [set_solver|done|done].
  - apply (Hadd (tt_actual_invoiced, am_actual_invoiced)); [set_solver|done|done].
Qed.

(** A bucket of the result: its inputs' amounts, balanced, at its accounts. *)
Definition entry_ok (pb : object) (acc : string * list (string * target)) (e : bucket_entry) : Prop :=
  be_bucket e = acc.1 ∧ be_accounts e = acc.2 ∧ balanced (be_amounts e) ∧
  ∃ i, _bucket_inputs pb acc.1 = Ok i ∧ _compute_bucket i = Ok (be_amounts e) ∧ valued i (be_amounts e).

Lemma balanced_bound a tf : balanced a → tf ∈ total_amounts → Z.abs (coef (tf.2 a)) <= 2 * 10 ^ 26.
Proof.
  intros [Hb _ _ _ _] Hin. rewrite !Forall_cons in Hb. destruct Hb as (B1 & B2 & B3 & B4 & B5 & B6 & B7 & B8 & _).
  apply Z.lt_le_incl. unfold total_amounts in Hin.
  repeat (apply elem_of_cons in Hin as [->|Hin]; [cbn [snd]; tauto|]). by apply not_elem_of_nil in Hin.
Qed.

Lemma compute_buckets_ok pb accs g t (k : Z) :
  (∀ acc, acc ∈ accs → ∃ i, _bucket_inputs pb acc.1 = Ok i ∧ small_inputs i) →
  totals_are g t → (∀ tf, tf ∈ total_amounts → Z.abs (g tf.2) <= k * (2 * 10 ^ 26)) → 0 <= k → k + Z.of_nat (length accs) <= 10 →
  ∃ t' l, compute_buckets pb accs t = Ok (t', l) ∧ Forall2 (entry_ok pb) accs l ∧ totals_are (λ f, g f + sum_of f l) t'.
Proof.
  revert g t k; induction accs as [|[b targets] accs IH]; intros g t k Hin Ht Hg Hk Hlen.
  - exists t, []. split; [done|]. split; [constructor|]. eapply Forall_impl; [exact Ht|]. intros tf H. cbn beta in *. rewrite H. by rewrite Z.add_0_r.
  - destruct (Hin (b, targets) (list_elem_of_here _ _)) as (i & Hi & Hs). cbn [fst] in Hi.
    destruct (compute_bucket_ok b i (bucket_inputs_modest _ _ _ Hi Hs)) as (a & Ha & Hid & Hbal & Hval).
    cbn [length] in Hlen. rewrite Nat2Z.inj_succ in Hlen.
    destruct (IH (λ f, g f + coef (f a)) (add_totals t a) (k + 1)) as (t' & l & Hrun & Hl & Ht').
    + intros acc Hacc. apply Hin. by right.
    + apply add_totals_are; [done|done|]. intros tf Htf. etrans; [by apply Hg|].
      apply Z.le_trans with (10 * (2 * 10 ^ 26)); [|lia]. apply Z.mul_le_mono_nonneg_r; [lia|lia].
    + intros tf Htf. cbn beta. etrans; [apply Z.abs_triangle|]. rewrite Z.mul_add_distr_r, Z.mul_1_l.
      apply Z.add_le_mono; [by apply Hg|by apply balanced_bound].
    + lia.
    + lia.
    + exists t', (BucketEntry b a targets :: l). split_and!.
      * cbn [compute_buckets]. rewrite Hi, bind_run, Ha, bind_run, Hid, bind_run, Hrun, bind_run. done.
      * constructor; [|done]. split_and!; [done|done|done|]. by exists i.
      * eapply Forall_impl; [exact Ht'|]. intros tf Htf. cbn beta in *. rewrite Htf. f_equal. unfold sum_of. cbn [foldr be_amounts]. lia.
Qed.

Lemma accounts_for_names bs f accs : accounts_for bs f = Ok accs → accs.*1 = bs.
Proof.
  revert accs; induction bs as [|b bs IH]; intros accs H; simpl in H; [by injection H as <-|].
  apply bind_Ok in H as (ts & _ & H). apply bind_Ok in H as (rest & Hr & [= <-]). cbn. f_equal. by apply IH.
Qed.
Lemma resolved_names chart mapping accs : _resolve_accounts chart mapping = Ok accs → accs.*1 = ALL_BUCKETS.
Proof.
  unfold _resolve_accounts. intros H. do 6 (apply bind_Ok in H as (? & _ & H)). by eapply accounts_for_names.
Qed.

Lemma sum_of_linear (f g h : amounts → decimal) l :
  Forall (λ b, coef (f (be_amounts b)) + coef (g (be_amounts b)) = coef (h (be_amounts b))) l → sum_of f l + sum_of g l = sum_of h l.
Proof. unfold sum_of. induction 1 as [|b l H _ IH]; simpl; lia. Qed.

Lemma sum_of_bound f l : Forall (λ b, Z.abs (coef (f (be_amounts b))) <= 2 * 10 ^ 26) l → Z.abs (sum_of f l) <= Z.of_nat (length l) * (2 * 10 ^ 26).
Proof.
  generalize (2 * 10 ^ 26). intros B. unfold sum_of. induction 1 as [|b l H _ IH]; [done|]. cbn [foldr length]. rewrite Nat2Z.inj_succ.
  etrans; [apply Z.abs_triangle|]. lia.
Qed.
Lemma no_totals_are : totals_are (λ _, 0) no_totals.
Proof. unfold totals_are, total_amounts. by rewrite !Forall_cons, Forall_nil. Qed.

(** C38: The periodisation of a project balances to the last hundredth.  When the
    configuration resolves, the parameters are well-formed and amounts stay below
    10^21 kroner, the call returns the seven buckets in order, each at the
    accounts of the configuration.  In every bucket recognised cost and work in
    progress make up the actual cost; invoiced plus accrued minus deferred is the
    earned revenue; earned revenue, accrued and deferred amounts are not negative, and
    a bucket is not accrued and deferred at once.  Earned revenue (at least zero),
    recognised cost and the gated change orders' unrecognised part are the delivered
    share, off by at most half a hundredth and a two-thousandth; where the hundredths
    times the ratio's digits fit the context's 28 digits they are the share rounded
    half up once (above that it is rounded twice, see [rounded_twice]).  Every total
    is the exact sum. *)
Theorem periodisation_balances chart mapping params accs p pb :
  _resolve_accounts chart mapping = Ok accs →
  _normalised_params params = Ok p → _normalised_params_buckets p = Ok pb →
  (∀ b, b ∈ ALL_BUCKETS → ∃ i, _bucket_inputs pb b = Ok i ∧ small_inputs i) →
  ∃ r, do_compute_bucket_targets chart mapping params = Ok r ∧
    Forall2 (entry_ok pb) accs (pd_buckets r) ∧
    totals_are (λ f, sum_of f (pd_buckets r)) (pd_totals r).
Proof.
  intros Hacc Hp Hpb Hin. pose proof (resolved_names _ _ _ Hacc) as Hnames.
  assert (length accs = 7%nat) as Hlen by (rewrite <- (length_fmap fst accs), Hnames; done).
  destruct (compute_buckets_ok pb accs (λ _, 0) no_totals 0) as (t & l & Hrun & Hl & Ht).
  - intros [b ts] Hb. apply Hin. rewrite <- Hnames. apply list_elem_of_fmap. by exists (b, ts).
  - exact no_totals_are.
  - intros tf _. done.
  - done.
  - rewrite Hlen. done.
  - exists (Periodised (get "project_id" p) (get "period_end" p) (get "gaap" chart) (get "country" chart) l t).
    split; [|split; [done|exact Ht]].
    unfold do_compute_bucket_targets. rewrite Hacc, bind_run, Hp, bind_run, Hpb, bind_run, Hrun, bind_run.
    assert (Forall (λ b, balanced (be_amounts b)) l) as Hbal.
    { eapply Forall2_Forall_r; [exact Hl|]. apply Forall_forall. intros acc _ e (_ & _ & ? & _). done. }
    assert (∀ f, f ∈ total_amounts.*2 → Z.abs (sum_of f l) <= 14 * 10 ^ 26) as Hsum.
    { intros f Hf. apply list_elem_of_fmap in Hf as (tf & -> & Htf). etrans; [apply sum_of_bound|].
      - eapply Forall_impl; [exact Hbal|]. intros e He. by apply balanced_bound.
      - rewrite <- (Forall2_length _ _ _ Hl), Hlen. clear. lia. }
    unfold _assert_total_identities. unfold totals_are, total_amounts in Ht. rewrite !Forall_cons in Ht. cbn [fst snd] in Ht.
    destruct Ht as (-> & -> & -> & -> & _ & -> & -> & -> & _). rewrite !Z.add_0_l.
    assert (sum_of target_recognized_cogs l + sum_of target_wip l = sum_of am_actual_cost l) as Ec.
    { apply sum_of_linear. eapply Forall_impl; [exact Hbal|]. by intros e [_ ? _ _ _]. }
    assert (sum_of am_actual_invoiced l + sum_of target_accrued l - sum_of target_deferred l = sum_of earned_revenue l) as Er.
    { clear -Hbal. unfold sum_of. induction Hbal as [|e l [_ _ H _ _] _ IH]; [done|]. cbn [foldr]. lia. }
    pose proof (Hsum am_actual_cost ltac:(set_solver)) as S1. pose proof (Hsum am_actual_invoiced ltac:(set_solver)) as S2.
    pose proof (Hsum target_accrued ltac:(set_solver)) as S3. pose proof (Hsum target_deferred ltac:(set_solver)) as S4.
    clear -Ec Er S1 S2 S3 S4.
    assert (100 * 10 ^ 26 = 10 ^ PREC ∧ 0 < 10 ^ 26) as HP by done. revert HP S1 S2 S3 S4. generalize (10 ^ 26). intros B [HP HB] S1 S2 S3 S4.
    apply Z.abs_le in S1, S2, S3, S4.
    rewrite (ore_add (sum_of target_recognized_cogs l)) by (rewrite Ec; apply Z.abs_lt; lia). rewrite Ec, ore_eqb. cbn [ensure]. rewrite bind_run.
    rewrite (ore_add (sum_of am_actual_invoiced l)) by (apply Z.abs_lt; lia). rewrite ore_sub by (apply Z.abs_lt; lia). by rewrite Er, ore_eqb.
Qed.

(** The configuration decides accounts only: with any two configurations that
    resolve, one set of parameters gives the same amounts and totals, or fails
    with the same error. *)
Lemma compute_buckets_accounts pb accs accs' t : accs.*1 = accs'.*1 →
  match compute_buckets pb accs t, compute_buckets pb accs' t with
  | Ok (t1, l1), Ok (t2, l2) => t1 = t2 ∧ be_amounts <$> l1 = be_amounts <$> l2
  | Err e1, Err e2 => e1 = e2
  | _, _ => False
  end.
Proof.
  revert accs' t; induction accs as [|[b ts] accs IH]; intros [|[b' ts'] accs'] t H; try done. injection H as <- H.
  cbn [compute_buckets]. destruct (_bucket_inputs pb b) as [i|]; [|done]. rewrite !bind_run.
  destruct (_compute_bucket i) as [a|]; [|done]. rewrite !bind_run. destruct (_assert_bucket_identities b a); [|done]. rewrite !bind_run.
  specialize (IH accs' (add_totals t a) H).
  destruct (compute_buckets pb accs _) as [[t1 l1]|], (compute_buckets pb accs' _) as [[t2 l2]|]; try done.
  destruct IH as [-> E]. split; [done|]. cbn. by f_equal.
Qed.
Theorem accounts_never_change_amounts chart mapping chart' mapping' params accs accs' :
  _resolve_accounts chart mapping = Ok accs → _resolve_accounts chart' mapping' = Ok accs' →
  match do_compute_bucket_targets chart mapping params, do_compute_bucket_targets chart' mapping' params with
  | Ok r, Ok r' => (be_amounts <$> pd_buckets r) = (be_amounts <$> pd_buckets r') ∧ pd_totals r = pd_totals r'
  | Err e, Err e' => e = e'
  | _, _ => False
  end.
Proof.
  intros H H'. unfold do_compute_bucket_targets. rewrite H, H', !bind_run.
  destruct (_normalised_params params) as [p|]; [|done]. rewrite !bind_run.
  destruct (_normalised_params_buckets p) as [pb|]; [|done]. rewrite !bind_run.
  pose proof (compute_buckets_accounts pb accs accs' no_totals) as Hc.
  rewrite (resolved_names _ _ _ H), (resolved_names _ _ _ H') in Hc. specialize (Hc eq_refl).
  destruct (compute_buckets pb accs _) as [[t1 l1]|], (compute_buckets pb accs' _) as [[t2 l2]|]; try done.
  destruct Hc as [-> E]. rewrite !bind_run. by destruct (_assert_total_identities t2).
Qed.

(** ** Witness *)
Definition demo_accounts (n : string) : value :=
  VDict [("cogs"%string, VStr n); ("revenue"%string, VStr "3000"); ("accrued"%string, VStr "1531"); ("deferred"%string, VStr "2901")].
Definition demo_plan : object :=
  (λ a, (a, VDict [("name"%string, VStr a)])) <$> ["4300"; "3000"; "1531"; "2901"; "1771"]%string.
Definition demo_chart : object :=
  [("bucket_accounts"%string, VDict ((λ b, (b, demo_accounts "4300")) <$> ALL_BUCKETS));
   ("shared_accounts"%string, VDict [("wip"%string, VStr "1771")]); ("accounts"%string, VDict demo_plan)].
Definition demo_sides : object :=
  [("cogs"%string, VStr "debit"); ("revenue"%string, VStr "credit"); ("accrued"%string, VStr "debit");
   ("deferred"%string, VStr "credit"); ("wip"%string, VStr "debit")].
Definition demo_mapping : object :=
  [("role_mva_code"%string, VDict ((λ kv, (kv.1, VNum (PyInt 0))) <$> demo_sides)); ("role_balance_side"%string, VDict demo_sides)].
Definition demo_hardware : value :=
  VDict [("expected_revenue"%string, VNum (PyInt 1000)); ("expected_cost"%string, VNum (PyFloat (Dec 7005 (-1))));
         ("actual_cost"%string, VNum (PyInt 500)); ("actual_invoiced"%string, VNum (PyInt 400));
         ("expected_revenue_from_co"%string, VNum (PyInt 100)); ("delivery_pct"%string, VNum (PyFloat (Dec 333 (-3))));
         ("co_recognition_gated"%string, VNum (PyBool true))].
Definition demo_params : value := VDict [("buckets"%string, VDict [(" hardware "%string, demo_hardware)])].

Lemma periodisation_balances_witness :
  ∃ r, do_compute_bucket_targets demo_chart demo_mapping demo_params = Ok r ∧
    totals_are (λ f, sum_of f (pd_buckets r)) (pd_totals r).
Proof.
  edestruct (periodisation_balances demo_chart demo_mapping demo_params) as (r & Hr & _ & Ht).
  - vm_compute. reflexivity.
  - vm_compute. reflexivity.
  - vm_compute. reflexivity.
  - intros b Hb. unfold ALL_BUCKETS, HW_BUCKETS, SOFT_BUCKETS in Hb. cbn [app] in Hb.
    repeat (apply elem_of_cons in Hb as [->|Hb];
      [eexists; split; [vm_compute; reflexivity|unfold small_inputs; rewrite !Forall_cons, Forall_nil; split_and!; vm_compute; done]|]).
    by apply not_elem_of_nil in Hb.
  - exists r. split; [exact Hr|exact Ht].
Defined.
(** A third delivered, over-invoiced, cost ahead of delivery. *)
Example demo_hardware_amounts :
  match do_compute_bucket_targets demo_chart demo_mapping demo_params with
  | Ok r => (λ e, let a := be_amounts e in (coef (earned_revenue a), coef (target_accrued a), coef (target_deferred a),
              coef (target_recognized_cogs a), coef (target_wip a), coef (target_unrecognized a))) <$> head (pd_buckets r)
  | Err _ => None
  end = Some (29970, 0, 10030, 23327, 26673, 3330).
Proof. vm_compute. reflexivity. Qed.
(** Above the context's 28 digits the product is rounded twice: the delivered share
    of 10000050000000000000.03 at the float 0.3333333333333333 is
    3333349999999999666.674999999999999999, booked as .68 and not .67. *)
Definition demo_large : bucket_inputs :=
  BucketInputs (ore 1000005000000000000003) _ZERO _ZERO _ZERO _ZERO (Dec 3333333333333333 (-16)) false.
Example rounded_twice :
  small_inputs demo_large ∧ earned_revenue <$> _compute_bucket demo_large = Ok (ore 333334999999999966668) ∧
  share 1000005000000000000003 (Dec 3333333333333333 (-16)) = 333334999999999966667.
Proof. split; [unfold small_inputs; rewrite !Forall_cons, Forall_nil; by split_and!|]. vm_compute. by split. Qed.
