(* ===== verification/SourceMode.v ===== *)
(** * SourceMode: which system a function reads and writes, and the gate of a flip

    Models [src/nce/source_mode/]: the resolver with its comparison heartbeat, the
    dispatch of reads and writes, the divergence log, and the flip of a function to
    native-only; and the parity check of the customer list in
    [src/nce/vertical_modules/sales/source_mode.py].

    Readers, writers and parity checks are the caller's: programs that return or
    raise, and whose effects stay either way.  Times are in microseconds. *)
From S2P Require Import Prelude PyFloat.
Local Open Scope Z_scope.

(** ** Programs without a transaction *)
Definition io (W E A : Type) : Type := W → W * result E A.
#[global] Instance io_ret W E : MRet (io W E) := λ A a w, (w, Ok a).
#[global] Instance io_bind W E : MBind (io W E) := λ A B f m w,
  match m w with (w', Ok a) => f a w' | (w', Err e) => (w', Err e) end.

(** ** State *)
Inductive mode := d365 | both | nce.
#[global] Instance mode_eq : EqDecision mode.
Proof. solve_decision. Defined.
Definition mode_text (m : mode) : string := match m with d365 => "d365" | both => "both" | nce => "nce" end.
Definition _DEFAULT_MODE : mode := d365.

Record divergence := Divergence {
  dv_id : Z; dv_namespace : string; dv_engine : string; dv_entity : string; dv_field : string;
  dv_nce_value : option string; dv_ext_value : option string; dv_materiality : float; dv_detected_at : Z
}.
Record sm_db := SmDb {
  source_mode_config : gmap (string * string * string) string;      (* namespace, engine, function *)
  divergence_log : list divergence;                                 (* in order of insertion *)
  source_mode_heartbeat : gmap (string * string) (Z * Z)            (* last_checked_at, check_count *)
}.

(** ** [divergence.py] *)
Definition _HEARTBEAT_THROTTLE : Z := 60 * 1000000.

(** [up]: a failure is logged and swallowed. *)
Definition record_comparison_heartbeat (up : bool) (now : Z) (ns engine : string) (s : sm_db) : sm_db :=
  if up then
    match source_mode_heartbeat s !! (ns, engine) with
    | None => SmDb (source_mode_config s) (divergence_log s) (<[(ns, engine) := (now, 1)]> (source_mode_heartbeat s))
    | Some (last_checked_at, check_count) =>
        if last_checked_at <? now - _HEARTBEAT_THROTTLE
        then SmDb (source_mode_config s) (divergence_log s) (<[(ns, engine) := (now, check_count + 1)]> (source_mode_heartbeat s))
        else s
    end
  else s.
Definition last_comparison_at (ns engine : string) (s : sm_db) : option Z := fst <$> source_mode_heartbeat s !! (ns, engine).

(** What is compared, and how much it differs. *)
Record difference := Difference {
  df_entity : string; df_field : string; df_nce_value : option string; df_ext_value : option string; df_materiality : float
}.
(** The row is kept whatever its materiality; the answer is whether it pages. *)
Definition record_divergence (threshold : float) (now : Z) (ns engine : string) (alert : bool) (d : difference) (s : sm_db) : sm_db * bool :=
  (SmDb (source_mode_config s)
     (divergence_log s ++ [Divergence (Z.of_nat (length (divergence_log s))) ns engine (df_entity d) (df_field d) (df_nce_value d)
        (df_ext_value d) (df_materiality d) now])
     (source_mode_heartbeat s),
   fltb threshold (df_materiality d) && alert).

Definition in_window (now window : Z) (ns engine : string) (d : divergence) : bool :=
  String.eqb (dv_namespace d) ns && String.eqb (dv_engine d) engine && (now - window <=? dv_detected_at d).
Definition window_rows (now window : Z) (ns engine : string) (s : sm_db) : list divergence :=
  List.filter (in_window now window ns engine) (divergence_log s).
Definition flip_blocked (now window : Z) (ns engine : string) (s : sm_db) : bool :=
  0 <? Z.of_nat (length (window_rows now window ns engine s)).

(** ** [resolver.py] *)
Definition mode_of (text : string) : option mode :=
  if String.eqb text "d365" then Some d365 else if String.eqb text "both" then Some both
  else if String.eqb text "nce" then Some nce else None.
Definition resolve (up : bool) (now : Z) (ns engine function : string) (s : sm_db) : sm_db * mode :=
  match source_mode_config s !! (ns, engine, function) with
  | None => (s, _DEFAULT_MODE)
  | Some text =>
      match mode_of text with
      | None => (s, _DEFAULT_MODE)
      | Some both => (record_comparison_heartbeat up now ns engine s, both)
      | Some m => (s, m)
      end
  end.

(** [_READ_DISPATCH]: use native, use external, run the parity check. *)
Definition _READ_DISPATCH (m : mode) : bool * bool * bool :=
  match m with d365 => (false, true, false) | both => (true, false, true) | nce => (true, false, false) end.
Definition when_ {W E A} (b : bool) (p : io W E A) : io W E (option A) :=
  if b then (p ≫= λ a, mret (Some a)) else mret None.
Definition read_through {W E V} (m : mode) (native_reader external_reader : io W E V) (parity_check : V → V → io W E ())
    : io W E (option V) :=
  let '(use_native, use_external, run_parity) := _READ_DISPATCH m in
  when_ (use_native || run_parity) native_reader ≫= λ native_result,
  when_ (use_external || run_parity) external_reader ≫= λ external_result,
  (match native_result, external_result with
   | Some n, Some e => if (run_parity : bool) then parity_check n e else mret ()
   | _, _ => mret ()
   end) ≫= λ _,
  mret (if (use_native || run_parity : bool) then native_result else external_result).

(** [_WRITE_DISPATCH]: write native, write external. *)
Definition _WRITE_DISPATCH (m : mode) : bool * bool :=
  match m with d365 => (false, true) | both => (true, true) | nce => (true, false) end.
Definition write_route {W E V} (m : mode) (native_writer external_writer : io W E V) : io W E (option V * option V) :=
  let '(write_native, write_external) := _WRITE_DISPATCH m in
  when_ write_native native_writer ≫= λ native_result,
  when_ write_external external_writer ≫= λ external_result,
  mret (native_result, external_result).

(** ** [flip.py] *)
Definition _DEFAULT_WINDOW : Z := 7 * 86400 * 1000000.
Inductive flip_result := Flipped (function : string) | Refused (divergences_count : Z).

(** The check and what follows run in separate sessions; [other] acts between, and
    the count of a refusal has its own [now()]. *)
Definition flip_function (now now_count window : Z) (ns engine function : string) (other : sm_db → sm_db) (s : sm_db) : sm_db * flip_result :=
  if flip_blocked now window ns engine s then
    let s := other s in (s, Refused (Z.of_nat (length (window_rows now_count window ns engine s))))
  else
    let s := other s in
    (SmDb (<[(ns, engine, function) := "nce"%string]> (source_mode_config s)) (divergence_log s) (source_mode_heartbeat s),
     Flipped function).

(** [ORDER BY detected_at DESC, id DESC]. *)
Definition newer (a b : divergence) : bool :=
  (dv_detected_at b <? dv_detected_at a) || ((dv_detected_at a =? dv_detected_at b) && (dv_id b <=? dv_id a)).
Record status := Status {
  st_clean : bool; st_flip_blocked : bool; st_divergences_count : Z; st_material_divergences_count : Z;
  st_last_compared_at : option Z; st_heartbeat_stale : bool; st_items : list (divergence * bool)
}.
Definition flip_status (threshold : float) (now window : Z) (ns engine : string) (entity : option string) (limit offset : Z) (s : sm_db)
    : status :=
  let limit := Z.min (Z.max 1 limit) 500 in
  let offset := Z.max 0 offset in
  let rows := match entity with
              | Some e => if String.eqb e "" then window_rows now window ns engine s
                          else List.filter (λ d, String.eqb (dv_entity d) e) (window_rows now window ns engine s)
              | None => window_rows now window ns engine s
              end in
  let is_material d := fltb threshold (dv_materiality d) in
  let total_count := Z.of_nat (length rows) in
  let last_checked := last_comparison_at ns engine s in
  Status (total_count =? 0) (0 <? total_count) total_count (Z.of_nat (length (List.filter is_material rows))) last_checked
    (match last_checked with None => true | Some t => t <? now - window end)
    ((λ d, (d, is_material d)) <$> take (Z.to_nat limit) (drop (Z.to_nat offset) (sorted_by newer rows))).

(** ** The customer list of [sales/source_mode.py] *)
Record customer := Customer { cu_id : option string; cu_name : option string; cu_city : option string }.
Definition log_sales_divergence (entity field : string) (nce_value ext_value : option string) : list difference :=
  if bool_decide (nce_value = ext_value) then [] else [Difference entity field nce_value ext_value (of_Z 1)].
Definition truthy (s : option string) : option string :=
  match s with Some s => if String.eqb s "" then None else Some s | None => None end.
(** [cu_id] is [accountid] or else [_id]; the last native item of an id counts. *)
Definition native_item (native : list customer) (id : string) : option customer :=
  List.find (λ c, bool_decide (truthy (cu_id c) = Some id)) (rev native).
Definition list_customers_parity (native external : list customer) : list difference :=
  external ≫= λ ext_item,
    match truthy (cu_id ext_item) with
    | None => []
    | Some ext_id =>
        let entity := "account:" +:+ ext_id in
        match native_item native ext_id with
        | None => log_sales_divergence entity "existence" None (cu_name ext_item)
        | Some nat_item =>
            log_sales_divergence entity "name" (cu_name nat_item) (cu_name ext_item) ++
            log_sales_divergence entity "address1_city" (cu_city nat_item) (cu_city ext_item)
        end
    end.
