(* ===== verification/SourceModeProps.v ===== *)
(** * SourceModeProps: a flip to native-only is backed by parity *)
From S2P Require Import Prelude PyFloat SourceMode.
Local Open Scope Z_scope.

(** ** Reads as the engines make them *)
Section reads.
Context {E V : Type} (threshold : float) (p : V → V → list difference).

(** The parity check records each difference it finds. *)
Definition log_differences (now : Z) (ns engine : string) (ds : list difference) (s : sm_db) : sm_db :=
  foldl (λ s d, (record_divergence threshold now ns engine true d s).1) s ds.
Definition parity_check (now : Z) (ns engine : string) (a b : V) : io sm_db E () := λ s, (log_differences now ns engine (p a b) s, Ok ()).
(** What each system answers, if it does. *)
Definition read (up : bool) (now : Z) (ns engine function : string) (native external : result E V) (s : sm_db)
    : sm_db * result E (option V) :=
  let '(s, m) := resolve up now ns engine function s in
  read_through m (λ s, (s, native)) (λ s, (s, external)) (parity_check now ns engine) s.

(** A comparison that took place: when, whose, and the two answers. *)
Record comparison := Comparison { cp_at : Z; cp_namespace : string; cp_engine : string; cp_native : V; cp_external : V }.
Definition compared (now : Z) (ns engine function : string) (native external : result E V) (s : sm_db) : list comparison :=
  match (resolve true now ns engine function s).2, native, external with
  | both, Ok a, Ok b => [Comparison now ns engine a b]
  | _, _, _ => []
  end.

(** Any history: reads of any function, differences recorded by others, and
    whatever else leaves the log alone (configuration, flips, heartbeats). *)
Inductive sm_run : list comparison → sm_db → Prop :=
  | run_start s : sm_run [] s
  | run_read cs s up now ns engine function native external :
      sm_run cs s → sm_run (compared now ns engine function native external s ++ cs)
                      (read up now ns engine function native external s).1
  | run_record cs s now ns engine alert d : sm_run cs s → sm_run cs (record_divergence threshold now ns engine alert d s).1
  | run_other cs s s' : sm_run cs s → divergence_log s' = divergence_log s → sm_run cs s'.

Lemma log_differences_log now ns engine ds s : ∃ rows,
  divergence_log (log_differences now ns engine ds s) = divergence_log s ++ rows ∧ length rows = length ds ∧
  Forall (λ d, dv_namespace d = ns ∧ dv_engine d = engine ∧ dv_detected_at d = now) rows ∧
  source_mode_config (log_differences now ns engine ds s) = source_mode_config s.
Proof.
  revert s; induction ds as [|d ds IH]; intros s.
  - exists []. by rewrite app_nil_r.
  - destruct (IH (record_divergence threshold now ns engine true d s).1) as (rows & H1 & H2 & H3 & H4).
    eexists (_ :: rows). split_and!.
    + unfold log_differences in *. cbn [foldl]. rewrite H1. cbn [record_divergence fst divergence_log]. by rewrite <- app_assoc.
    + cbn. by rewrite H2.
    + by constructor.
    + unfold log_differences in *. cbn [foldl]. by rewrite H4.
Qed.

Lemma resolve_log up now ns engine function s :
  divergence_log (resolve up now ns engine function s).1 = divergence_log s ∧
  source_mode_config (resolve up now ns engine function s).1 = source_mode_config s ∧
  (resolve up now ns engine function s).2 = (resolve true now ns engine function s).2.
Proof.
  unfold resolve. destruct (source_mode_config s !! _) as [text|]; [|done]. destruct (mode_of text) as [[]|]; try done.
  cbn [fst snd]. unfold record_comparison_heartbeat. destruct up; [|done].
  destruct (source_mode_heartbeat s !! _) as [[t n]|]; [|done]. by destruct (_ <? _).
Qed.

(** A read compares exactly in mode [both], when both systems answer. *)
Lemma read_log up now ns engine function native external s : ∃ rows,
  divergence_log (read up now ns engine function native external s).1 = divergence_log s ++ rows ∧
  match compared now ns engine function native external s with
  | [] => rows = []
  | c :: cs => cs = [] ∧ length rows = length (p (cp_native c) (cp_external c)) ∧
      Forall (λ d, dv_namespace d = cp_namespace c ∧ dv_engine d = cp_engine c ∧ dv_detected_at d = cp_at c) rows
  end.
Proof.
  unfold read, compared. destruct (resolve_log up now ns engine function s) as (Hl & _ & Hm).
  destruct (resolve up now ns engine function s) as [s1 m]. cbn [fst snd] in *. rewrite <- Hm, <- Hl.
  destruct m; unfold read_through; cbn.
  - exists []. rewrite app_nil_r. split; [|by destruct native, external]. by destruct external.
  - destruct native as [a|]; cbn; [|exists []; by rewrite app_nil_r].
    destruct external as [b|]; cbn; [|exists []; by rewrite app_nil_r].
    destruct (log_differences_log now ns engine (p a b) s1) as (rows & H1 & H2 & H3 & _). by exists rows.
  - exists []. rewrite app_nil_r. split; [|by destruct native, external]. by destruct native.
Qed.

(** Every comparison that found a difference left its row. *)
Lemma run_logged cs s : sm_run cs s → ∀ c, c ∈ cs → p (cp_native c) (cp_external c) ≠ [] →
  ∃ d, d ∈ divergence_log s ∧ dv_namespace d = cp_namespace c ∧ dv_engine d = cp_engine c ∧ dv_detected_at d = cp_at c.
Proof.
  induction 1 as [s|cs s up now ns engine function native external _ IH|cs s now ns engine alert d _ IH|cs s s' _ IH Hl]; intros c Hc Hne.
  - by apply not_elem_of_nil in Hc.
  - destruct (read_log up now ns engine function native external s) as (rows & -> & Hrows).
    apply elem_of_app in Hc as [Hc|Hc].
    + destruct (compared _ _ _ _ _ _ s) as [|c0 cs0]; [by apply not_elem_of_nil in Hc|]. destruct Hrows as (-> & Hlen & Hf).
      apply list_elem_of_singleton in Hc as ->. destruct rows as [|d rows].
      { exfalso. apply Hne. by destruct (p _ _). }
      apply Forall_cons in Hf as [Hd _]. exists d. split; [|done]. apply elem_of_app. right. left.
    + destruct (IH c Hc Hne) as (d & Hd & Hd'). exists d. split; [|done]. apply elem_of_app. by left.
  - destruct (IH c Hc Hne) as (d' & Hd & Hd'). exists d'. split; [|done]. cbn [record_divergence fst divergence_log].
    apply elem_of_app. by left.
  - destruct (IH c Hc Hne) as (d & Hd & Hd'). exists d. by rewrite Hl.
Qed.
End reads.

(** ** The gate *)
Lemma window_rows_elem now window ns engine s d : d ∈ divergence_log s →
  dv_namespace d = ns → dv_engine d = engine → now - window ≤ dv_detected_at d → d ∈ window_rows now window ns engine s.
Proof.
  intros Hd Hns Hen Ht. apply list_elem_of_In, filter_In. split; [by apply list_elem_of_In|].
  unfold in_window. rewrite Hns, Hen, !String.eqb_refl. cbn [andb]. by apply Z.leb_le.
Qed.
Lemma flip_blocked_spec now window ns engine s :
  flip_blocked now window ns engine s = true ↔
  ∃ d, d ∈ divergence_log s ∧ dv_namespace d = ns ∧ dv_engine d = engine ∧ now - window ≤ dv_detected_at d.
Proof.
  unfold flip_blocked. rewrite Z.ltb_lt. split.
  - intros H. destruct (window_rows now window ns engine s) as [|d l] eqn:E; [simpl in H; lia|].
    assert (d ∈ window_rows now window ns engine s) as Hd by (rewrite E; left).
    apply list_elem_of_In, filter_In in Hd as [Hd Hw]. exists d. split; [by apply list_elem_of_In|].
    unfold in_window in Hw. apply andb_true_iff in Hw as [[H1%String.eqb_eq H2%String.eqb_eq]%andb_true_iff H3%Z.leb_le]. done.
  - intros (d & Hd & Hns & Hen & Ht). pose proof (window_rows_elem now window ns engine s d Hd Hns Hen Ht) as Hin.
    destruct (window_rows now window ns engine s); [by apply not_elem_of_nil in Hin|]. cbn [length]. lia.
Qed.

Lemma resolve_flipped ns engine function s up now : source_mode_config s !! (ns, engine, function) = Some "nce"%string →
  resolve up now ns engine function s = (s, nce).
Proof. intros H. unfold resolve. by rewrite H. Qed.

(** C40: A flip to native-only is backed by parity.  Take any history in which
    every function's reads go through the dispatch, each read with its comparison one
    step, with any parity check; other transactions may change the configuration and
    add divergences between the flip's check and its write.  A flip succeeds exactly
    when its check finds no divergence in the engine's window; then the parity check
    had found nothing in any of the engine's comparisons in the window until then (how
    much that says is up to the parity check, see [missing_nameless_account_unseen],
    and there may have been none, see [flips_uncompared]).  The function's mode becomes
    native-only, whatever it was, and no other function's changes; and in the state
    left its reads answer from the native reader alone, without a comparison, and its
    writes reach the native writer alone.  A refused flip changes nothing; the window held a
    divergence, and the count it names is positive while the window still does. *)
Theorem flip_backed_by_parity {E V} threshold (p : V → V → list difference) cs s now now_count window ns engine function other :
  sm_run (E := E) threshold p cs s →
  (∀ s, ∃ rows, divergence_log (other s) = divergence_log s ++ rows) →
  let '(s', r) := flip_function now now_count window ns engine function other s in
  match r with
  | Flipped f =>
      f = function ∧ flip_blocked now window ns engine s = false ∧
      source_mode_config s' !! (ns, engine, function) = Some "nce"%string ∧
      (∀ c, c ∈ cs → cp_namespace c = ns → cp_engine c = engine → now - window ≤ cp_at c → p (cp_native c) (cp_external c) = []) ∧
      (∀ key, key ≠ (ns, engine, function) → source_mode_config s' !! key = source_mode_config (other s) !! key) ∧
      (∀ up t, resolve up t ns engine function s' = (s', nce)) ∧
      (∀ up t (native external : result E V),
         read threshold p up t ns engine function native external s' = (s', Some <$> native)) ∧
      (∀ W (w : W) (native external : io W E V),
         write_route nce native external w = let '(w', a) := native w in (w', (λ a, (Some a, None)) <$> a))
  | Refused n =>
      s' = other s ∧
      ∃ d, d ∈ divergence_log s ∧ dv_namespace d = ns ∧ dv_engine d = engine ∧ now - window ≤ dv_detected_at d ∧
        (now_count - window ≤ dv_detected_at d → 0 < n)
  end.
Proof.
  intros Hrun Hother. unfold flip_function. destruct (flip_blocked now window ns engine s) eqn:Hb.
  - apply flip_blocked_spec in Hb as (d & Hd & Hns & Hen & Ht). split; [done|]. exists d. split_and!; [done..|].
    intros Ht'. destruct (Hother s) as [rows Hrows].
    assert (d ∈ window_rows now_count window ns engine (other s)) as Hin.
    { apply window_rows_elem; [rewrite Hrows; apply elem_of_app; by left|done..]. }
    destruct (window_rows now_count window ns engine (other s)); [by apply not_elem_of_nil in Hin|]. cbn [length]. lia.
  - split_and!; [done|done|cbn [source_mode_config]; by rewrite lookup_insert_eq| | | | |].
    + intros c Hc Hns Hen Ht. destruct (p (cp_native c) (cp_external c)) as [|df ds] eqn:Hne; [done|].
      destruct (run_logged threshold p cs s Hrun c Hc) as (d & Hd & H1 & H2 & H3); [by rewrite Hne|].
      assert (flip_blocked now window ns engine s = true); [|congruence].
      apply flip_blocked_spec. exists d. split_and!; [done|congruence..|lia].
    + intros key Hkey. cbn [source_mode_config]. by rewrite lookup_insert_ne by congruence.
    + intros up t. apply resolve_flipped. cbn [source_mode_config]. by rewrite lookup_insert_eq.
    + intros up t native external. unfold read. rewrite resolve_flipped by (cbn [source_mode_config]; by rewrite lookup_insert_eq).
      by destruct native.
    + intros W w native external. unfold write_route; cbn. unfold mbind, io_bind, when_; cbn. unfold mbind, io_bind.
      destruct (native w) as [w' [a|e]]; reflexivity.
Qed.


(** ** A namespace that compares its customers *)
Definition demo_p (a b : string) : list difference := log_sales_divergence "account:7" "name" (Some a) (Some b).
Lemma demo_p_differs a b : demo_p a b = [] → a = b.
Proof. unfold demo_p, log_sales_divergence. case_bool_decide; [congruence|done]. Qed.
Definition demo_key : string * string * string := ("acme", "sales", "list_customers")%string.
Definition demo_both : sm_db := SmDb {[demo_key := "both"%string]} [] ∅.
Definition demo_read (now : Z) (a b : string) (s : sm_db) : sm_db :=
  (read (E := ()) (of_Z 0) demo_p true now "acme" "sales" "list_customers" (Ok a) (Ok b) s).1.
Definition demo_agreed : sm_db := demo_read 60 "Beta" "Beta" demo_both.
Definition demo_agreed_cs : list (comparison (V := string)) := [Comparison 60 "acme" "sales" "Beta" "Beta"]%string.
Lemma demo_agreed_run : sm_run (E := ()) (of_Z 0) demo_p demo_agreed_cs demo_agreed.
Proof.
  apply (run_read (E := ()) (of_Z 0) demo_p [] demo_both true 60 "acme" "sales" "list_customers" (Ok "Beta"%string) (Ok "Beta"%string)).
  apply run_start.
Qed.

Lemma flip_backed_by_parity_witness :
  let '(s', r) := flip_function 100 100 _DEFAULT_WINDOW "acme" "sales" "list_customers" id demo_agreed in
  r = Flipped "list_customers" ∧ source_mode_config s' !! demo_key = Some "nce"%string ∧
  ∀ c, c ∈ demo_agreed_cs → cp_native c = cp_external c.
Proof.
  pose proof (flip_backed_by_parity (E := ()) (of_Z 0) demo_p demo_agreed_cs demo_agreed 100 100 _DEFAULT_WINDOW "acme" "sales"
    "list_customers" id demo_agreed_run (λ s, ex_intro _ [] (eq_sym (app_nil_r _)))) as H.
  assert (flip_function 100 100 _DEFAULT_WINDOW "acme" "sales" "list_customers" id demo_agreed =
    ((flip_function 100 100 _DEFAULT_WINDOW "acme" "sales" "list_customers" id demo_agreed).1, Flipped "list_customers")) as E
    by (vm_compute; reflexivity).
  rewrite E in H |- *. destruct H as (_ & _ & _ & Hc & _). split; [reflexivity|]. split; [vm_compute; reflexivity|].
  intros c Hin. apply demo_p_differs, Hc; [exact Hin|..]; apply list_elem_of_singleton in Hin; subst c; vm_compute; congruence.
Defined.

(** A difference within the week blocks the flip; after it the window is clean again. *)
Example difference_blocks :
  (flip_function 200 200 _DEFAULT_WINDOW "acme" "sales" "list_customers" id (demo_read 60 "Beta" "Gamma" demo_both)).2 = Refused 1.
Proof. vm_compute. reflexivity. Qed.
Example difference_expires :
  (flip_function (_DEFAULT_WINDOW + 61) (_DEFAULT_WINDOW + 61) _DEFAULT_WINDOW "acme" "sales" "list_customers" id (demo_read 60 "Beta" "Gamma" demo_both)).2
  = Flipped "list_customers".
Proof. vm_compute. reflexivity. Qed.

(** A flip needs neither the mode [both] nor any comparison: a function that was
    never configured, hence external only, flips at once. *)
Example flips_uncompared :
  (flip_function 100 100 _DEFAULT_WINDOW "acme" "sales" "get_margin" id (SmDb ∅ [] ∅)).2 = Flipped "get_margin".
Proof. vm_compute. reflexivity. Qed.

(** The heartbeat is recorded before the readers run: with an external system that
    never answers nothing is compared, and the comparison still looks fresh. *)
Example heartbeat_without_comparison :
  let s := (read (of_Z 0) demo_p true 100 "acme" "sales" "list_customers" (Ok "Beta"%string) (Err tt) demo_both).1 in
  compared 100 "acme" "sales" "list_customers" (Ok "Beta"%string) (Err (E := ()) tt) demo_both = [] ∧
  st_heartbeat_stale (flip_status (of_Z 0) 200 _DEFAULT_WINDOW "acme" "sales" None 100 0 s) = false ∧
  (flip_function 200 200 _DEFAULT_WINDOW "acme" "sales" "list_customers" id s).2 = Flipped "list_customers".
Proof. vm_compute. done. Qed.

(** The customer list's parity check finds nothing when the native system lacks an
    account without a name, nor when it has an account the external system lacks. *)
Example missing_nameless_account_unseen :
  list_customers_parity [] [Customer (Some "7"%string) None (Some "Oslo"%string)] = [].
Proof. vm_compute. reflexivity. Qed.
Example native_only_account_unseen :
  list_customers_parity [Customer (Some "8"%string) (Some "Beta"%string) None] [] = [].
Proof. vm_compute. reflexivity. Qed.
