(* ===== verification/MemoryStore.v ===== *)
(** * MemoryStore: the store-memory saga over two databases, and its recovery

    Models the saga of [src/nce/orchestrators/memory.py]
    ([_run_store_memory_saga] and the steps it calls), the code indexing worker of
    [src/nce/tasks.py] up to its retry accounting, and [_saga_recovery_tick] of
    [src/nce/cron.py].

    A memory is a document in MongoDB and rows in PostgreSQL; no transaction spans
    both.  A call to a database may fail before it arrives or after it took
    effect, and a process may stop between any two calls.  So a run of the saga is
    a record of its local variables and [saga_step] performs its next call.

    [rls]: whether the connection's role is subject to row-level security, under
    which a statement outside a namespace's session fails.  Embeddings, the PII
    vault and [detect_contradictions] are left out. *)
From S2P Require Import Prelude PyText AuditLog OutboxRelay Locks.
Local Open Scope Z_scope.

(** ** Documents and rows *)
Inductive collection := episodes | code_files.
#[global] Instance collection_eq : EqDecision collection.
Proof. solve_decision. Defined.
#[global] Instance collection_countable : Countable collection.
Proof.
  refine (inj_countable' (λ c, match c with episodes => true | code_files => false end)
    (λ b : bool, if b then episodes else code_files) _); by intros [].
Defined.

Record document := Document { doc_namespace_id : option string; doc_ingested_at : option Z }.
Record memory := Memory {
  m_namespace_id : option string;                                   (* NULL: a row of no namespace *)
  m_agent_id : string; m_memory_type : string; m_filepath : option (string * option string);
  m_payload_ref : string; m_created_at : Z; m_valid_to : option Z
}.
Definition in_namespace (ns : string) (m : memory) : bool := match m_namespace_id m with Some n => String.eqb n ns | None => false end.
Record kg_node := KgNode { n_entity_type : string; n_payload_ref : option string; n_change_origin : string }.
Record kg_edge := KgEdge { e_confidence : string; e_payload_ref : option string; e_change_origin : string }.
Record saga := Saga { sg_namespace_id : string; sg_agent_id : string; sg_state : string; sg_memory_id : option string; sg_updated_at : Z }.

Record world (Log : Type) := World {
  memories : gmap string memory;
  kg_nodes : gmap (string * string) kg_node;                        (* namespace, label *)
  kg_edges : gmap (string * (string * string * string)) kg_edge;    (* namespace, subject, predicate, object *)
  saga_execution_log : gmap string saga;
  event_log : Log;
  outbox_events : list outbox_row;
  mongo : gmap (collection * string) document;
  cache : gmap string string
}.
Arguments World {Log}.
Arguments memories {Log}. Arguments kg_nodes {Log}. Arguments kg_edges {Log}. Arguments saga_execution_log {Log}.
Arguments event_log {Log}. Arguments outbox_events {Log}. Arguments mongo {Log}. Arguments cache {Log}.

(** *** Updates of one store *)
Section updates.
Context {Log : Type}.
Definition set_memories f (w : world Log) : world Log :=
  World (f (memories w)) (kg_nodes w) (kg_edges w) (saga_execution_log w) (event_log w) (outbox_events w) (mongo w) (cache w).
Definition set_graph f g (w : world Log) : world Log :=
  World (memories w) (f (kg_nodes w)) (g (kg_edges w)) (saga_execution_log w) (event_log w) (outbox_events w) (mongo w) (cache w).
Definition set_sagas f (w : world Log) : world Log :=
  World (memories w) (kg_nodes w) (kg_edges w) (f (saga_execution_log w)) (event_log w) (outbox_events w) (mongo w) (cache w).
Definition set_events l (w : world Log) : world Log :=
  World (memories w) (kg_nodes w) (kg_edges w) (saga_execution_log w) l (outbox_events w) (mongo w) (cache w).
Definition set_outbox f (w : world Log) : world Log :=
  World (memories w) (kg_nodes w) (kg_edges w) (saga_execution_log w) (event_log w) (f (outbox_events w)) (mongo w) (cache w).
Definition set_mongo f (w : world Log) : world Log :=
  World (memories w) (kg_nodes w) (kg_edges w) (saga_execution_log w) (event_log w) (outbox_events w) (f (mongo w)) (cache w).
Definition set_cache f (w : world Log) : world Log :=
  World (memories w) (kg_nodes w) (kg_edges w) (saga_execution_log w) (event_log w) (outbox_events w) (mongo w) (f (cache w)).
End updates.

(** ** A request, and what extraction finds in it *)
Record request := Request {
  rq_namespace_id : string; rq_agent_id : string; rq_assertion_type : string; rq_memory_type : string;
  rq_user_id : option string; rq_session_id : option string
}.
Record extraction := Extraction {
  sanitized_summary : string; redacted_entities : option (list string); vault_size : Z;
  entities : list (string * string);                                (* label, entity_type *)
  triplets : list (string * string * string * string)               (* subject, predicate, object, confidence *)
}.

Definition _OPERATOR_AGENT_IDS : list string := ["system"; "admin"; "operator"]%string.
Definition _saga_change_origin (agent_id : string) : string :=
  if bool_decide (agent_id ∈ _OPERATOR_AGENT_IDS) then "operator" else "agent".

(** What a call is given beside its arguments: whether it arrives, the clock, the
    identifiers it draws, and what the event log needs. *)
Record given (Env : Type) := Given { g_call : call; g_now : Z; g_id : string; g_id' : string; g_env : Env; g_env' : Env }.
Arguments Given {Env}. Arguments g_call {Env}. Arguments g_now {Env}. Arguments g_id {Env}. Arguments g_id' {Env}.
Arguments g_env {Env}. Arguments g_env' {Env}.

Section saga.
Context {Log Env : Type} `{AuditLog Log Env}.
Implicit Types w : world Log.

(** ** The graph transaction *)

(** A statement that upserts two rows with one key fails. *)
Definition upsert_nodes (ns origin ref : string) (l : list (string * string)) (m : gmap (string * string) kg_node)
    : option (gmap (string * string) kg_node) :=
  if bool_decide (NoDup l.*1)
  then Some (foldr (λ e m,
    let kept := match m !! (ns, e.1) with
                | Some n => if bool_decide (n_change_origin n ∈ ["sync"; "webhook"]%string) then n_change_origin n else origin
                | None => origin
                end in
    <[(ns, e.1) := KgNode e.2 (Some ref) kept]> m) m l)
  else None.
Definition triple_of (t : string * string * string * string) : string * string * string := t.1.
Definition upsert_edges (ns origin ref : string) (l : list (string * string * string * string))
    (m : gmap (string * (string * string * string)) kg_edge) : option (gmap (string * (string * string * string)) kg_edge) :=
  if bool_decide (NoDup (triple_of <$> l))
  then Some (foldr (λ t m,
    let kept := match m !! (ns, triple_of t) with
                | Some e => if bool_decide (e_change_origin e ∈ ["sync"; "webhook"]%string) then e_change_origin e else origin
                | None => origin
                end in
    <[(ns, triple_of t) := KgEdge t.2 (Some ref) kept]> m) m l)
  else None.

Definition store_memory_params (saga_id memory_id ref assertion_type : string) (x : extraction) : jobject :=
  [("saga_id", JStr saga_id); ("memory_id", JStr memory_id); ("payload_ref", JStr ref); ("assertion_type", JStr assertion_type);
   ("entities", JArr ((λ e, JObj [("label", JStr e.1); ("entity_type", JStr e.2)]) <$> entities x));
   ("triplets", JArr ((λ t, let '(s, p, o, c) := t in
      JObj [("subject_label", JStr s); ("predicate", JStr p); ("object_label", JStr o); ("confidence", JFloat c)]) <$> triplets x))]%string.
Definition pii_redaction_params (memory_id : string) (types : list string) (n : Z) : jobject :=
  [("memory_id", JStr memory_id); ("entity_types", JArr (JStr <$> types)); ("tokens_redacted", JInt n)]%string.
Definition outbox_payload (saga_id memory_id ref assertion_type memory_type : string) (x : extraction) : json :=
  JObj [("saga_id", JStr saga_id); ("memory_id", JStr memory_id); ("payload_ref", JStr ref); ("assertion_type", JStr assertion_type);
        ("memory_type", JStr memory_type); ("entities_count", JInt (Z.of_nat (length (entities x))));
        ("triplets_count", JInt (Z.of_nat (length (triplets x))))]%string.
Definition _enqueue_outbox (id : string) (now : Z) (ns aggregate_type aggregate_id event_type : string) (payload : json)
    : list outbox_row → list outbox_row :=
  λ l, l ++ [OutboxRow id ns aggregate_type aggregate_id event_type payload 0 None now false].

Definition _embed_and_insert_vectors (rq : request) (ref id : string) (now : Z) (m : gmap string memory) : option (gmap string memory) :=
  match m !! id with
  | Some _ => None
  | None => Some (<[id := Memory (Some (rq_namespace_id rq)) (rq_agent_id rq) (rq_memory_type rq) None ref now None]> m)
  end.
Definition _insert_graph_nodes_and_edges (env : Env) (rq : request) (x : extraction) (saga_id memory_id ref : string) (w : world Log)
    : option (world Log) :=
  let origin := _saga_change_origin (rq_agent_id rq) in
  nodes ← upsert_nodes (rq_namespace_id rq) origin ref (entities x) (kg_nodes w);
  edges ← upsert_edges (rq_namespace_id rq) origin ref (triplets x) (kg_edges w);
  log ← audit_append env (event_log w) (rq_namespace_id rq) (rq_agent_id rq) "store_memory"
          (store_memory_params saga_id memory_id ref (rq_assertion_type rq) x);
  Some (set_events log (set_graph (λ _, nodes) (λ _, edges) w)).
(** [None]: an exception, and the transaction rolls back. *)
Definition _store_semantic_graph_pg (g : given Env) (rq : request) (x : extraction) (saga_id ref : string) (w : world Log)
    : option (world Log) :=
  let memory_id := g_id g in
  m ← _embed_and_insert_vectors rq ref memory_id (g_now g) (memories w);
  w ← _insert_graph_nodes_and_edges (g_env g) rq x saga_id memory_id ref (set_memories (λ _, m) w);
  log ← (match redacted_entities x with
         | Some types => audit_append (g_env' g) (event_log w) (rq_namespace_id rq) (rq_agent_id rq) "pii_redaction"
                           (pii_redaction_params memory_id types (vault_size x))
         | None => Some (event_log w)
         end);
  Some (set_outbox (_enqueue_outbox (g_id' g) (g_now g) (rq_namespace_id rq) "memory" memory_id "memory.stored"
          (outbox_payload saga_id memory_id ref (rq_assertion_type rq) (rq_memory_type rq) x)) (set_events log w)).

(** ** The saga's log *)

(** The states the table's CHECK constraint accepts. *)
Definition saga_state_ok (st : string) : bool :=
  bool_decide (st ∈ ["started"; "pg_committed"; "completed"; "rolled_back"; "recovery_needed"]%string).
Definition _saga_log_start (now : Z) (id : string) (rq : request) (w : world Log) : world Log :=
  set_sagas <[id := Saga (rq_namespace_id rq) (rq_agent_id rq) "started" None now]> w.
(** [UPDATE saga_execution_log ... WHERE id = saga_id], in no namespace's session. *)
Definition _saga_log_transition (rls : bool) (now : Z) (id state : string) (memory_id : option string) (w : world Log) : world Log :=
  if rls || negb (saga_state_ok state) then w
  else set_sagas (alter (λ s, Saga (sg_namespace_id s) (sg_agent_id s) state
                                (match memory_id with Some m => Some m | None => sg_memory_id s end) now) id) w.

(** ** Rollback *)
Definition retire (now : Z) (m : memory) : memory :=
  Memory (m_namespace_id m) (m_agent_id m) (m_memory_type m) (m_filepath m) (m_payload_ref m) (m_created_at m)
    (match m_valid_to m with Some t => Some t | None => Some now end).
Definition delete_graph (ref : string) (w : world Log) : world Log :=
  set_graph (filter (λ kn, n_payload_ref kn.2 ≠ Some ref)) (filter (λ ke, e_payload_ref ke.2 ≠ Some ref)) w.
Definition rolled_back_params (saga_id memory_id reason ref : string) : jobject :=
  [("saga_id", JStr saga_id); ("memory_id", JStr memory_id); ("reason", JStr (String.substring 0 256 reason));
   ("payload_ref", JStr ref)]%string.
(** The PostgreSQL part of [_apply_rollback_on_failure]; [None]: it raised. *)
Definition rollback_pg (rls : bool) (g : given Env) (rq : request) (saga_id : string) (pg_committed : bool)
    (memory_id : option string) (ref reason : string) (w : world Log) : option (world Log) :=
  match pg_committed, memory_id with
  | true, Some id =>
      let w := delete_graph ref w in
      log ← audit_append (g_env g) (event_log w) (rq_namespace_id rq) (rq_agent_id rq) "store_memory_rolled_back"
              (rolled_back_params saga_id id reason ref);
      Some (set_memories (alter (retire (g_now g)) id) (set_events log w))
  | _, _ =>
      if rls then None
      else Some (set_memories (fmap (λ m, if String.eqb (m_payload_ref m) ref then retire (g_now g) m else m)) (delete_graph ref w))
  end.

(** ** One run of [_run_store_memory_saga] *)
Inductive pc :=
  | Extract | InsertDoc | Embed | StoreGraph                        (* the [try] block *)
  | UndoMongo | UndoPg | LogRolledBack                              (* the handler *)
  | LogCommitted | Cache | LogCompleted                             (* after the commit *)
  | Returned | Raised.
#[global] Instance pc_eq : EqDecision pc.
Proof. solve_decision. Defined.
Record run := Run {
  r_saga_id : string; r_request : request; r_pc : pc; r_extraction : extraction;
  r_mongo_id : option string; r_memory_id : option string; r_pg_committed : bool
}.
Definition no_extraction : extraction := Extraction "" None 0 [] [].
Definition set_pc (p : pc) (r : run) : run :=
  Run (r_saga_id r) (r_request r) p (r_extraction r) (r_mongo_id r) (r_memory_id r) (r_pg_committed r).
(** The handler undoes what the local variables know of. *)
Definition on_failure (r : run) : run := set_pc (match r_mongo_id r with Some _ => UndoMongo | None => LogRolledBack end) r.

Definition _store_episodic_mongodb (g : given Env) (rq : request) (w : world Log) : world Log :=
  set_mongo <[(episodes, g_id g) := Document (Some (rq_namespace_id rq)) (Some (g_now g))]> w.
Definition cache_key (rq : request) : option string :=
  match rq_user_id rq, rq_session_id rq with
  | Some u, Some s => if String.eqb u "" || String.eqb s "" then None
                      else Some ("cache:" +:+ rq_namespace_id rq +:+ ":" +:+ u +:+ ":" +:+ s)
  | _, _ => None
  end.

(** A call: its effect happens unless it is not sent; the caller goes on only when
    it is answered. *)
Definition took_effect (c : call) : bool := match c with NotSent => false | _ => true end.
Definition answered (c : call) : bool := match c with Answered => true | _ => false end.

Definition saga_step (rls : bool) (g : given Env) (x : extraction) (r : run) (w : world Log) : world Log * run :=
  let rq := r_request r in
  let c := g_call g in
  let ref := default "" (r_mongo_id r) in
  match r_pc r with
  | Extract =>
      (w, if answered c then Run (r_saga_id r) rq InsertDoc x (r_mongo_id r) (r_memory_id r) (r_pg_committed r) else on_failure r)
  | InsertDoc =>
      ((if took_effect c then _store_episodic_mongodb g rq w else w),
       if answered c then Run (r_saga_id r) rq Embed (r_extraction r) (Some (g_id g)) (r_memory_id r) (r_pg_committed r)
       else on_failure r)
  | Embed => (w, if answered c then set_pc StoreGraph r else on_failure r)
  | StoreGraph =>
      match _store_semantic_graph_pg g rq (r_extraction r) (r_saga_id r) ref w with
      | Some w' =>
          ((if took_effect c then w' else w),
           if answered c then Run (r_saga_id r) rq LogCommitted (r_extraction r) (r_mongo_id r) (Some (g_id g)) true
           else on_failure r)
      | None => (w, on_failure r)
      end
  | UndoMongo => ((if took_effect c then set_mongo (delete (episodes, ref)) w else w), set_pc UndoPg r)
  | UndoPg =>
      ((if took_effect c
        then default w (rollback_pg rls g rq (r_saga_id r) (r_pg_committed r) (r_memory_id r) ref "" w) else w),
       set_pc LogRolledBack r)
  | LogRolledBack =>
      ((if took_effect c then _saga_log_transition rls (g_now g) (r_saga_id r) "rolled_back" None w else w), set_pc Raised r)
  | LogCommitted =>
      ((if took_effect c then _saga_log_transition rls (g_now g) (r_saga_id r) "pg_committed" (r_memory_id r) w else w),
       set_pc Cache r)
  | Cache =>
      ((match cache_key rq with
        | Some k => if took_effect c then set_cache <[k := sanitized_summary (r_extraction r)]> w else w
        | None => w
        end), set_pc LogCompleted r)
  | LogCompleted =>
      ((if took_effect c then _saga_log_transition rls (g_now g) (r_saga_id r) "completed" None w else w), set_pc Returned r)
  | Returned | Raised => (w, r)
  end.

(** The call that precedes the [try] block: if it fails the saga raises. *)
Definition start_run (c : call) (now : Z) (id : string) (rq : request) (w : world Log) : world Log * option run :=
  ((if took_effect c then _saga_log_start now id rq w else w),
   if answered c then Some (Run id rq Extract no_extraction None None false) else None).

(** A run left alone, every call as given, until it is over or the list is. *)
Fixpoint run_store_memory_saga (rls : bool) (gs : list (given Env * extraction)) (r : run) (w : world Log) : world Log * run :=
  match gs with
  | [] => (w, r)
  | (g, x) :: gs => let '(w, r) := saga_step rls g x r w in run_store_memory_saga rls gs r w
  end.

(** ** The code indexing worker: its [try] block reaches past the commit, to the
    cache's write ([index_cache_key] and [file_hash] are given) *)
Record index_job := IndexJob { ij_filepath : string; ij_user_id : option string; ij_namespace_id : option string }.
(** [if namespace_id]: without one the worker's connection is in no namespace's session,
    and its rows have none. *)
Definition job_namespace (j : index_job) : option string :=
  match ij_namespace_id j with Some ns => if String.eqb ns "" then None else Some ns | None => None end.
Inductive index_pc := IdxInsert | IdxEmbed | IdxStore | IdxCache | IdxUndo | IdxDone | IdxFailed.
Record index_run := IndexRun { ix_job : index_job; ix_pc : index_pc; ix_mongo_id : option string }.

(** Retire the file's chunks and insert the new ones, all with one document;
    [namespace_id = NULL] holds of no row. *)
Definition same_file (j : index_job) (m : memory) : bool :=
  match job_namespace j with
  | Some ns => bool_decide (m_filepath m = Some (ij_filepath j, ij_user_id j)) && in_namespace ns m
  | None => false
  end.
Definition store_chunks (now : Z) (j : index_job) (ref : string) (ids : list string) (m : gmap string memory)
    : option (gmap string memory) :=
  let m := (λ x, if same_file j x then retire now x else x) <$> m in
  if bool_decide (NoDup ids) && forallb (λ i, bool_decide (m !! i = None)) ids
  then Some (foldr (λ i m, <[i := Memory (job_namespace j) "default" "code_chunk" (Some (ij_filepath j, ij_user_id j)) ref now None]> m) m ids)
  else None.
(** Under row-level security the statements of a job without a namespace fail. *)
Definition store_file (rls : bool) (now : Z) (j : index_job) (ref : string) (ids : list string) (m : gmap string memory)
    : option (gmap string memory) :=
  if rls && bool_decide (job_namespace j = None) then None else store_chunks now j ref ids m.

Definition index_step (rls : bool) (index_cache_key : index_job → string) (file_hash : string) (g : given Env) (ids : list string)
    (r : index_run) (w : world Log) : world Log * index_run :=
  let j := ix_job r in
  let c := g_call g in
  let ref := default "" (ix_mongo_id r) in
  let failed := IndexRun j (match ix_mongo_id r with Some _ => IdxUndo | None => IdxFailed end) (ix_mongo_id r) in
  match ix_pc r with
  | IdxInsert =>
      ((if took_effect c
        then set_mongo <[(code_files, g_id g) := Document (job_namespace j) (Some (g_now g))]> w else w),
       if answered c then IndexRun j IdxEmbed (Some (g_id g)) else failed)
  | IdxEmbed => (w, if answered c then IndexRun j IdxStore (ix_mongo_id r) else failed)
  | IdxStore =>
      match store_file rls (g_now g) j ref ids (memories w) with
      | Some m => ((if took_effect c then set_memories (λ _, m) w else w),
                   if answered c then IndexRun j IdxCache (ix_mongo_id r) else failed)
      | None => (w, failed)
      end
  | IdxCache =>
      ((if took_effect c then set_cache <[index_cache_key j := file_hash]> w else w),
       if answered c then IndexRun j IdxDone (ix_mongo_id r) else failed)
  | IdxUndo => ((if took_effect c then set_mongo (delete (code_files, ref)) w else w), IndexRun j IdxFailed (ix_mongo_id r))
  | IdxDone | IdxFailed => (w, r)
  end.

(** ** [_saga_recovery_tick] *)
Definition RECOVERY_AGE : Z := 5 * 60 * 1000000.
Definition RECOVERY_BATCH : nat := 100.
Definition older_saga (a b : string * saga) : bool := sg_updated_at a.2 <=? sg_updated_at b.2.
(** A scan in no namespace's session; ties come in any order. *)
Definition stuck_sagas (rls : bool) (now : Z) (w : world Log) : list (string * saga) :=
  if rls then []
  else take RECOVERY_BATCH (sorted_by older_saga (List.filter (λ s, String.eqb (sg_state s.2) "pg_committed" &&
         (sg_updated_at s.2 <? now - RECOVERY_AGE)) (map_to_list (saga_execution_log w)))).
(** [... WHERE id = saga_id AND state = 'pg_committed'] *)
Definition close_saga (now : Z) (id state : string) (w : world Log) : world Log :=
  set_sagas (alter (λ s, if String.eqb (sg_state s) "pg_committed"
                         then Saga (sg_namespace_id s) (sg_agent_id s) state (sg_memory_id s) now else s) id) w.
Definition saga_recovered_params (memory_id saga_id : string) : jobject :=
  [("memory_id", JStr memory_id); ("saga_id", JStr saga_id); ("recovery_action", JStr "finalized");
   ("reason", JStr "pg_committed_saga_recovery_cron")]%string.
Definition memory_in (ns id : string) (w : world Log) : option memory :=
  match memories w !! id with Some m => if in_namespace ns m then Some m else None | None => None end.
(** One row of the scan; an exception is logged and the tick goes on. *)
Definition recover_saga (rls : bool) (g : given Env) (row : string * saga) (w : world Log) : world Log :=
  let '(id, s) := row in
  match sg_memory_id s with
  | Some memory_id =>
      match memory_in (sg_namespace_id s) memory_id w with
      | None =>
          if rls || negb (saga_state_ok "failed") then w else close_saga (g_now g) id "failed" w
      | Some _ =>
          match audit_append (g_env g) (event_log w) (sg_namespace_id s) (sg_agent_id s) "saga_recovered"
                  (saga_recovered_params memory_id id) with
          | Some log => if took_effect (g_call g) then close_saga (g_now g) id "completed" (set_events log w) else w
          | None => w
          end
      end
  | None => if rls then w else if took_effect (g_call g) then close_saga (g_now g) id "completed" w else w
  end.
Definition _saga_recovery_tick (rls : bool) (now : Z) (gs : list (given Env)) (w : world Log) : world Log :=
  foldl (λ w p, recover_saga rls p.1 p.2 w) w (zip gs (stuck_sagas rls now w)).
End saga.
