(* ===== verification/GarbageCollector.v ===== *)
(** * GarbageCollector: orphans and dangling references between the two databases

    Models the sweeps of [src/nce/garbage_collector.py] over the stores of
    [MemoryStore]: MongoDB documents no memory refers to, memories whose document is
    gone, and rows that depend on a memory that no longer exists.  The MinIO sweep,
    connecting, alerts and the retention passes are left out. *)
From S2P Require Import Prelude PyText AuditLog OutboxRelay Locks MemoryStore.
Local Open Scope Z_scope.

(** Rows that depend on a memory. *)
Record salience := Salience { ms_memory_id : string; ms_namespace_id : string; ms_updated_at : Z }.
Record contradiction := Contradiction { c_memory_a_id : string; c_memory_b_id : string; c_namespace_id : string; c_detected_at : Z }.
Record dependents := Dependents { memory_salience : list salience; contradictions : list contradiction }.
Section gc.
Context {Log Env : Type} `{AuditLog Log Env} `{PyIter}.
Implicit Types w : world Log.

(** ** Referenced documents *)

(** Without row-level security a namespace's session sees every row. *)
Definition visible (rls : bool) (ns : string) (m : memory) : bool := negb rls || in_namespace ns m.
Definition by_id {A} (a b : string * A) : bool := str_leb a.1 b.1.
(** [ORDER BY id LIMIT n] of the rows after [last] that satisfy [P]. *)
Definition page {A} (P : A → bool) (m : gmap string A) (last : string) (limit : nat) : list (string * A) :=
  take limit (sorted_by by_id (List.filter (λ r, P r.2 && negb (str_leb r.1 last)) (map_to_list m))).
Definition _fetch_pg_ref_batch (rls : bool) (ns : string) (w : world Log) (last : string) (limit : nat) : list (string * memory) :=
  page (visible rls ns) (memories w) last limit.

Definition ZERO_UUID : string := "00000000-0000-0000-0000-000000000000".

(** The loop over pages; [more] tells whether to ask for another one. *)
Definition next_page {A} (PAGE_SIZE : nat) (fetch : string → list (string * A)) (more : list (string * A) → bool)
    (s : string * list (string * A)) : (string * list (string * A)) + list (string * A) :=
  let '(last, acc) := s in
  if more acc then
    let rows := fetch last in
    if (length rows =? 0)%nat then inr acc
    else if (length rows <? PAGE_SIZE)%nat then inr (acc ++ rows)
    else inl (default last (fst <$> list.last rows), acc ++ rows)
  else inr acc.
Definition fetch_pages {A} (PAGE_SIZE : nat) (fetch : string → nat → list (string * A)) (more : list (string * A) → bool) (rows : nat)
    : list (string * A) :=
  while (fuel_for (2 + rows)) (next_page PAGE_SIZE (λ last, fetch last PAGE_SIZE) more) (ZERO_UUID, []) [].

Definition _fetch_pg_refs (rls : bool) (PAGE_SIZE : nat) (namespaces : list string) (w : world Log) : list string :=
  namespaces ≫= λ ns, (λ r, m_payload_ref r.2) <$> fetch_pages PAGE_SIZE (_fetch_pg_ref_batch rls ns w) (λ _, true) (size (memories w)).

(** ** The forward sweep *)
Definition ingested_before (cutoff : Z) (d : document) : bool :=
  match doc_ingested_at d with Some t => t <? cutoff | None => false end.
Definition gc_candidates (cutoff : Z) (w : world Log) : list (collection * string) :=
  [episodes; code_files] ≫= λ col,
    fst <$> List.filter (λ kd, bool_decide (kd.1.1 = col) && ingested_before cutoff kd.2) (map_to_list (mongo w)).
Definition gc_orphans (refs : list string) (candidates : list (collection * string)) : list (collection * string) :=
  List.filter (λ c, bool_decide (c.2 ∉ refs)) candidates.
Definition delete_one (c : call) (key : collection * string) (w : world Log) : world Log :=
  if took_effect c then set_mongo (delete key) w else w.
(** A failed deletion is logged and the loop goes on. *)
Definition delete_orphans (orphans : list (call * (collection * string))) (w : world Log) : world Log :=
  foldl (λ w o, delete_one o.1 o.2 w) w orphans.

(** ** The reverse sweep *)
Definition REVERSE_SWEEP_MAX_PER_NS : nat := 5000.
Definition live_before (ns : string) (cutoff : Z) (m : memory) : bool :=
  in_namespace ns m && bool_decide (m_valid_to m = None) && (m_created_at m <? cutoff).
Definition _fetch_reverse_candidates (PAGE_SIZE : nat) (ns : string) (cutoff : Z) (w : world Log) : list (string * string) :=
  (λ r, (r.1, m_payload_ref r.2)) <$>
    fetch_pages PAGE_SIZE (page (live_before ns cutoff) (memories w)) (λ acc, (length acc <? REVERSE_SWEEP_MAX_PER_NS)%nat) (size (memories w)).
(** [ObjectId(ref)] accepts 24 hexadecimal digits; the scoped client sees its
    namespace's documents. *)
Definition is_hex (c : Ascii.ascii) : bool := in_range 48 57 c || in_range 97 102 c || in_range 65 70 c.
Fixpoint all_hex (s : string) : bool := match s with EmptyString => true | String c s => is_hex c && all_hex s end.
Definition object_id (ref : string) : bool := (String.length ref =? 24)%nat && all_hex ref.
Definition find_episode (ns ref : string) (w : world Log) : option document :=
  match mongo w !! (episodes, ref) with
  | Some d => if bool_decide (doc_namespace_id d = Some ns) then Some d else None
  | None => None
  end.
Definition _soft_retire_dangling (now : Z) (ns id : string) (w : world Log) : world Log :=
  set_memories (alter (λ m, if in_namespace ns m then retire now m else m) id) w.
(** One candidate: the look-up, then the update. *)
Definition reverse_check (look up : call) (now : Z) (ns : string) (c : string * string) (w : world Log) : world Log :=
  if answered look && object_id c.2 then
    match find_episode ns c.2 w with
    | Some _ => w
    | None => if took_effect up then _soft_retire_dangling now ns c.1 w else w
    end
  else w.
Definition reverse_sweep (PAGE_SIZE : nat) (calls : string → call * call) (now cutoff : Z) (ns : string) (w : world Log) : world Log :=
  foldl (λ w c, reverse_check (calls c.1).1 (calls c.1).2 now ns c w) w (_fetch_reverse_candidates PAGE_SIZE ns cutoff w).
Definition _collect_reverse_orphans (PAGE_SIZE : nat) (calls : string → call * call) (now cutoff : Z) (namespaces : list string)
    (w : world Log) : world Log :=
  foldl (λ w ns, reverse_sweep PAGE_SIZE calls now cutoff ns w) w namespaces.

(** ** The cascade *)
Definition CHUNK_DELETE_SIZE : nat := 1000.

Definition missing (w : world Log) (ns id : string) : bool := bool_decide (memory_in ns id w = None).
(** [params->>'memory_id'] of the namespace's events. *)
Definition event_memory_ids (w : world Log) (ns : string) : list string :=
  audit_entries (event_log w) ≫= λ e, let '(n, _, _, params) := e in
    if String.eqb n ns then
      match List.find (λ kv, String.eqb kv.1 "memory_id") params with Some (_, JStr id) => [id] | _ => [] end
    else [].
Definition old_salience (cutoff : Z) (ns : string) (s : salience) : bool :=
  String.eqb (ms_namespace_id s) ns && (ms_updated_at s <? cutoff).
Definition old_contradiction (cutoff : Z) (ns : string) (c : contradiction) : bool :=
  String.eqb (c_namespace_id c) ns && (c_detected_at c <? cutoff).
(** The UNION of the four sub-queries. *)
Definition orphan_memory_ids (cutoff : Z) (ns : string) (w : world Log) (d : dependents) : gset string :=
  list_to_set (ms_memory_id <$> List.filter (λ s, old_salience cutoff ns s && missing w ns (ms_memory_id s)) (memory_salience d)) ∪
  list_to_set (c_memory_a_id <$> List.filter (λ c, old_contradiction cutoff ns c && missing w ns (c_memory_a_id c)) (contradictions d)) ∪
  list_to_set (c_memory_b_id <$> List.filter (λ c, old_contradiction cutoff ns c && missing w ns (c_memory_b_id c)) (contradictions d)) ∪
  list_to_set (List.filter (missing w ns) (event_memory_ids w ns)).
(** [LIMIT n] without an order: any [n] of them. *)
Definition chunk_ids (cutoff : Z) (ns : string) (w : world Log) (d : dependents) : list string :=
  take CHUNK_DELETE_SIZE (set_iter (orphan_memory_ids cutoff ns w d)).
Definition hit_salience (cutoff : Z) (ns : string) (ids : list string) (s : salience) : bool :=
  bool_decide (ms_memory_id s ∈ ids) && old_salience cutoff ns s.
Definition hit_contradiction (cutoff : Z) (ns : string) (ids : list string) (c : contradiction) : bool :=
  (bool_decide (c_memory_a_id c ∈ ids) || bool_decide (c_memory_b_id c ∈ ids)) && old_contradiction cutoff ns c.
Definition cascade_chunk (cutoff : Z) (ns : string) (w : world Log) (d : dependents) : dependents * (Z * Z) :=
  let ids := chunk_ids cutoff ns w d in
  let gone_s := List.filter (hit_salience cutoff ns ids) (memory_salience d) in
  let gone_c := List.filter (hit_contradiction cutoff ns ids) (contradictions d) in
  (Dependents (List.filter (λ s, negb (hit_salience cutoff ns ids s)) (memory_salience d))
     (List.filter (λ c, negb (hit_contradiction cutoff ns ids c)) (contradictions d)),
   (Z.of_nat (length gone_s), Z.of_nat (length gone_c))).
(** One turn; [ok]: whether the chunk's transaction succeeds (it stops the loop). *)
Definition cascade_turn (cutoff : Z) (ns : string) (w : world Log) (st : dependents * (Z * Z) * list bool)
    : (dependents * (Z * Z) * list bool) + (dependents * (Z * Z)) :=
  let '(d, (n_s, n_c), oks) := st in
  match oks with
  | false :: _ => inr (d, (n_s, n_c))
  | _ =>
      let '(d', (k_s, k_c)) := cascade_chunk cutoff ns w d in
      if (k_s =? 0) && (k_c =? 0) then inr (d, (n_s, n_c))
      else inl (d', (n_s + k_s, n_c + k_c), List.tail oks)
  end.
Definition _clean_orphaned_cascade (cutoff : Z) (ns : string) (w : world Log) (oks : list bool) (d : dependents) : dependents * (Z * Z) :=
  while (fuel_for (1 + length (memory_salience d) + length (contradictions d))) (cascade_turn cutoff ns w) (d, (0, 0), oks) (d, (0, 0)).

(** ** A pass, when nothing else runs (each sweep reads the clock anew; here it is
    [now] throughout) *)
Definition _collect_orphans (rls : bool) (PAGE_SIZE : nat) (age now : Z) (namespaces : list string) (deletes : collection * string → call)
    (calls : string → call * call) (oks : string → list bool)
    (w : world Log) (d : dependents) : world Log * dependents :=
  let cutoff := now - age in
  match gc_candidates cutoff w with
  | [] => (w, d)
  | candidates =>
      match namespaces with
      | [] => (w, d)
      | _ =>
          let orphans := gc_orphans (_fetch_pg_refs rls PAGE_SIZE namespaces w) candidates in
          let w := delete_orphans ((λ o, (deletes o, o)) <$> orphans) w in
          let d := foldl (λ d ns, (_clean_orphaned_cascade cutoff ns w (oks ns) d).1) d namespaces in
          (_collect_reverse_orphans PAGE_SIZE calls now cutoff namespaces w, d)
      end
  end.
End gc.
