(* ===== verification/GcFacts.v ===== *)
(** * GcFacts: keyset pagination reads every row once, and the sweeps' effects *)
From S2P Require Import Prelude PyText AuditLog OutboxRelay Locks MemoryStore GarbageCollector.
From stdpp Require Import sorting.
Local Open Scope Z_scope.

(** ** The order of identifiers *)
Lemma str_compare_eq s t : str_compare s t = Eq → s = t.
Proof.
  revert t. induction s as [|a s IH]; intros [|b t]; simpl; try done.
  destruct (Ascii.N_of_ascii a ?= Ascii.N_of_ascii b)%N eqn:E; try done. intros H%IH. apply N.compare_eq in E.
  rewrite <- (Ascii.ascii_N_embedding a), <- (Ascii.ascii_N_embedding b). by subst; f_equal; f_equal.
Qed.
Lemma str_leb_antisym s t : str_leb s t = true → str_leb t s = true → s = t.
Proof.
  unfold str_leb. rewrite (str_compare_antisym t s). intros H1 H2. apply str_compare_eq. by destruct (str_compare s t).
Qed.
Lemma str_leb_trans s t u : str_leb s t = true → str_leb t u = true → str_leb s u = true.
Proof.
  revert t u. unfold str_leb. induction s as [|a s IH]; intros [|b t] [|c u]; simpl; try done.
  intros H1 H2. specialize (IH t u).
  destruct (Ascii.N_of_ascii a ?= Ascii.N_of_ascii b)%N eqn:E1; try done;
    destruct (Ascii.N_of_ascii b ?= Ascii.N_of_ascii c)%N eqn:E2; try done;
    try rewrite N.compare_eq_iff in *; rewrite ?N.compare_lt_iff in *;
    match goal with |- context [(?x ?= ?y)%N] =>
      assert ((x ?= y)%N = Lt ∨ (x ?= y)%N = Eq) as [->|E] by (rewrite N.compare_lt_iff, N.compare_eq_iff; lia) end; try done.
  - rewrite E. by apply IH.
  - apply N.compare_eq in E. lia.
  - apply N.compare_eq in E. lia.
  - apply N.compare_eq in E. lia.
Qed.

(** Rows in strictly increasing order of their key. *)
Section keyed.
Context {A : Type}.
Definition before (a b : string * A) : Prop := str_leb b.1 a.1 = false.
#[local] Instance before_trans : Transitive before.
Proof.
  intros x y z Hxy Hyz. unfold before in *. destruct (str_leb z.1 x.1) eqn:E; [|done].
  destruct (str_leb_total x.1 y.1) as [H|H]; [|congruence]. by rewrite (str_leb_trans z.1 x.1 y.1 E H) in Hyz.
Qed.

Lemma by_id_before (l : list (string * A)) : NoDup l.*1 → StronglySorted before (sorted_by by_id l).
Proof.
  intros Hnd. assert (NoDup (sorted_by by_id l).*1) as Hnd' by (by rewrite (fmap_Permutation fst _ _ (sorted_by_perm by_id l))).
  assert (StronglySorted (λ x y, by_id x y = true) (sorted_by by_id l)) as Hs.
  { apply Sorted_StronglySorted; [intros x y z; apply str_leb_trans|]. apply sorted_by_sorted. intros x y. apply str_leb_total. }
  revert Hs Hnd'. generalize (sorted_by by_id l) as k. clear. induction k as [|x k IH]; intros Hs Hnd; [constructor|].
  inversion Hs as [|? ? Hs' Hall]; subst. apply NoDup_cons in Hnd as [Hx Hnd]. constructor; [by apply IH|].
  apply Forall_forall. intros y Hy. rewrite Forall_forall in Hall. specialize (Hall y Hy).
  unfold before. destruct (str_leb y.1 x.1) eqn:E; [|done]. exfalso. apply Hx.
  rewrite (str_leb_antisym _ _ Hall E). by apply list_elem_of_fmap_2.
Qed.
Lemma before_unique (l k : list (string * A)) : StronglySorted before l → StronglySorted before k → l ≡ₚ k → l = k.
Proof.
  intros Hl Hk. apply (StronglySorted_unique_strong before); [|done..]. intros x y _ _ Hxy Hyx. unfold before in *.
  destruct (str_leb_total x.1 y.1); congruence.
Qed.

(** The rows after [last], in order; a page is how it begins. *)
Definition rows_after (P : A → bool) (m : gmap string A) (last : string) : list (string * A) :=
  sorted_by by_id (List.filter (λ r, P r.2 && negb (str_leb r.1 last)) (map_to_list m)).

Lemma filter_keys_NoDup (f : string * A → bool) (m : gmap string A) : NoDup (List.filter f (map_to_list m)).*1.
Proof.
  assert (sublist (List.filter f (map_to_list m)).*1 (map_to_list m).*1) as Hs.
  { generalize (map_to_list m) as l. clear. induction l as [|x l IH]; simpl; [done|]. destruct (f x); simpl; by constructor. }
  eapply sublist_NoDup; [|exact Hs]. apply NoDup_fst_map_to_list.
Qed.
Lemma rows_after_sorted P m last : StronglySorted before (rows_after P m last).
Proof. apply by_id_before, filter_keys_NoDup. Qed.
Lemma rows_after_NoDup P m last : NoDup (rows_after P m last).
Proof.
  apply (NoDup_fmap_1 fst). unfold rows_after. rewrite (fmap_Permutation fst _ _ (sorted_by_perm by_id _)). apply filter_keys_NoDup.
Qed.
Lemma elem_of_rows_after P m last id x :
  (id, x) ∈ rows_after P m last ↔ m !! id = Some x ∧ P x = true ∧ str_leb id last = false.
Proof.
  unfold rows_after. rewrite elem_of_sorted_by, list_elem_of_In, filter_In, <- list_elem_of_In, elem_of_map_to_list. simpl.
  rewrite andb_true_iff, negb_true_iff. tauto.
Qed.
Lemma rows_after_ext P m m' last : (∀ id x, P x = true → m !! id = Some x ↔ m' !! id = Some x) → rows_after P m last = rows_after P m' last.
Proof.
  intros Hm. apply before_unique; [apply rows_after_sorted..|]. apply NoDup_Permutation; [apply rows_after_NoDup..|].
  intros [id x]. rewrite !elem_of_rows_after. specialize (Hm id x). naive_solver.
Qed.
Lemma length_rows_after P m last : (length (rows_after P m last) ≤ size m)%nat.
Proof.
  unfold rows_after. rewrite length_sorted_by, <- length_map_to_list. apply filter_length_le.
Qed.

(** After its first [n] rows a scan starts again where it stopped. *)
Lemma rows_after_drop P m last n r rs :
  take n (rows_after P m last) = rs ++ [r] → rows_after P m r.1 = drop n (rows_after P m last).
Proof.
  intros Htake. pose proof (rows_after_sorted P m last) as Hs. pose proof (elem_of_rows_after P m last) as Hel.
  rewrite <- (take_drop n (rows_after P m last)), Htake, <- app_assoc in Hs.
  apply StronglySorted_split in Hs as [_ Hrs]. set (k := drop n (rows_after P m last)) in *.
  assert (rows_after P m last = rs ++ r :: k) as HL.
  { rewrite <- (take_drop n (rows_after P m last)), Htake, <- app_assoc. done. }
  pose proof (rows_after_sorted P m last) as Hs. rewrite HL in Hs. apply StronglySorted_split in Hs as [_ Hs2].
  pose proof (rows_after_sorted P m last) as Hs. rewrite HL in Hs.
  assert (StronglySorted before (r :: k)) as Hrk.
  { clear -Hs. induction rs as [|y rs IH]; [done|]. inversion Hs; subst. by apply IH. }
  inversion Hrk as [|? ? Hk Hall]; subst. apply before_unique; [apply rows_after_sorted|done|].
  apply NoDup_Permutation.
  - apply rows_after_NoDup.
  - pose proof (rows_after_NoDup P m last) as Hnd. rewrite HL in Hnd. by apply NoDup_app in Hnd as (_ & _ & [_ ?]%NoDup_cons).
  - intros [id x]. rewrite elem_of_rows_after. split.
    + intros (Hm & HP & Hlt). assert ((id, x) ∈ rs ++ r :: k) as Hin.
      { rewrite <- HL. apply Hel. split_and!; [done|done|].
        assert (str_leb r.1 last = false) as Hr.
        { destruct r as [rid rx]. apply (Hel rid rx). rewrite HL. apply elem_of_app. right. left. }
        destruct (str_leb id last) eqn:E; [|done].
        destruct (str_leb_total id r.1) as [?|H']; [congruence|]. by rewrite (str_leb_trans r.1 id last H' E) in Hr. }
      apply elem_of_app in Hin as [Hin|[Heq|Hin]%elem_of_cons]; [| |done].
      * specialize (Hs2 _ r Hin (list_elem_of_here _ _)). unfold before in Hs2. simpl in Hs2.
        destruct (str_leb_total id r.1); congruence.
      * subst r. simpl in Hlt. destruct (str_leb_total id id); congruence.
    + intros Hin. assert ((id, x) ∈ rows_after P m last) as (Hm & HP & _)%elem_of_rows_after.
      { rewrite HL. apply elem_of_app. right. by right. }
      split_and!; [done|done|]. rewrite Forall_forall in Hall. apply (Hall (id, x) Hin).
Qed.
End keyed.

(** ** The loop over pages *)
Section pages.
Context {A : Type} (P : A → bool) (m : gmap string A) (more : list (string * A) → bool) (PAGE_SIZE : nat).
Local Abbreviation L := (rows_after P m ZERO_UUID).

(** It stops where there is no more, or where [more] says so; and not before. *)
Definition pages_read (r : list (string * A)) : Prop :=
  ∃ n, r = take n L ∧ ((length L ≤ n)%nat ∨ more r = false) ∧
       (n = 0%nat ∨ ∃ j, n = ((1 + j) * PAGE_SIZE)%nat ∧ more (take (j * PAGE_SIZE) L) = true).
Definition pages_so_far (s : string * list (string * A)) : Prop :=
  ∃ j, s.2 = take (j * PAGE_SIZE) L ∧ (j * PAGE_SIZE ≤ length L)%nat ∧ rows_after P m s.1 = drop (j * PAGE_SIZE) L ∧
       (j = 0%nat ∨ ∃ i, j = Datatypes.S i ∧ more (take (i * PAGE_SIZE) L) = true).

Lemma next_page_step (s : string * list (string * A)) : (1 ≤ PAGE_SIZE)%nat → pages_so_far s →
  match next_page PAGE_SIZE (λ last, page P m last PAGE_SIZE) more s with
  | inl s' => pages_so_far s' ∧ (length L - length s'.2 < length L - length s.2)%nat
  | inr r => pages_read r
  end.
Proof.
  intros HP. destruct s as [last acc]. intros (j & Hacc & Hj & Hrest & Hmore). cbn [fst snd] in *. unfold next_page.
  assert (j * PAGE_SIZE = 0 ∨ ∃ i, j * PAGE_SIZE = (1 + i) * PAGE_SIZE ∧ more (take (i * PAGE_SIZE) L) = true)%nat as Hmore'.
  { destruct Hmore as [->|(i & -> & ?)]; [by left|right; by exists i]. }
  destruct (more acc) eqn:Em; [|exists (j * PAGE_SIZE)%nat; auto].
  unfold page. fold (rows_after P m last). rewrite Hrest.
  assert (acc ++ take PAGE_SIZE (drop (j * PAGE_SIZE) L) = take ((1 + j) * PAGE_SIZE) L) as Happ.
  { rewrite Hacc, take_take_drop. f_equal. lia. }
  rewrite !length_take, !length_drop.
  destruct (_ =? 0)%nat eqn:E0; [apply Nat.eqb_eq in E0|apply Nat.eqb_neq in E0].
  { exists (j * PAGE_SIZE)%nat. split_and!; [done|left; lia|done]. }
  destruct (_ <? _)%nat eqn:E1; [apply Nat.ltb_lt in E1|apply Nat.ltb_ge in E1].
  { rewrite Happ. exists ((1 + j) * PAGE_SIZE)%nat. split_and!; [done|left; lia|]. right. exists j. by rewrite <- Hacc. }
  assert (length acc = j * PAGE_SIZE)%nat as Hlen by (rewrite Hacc, length_take; lia).
  split; [|cbn [snd]; rewrite length_app, length_take, length_drop, Hlen; lia].
  exists (1 + j)%nat. cbn [fst snd]. rewrite Happ. split_and!; [done|lia| |right; exists j; by rewrite <- Hacc].
  destruct (take PAGE_SIZE (drop (j * PAGE_SIZE) L)) as [|r0 rs0] eqn:Et using rev_ind.
  { apply (f_equal length) in Et. rewrite length_take, length_drop in Et. simpl in Et. lia. }
  rewrite last_snoc. cbn [default fmap option_fmap option_map].
  apply (rows_after_drop _ _ _ _ r0 (acc ++ rs0)). rewrite <- app_assoc. by symmetry.
Qed.

Lemma fetch_pages_spec : (1 ≤ PAGE_SIZE)%nat → pages_read (fetch_pages PAGE_SIZE (page P m) more (size m)).
Proof.
  intros HP. unfold fetch_pages.
  apply (while_spec _ _ _ _ pages_so_far pages_read (λ s, (length L - length s.2)%nat)).
  - intros s. by apply next_page_step.
  - exists 0%nat. rewrite take_0, drop_0. split_and!; [done|lia|done|by left].
  - pose proof (length_rows_after P m ZERO_UUID). pose proof (fuel_for_enough (2 + size m)). cbn [snd length]. lia.
Qed.
End pages.

(** With nothing to stop it, the loop reads every row. *)
Lemma fetch_pages_all {A} (P : A → bool) (m : gmap string A) PAGE_SIZE : (1 ≤ PAGE_SIZE)%nat →
  fetch_pages PAGE_SIZE (page P m) (λ _, true) (size m) = rows_after P m ZERO_UUID.
Proof.
  intros HP. destruct (fetch_pages_spec P m (λ _, true) PAGE_SIZE HP) as (n & -> & [Hn|?] & _); [|done].
  by apply take_ge.
Qed.

(** ** The effects of the sweeps *)
Section sweeps.
Context {Log Env : Type} `{AuditLog Log Env} `{PyIter}.
Implicit Types w : world Log.

Lemma retire_twice now m : retire now (retire now m) = retire now m.
Proof. by destruct m as [? ? ? ? ? ? []]. Qed.

(** The forward sweep finds the old documents no memory refers to. *)
Lemma elem_of_gc_candidates cutoff w col oid :
  (col, oid) ∈ gc_candidates cutoff w ↔ ∃ d, mongo w !! (col, oid) = Some d ∧ ingested_before cutoff d = true.
Proof.
  unfold gc_candidates.
  assert (∀ c, (col, oid) ∈ fst <$> List.filter (λ kd, bool_decide (kd.1.1 = c) && ingested_before cutoff kd.2) (map_to_list (mongo w)) ↔
    col = c ∧ ∃ d, mongo w !! (col, oid) = Some d ∧ ingested_before cutoff d = true) as Hc.
  { intros c. rewrite list_elem_of_fmap. split.
    - intros ([k d] & Hk & Hin). cbn [fst] in Hk. subst k. apply list_elem_of_In, filter_In in Hin as [Hin Hb]. apply list_elem_of_In, elem_of_map_to_list in Hin.
      apply andb_true_iff in Hb as [Hb1%bool_decide_eq_true Hb2]. split; [done|by exists d].
    - intros [-> (d & Hd & Hb)]. exists ((c, oid), d). split; [done|]. apply list_elem_of_In, filter_In.
      split; [by apply list_elem_of_In, elem_of_map_to_list|]. apply andb_true_iff. split; [by apply bool_decide_eq_true|done]. }
  cbn [mbind list_bind app]. rewrite app_nil_r, elem_of_app, (Hc episodes), (Hc code_files). destruct col; naive_solver.
Qed.

Lemma elem_of_fetch_pg_refs rls PAGE_SIZE namespaces w ref : (1 ≤ PAGE_SIZE)%nat →
  ref ∈ _fetch_pg_refs rls PAGE_SIZE namespaces w ↔
  ∃ id m ns, memories w !! id = Some m ∧ m_payload_ref m = ref ∧ str_leb id ZERO_UUID = false ∧ ns ∈ namespaces ∧ visible rls ns m = true.
Proof.
  intros HP. unfold _fetch_pg_refs. rewrite list_elem_of_bind. split.
  - intros (ns & Hin & Hns).
    change (_fetch_pg_ref_batch rls ns w) with (page (visible rls ns) (memories w)) in Hin.
    rewrite (fetch_pages_all (visible rls ns) (memories w) PAGE_SIZE HP) in Hin.
    apply list_elem_of_fmap in Hin as ([id m] & -> & (Hm & Hv & Hz)%elem_of_rows_after). by exists id, m, ns.
  - intros (id & m & ns & Hm & <- & Hz & Hns & Hv). exists ns. split; [|done].
    change (_fetch_pg_ref_batch rls ns w) with (page (visible rls ns) (memories w)).
    rewrite (fetch_pages_all (visible rls ns) (memories w) PAGE_SIZE HP).
    apply list_elem_of_fmap. exists (id, m). split; [done|]. by apply elem_of_rows_after.
Qed.

(** *** Deletions *)
Definition only_mongo (w w' : world Log) : Prop := w' = set_mongo (λ _, mongo w') w.
Lemma delete_orphans_spec (f : collection * string → call) orphans w : ∀ w', w' = delete_orphans ((λ o, (f o, o)) <$> orphans) w →
  only_mongo w w' ∧ ∀ key, mongo w' !! key = if bool_decide (key ∈ orphans) && took_effect (f key) then None else mongo w !! key.
Proof.
  revert w. induction orphans as [|o l IH]; intros w w' ->; unfold delete_orphans; cbn [fmap list_fmap foldl].
  - split; [by destruct w|]. intros key. by rewrite bool_decide_eq_false_2 by apply not_elem_of_nil.
  - destruct (IH (delete_one (f o) o w) _ eq_refl) as [H1 H2]. unfold delete_orphans in *. cbn [fst snd]. split.
    + unfold only_mongo in *. rewrite H1. unfold delete_one. destruct (took_effect (f o)); by destruct w.
    + intros key. rewrite H2. unfold delete_one. destruct (decide (key = o)) as [->|Hne].
      * rewrite (bool_decide_eq_true_2 (o ∈ o :: l)) by left. cbn [andb].
        destruct (took_effect (f o)); cbn; [rewrite lookup_delete_eq; by destruct (bool_decide _)|]. by destruct (bool_decide _).
      * rewrite (bool_decide_ext (key ∈ o :: l) (key ∈ l)) by (rewrite elem_of_cons; naive_solver).
        destruct (took_effect (f o)); [|done]. cbn. by rewrite lookup_delete_ne by done.
Qed.

(** *** Retirements *)

(** A live memory of the namespace, of the sweep's age, whose episode is missing. *)
Definition dangling (cutoff : Z) (ns : string) w (m : memory) : Prop :=
  m_namespace_id m = Some ns ∧ m_valid_to m = None ∧ m_created_at m < cutoff ∧ object_id (m_payload_ref m) = true ∧
  find_episode ns (m_payload_ref m) w = None.
(** Some dangling memories are retired, and nothing else changes. *)
Definition retires (now cutoff : Z) (w w' : world Log) : Prop :=
  w' = set_memories (λ _, memories w') w ∧
  ∀ id, memories w' !! id = memories w !! id ∨
    ∃ m, memories w !! id = Some m ∧ memories w' !! id = Some (retire now m) ∧ ∃ ns, dangling cutoff ns w m.

Lemma in_namespace_eq ns m : in_namespace ns m = true ↔ m_namespace_id m = Some ns.
Proof. unfold in_namespace. destruct (m_namespace_id m); [rewrite String.eqb_eq; naive_solver|naive_solver]. Qed.
Lemma retires_refl now cutoff w : retires now cutoff w w.
Proof. split; [by destruct w|by left]. Qed.
Lemma retires_mongo now cutoff w w' : retires now cutoff w w' → mongo w' = mongo w.
Proof. by intros [-> _]. Qed.
Lemma dangling_mongo cutoff ns w w' m : mongo w' = mongo w → dangling cutoff ns w m → dangling cutoff ns w' m.
Proof. intros E (? & ? & ? & ? & Hf). split_and!; try done. unfold find_episode in *. by rewrite E. Qed.
Lemma retires_trans now cutoff w1 w2 w3 : retires now cutoff w1 w2 → retires now cutoff w2 w3 → retires now cutoff w1 w3.
Proof.
  intros H12 H23. pose proof (retires_mongo _ _ _ _ H12) as Em. destruct H12 as [E12 H12], H23 as [E23 H23]. split.
  { rewrite E23 at 1. rewrite E12 at 1. by destruct w1. }
  intros id. destruct (H12 id) as [E|(m & Hm & Hm' & Hd)], (H23 id) as [E'|(m2 & Hm2 & Hm2' & Hd2)].
  - left. congruence.
  - right. destruct Hd2 as [ns Hd2]. exists m2. rewrite <- E. split_and!; [done|done|]. exists ns. eapply dangling_mongo; [by symmetry|done].
  - right. exists m. split_and!; [done|congruence|done].
  - exfalso. assert (m2 = retire now m) as -> by congruence. destruct Hd2 as (ns & _ & Hv & _). by destruct (m_valid_to m) eqn:E; simpl in Hv; rewrite E in Hv.
Qed.

(** One candidate. *)
Lemma reverse_check_retires look up now cutoff ns c w :
  (∃ m, memories w !! c.1 = Some m ∧ m_payload_ref m = c.2 ∧ live_before ns cutoff m = true) →
  let w' := reverse_check look up now ns c w in
  retires now cutoff w w' ∧
  (answered look = true → took_effect up = true → object_id c.2 = true → find_episode ns c.2 w = None →
   memories w' !! c.1 = retire now <$> memories w !! c.1).
Proof.
  intros (m & Hm & Hr & Hl). unfold live_before in Hl.
  apply andb_true_iff in Hl as [[Hns Hv%bool_decide_eq_true]%andb_true_iff Ht%Z.ltb_lt].
  unfold reverse_check. destruct (answered look); [|split; [apply retires_refl|done]]. cbn [andb].
  destruct (object_id c.2) eqn:Ho; [|split; [apply retires_refl|done]].
  destruct (find_episode ns c.2 w) eqn:Hf; [split; [apply retires_refl|done]|].
  destruct (took_effect up); [|split; [apply retires_refl|done]].
  assert (memories (_soft_retire_dangling now ns c.1 w) !! c.1 = Some (retire now m)) as Hc.
  { unfold _soft_retire_dangling; cbn. rewrite lookup_alter_eq, Hm. cbn. by rewrite Hns. }
  apply in_namespace_eq in Hns.
  split; [split|by rewrite Hc, Hm].
  - by destruct w.
  - intros id. destruct (decide (id = c.1)) as [->|Hne].
    + right. exists m. split_and!; [done|done|]. exists ns. split_and!; try done; by rewrite Hr.
    + left. unfold _soft_retire_dangling; cbn. by rewrite lookup_alter_ne.
Qed.

Definition is_candidate ns cutoff w (c : string * string) : Prop :=
  ∃ m, memories w !! c.1 = Some m ∧ m_payload_ref m = c.2 ∧ live_before ns cutoff m = true.
(** What the calls must do for a dangling candidate to go. *)
Definition retired_by ns w (calls : string → call * call) (c : string * string) : Prop :=
  answered (calls c.1).1 = true ∧ took_effect (calls c.1).2 = true ∧ object_id c.2 = true ∧ find_episode ns c.2 w = None.
Lemma retires_dead now cutoff w w' id m : retires now cutoff w w' → memories w !! id = Some (retire now m) → memories w' !! id = Some (retire now m).
Proof.
  intros [_ Hr] Hm. destruct (Hr id) as [->|(m2 & Hm2 & _ & (? & _ & Hv & _))]; [done|]. rewrite Hm in Hm2. injection Hm2 as <-.
  by destruct (m_valid_to m) eqn:E; simpl in Hv; rewrite E in Hv.
Qed.
Lemma reverse_list_retires (calls : string → call * call) now cutoff ns cands w :
  NoDup cands.*1 → Forall (is_candidate ns cutoff w) cands →
  let w' := foldl (λ w c, reverse_check (calls c.1).1 (calls c.1).2 now ns c w) w cands in
  retires now cutoff w w' ∧
  ∀ c, c ∈ cands → retired_by ns w calls c → memories w' !! c.1 = retire now <$> memories w !! c.1.
Proof.
  revert w. induction cands as [|c l IH]; intros w Hnd Hf; cbn [foldl].
  { split; [apply retires_refl|]. by intros c ?%not_elem_of_nil. }
  apply NoDup_cons in Hnd as [Hc Hnd]. apply Forall_cons in Hf as [Hcand Hf].
  destruct (reverse_check_retires (calls c.1).1 (calls c.1).2 now cutoff ns c w Hcand) as [H1 H2].
  set (w1 := reverse_check (calls c.1).1 (calls c.1).2 now ns c w) in *.
  assert (∀ c', c' ∈ l → memories w1 !! c'.1 = memories w !! c'.1) as Hother.
  { intros c' Hc'. assert (c'.1 ≠ c.1) as Hne by (intros E; apply Hc; rewrite <- E; by apply list_elem_of_fmap_2).
    subst w1. unfold reverse_check. destruct (_ && _); [|done]. destruct (find_episode _ _ _); [done|].
    destruct (took_effect _); [|done]. cbn. by rewrite lookup_alter_ne. }
  destruct (IH w1 Hnd) as [H3 H4].
  { apply Forall_forall. intros c' Hc'. rewrite Forall_forall in Hf. destruct (Hf c' Hc') as (m & Hm & ?).
    exists m. by rewrite (Hother c' Hc'). }
  split; [by eapply retires_trans|]. intros c' Hc' (Ha & Hu & Ho & Hfe).
  apply elem_of_cons in Hc' as [->|Hc'].
  - specialize (H2 Ha Hu Ho Hfe). destruct Hcand as (m & Hm & _). rewrite Hm in *. cbn in *. by eapply retires_dead.
  - rewrite <- (Hother c' Hc'). apply (H4 c' Hc'). split_and!; try done.
    unfold find_episode in *. by rewrite (retires_mongo _ _ _ _ H1).
Qed.

(** A namespace's sweep leaves the other namespaces' rows. *)
Lemma reverse_sweep_others PAGE_SIZE (calls : string → call * call) now cutoff ns w ns' last : ns' ≠ ns →
  rows_after (live_before ns' cutoff) (memories (reverse_sweep PAGE_SIZE calls now cutoff ns w)) last =
  rows_after (live_before ns' cutoff) (memories w) last.
Proof.
  intros Hne. unfold reverse_sweep. generalize (_fetch_reverse_candidates PAGE_SIZE ns cutoff w) as cands. intros cands.
  revert w. induction cands as [|c cands IH]; intros w; cbn [foldl]; [done|]. rewrite IH. apply rows_after_ext. intros id m Hm.
  unfold live_before in Hm. apply andb_true_iff in Hm as [[Hm _]%andb_true_iff _]. apply in_namespace_eq in Hm.
  unfold reverse_check. destruct (_ && _); [|done]. destruct (find_episode _ _ _); [done|]. destruct (took_effect _); [|done].
  unfold _soft_retire_dangling. cbn. destruct (decide (id = c.1)) as [->|Hid]; [|by rewrite lookup_alter_ne].
  rewrite lookup_alter_eq. destruct (memories w !! c.1) as [m0|]; [|done]. cbn. destruct (in_namespace ns m0) eqn:Ei; [|done].
  apply in_namespace_eq in Ei. split; intros E; apply (inj Some) in E; subst m; exfalso; cbn in Hm; congruence.
Qed.

Lemma live_before_dangling ns cutoff w id m : memories w !! id = Some m → dangling cutoff ns w m → live_before ns cutoff m = true.
Proof.
  intros Hm (Hns & Hv & Ht & _). unfold live_before. apply andb_true_iff. split; [|by apply Z.ltb_lt].
  apply andb_true_iff. split; [by apply in_namespace_eq|by apply bool_decide_eq_true].
Qed.

(** A namespace's sweep; [n] rows of the scan are candidates, all of them unless
    there are more than the cap. *)
Lemma reverse_sweep_spec PAGE_SIZE (calls : string → call * call) now cutoff ns w : (1 ≤ PAGE_SIZE)%nat →
  let w' := reverse_sweep PAGE_SIZE calls now cutoff ns w in
  retires now cutoff w w' ∧
  ∃ n, ((length (rows_after (live_before ns cutoff) (memories w) ZERO_UUID) ≤ n)%nat ∨ (REVERSE_SWEEP_MAX_PER_NS ≤ n)%nat) ∧
    ∀ id m, (id, m) ∈ take n (rows_after (live_before ns cutoff) (memories w) ZERO_UUID) →
      retired_by ns w calls (id, m_payload_ref m) → memories w' !! id = Some (retire now m).
Proof.
  intros HP. unfold reverse_sweep, _fetch_reverse_candidates.
  destruct (fetch_pages_spec (live_before ns cutoff) (memories w)
    (λ acc, (length acc <? REVERSE_SWEEP_MAX_PER_NS)%nat) PAGE_SIZE HP) as (n & -> & Hn & _).
  set (L := rows_after (live_before ns cutoff) (memories w) ZERO_UUID) in *.
  destruct (reverse_list_retires calls now cutoff ns ((λ r, (r.1, m_payload_ref r.2)) <$> take n L) w) as [H1 H2].
  - rewrite <- list_fmap_compose. apply (sublist_NoDup _ L.*1).
    + unfold L, rows_after. rewrite (fmap_Permutation fst _ _ (sorted_by_perm by_id _)). apply filter_keys_NoDup.
    + change (sublist (fst <$> take n L) (fst <$> L)). rewrite fmap_take. apply sublist_take.
  - apply Forall_forall. intros c ([id m] & -> & Hin)%list_elem_of_fmap.
    apply elem_of_take in Hin as (i & Hin & _). apply list_elem_of_lookup_2 in Hin.
    apply elem_of_rows_after in Hin as (Hm & Hl & _). by exists m.
  - split; [exact H1|]. exists n. split.
    + destruct Hn as [?|Hn]; [by left|right]. apply Nat.ltb_ge in Hn. rewrite length_take in Hn. lia.
    + intros id m Hin Hret. etrans; [apply (H2 (id, m_payload_ref m)); [by apply (list_elem_of_fmap_2 (λ r, (r.1, m_payload_ref r.2)) _ (id, m))|done]|].
      apply elem_of_take in Hin as (i & Hin & _). apply list_elem_of_lookup_2 in Hin.
      apply elem_of_rows_after in Hin as (Hm & _). cbn [fst]. by rewrite Hm.
Qed.
End sweeps.

(** ** The cascade *)
Section cascade.
Context {Log Env : Type} `{AuditLog Log Env} `{PyIter}.
Implicit Types w : world Log.

Lemma filter_split {A} (f : A → bool) l : (length (List.filter f l) + length (List.filter (λ x, negb (f x)) l) = length l)%nat.
Proof. induction l as [|x l IH]; [done|]. simpl. destruct (f x); simpl; lia. Qed.
Lemma filter_nil_iff {A} (f : A → bool) l : List.filter f l = [] ↔ ∀ x, x ∈ l → f x = false.
Proof.
  induction l as [|y l IH]; simpl; [split; [by intros _ x ?%not_elem_of_nil|done]|]. destruct (f y) eqn:E.
  - split; [done|]. intros Hall. specialize (Hall y (list_elem_of_here _ _)). congruence.
  - rewrite IH. split; intros Hall x Hx; [apply elem_of_cons in Hx as [->|Hx]; auto|]. apply Hall. by right.
Qed.

Lemma elem_of_orphan_ids cutoff ns w d id : id ∈ orphan_memory_ids cutoff ns w d ↔
  memory_in ns id w = None ∧
  ((∃ s, s ∈ memory_salience d ∧ old_salience cutoff ns s = true ∧ ms_memory_id s = id) ∨
   (∃ c, c ∈ contradictions d ∧ old_contradiction cutoff ns c = true ∧ (c_memory_a_id c = id ∨ c_memory_b_id c = id)) ∨
   id ∈ event_memory_ids w ns).
Proof.
  unfold orphan_memory_ids.
  assert (∀ {A} (f : A → bool) (k : A → string) l, id ∈ (list_to_set (k <$> List.filter (λ x, f x && missing w ns (k x)) l) : gset string) ↔
    memory_in ns id w = None ∧ ∃ x, x ∈ l ∧ f x = true ∧ k x = id) as Hs.
  { intros A f k l. rewrite elem_of_list_to_set, list_elem_of_fmap. unfold missing. split.
    - intros (x & -> & Hx). apply list_elem_of_In, filter_In in Hx as [Hx [Hf Hm%bool_decide_eq_true]%andb_true_iff].
      split; [done|]. exists x. by rewrite list_elem_of_In.
    - intros (Hm & x & Hx & Hf & <-). exists x. split; [done|]. apply list_elem_of_In, filter_In. rewrite <- list_elem_of_In.
      split; [done|]. rewrite Hf. by apply bool_decide_eq_true. }
  rewrite !elem_of_union, !Hs, elem_of_list_to_set, list_elem_of_In, filter_In, <- list_elem_of_In. unfold missing.
  rewrite bool_decide_eq_true. naive_solver.
Qed.
Lemma chunk_ids_orphans cutoff ns w d id : id ∈ chunk_ids cutoff ns w d → id ∈ orphan_memory_ids cutoff ns w d.
Proof. unfold chunk_ids. intros (i & Hi & _)%elem_of_take. apply list_elem_of_lookup_2 in Hi. by apply elem_of_set_iter. Qed.

(** What a run of the loop may do: delete old rows of missing memories. *)
Definition doomed_salience (cutoff : Z) (ns : string) w (s : salience) : Prop :=
  old_salience cutoff ns s = true ∧ memory_in ns (ms_memory_id s) w = None.
Definition doomed_contradiction (cutoff : Z) (ns : string) w (c : contradiction) : Prop :=
  old_contradiction cutoff ns c = true ∧ (memory_in ns (c_memory_a_id c) w = None ∨ memory_in ns (c_memory_b_id c) w = None).
Definition prunes {A} (P : A → Prop) (l l' : list A) : Prop :=
  ∃ f : A → bool, l' = List.filter f l ∧ ∀ x, x ∈ l → f x = false → P x.
Lemma prunes_refl {A} (P : A → Prop) l : prunes P l l.
Proof. exists (λ _, true). split; [|done]. induction l; simpl; congruence. Qed.
Lemma filter_filter_bool {A} (f g : A → bool) l : List.filter g (List.filter f l) = List.filter (λ x, f x && g x) l.
Proof. induction l as [|x l IH]; [done|]. simpl. destruct (f x); simpl; [destruct (g x)|]; simpl; congruence. Qed.
Lemma prunes_trans {A} (P : A → Prop) l1 l2 l3 : prunes P l1 l2 → prunes P l2 l3 → prunes P l1 l3.
Proof.
  intros (f & -> & Hf) (g & -> & Hg). exists (λ x, f x && g x). split; [apply filter_filter_bool|].
  intros x Hx Hfg. destruct (f x) eqn:E; [|by apply Hf]. apply Hg; [|done]. apply list_elem_of_In, filter_In. by rewrite <- list_elem_of_In.
Qed.
Definition cascades (cutoff : Z) (ns : string) w (d d' : dependents) : Prop :=
  prunes (doomed_salience cutoff ns w) (memory_salience d) (memory_salience d') ∧
  prunes (doomed_contradiction cutoff ns w) (contradictions d) (contradictions d').

Lemma cascade_chunk_spec cutoff ns w d :
  let '(d', (k_s, k_c)) := cascade_chunk cutoff ns w d in
  cascades cutoff ns w d d' ∧
  k_s + Z.of_nat (length (memory_salience d')) = Z.of_nat (length (memory_salience d)) ∧
  k_c + Z.of_nat (length (contradictions d')) = Z.of_nat (length (contradictions d)) ∧ 0 ≤ k_s ∧ 0 ≤ k_c.
Proof.
  unfold cascade_chunk. split_and!; try lia.
  - split.
    + eexists; split; [done|]. intros s _ [Hin%bool_decide_eq_true Hold]%negb_false_iff%andb_true_iff. split; [done|].
      by apply chunk_ids_orphans, elem_of_orphan_ids in Hin as [? _].
    + eexists; split; [done|]. intros c _ [Hin Hold]%negb_false_iff%andb_true_iff. split; [done|].
      apply orb_true_iff in Hin as [Hin%bool_decide_eq_true|Hin%bool_decide_eq_true];
        apply chunk_ids_orphans, elem_of_orphan_ids in Hin as [? _]; auto.
  - pose proof (filter_split (hit_salience cutoff ns (chunk_ids cutoff ns w d)) (memory_salience d)). cbn [memory_salience]. lia.
  - pose proof (filter_split (hit_contradiction cutoff ns (chunk_ids cutoff ns w d)) (contradictions d)). cbn [contradictions]. lia.
Qed.

(** Nothing hit, and no more orphans than a chunk holds: nothing is left. *)
Lemma cascade_chunk_done cutoff ns w d d' : cascade_chunk cutoff ns w d = (d', (0, 0)) →
  (size (orphan_memory_ids cutoff ns w d) ≤ CHUNK_DELETE_SIZE)%nat →
  (∀ s, s ∈ memory_salience d → ¬ doomed_salience cutoff ns w s) ∧ (∀ c, c ∈ contradictions d → ¬ doomed_contradiction cutoff ns w c).
Proof.
  intros Hc Hsize. unfold cascade_chunk in Hc. injection Hc as _ Hs Hc.
  assert (∀ id, id ∈ orphan_memory_ids cutoff ns w d → id ∈ chunk_ids cutoff ns w d) as Hall.
  { intros id Hid. unfold chunk_ids. rewrite take_ge; [by apply elem_of_set_iter|].
    rewrite (Permutation_length (set_iter_perm _)). exact Hsize. }
  assert (∀ {A} (l : list A), Z.of_nat (length l) = 0 → l = []) as Hnil by (by intros A [|]).
  apply Hnil in Hs, Hc. rewrite filter_nil_iff in Hs. rewrite filter_nil_iff in Hc. split.
  - intros s Hin [Hold Hm]. specialize (Hs s Hin). unfold hit_salience in Hs. rewrite Hold, andb_true_r in Hs.
    apply bool_decide_eq_false in Hs. apply Hs, Hall, elem_of_orphan_ids. split; [done|]. left. by exists s.
  - intros c Hin [Hold Hm]. specialize (Hc c Hin). unfold hit_contradiction in Hc. rewrite Hold, andb_true_r in Hc.
    apply orb_false_iff in Hc as [Ha%bool_decide_eq_false Hb%bool_decide_eq_false].
    destruct Hm as [Hm|Hm]; [apply Ha|apply Hb]; apply Hall, elem_of_orphan_ids; (split; [done|]); right; left; exists c; auto.
Qed.
End cascade.
