(* ===== verification/GcProps.v ===== *)
(** * GcProps: what a collection pass removes, and what it never touches *)
From S2P Require Import Prelude PyText AuditLog OutboxRelay Locks MemoryStore GarbageCollector GcFacts.
Local Open Scope Z_scope.

Section props.
Context {Log Env : Type} `{AuditLog Log Env} `{PyIter}.
Implicit Types w : world Log.

(** ** The pass over documents and memories *)
(** The candidates of a namespace's sweep: its live old memories in the order of
    their identifiers, as many as the cap. *)
Definition swept (cutoff : Z) (ns : string) w : list (string * memory) :=
  take REVERSE_SWEEP_MAX_PER_NS (rows_after (live_before ns cutoff) (memories w) ZERO_UUID).

Lemma reverse_all_spec PAGE_SIZE (calls : string → call * call) now cutoff namespaces w : (1 ≤ PAGE_SIZE)%nat →
  let w' := _collect_reverse_orphans PAGE_SIZE calls now cutoff namespaces w in
  retires now cutoff w w' ∧
  ∀ ns id m, ns ∈ namespaces → (id, m) ∈ swept cutoff ns w → dangling cutoff ns w m →
    answered (calls id).1 = true → took_effect (calls id).2 = true → memories w' !! id = Some (retire now m).
Proof.
  intros HP. unfold _collect_reverse_orphans. revert w. induction namespaces as [|ns0 l IH]; intros w; cbn [foldl].
  { split; [apply retires_refl|]. by intros ns id m ?%not_elem_of_nil. }
  destruct (reverse_sweep_spec PAGE_SIZE calls now cutoff ns0 w HP) as (H1 & n & Hn & H2).
  pose proof (λ ns, reverse_sweep_others PAGE_SIZE calls now cutoff ns0 w ns ZERO_UUID) as Hothers.
  set (w1 := reverse_sweep PAGE_SIZE calls now cutoff ns0 w) in *. destruct (IH w1) as [H3 H4].
  split; [by eapply retires_trans|]. intros ns id m Hns Hin Hd Ha Hu. destruct (decide (ns = ns0)) as [->|Hne].
  - eapply retires_dead; [exact H3|]. apply (H2 id m); [|destruct Hd as (_ & _ & _ & ? & ?); by split_and!].
    unfold swept in Hin. destruct Hn as [Hn|Hn]; [rewrite take_ge by done; by eapply elem_of_sublist, sublist_take|].
    apply elem_of_take in Hin as (i & Hi & Hlt). apply elem_of_take. exists i. split; [done|lia].
  - apply elem_of_cons in Hns as [?|Hns]; [done|]. apply (H4 ns id m Hns); [|eapply dangling_mongo; [by eapply retires_mongo|done]|done|done].
    unfold swept. by rewrite Hothers.
Qed.

(** An old document that the collector sees no memory refer to: under row-level
    security it does not see a memory of no namespace. *)
Definition garbage (rls : bool) (cutoff : Z) w (key : collection * string) : Prop :=
  (∃ d, mongo w !! key = Some d ∧ ingested_before cutoff d = true) ∧
  ∀ id m, memories w !! id = Some m → m_payload_ref m = key.2 → rls = true ∧ m_namespace_id m = None.

Lemma orphans_garbage rls PAGE_SIZE namespaces cutoff w key : (1 ≤ PAGE_SIZE)%nat → namespaces ≠ [] →
  (∀ id m, memories w !! id = Some m → str_leb id ZERO_UUID = false ∧ ∀ ns, m_namespace_id m = Some ns → ns ∈ namespaces) →
  key ∈ gc_orphans (_fetch_pg_refs rls PAGE_SIZE namespaces w) (gc_candidates cutoff w) ↔ garbage rls cutoff w key.
Proof.
  intros HP Hne Hrows. destruct key as [col oid]. unfold gc_orphans, garbage.
  rewrite list_elem_of_In, filter_In, <- list_elem_of_In, elem_of_gc_candidates, bool_decide_eq_true, (elem_of_fetch_pg_refs _ _ _ _ _ HP).
  cbn [snd]. split; intros [Hd Hn]; split; try done.
  - intros id m Hm <-. destruct (Hrows id m Hm) as [Hz Hns]. destruct rls; [split; [done|]|].
    + destruct (m_namespace_id m) as [ns|] eqn:En; [|done]. destruct Hn. exists id, m, ns. split_and!; [done..|by apply Hns|].
      unfold visible. cbn. by apply in_namespace_eq.
    + destruct Hn. destruct namespaces as [|ns l]; [done|]. exists id, m, ns. by split_and!; [..|left|].
  - intros (id & m & ns & Hm & E & _ & _ & Hv). destruct (Hn id m Hm E) as [-> Hnone]. unfold visible in Hv. cbn in Hv.
    apply in_namespace_eq in Hv. congruence.
Qed.

(** C28: A pass collects garbage and nothing else.  If no document is older than the
    age, or there is no namespace, it does nothing.  Otherwise, whatever calls fail: a
    document is deleted only if it is older than the age and no memory that the
    collector sees (live or retired; under row-level security it sees none without
    a namespace) refers to it, and every such document is deleted whose deletion
    arrives; a memory is retired only if it is live, older than the age and its
    namespace has no episode of its reference, and every such memory is retired whose
    calls arrive and which is among the first 5000 live old memories of its
    namespace; nothing else of the stores changes.  All this for any page size, when
    nothing else runs and the namespaces listed are those of the memories. *)
Theorem gc_collects_garbage rls PAGE_SIZE age now namespaces deletes calls oks w d :
  (1 ≤ PAGE_SIZE)%nat →
  (∀ id m, memories w !! id = Some m → str_leb id ZERO_UUID = false ∧ ∀ ns, m_namespace_id m = Some ns → ns ∈ namespaces) →
  let cutoff := now - age in
  let pass := _collect_orphans rls PAGE_SIZE age now namespaces deletes calls oks w d in
  let w' := pass.1 in
  (gc_candidates cutoff w = [] ∨ namespaces = [] → pass = (w, d)) ∧
  (∀ key, mongo w' !! key = mongo w !! key ∨ garbage rls cutoff w key ∧ mongo w' !! key = None) ∧
  (namespaces ≠ [] → ∀ key, garbage rls cutoff w key → took_effect (deletes key) = true → mongo w' !! key = None) ∧
  (∀ id, memories w' !! id = memories w !! id ∨
     ∃ m, memories w !! id = Some m ∧ memories w' !! id = Some (retire now m) ∧ ∃ ns, dangling cutoff ns w m) ∧
  (gc_candidates cutoff w ≠ [] → ∀ ns id m, (id, m) ∈ swept cutoff ns w → dangling cutoff ns w m →
     answered (calls id).1 = true → took_effect (calls id).2 = true → memories w' !! id = Some (retire now m)) ∧
  w' = set_mongo (λ _, mongo w') (set_memories (λ _, memories w') w).
Proof.
  intros HP Hrows cutoff. unfold _collect_orphans. fold cutoff.
  pose proof (λ key Hne, orphans_garbage rls PAGE_SIZE namespaces cutoff w key HP Hne Hrows) as Horph.
  destruct (gc_candidates cutoff w) as [|c0 cs] eqn:Ec.
  { cbn [fst]. split_and!; [done|by left| |by left|done|by destruct w].
    intros _ [col oid] [Hd _] _. exfalso. apply elem_of_gc_candidates in Hd. rewrite Ec in Hd. by apply not_elem_of_nil in Hd. }
  assert (∀ ns id m, (id, m) ∈ swept cutoff ns w → dangling cutoff ns w m → memories w !! id = Some m ∧ ns ∈ namespaces) as Hswept.
  { intros ns id m Hin (Hns & _). eapply elem_of_sublist in Hin; [|apply sublist_take]. apply elem_of_rows_after in Hin as [Hm _].
    split; [done|]. by apply (Hrows id m Hm). }
  destruct namespaces as [|n0 ns0] eqn:En.
  { cbn [fst]. split_and!; [done|by left|done|by left| |by destruct w]. intros _ ns id m Hin Hd.
    destruct (Hswept ns id m Hin Hd) as [_ ?%not_elem_of_nil]. done. }
  rewrite <- En in *. assert (namespaces ≠ []) as Hne by (by rewrite En). specialize (λ key, Horph key Hne) as Horph'.
  set (orphans := gc_orphans _ _) in *. set (w1 := delete_orphans _ w). cbn zeta. cbn [fst].
  destruct (delete_orphans_spec deletes orphans w w1 eq_refl) as [Honly Hdel].
  assert (memories w1 = memories w) as Em by by rewrite Honly.
  destruct (reverse_all_spec PAGE_SIZE calls now cutoff namespaces w1 HP) as [Hret Hall].
  set (w' := _collect_reverse_orphans _ _ _ _ _ w1) in *. pose proof (retires_mongo _ _ _ _ Hret) as Emongo.
  assert (∀ id m ns, memories w !! id = Some m → m_namespace_id m = Some ns →
    find_episode ns (m_payload_ref m) w1 = find_episode ns (m_payload_ref m) w) as Hfind.
  { intros id m ns Hm Hns. unfold find_episode. rewrite Hdel, bool_decide_eq_false_2; [done|].
    intros [_ Hg]%Horph'. destruct (Hg id m Hm eq_refl). congruence. }
  split_and!.
  - intros [?|?]; done.
  - intros key. rewrite Emongo, Hdel. destruct (bool_decide _) eqn:Eb; [|by left]. cbn [andb].
    apply bool_decide_eq_true in Eb. destruct (took_effect _); [right; split; [by apply Horph'|done]|by left].
  - intros _ key Hg Ht. rewrite Emongo, Hdel, Ht, bool_decide_eq_true_2; [done|]. by apply Horph'.
  - intros id. destruct (proj2 Hret id) as [E|(m & Hm & Hm' & ns & (? & ? & ? & ? & Hf))]; rewrite Em in *; [by left|right].
    exists m. split_and!; [done..|]. exists ns. split_and!; try done. by rewrite <- (Hfind id m).
  - intros _ ns id m Hin Hd. destruct (Hswept ns id m Hin Hd) as [Hm Hns]. apply (Hall ns id m Hns); [unfold swept; by rewrite Em|].
    destruct Hd as (? & ? & ? & ? & Hf). split_and!; try done. by rewrite (Hfind id m).
  - unfold only_mongo in Honly. etrans; [exact (proj1 Hret)|]. rewrite Emongo. rewrite Honly at 1. by destruct w.
Qed.

(** ** The cascade *)
Lemma cascades_refl cutoff ns w d : cascades cutoff ns w d d.
Proof. split; apply prunes_refl. Qed.
Lemma cascades_trans cutoff ns w d1 d2 d3 : cascades cutoff ns w d1 d2 → cascades cutoff ns w d2 d3 → cascades cutoff ns w d1 d3.
Proof. intros [? ?] [? ?]. split; by eapply prunes_trans. Qed.
Lemma cascades_orphans cutoff ns w d d' : cascades cutoff ns w d d' → orphan_memory_ids cutoff ns w d' ⊆ orphan_memory_ids cutoff ns w d.
Proof.
  intros [(f & Ef & _) (g & Eg & _)] id. rewrite !elem_of_orphan_ids, Ef, Eg.
  intros (Hm & [(s & Hs & ?)|[(c & Hc & ?)|?]]); (split; [done|]).
  - left. exists s. split; [|done]. apply list_elem_of_In, filter_In in Hs as [Hs _]. by apply list_elem_of_In.
  - right. left. exists c. split; [|done]. apply list_elem_of_In, filter_In in Hc as [Hc _]. by apply list_elem_of_In.
  - by right; right.
Qed.

(** [d'] is what the loop left of [d], having counted what it deleted. *)
Definition cascade_result (cutoff : Z) (ns : string) w (d : dependents) (r : dependents * (Z * Z)) : Prop :=
  let '(d', (n_s, n_c)) := r in
  cascades cutoff ns w d d' ∧
  n_s + Z.of_nat (length (memory_salience d')) = Z.of_nat (length (memory_salience d)) ∧
  n_c + Z.of_nat (length (contradictions d')) = Z.of_nat (length (contradictions d)).
Definition nothing_doomed (cutoff : Z) (ns : string) w (d : dependents) : Prop :=
  (∀ s, s ∈ memory_salience d → ¬ doomed_salience cutoff ns w s) ∧ (∀ c, c ∈ contradictions d → ¬ doomed_contradiction cutoff ns w c).

(** C39: The cascade's loop ends, after at most one turn more than there are rows,
    whatever chunks the database picks and whichever of them fail.  It deletes only
    rows older than the grace period that concern a memory of the namespace that
    does not exist, and counts them; and if no chunk fails and the orphans fit in
    one chunk, none is left. *)
Theorem cascade_terminates cutoff ns w oks d :
  let r := _clean_orphaned_cascade cutoff ns w oks d in
  (∃ n, loops (cascade_turn cutoff ns w) n (d, (0, 0), oks) r ∧
        (n ≤ 1 + (length (memory_salience d) + length (contradictions d)))%nat) ∧
  cascade_result cutoff ns w d r ∧
  (Forall (λ ok, ok = true) oks → (size (orphan_memory_ids cutoff ns w d) ≤ CHUNK_DELETE_SIZE)%nat → nothing_doomed cutoff ns w r.1).
Proof.
  set (rows := λ d, (length (memory_salience d) + length (contradictions d))%nat). cbn zeta.
  destruct (loops_total (cascade_turn cutoff ns w)
    (λ st, cascade_result cutoff ns w d st.1 ∧ (Forall (λ ok, ok = true) oks → Forall (λ ok, ok = true) st.2))
    (λ r, cascade_result cutoff ns w d r ∧ (Forall (λ ok, ok = true) oks →
       (size (orphan_memory_ids cutoff ns w d) ≤ CHUNK_DELETE_SIZE)%nat → nothing_doomed cutoff ns w r.1))
    (λ st, rows st.1.1) (d, (0, 0), oks)) as (n & r & Hl & Hn & Hr1 & Hr2).
  - intros [[d1 [n_s n_c]] oks1] [(Hc & Hs & Hk) Hoks]. cbn [fst snd] in *. unfold cascade_turn.
    pose proof (cascade_chunk_spec cutoff ns w d1) as Hspec. destruct (cascade_chunk cutoff ns w d1) as [d2 [k_s k_c]] eqn:Ech.
    destruct Hspec as (Hc2 & Hs2 & Hk2 & ? & ?).
    assert (∀ l, match oks1 with false :: _ => False | _ => l = List.tail oks1 end →
      match (if (k_s =? 0) && (k_c =? 0) then inr (d1, (n_s, n_c)) else inl (d2, (n_s + k_s, n_c + k_c), l)) with
      | inl s' => (cascade_result cutoff ns w d s'.1 ∧ (Forall (λ ok, ok = true) oks → Forall (λ ok, ok = true) s'.2)) ∧ (rows s'.1.1 < rows d1)%nat
      | inr r => cascade_result cutoff ns w d r ∧ (Forall (λ ok, ok = true) oks →
          (size (orphan_memory_ids cutoff ns w d) ≤ CHUNK_DELETE_SIZE)%nat → nothing_doomed cutoff ns w r.1)
      end) as Hturn.
    { intros l Hl. destruct (_ && _) eqn:E0.
      - apply andb_true_iff in E0 as [->%Z.eqb_eq ->%Z.eqb_eq]. split; [by split_and!|]. intros _ Hsize.
        apply (cascade_chunk_done cutoff ns w d1 d2 Ech). etrans; [|exact Hsize]. apply subseteq_size, cascades_orphans, Hc.
      - cbn [fst snd]. split; [split|].
        + split_and!; [by eapply cascades_trans|lia|lia].
        + intros Hall. specialize (Hoks Hall). destruct oks1 as [|[] oks2]; [by subst l| |done]. subst l. by apply Forall_cons in Hoks as [_ ?].
        + unfold rows. apply andb_false_iff in E0 as [?%Z.eqb_neq|?%Z.eqb_neq]; lia. }
    destruct oks1 as [|[] oks2]; [by apply (Hturn [])|by apply (Hturn oks2)|].
    split; [by split_and!|]. intros Hall. specialize (Hoks Hall). by apply Forall_cons in Hoks as [? _].
  - split; [|done]. split_and!; [apply cascades_refl|cbn; lia..].
  - cbn [fst snd] in Hn. assert (_clean_orphaned_cascade cutoff ns w oks d = r) as ->.
    { apply (while_loops _ _ _ _ n); [done|]. pose proof (fuel_for_enough (1 + length (memory_salience d) + length (contradictions d))).
      unfold rows in Hn. lia. }
    split_and!; [exists n; unfold rows in Hn; split; [done|lia]|done|done].
Qed.
End props.

(** ** A pass over a small store *)
#[local] Existing Instances list_audit canonical_iter.
Definition ref_a : string := "00000000000000000000000a".
Definition ref_b : string := "00000000000000000000000b".
Definition ref_c : string := "00000000000000000000000c".
Definition ref_x : string := "0000000000000000000000ff".
Definition id_n (n : string) : string := "00000000-0000-0000-0000-00000000000" +:+ n.
Definition demo_memory (ty ref : string) (created : Z) : memory := Memory (Some "acme"%string) "agent" ty None ref created None.
(** [ref_a] is a healthy memory's episode, [ref_x] was left by a crash, the memory
    [2]'s episode is lost, and [3] is a chunk of the code file [ref_c]. *)
Definition demo_store : world (list (string * string * string * jobject)) :=
  World (list_to_map [(id_n "1", demo_memory "episodic" ref_a 10); (id_n "2", demo_memory "episodic" ref_b 10);
                      (id_n "3", demo_memory "code_chunk" ref_c 10)])
    ∅ ∅ ∅ [] [] (list_to_map [((episodes, ref_a), Document (Some "acme") (Some 5)); ((episodes, ref_x), Document (Some "acme") (Some 5));
                              ((code_files, ref_c), Document (Some "acme") (Some 5))]) ∅.
Definition all_answered : string → call * call := λ _, (Answered, Answered).
Definition demo_pass : world (list (string * string * string * jobject)) :=
  (_collect_orphans true 2 100 1000 ["acme"] (λ _, Answered) all_answered (λ _, []) demo_store (Dependents [] [])).1.

Lemma gc_collects_garbage_witness :
  mongo demo_pass !! (episodes, ref_a) = Some (Document (Some "acme") (Some 5)) ∧
  mongo demo_pass !! (episodes, ref_x) = None ∧
  memories demo_pass !! id_n "2" = Some (retire 1000 (demo_memory "episodic" ref_b 10)).
Proof.
  destruct (gc_collects_garbage true 2 100 1000 ["acme"] (λ _, Answered) all_answered (λ _, []) demo_store (Dependents [] []))
    as (_ & H1 & H2 & H3 & H4 & _); [lia| |].
  - refine (λ id m, map_Forall_lookup_1 (λ id m, str_leb id ZERO_UUID = false ∧ ∀ ns, m_namespace_id m = Some ns → ns ∈ ["acme"%string]) (memories demo_store) id m _).
    assert (map_Forall (λ id m, str_leb id ZERO_UUID = false ∧ m_namespace_id m = Some "acme"%string) (memories demo_store)) as Hall.
    { apply (bool_decide_unpack _). vm_compute. exact I. }
    intros id' m' Hm'. destruct (Hall id' m' Hm') as [Hz En]. split; [exact Hz|]. intros ns Hns. rewrite En in Hns. injection Hns as <-. left.
  - fold demo_pass in H1, H2, H3, H4. split_and!.
    + destruct (H1 (episodes, ref_a)) as [E|[[_ Hg] _]]; [rewrite E; vm_compute; reflexivity|].
      exfalso. destruct (Hg (id_n "1") (demo_memory "episodic" ref_a 10)) as [_ Habs]; [vm_compute; reflexivity..|discriminate Habs].
    + apply H2; [discriminate| |reflexivity]. split; [exists (Document (Some "acme"%string) (Some 5)); split; vm_compute; reflexivity|].
      intros id m Hm E. exfalso. revert E.
      refine (map_Forall_lookup_1 (λ _ m, m_payload_ref m ≠ ref_x) (memories demo_store) id m _ Hm).
      apply (bool_decide_unpack _). vm_compute. exact I.
    + apply (H4 ltac:(vm_compute; discriminate) "acme"%string); try (vm_compute; reflexivity); [|split_and!; vm_compute; reflexivity].
      apply elem_of_take. exists 1%nat. split; [vm_compute; reflexivity|]. apply Nat.ltb_lt. vm_compute. reflexivity.
Defined.

(** The reverse sweep looks every reference up among the episodes: it retires the
    memories of source code, whose documents are in [code_files]. *)
Example code_memories_retired :
  mongo demo_pass !! (code_files, ref_c) = Some (Document (Some "acme") (Some 5)) ∧
  m_valid_to <$> memories demo_pass !! id_n "3" = Some (Some 1000).
Proof. vm_compute. done. Qed.

(** When MongoDB holds no old document at all the pass ends before the reverse
    sweep: memories whose every episode is lost are never retired. *)
Definition demo_lost : world (list (string * string * string * jobject)) := set_mongo (λ _, ∅) demo_store.
Example total_loss_unrepaired :
  (_collect_orphans true 2 100 1000 ["acme"] (λ _, Answered) all_answered (λ _, []) demo_lost (Dependents [] [])).1 = demo_lost.
Proof. vm_compute. reflexivity. Qed.

(** A scan starts from the first identifier each time: above the cap, the rows that
    follow are never looked at, whatever was found before. *)
Lemma reverse_sweep_starves PAGE_SIZE ns cutoff (w : world (list (string * string * string * jobject))) :
  (1 ≤ PAGE_SIZE)%nat →
  ∃ n, (n ≤ REVERSE_SWEEP_MAX_PER_NS + PAGE_SIZE)%nat ∧
    _fetch_reverse_candidates PAGE_SIZE ns cutoff w =
    (λ r, (r.1, m_payload_ref r.2)) <$> take n (rows_after (live_before ns cutoff) (memories w) ZERO_UUID).
Proof.
  intros HP. unfold _fetch_reverse_candidates.
  destruct (fetch_pages_spec (live_before ns cutoff) (memories w)
    (λ acc, (length acc <? REVERSE_SWEEP_MAX_PER_NS)%nat) PAGE_SIZE HP) as (n & -> & _ & [->|(j & -> & Hj%Nat.ltb_lt)]).
  { exists 0%nat. split; [lia|done]. }
  rewrite length_take in Hj.
  destruct (decide ((1 + j) * PAGE_SIZE ≤ REVERSE_SWEEP_MAX_PER_NS + PAGE_SIZE)%nat) as [Hle|Hgt]; [by eexists|].
  exists (length (rows_after (live_before ns cutoff) (memories w) ZERO_UUID)). split; [lia|].
  by rewrite !take_ge by lia.
Qed.

(** Events outlive their memories, and their identifiers fill the chunk: with a
    thousand of them before it, an orphaned row is never deleted. *)
#[local] Definition sorted_iter : PyIter.
Proof.
  refine {| set_iter s := sorted_by str_leb (elements s); dict_iter A m := map_to_list m |}; [|done].
  intros s. apply sorted_by_perm.
Defined.
Definition digit (n : nat) : string := String (Ascii.ascii_of_nat (48 + n)) EmptyString.
Definition past_events : list (string * string * string * jobject) :=
  (λ i, ("acme", "agent", "memory_shredded",
         [("memory_id", JStr (digit (i / 100) +:+ digit (i / 10 mod 10) +:+ digit (i mod 10)))]))%string <$> seq 0 1000.
Definition demo_past : world (list (string * string * string * jobject)) := World ∅ ∅ ∅ ∅ past_events [] ∅ ∅.
Definition demo_orphan : dependents := Dependents [Salience "z" "acme" 5] [].
Example cascade_starves : @_clean_orphaned_cascade _ _ list_audit sorted_iter 900 "acme" demo_past [] demo_orphan = (demo_orphan, (0, 0)).
Proof. vm_compute. reflexivity. Qed.
Example cascade_without_past :
  (@_clean_orphaned_cascade _ _ list_audit sorted_iter 900 "acme" (set_events [] demo_past) [] demo_orphan).2 = (1, 0).
Proof. vm_compute. reflexivity. Qed.
