(* ===== verification/MemoryFacts.v ===== *)
(** * MemoryFacts: sagas, workers, collection passes and recovery, interleaved

    The system's state is the stores, the runs in progress and the collector's
    findings; a step is one call of one of them.  A process that stops simply takes
    no more steps. *)
From S2P Require Import Prelude PyText AuditLog OutboxRelay Locks MemoryStore GarbageCollector.
Local Open Scope Z_scope.

Inductive actor := ASaga (r : run) | AIndex (r : index_run).
Definition actor_ref (a : actor) : option string :=
  match a with ASaga r => r_mongo_id r | AIndex r => ix_mongo_id r end.
(** Between the document's insertion and the commit; after the commit. *)
Definition pending (a : actor) : bool :=
  match a with
  | ASaga r => bool_decide (r_pc r ∈ [Embed; StoreGraph])
  | AIndex r => match ix_pc r with IdxEmbed | IdxStore => true | _ => false end
  end.
Definition committed (a : actor) : bool :=
  match a with
  | ASaga r => bool_decide (r_pc r ∈ [LogCommitted; Cache; LogCompleted; Returned])
  | AIndex r => match ix_pc r with IdxCache | IdxDone => true | _ => false end
  end.

(** The run fails although its commit took effect. *)
Definition index_lost (p : index_pc) (c : call) : bool :=
  match p, c with IdxStore, ReplyLost | IdxCache, (NotSent | ReplyLost) => true | _, _ => false end.

Record system (Log : Type) := System {
  sy_now : Z; sy_world : world Log; sy_actors : list actor;
  sy_inserted : gmap string Z;           (* when each document's identifier was drawn *)
  sy_lost : list string;                 (* documents of runs that failed after their commit took effect *)
  sy_candidates : list (collection * string); sy_orphans : list (collection * string)
}.
Arguments System {Log}. Arguments sy_now {Log}. Arguments sy_world {Log}. Arguments sy_actors {Log}. Arguments sy_inserted {Log}.
Arguments sy_lost {Log}. Arguments sy_candidates {Log}. Arguments sy_orphans {Log}.

Section system.
Context {Log Env : Type} `{AuditLog Log Env} (rls : bool) (age : Z).
Implicit Types w : world Log.

Definition set_world w (s : system Log) : system Log :=
  System (sy_now s) w (sy_actors s) (sy_inserted s) (sy_lost s) (sy_candidates s) (sy_orphans s).
(** Actor [i] becomes [a] and the stores [w]. *)
Definition advance (i : nat) (a : actor) (w : world Log) (s : system Log) : system Log :=
  System (sy_now s) w (<[i := a]> (sy_actors s)) (sy_inserted s) (sy_lost s) (sy_candidates s) (sy_orphans s).
Definition draw (effect : bool) (id : string) (s : system Log) : system Log :=
  System (sy_now s) (sy_world s) (sy_actors s) (if effect then <[id := sy_now s]> (sy_inserted s) else sy_inserted s)
    (sy_lost s) (sy_candidates s) (sy_orphans s).
Definition lose (c : call) (ref : string) (s : system Log) : system Log :=
  System (sy_now s) (sy_world s) (sy_actors s) (sy_inserted s)
    (match c with ReplyLost => ref :: sy_lost s | _ => sy_lost s end) (sy_candidates s) (sy_orphans s).

Inductive sys_step : system Log → system Log → Prop :=
  | step_tick s t : sy_now s ≤ t →
      sys_step s (System t (sy_world s) (sy_actors s) (sy_inserted s) (sy_lost s) (sy_candidates s) (sy_orphans s))
  | step_start s c id rq w r :
      saga_execution_log (sy_world s) !! id = None → (∀ r, ASaga r ∈ sy_actors s → r_saga_id r ≠ id) →
      strip (rq_agent_id rq) = rq_agent_id rq →
      start_run c (sy_now s) id rq (sy_world s) = (w, r) →
      sys_step s (System (sy_now s) w (sy_actors s ++ match r with Some r => [ASaga r] | None => [] end) (sy_inserted s) (sy_lost s)
                    (sy_candidates s) (sy_orphans s))
  | step_start_index s j :
      sys_step s (System (sy_now s) (sy_world s) (sy_actors s ++ [AIndex (IndexRun j IdxInsert None)]) (sy_inserted s) (sy_lost s)
                    (sy_candidates s) (sy_orphans s))
  (* identifiers are drawn afresh *)
  | step_saga s i r (g : given Env) x ref w r' : sy_actors s !! i = Some (ASaga r) → g_now g = sy_now s → ref = default "" (r_mongo_id r) →
      (r_pc r = InsertDoc → sy_inserted s !! g_id g = None) →
      saga_step rls g x r (sy_world s) = (w, r') →
      sys_step s (advance i (ASaga r') w
        (draw (match r_pc r with InsertDoc => took_effect (g_call g) | _ => false end) (g_id g)
        (match r_pc r with StoreGraph => lose (g_call g) ref s | _ => s end)))
  | step_index s i r (g : given Env) ids key hash ref w r' : sy_actors s !! i = Some (AIndex r) → g_now g = sy_now s → ref = default "" (ix_mongo_id r) →
      (ix_pc r = IdxInsert → sy_inserted s !! g_id g = None) →
      index_step rls key hash g ids r (sy_world s) = (w, r') →
      sys_step s (advance i (AIndex r') w
        (draw (match ix_pc r with IdxInsert => took_effect (g_call g) | _ => false end) (g_id g)
        (if index_lost (ix_pc r) (g_call g) then lose ReplyLost ref s else s)))
  (* the collector: candidates, references, deletions; any number of passes at once;
     it lists every namespace that has memories *)
  | step_scan s : sys_step s (System (sy_now s) (sy_world s) (sy_actors s) (sy_inserted s) (sy_lost s)
                                (gc_candidates (sy_now s - age) (sy_world s) ++ sy_candidates s) (sy_orphans s))
  | step_refs s wrls PAGE_SIZE namespaces : (1 ≤ PAGE_SIZE)%nat →
      (∀ id m, memories (sy_world s) !! id = Some m → str_leb id ZERO_UUID = false ∧ ∀ ns, m_namespace_id m = Some ns → ns ∈ namespaces) →
      sys_step s (System (sy_now s) (sy_world s) (sy_actors s) (sy_inserted s) (sy_lost s) (sy_candidates s)
                    (gc_orphans (_fetch_pg_refs wrls PAGE_SIZE namespaces (sy_world s)) (sy_candidates s) ++ sy_orphans s))
  | step_delete s c o : o ∈ sy_orphans s → sys_step s (set_world (delete_one c o (sy_world s)) s)
  | step_reverse s look up ns c : sys_step s (set_world (reverse_check look up (sy_now s) ns c (sy_world s)) s)
  | step_recover s wrls (g : given Env) row : g_now g = sy_now s → strip (sg_agent_id row.2) = sg_agent_id row.2 →
      sys_step s (set_world (recover_saga wrls g row (sy_world s)) s).

Definition empty_system (log : Log) : system Log := System 0 (World ∅ ∅ ∅ ∅ log [] ∅ ∅) [] ∅ [] [] [].
Definition reachable (s : system Log) : Prop := ∃ log, rtc sys_step (empty_system log) s.

(** ** The invariant *)
Definition stored (rq : request) (x : extraction) (saga_id ref id : string) w : Prop :=
  (∃ m, memories w !! id = Some m ∧ m_payload_ref m = ref ∧ m_namespace_id m = Some (rq_namespace_id rq)) ∧
  (∃ p, audit_stored (store_memory_params saga_id id ref (rq_assertion_type rq) x) p ∧
        (rq_namespace_id rq, rq_agent_id rq, "store_memory"%string, p) ∈ audit_entries (event_log w)) ∧
  (∃ o, o ∈ outbox_events w ∧ ob_aggregate_id o = id ∧ ob_event_type o = "memory.stored"%string).
Definition unreferenced (ref : string) w : Prop := ∀ id m, memories w !! id = Some m → m_payload_ref m ≠ ref.
Definition col_of (a : actor) : collection := match a with ASaga _ => episodes | AIndex _ => code_files end.

(** The local variables of a run fit the point it has reached. *)
Definition shape (a : actor) : Prop :=
  match a with
  | ASaga r =>
      match r_pc r with
      | Extract | InsertDoc => r_mongo_id r = None ∧ r_pg_committed r = false
      | Embed | StoreGraph | UndoMongo | UndoPg => is_Some (r_mongo_id r) ∧ r_pg_committed r = false
      | LogCommitted | Cache | LogCompleted | Returned => is_Some (r_mongo_id r) ∧ is_Some (r_memory_id r)
      | LogRolledBack | Raised => True
      end ∧ strip (rq_agent_id (r_request r)) = rq_agent_id (r_request r)
  | AIndex r => match ix_pc r with
                | IdxInsert => ix_mongo_id r = None
                | IdxEmbed | IdxStore | IdxCache | IdxUndo | IdxDone => is_Some (ix_mongo_id r)
                | IdxFailed => True
                end
  end.
(** What holds of an actor that inserted [ref]. *)
Definition actor_ok (s : system Log) (a : actor) (ref : string) : Prop :=
  (∃ t, sy_inserted s !! ref = Some t ∧
        (pending a = true → sy_now s ≤ t + age → is_Some (mongo (sy_world s) !! (col_of a, ref)))) ∧
  (committed a = false → ref ∈ sy_lost s ∨ unreferenced ref (sy_world s)) ∧
  match a with
  | ASaga r => committed a = true →
      ∃ id, r_memory_id r = Some id ∧ stored (r_request r) (r_extraction r) (r_saga_id r) ref id (sy_world s)
  | AIndex _ => True
  end.
Definition expired (s : system Log) (oid : string) : Prop := ∃ t, sy_inserted s !! oid = Some t ∧ t + age < sy_now s.

(** The memory was committed more than [age] after its document was inserted, when the
    collector may have taken the document for an orphan. *)
Definition late (s : system Log) (m : memory) : Prop :=
  ∃ t, sy_inserted s !! m_payload_ref m = Some t ∧ t + age < m_created_at m.
(** What may leave a memory without its document. *)
Definition excused (s : system Log) (m : memory) : Prop :=
  m_payload_ref m ∈ sy_lost s ∨ late s m ∨ m_namespace_id m = None.
Definition spared (s : system Log) (ref : string) : Prop :=
  ∀ id m, memories (sy_world s) !! id = Some m → m_payload_ref m = ref → excused s m.

Record consistent (s : system Log) : Prop := {
  docs_exist : ∀ id m, memories (sy_world s) !! id = Some m →
    excused s m ∨ ∃ col, is_Some (mongo (sy_world s) !! (col, m_payload_ref m));
  refs_drawn : ∀ id m, memories (sy_world s) !! id = Some m → is_Some (sy_inserted s !! m_payload_ref m);
  docs_drawn : ∀ col oid d, mongo (sy_world s) !! (col, oid) = Some d →
    ∃ t, sy_inserted s !! oid = Some t ∧ doc_ingested_at d = Some t;
  shapes : ∀ i a, sy_actors s !! i = Some a → shape a;
  actors_ok : ∀ i a ref, sy_actors s !! i = Some a → actor_ref a = Some ref → actor_ok s a ref;
  actors_apart : ∀ i j a b ref, sy_actors s !! i = Some a → sy_actors s !! j = Some b →
    actor_ref a = Some ref → actor_ref b = Some ref → i = j;
  candidates_expired : ∀ col oid, (col, oid) ∈ sy_candidates s → expired s oid;
  orphans_expired : ∀ col oid, (col, oid) ∈ sy_orphans s → expired s oid ∧ spared s oid
}.

(** ** What a call may do to the stores without breaking it *)
Definition key (m : memory) : option string * string * Z := (m_namespace_id m, m_payload_ref m, m_created_at m).
(** Nothing that was stored is lost. *)
Definition keeps w w' : Prop :=
  (∀ id m, memories w !! id = Some m → ∃ m', memories w' !! id = Some m' ∧ key m' = key m) ∧
  (∀ e, e ∈ audit_entries (event_log w) → e ∈ audit_entries (event_log w')) ∧
  (∀ o, o ∈ outbox_events w → o ∈ outbox_events w').
(** New memories refer to the document of [new], and were created at its time. *)
Definition adds_only (new : option (string * Z)) w w' : Prop :=
  ∀ id m, memories w' !! id = Some m → new = Some (m_payload_ref m, m_created_at m) ∨ ∃ m0, memories w !! id = Some m0 ∧ key m = key m0.
Definition mild w w' : Prop := mongo w' = mongo w ∧ keeps w w' ∧ adds_only None w w'.

Lemma keeps_refl w : keeps w w.
Proof. split_and!; [|done|done]. intros id m Hm. by exists m. Qed.
Lemma mild_refl w : mild w w.
Proof. split_and!; [done|apply keeps_refl|]. intros id m Hm. right. by exists m. Qed.
Lemma mild_trans w1 w2 w3 : mild w1 w2 → mild w2 w3 → mild w1 w3.
Proof.
  intros (E1 & (K1 & L1 & O1) & A1) (E2 & (K2 & L2 & O2) & A2). split_and!; [congruence| |].
  - split_and!; [|auto|auto]. intros id m (m' & Hm' & Ek)%K1. destruct (K2 id m' Hm') as (m2 & ? & ?). exists m2. split; [done|congruence].
  - intros id m Hm. right. destruct (A2 id m Hm) as [?|(m' & Hm' & E)]; [done|]. destruct (A1 id m' Hm') as [?|(m0 & ? & ?)]; [done|].
    exists m0. split; [done|congruence].
Qed.
(** Rewriting each memory row into one with the same key. *)
Lemma mild_memories (f : gmap string memory → gmap string memory) w :
  (∀ id, key <$> f (memories w) !! id = key <$> memories w !! id) → mild w (set_memories f w).
Proof.
  intros Hf. split_and!; [done| |].
  - split_and!; [|done|done]. intros id m Hm. specialize (Hf id). rewrite Hm in Hf. cbn [memories set_memories].
    destruct (f (memories w) !! id) as [m'|]; [|done]. exists m'. split; [done|]. exact (inj Some _ _ Hf).
  - intros id m Hm. right. specialize (Hf id). cbn [memories set_memories] in Hm. rewrite Hm in Hf.
    destruct (memories w !! id) as [m0|]; [|done]. exists m0. split; [done|]. exact (inj Some _ _ Hf).
Qed.
Lemma key_retire now m : key (retire now m) = key m.
Proof. done. Qed.
Lemma mild_retire_at now ns id w :
  mild w (set_memories (alter (λ m, if in_namespace ns m then retire now m else m) id) w).
Proof.
  apply mild_memories. intros i. destruct (decide (i = id)) as [->|Hne]; [|by rewrite lookup_alter_ne].
  rewrite lookup_alter_eq, <- option_fmap_compose. apply option_fmap_ext. intros m. cbn. by destruct (in_namespace _ _).
Qed.
Lemma mild_sagas f w : mild w (set_sagas f w).
Proof. apply (mild_refl w). Qed.
Lemma mild_events log w : (∀ e, e ∈ audit_entries (event_log w) → e ∈ audit_entries log) → mild w (set_events log w).
Proof. intros Hl. destruct (mild_refl w) as (E & (K & L & O) & A). split_and!; [done| |done]. by split_and!. Qed.
Lemma audit_grows (env : Env) l ns agent ty params l' : strip agent = agent → audit_append env l ns agent ty params = Some l' →
  ∀ e, e ∈ audit_entries l → e ∈ audit_entries l'.
Proof. intros Hs Ha e He. destruct (audit_append_entries _ _ _ _ _ _ _ Hs Ha) as (p & _ & ->). apply elem_of_app. by left. Qed.

Lemma stored_keeps rq x saga_id ref id w w' : stored rq x saga_id ref id w → keeps w w' → stored rq x saga_id ref id w'.
Proof.
  intros ((m & Hm & Hr & Hn) & (p & Hp & He) & (o & Ho & ?)) (K & L & O). split_and!.
  - destruct (K id m Hm) as (m' & ? & [= ? ? ?]). exists m'. split_and!; [done|congruence..].
  - exists p. split; [done|]. by apply L.
  - exists o. split; [by apply O|done].
Qed.
Lemma unreferenced_adds ref new w w' : unreferenced ref w → adds_only new w w' → fst <$> new ≠ Some ref → unreferenced ref w'.
Proof.
  intros Hu Ha Hne id m Hm E. destruct (Ha id m Hm) as [->|(m0 & Hm0 & [= _ Ek _])]; [cbn in Hne; congruence|]. apply (Hu id m0 Hm0). congruence.
Qed.
Lemma excused_mono (s s' : system Log) m m' : excused s m → key m = key m' → (∀ ref, ref ∈ sy_lost s → ref ∈ sy_lost s') →
  (∀ oid t, sy_inserted s !! oid = Some t → sy_inserted s' !! oid = Some t) → excused s' m'.
Proof.
  intros He [= En Er Ec] Hl Hi. unfold excused, late in *. rewrite <- En, <- Er, <- Ec.
  destruct He as [?|[(t & ? & ?)|?]]; [left; auto|right; left; exists t; auto|by right; right].
Qed.
Lemma spared_adds (s s' : system Log) ref new : spared s ref → adds_only new (sy_world s) (sy_world s') → fst <$> new ≠ Some ref →
  (∀ r, r ∈ sy_lost s → r ∈ sy_lost s') → (∀ oid t, sy_inserted s !! oid = Some t → sy_inserted s' !! oid = Some t) → spared s' ref.
Proof.
  intros Hs Ha Hne Hl Hi id m Hm E. destruct (Ha id m Hm) as [->|(m0 & Hm0 & Ek)]; [cbn in Hne; congruence|].
  assert (key m0 = key m) as Ek' by done. injection Ek as _ Er _. eapply excused_mono; [apply (Hs id m0 Hm0); congruence|done..].
Qed.

(** ** Preservation *)

(** The part of an actor's condition that stays true whatever other actors do. *)
Lemma actor_ok_mono (s s' : system Log) a ref :
  actor_ok s a ref → sy_now s ≤ sy_now s' → (∀ t, sy_inserted s !! ref = Some t → sy_inserted s' !! ref = Some t) →
  (pending a = true → (∃ t, sy_inserted s !! ref = Some t ∧ sy_now s' ≤ t + age) → is_Some (mongo (sy_world s) !! (col_of a, ref)) →
     is_Some (mongo (sy_world s') !! (col_of a, ref))) →
  (ref ∈ sy_lost s → ref ∈ sy_lost s') → (unreferenced ref (sy_world s) → ref ∈ sy_lost s' ∨ unreferenced ref (sy_world s')) →
  keeps (sy_world s) (sy_world s') → actor_ok s' a ref.
Proof.
  intros ((t & Ht & Hp) & Hu & Hc) Hnow Hins Hmongo Hlost Hunref Hk. split_and!.
  - exists t. split; [by apply Hins|]. intros Hpend Hle. apply Hmongo; [done|by exists t|]. apply Hp; [done|lia].
  - intros Hnc. destruct (Hu Hnc) as [?|?]; [left|]; auto.
  - destruct a as [r|]; [|done]. intros Hcom. destruct (Hc Hcom) as (id & ? & ?). exists id. split; [done|]. by eapply stored_keeps.
Qed.

Lemma expired_mono (s s' : system Log) oid : expired s oid → sy_now s ≤ sy_now s' →
  (∀ t, sy_inserted s !! oid = Some t → sy_inserted s' !! oid = Some t) → expired s' oid.
Proof. intros (t & Ht & Hlt) Hnow Hins. exists t. split; [by apply Hins|lia]. Qed.

(** Documents and memories of other references are as they were. *)
Definition touches (o : option string) (now : Z) w w' : Prop :=
  (∀ col oid, o ≠ Some oid → mongo w' !! (col, oid) = mongo w !! (col, oid)) ∧ keeps w w' ∧ adds_only ((λ r, (r, now)) <$> o) w w'.
Lemma adds_none new w w' : adds_only None w w' → adds_only new w w'.
Proof. intros A id m Hm. destruct (A id m Hm) as [?|?]; [done|by right]. Qed.
Lemma mild_touches o now w w' : mild w w' → touches o now w w'.
Proof. intros (E & K & A). split_and!; [by rewrite E|done|by apply adds_none]. Qed.

Definition doc_drawn (ins : gmap string Z) (d : document) (oid : string) : Prop :=
  ∃ t, ins !! oid = Some t ∧ doc_ingested_at d = Some t.

(** A step of actor [i] on its own reference, or on a fresh one. *)
Lemma consistent_actor (s : system Log) i a a' w' o ins' lost' :
  consistent s → sy_actors s !! i = Some a → touches o (sy_now s) (sy_world s) w' →
  let s' := System (sy_now s) w' (<[i := a']> (sy_actors s)) ins' lost' (sy_candidates s) (sy_orphans s) in
  (∀ ref, o = Some ref → actor_ref a = Some ref ∨ sy_inserted s !! ref = None) →
  (∀ oid t, sy_inserted s !! oid = Some t → ins' !! oid = Some t) → (∀ ref, ref ∈ sy_lost s → ref ∈ lost') →
  shape a' → (∀ ref, actor_ref a' = Some ref → o = Some ref ∨ actor_ref a = Some ref) →
  (∀ ref, actor_ref a' = Some ref → actor_ok s' a' ref) →
  (∀ ref, o = Some ref → (∀ id m, memories w' !! id = Some m → m_payload_ref m = ref → excused s' m ∨ ∃ col, is_Some (mongo w' !! (col, ref))) ∧
     is_Some (ins' !! ref) ∧
     (∀ col d, mongo w' !! (col, ref) = Some d → doc_drawn ins' d ref) ∧ (expired s ref → spared s ref → spared s' ref)) →
  consistent s'.
Proof.
  intros Hs Hi (Hmongo & Hkeep & Hadd) s' Ho Hins Hlost Hshape Href' Hok' Ht.
  assert (∀ j b ref, j ≠ i → sy_actors s !! j = Some b → actor_ref b = Some ref → o ≠ Some ref) as Hother.
  { intros j b ref Hji Hb Hr E. destruct (Ho ref E) as [Ha|Hf].
    - by apply Hji, (actors_apart _ Hs j i b a ref).
    - destruct (actors_ok _ Hs j b ref Hb Hr) as ((t & Ht' & _) & _). congruence. }
  assert (∀ ref, o ≠ Some ref → fst <$> ((λ r, (r, sy_now s)) <$> o) ≠ Some ref) as Hfst by (by destruct o).
  split; [| |subst s'; cbn [sy_now sy_world sy_actors sy_inserted sy_lost sy_candidates sy_orphans]..].
  - intros id m Hm. destruct (decide (o = Some (m_payload_ref m))) as [E|Hne]; [by apply (proj1 (Ht _ E) id m)|].
    destruct (Hadd id m Hm) as [E|(m0 & Hm0 & Ek)]; [destruct o; simplify_eq/=; congruence|]. assert (key m0 = key m) as Ek' by done.
    injection Ek as _ Er _. destruct (docs_exist _ Hs id m0 Hm0) as [He|(col & Hd)]; [left; by eapply excused_mono|].
    right. exists col. subst s'. cbn. rewrite Hmongo by done. by rewrite Er.
  - intros id m Hm. destruct (decide (o = Some (m_payload_ref m))) as [E|Hne]; [by apply (Ht _ E)|].
    destruct (Hadd id m Hm) as [E|(m0 & Hm0 & [= _ Er _])]; [destruct o; simplify_eq/=; congruence|].
    destruct (refs_drawn _ Hs id m0 Hm0) as [t Htd]. exists t. rewrite Er. by apply Hins.
  - intros col oid d Hd. destruct (decide (o = Some oid)) as [E|Hne]; [exact (proj1 (proj2 (proj2 (Ht _ E))) col d Hd)|]. rewrite Hmongo in Hd by done.
    destruct (docs_drawn _ Hs col oid d Hd) as (t & ? & ?). exists t. auto.
  - intros j b Hj. destruct (decide (j = i)) as [->|Hji].
    + rewrite list_lookup_insert_eq in Hj by by eapply lookup_lt_Some. by injection Hj as <-.
    + rewrite list_lookup_insert_ne in Hj by done. by eapply shapes.
  - intros j b ref Hj Hr. destruct (decide (j = i)) as [->|Hji].
    + rewrite list_lookup_insert_eq in Hj by by eapply lookup_lt_Some. injection Hj as <-. by apply Hok'.
    + rewrite list_lookup_insert_ne in Hj by done. pose proof (Hother j b ref Hji Hj Hr) as Hne.
      eapply actor_ok_mono; [by eapply actors_ok|cbn; lia|apply Hins| |apply Hlost| |done]; cbn.
      * intros _ _. by rewrite Hmongo.
      * intros Hu. right. by eapply unreferenced_adds; [| |apply Hfst].
  - assert (∀ j b, <[i:=a']> (sy_actors s) !! j = Some b → ∀ ref, actor_ref b = Some ref →
      (j = i ∧ (o = Some ref ∨ actor_ref a = Some ref)) ∨ (j ≠ i ∧ sy_actors s !! j = Some b)) as Hcase.
    { intros j b Hj ref Hr. destruct (decide (j = i)) as [->|Hji]; [left|right].
      - rewrite list_lookup_insert_eq in Hj by by eapply lookup_lt_Some. injection Hj as <-. auto.
      - by rewrite list_lookup_insert_ne in Hj. }
    intros j k b c ref Hj Hk Hb Hc.
    destruct (Hcase j b Hj ref Hb) as [[-> H1]|[Hj' H1]], (Hcase k c Hk ref Hc) as [[-> H2]|[Hk' H2]]; [done| | |].
    + exfalso. destruct H1 as [H1|H1]; [by apply (Hother k c ref Hk' H2 Hc)|]. by apply Hk', (actors_apart _ Hs k i c a ref).
    + exfalso. destruct H2 as [H2|H2]; [by apply (Hother j b ref Hj' H1 Hb)|]. by apply Hj', (actors_apart _ Hs j i b a ref).
    + by eapply (actors_apart _ Hs).
  - intros col oid Hin. eapply expired_mono; [by eapply candidates_expired|cbn; lia|apply Hins].
  - intros col oid Hin. destruct (orphans_expired _ Hs col oid Hin) as [He Hu]. split.
    + eapply expired_mono; [done|cbn; lia|apply Hins].
    + destruct (decide (o = Some oid)) as [E|Hne]; [by apply (Ht _ E)|by eapply spared_adds; [| |apply Hfst|..]].
Qed.

(** A step that leaves documents and references alone. *)
Lemma consistent_quiet (s : system Log) i a a' w' lost' :
  consistent s → sy_actors s !! i = Some a → mild (sy_world s) w' → (∀ ref, ref ∈ sy_lost s → ref ∈ lost') →
  shape a' → actor_ref a' = actor_ref a → col_of a' = col_of a → (pending a' = true → pending a = true) →
  (committed a' = false → committed a = false ∨ ∀ ref, actor_ref a = Some ref → ref ∈ lost') →
  match a' with
  | ASaga r' => committed a' = true → ∃ r, a = ASaga r ∧ committed a = true ∧ r_memory_id r' = r_memory_id r ∧
                  r_request r' = r_request r ∧ r_extraction r' = r_extraction r ∧ r_saga_id r' = r_saga_id r
  | AIndex _ => True
  end →
  consistent (System (sy_now s) w' (<[i := a']> (sy_actors s)) (sy_inserted s) lost' (sy_candidates s) (sy_orphans s)).
Proof.
  intros Hs Hi Hm Hlost Hshape Href Hcol Hpend Hcom Hst. pose proof Hm as (Emongo & Hk & Hadd).
  apply (consistent_actor s i a a' w' None); try done; [by apply mild_touches|by rewrite Href; right|].
  intros ref Hr. rewrite Href in Hr. destruct (actors_ok _ Hs i a ref Hi Hr) as ((t & Ht & Hp) & Hu & Hc). split_and!; cbn.
  - exists t. split; [done|]. intros Hpa Hle. rewrite Emongo, Hcol. by apply Hp; [apply Hpend|].
  - intros Hca. destruct (Hcom Hca) as [Hcu|Hl]; [|left; auto]. destruct (Hu Hcu) as [?|?]; [left; auto|right]. by eapply unreferenced_adds.
  - destruct a' as [r'|]; [|done]. intros Hca. destruct (Hst Hca) as (r & -> & Hcr & -> & -> & -> & ->).
    destruct (Hc Hcr) as (id & ? & ?). exists id. split; [done|]. by eapply stored_keeps.
Qed.

(** The document's insertion. *)
Lemma consistent_insert (s : system Log) i a a' ns id :
  consistent s → sy_actors s !! i = Some a → actor_ref a = None → sy_inserted s !! id = None → shape a' → committed a' = false →
  (∀ ref, actor_ref a' = Some ref → ref = id) →
  consistent (System (sy_now s) (set_mongo <[(col_of a', id) := Document ns (Some (sy_now s))]> (sy_world s)) (<[i := a']> (sy_actors s))
    (<[id := sy_now s]> (sy_inserted s)) (sy_lost s) (sy_candidates s) (sy_orphans s)).
Proof.
  intros Hs Hi Ha Hid Hshape Hcom Href.
  assert (∀ oid t, sy_inserted s !! oid = Some t → <[id:=sy_now s]> (sy_inserted s) !! oid = Some t) as Hins.
  { intros oid t Ht. rewrite lookup_insert_ne; [done|]. by intros ->; rewrite Hid in Ht. }
  assert (unreferenced id (sy_world s)) as Hun.
  { intros mid m Hm E. destruct (refs_drawn _ Hs mid m Hm) as [t Ht]. congruence. }
  apply (consistent_actor s i a a' _ (Some id)); try done.
  - split_and!; [|apply (keeps_refl (sy_world s))|intros mid m Hm; right; by exists m].
    intros col oid Hne. cbn. by rewrite lookup_insert_ne by congruence.
  - intros ref [= <-]. by right.
  - intros ref Hr. left. f_equal. symmetry. by apply Href.
  - intros ref Hr. rewrite (Href ref Hr) in *. split_and!; cbn.
    + exists (sy_now s). rewrite lookup_insert_eq. split; [done|]. intros _ _. by rewrite lookup_insert_eq.
    + intros _. by right.
    + destruct a'; [|done]. by rewrite Hcom.
  - intros ref [= <-]. split_and!; cbn.
    + intros mid m Hm E. by destruct (Hun mid m Hm).
    + by rewrite lookup_insert_eq.
    + intros col d Hd. destruct (decide (col = col_of a')) as [->|Hne].
      * rewrite lookup_insert_eq in Hd. injection Hd as <-. exists (sy_now s). by rewrite lookup_insert_eq.
      * rewrite lookup_insert_ne in Hd by congruence. destruct (docs_drawn _ Hs _ _ _ Hd) as (t & ? & _). congruence.
    + intros (t & ? & _). congruence.
Qed.

(** Its deletion by a run that did not commit. *)
Lemma consistent_undo (s : system Log) i a a' ref :
  consistent s → sy_actors s !! i = Some a → actor_ref a = Some ref → committed a = false → actor_ref a' = Some ref →
  shape a' → committed a' = false → pending a' = false →
  consistent (advance i a' (set_mongo (delete (col_of a, ref)) (sy_world s)) s).
Proof.
  intros Hs Hi Hr Hc Hr' Hshape Hc' Hp'.
  destruct (actors_ok _ Hs i a ref Hi Hr) as ((t & Ht & _) & Hu & _). specialize (Hu Hc).
  apply (consistent_actor s i a a' _ (Some ref)); try done.
  - split_and!; [|apply (keeps_refl (sy_world s))|intros mid m Hm; right; by exists m].
    intros col oid Hne. cbn. by rewrite lookup_delete_ne by congruence.
  - intros ? [= <-]. by left.
  - intros ? ?. left. congruence.
  - intros ref' Hr2. assert (ref' = ref) as -> by congruence. split_and!; cbn.
    + exists t. split; [done|]. by rewrite Hp'.
    + intros _. exact Hu.
    + destruct a'; [|done]. by rewrite Hc'.
  - intros ? [= <-]. split_and!; cbn.
    + intros mid m Hm E. left. destruct Hu as [?|Hu]; [left; by rewrite E|by destruct (Hu mid m Hm)].
    + by exists t.
    + intros col d Hd. apply lookup_delete_Some in Hd as [_ Hd]. apply (docs_drawn _ Hs _ _ _ Hd).
    + done.
Qed.

(** The commit. *)
Lemma consistent_commit (s : system Log) i a a' w' ref lost' :
  consistent s → sy_actors s !! i = Some a → actor_ref a = Some ref → pending a = true → col_of a' = col_of a →
  mongo w' = mongo (sy_world s) → keeps (sy_world s) w' → adds_only (Some (ref, sy_now s)) (sy_world s) w' →
  (∀ r, r ∈ sy_lost s → r ∈ lost') → shape a' → actor_ref a' = Some ref → pending a' = false →
  (committed a' = false → ref ∈ lost') →
  match a' with
  | ASaga r => committed a' = true → ∃ id, r_memory_id r = Some id ∧ stored (r_request r) (r_extraction r) (r_saga_id r) ref id w'
  | AIndex _ => True
  end →
  consistent (System (sy_now s) w' (<[i := a']> (sy_actors s)) (sy_inserted s) lost' (sy_candidates s) (sy_orphans s)).
Proof.
  intros Hs Hi Hr Hp Hcol Em Hk Hadd Hlost Hshape Hr' Hp' Hcl Hst.
  destruct (actors_ok _ Hs i a ref Hi Hr) as ((t & Ht & Hdoc) & _). specialize (Hdoc Hp).
  assert (∀ id m, memories w' !! id = Some m → m_payload_ref m = ref → (m_created_at m = sy_now s) ∨ ∃ m0, memories (sy_world s) !! id = Some m0 ∧ key m0 = key m) as Hnew.
  { intros id m Hm E. destruct (Hadd id m Hm) as [[= _ Ec]|(m0 & ? & ?)]; [by left|right; by exists m0]. }
  apply (consistent_actor s i a a' _ (Some ref)); try done.
  - split_and!; [|done|done]. intros col oid _. by rewrite Em.
  - intros ? [= <-]. by left.
  - intros ? ?. left. congruence.
  - intros ref' Hr2. assert (ref' = ref) as -> by congruence. split_and!; cbn.
    + exists t. split; [done|]. by rewrite Hp'.
    + intros Hc. left. by apply Hcl.
    + done.
  - intros ? [= <-]. split_and!.
    + intros id m Hm E. destruct (Hnew id m Hm E) as [Ec|(m0 & Hm0 & Ek)].
      * destruct (decide (sy_now s ≤ t + age)) as [Hle|Hgt]; [right; exists (col_of a); rewrite Em; by apply Hdoc|].
        left. right. left. exists t. cbn. rewrite E, Ec. split; [done|lia].
      * pose proof Ek as [= _ Er _]. destruct (docs_exist _ Hs id m0 Hm0) as [He|(col & Hd)]; [left; by eapply excused_mono|].
        right. exists col. rewrite Em. by rewrite <- E, <- Er.
    + by exists t.
    + intros col d Hd. rewrite Em in Hd. apply (docs_drawn _ Hs _ _ _ Hd).
    + intros (t' & Ht' & Hlt) Hsp id m Hm E. destruct (Hnew id m Hm E) as [Ec|(m0 & Hm0 & Ek)].
      * right. left. exists t'. cbn. by rewrite E, Ec.
      * pose proof Ek as [= _ Er _]. eapply excused_mono; [apply (Hsp id m0 Hm0); congruence|done..].
Qed.

(** ** What each call does *)
Lemma mild_graph f g w : mild w (set_graph f g w).
Proof. apply (mild_refl w). Qed.
Lemma mild_cache f w : mild w (set_cache f w).
Proof. apply (mild_refl w). Qed.
Lemma mild_transition now id st m w : mild w (_saga_log_transition rls now id st m w).
Proof. unfold _saga_log_transition. destruct (_ || _); [apply mild_refl|apply mild_sagas]. Qed.
Lemma mild_rollback (g : given Env) rq saga_id m ref reason w : mild w (default w (rollback_pg rls g rq saga_id false m ref reason w)).
Proof.
  unfold rollback_pg. destruct rls; [apply mild_refl|]. cbn [default]. apply (mild_trans _ (delete_graph ref w)); [apply mild_graph|].
  apply mild_memories. intros id. rewrite lookup_fmap, <- option_fmap_compose. apply option_fmap_ext. intros m0. cbn.
  by destruct (String.eqb _ _).
Qed.
Lemma mild_reverse look up now ns c w : mild w (reverse_check look up now ns c w).
Proof.
  unfold reverse_check. destruct (_ && _); [|apply mild_refl]. destruct (find_episode _ _ _); [apply mild_refl|].
  destruct (took_effect _); [apply mild_retire_at|apply mild_refl].
Qed.
Lemma mild_recover wrls (g : given Env) row w : strip (sg_agent_id row.2) = sg_agent_id row.2 → mild w (recover_saga wrls g row w).
Proof.
  destruct row as [id s]. intros Hs. unfold recover_saga. destruct (sg_memory_id s) as [mid|].
  - destruct (memory_in _ _ _); [|destruct (_ || _); [apply mild_refl|apply mild_sagas]].
    destruct (audit_append _ _ _ _ _ _) as [log|] eqn:E; [|apply mild_refl]. destruct (took_effect _); [|apply mild_refl].
    eapply mild_trans; [|apply mild_sagas]. apply mild_events. by eapply audit_grows.
  - destruct wrls; [apply mild_refl|]. destruct (took_effect _); [apply mild_sagas|apply mild_refl].
Qed.

Lemma store_graph_spec (g : given Env) rq x saga_id ref w w' :
  _store_semantic_graph_pg g rq x saga_id ref w = Some w' → strip (rq_agent_id rq) = rq_agent_id rq →
  mongo w' = mongo w ∧ keeps w w' ∧ adds_only (Some (ref, g_now g)) w w' ∧ saga_execution_log w' = saga_execution_log w ∧
  stored rq x saga_id ref (g_id g) w'.
Proof.
  intros Hst Hstrip. unfold _store_semantic_graph_pg, _embed_and_insert_vectors in Hst.
  destruct (memories w !! g_id g) eqn:Efresh; [done|]. cbn [mbind option_bind] in Hst.
  unfold _insert_graph_nodes_and_edges in Hst. cbn [kg_nodes kg_edges event_log set_memories] in Hst.
  destruct (upsert_nodes _ _ _ _ _) as [nodes|]; [|done]. cbn [mbind option_bind] in Hst.
  destruct (upsert_edges _ _ _ _ _) as [edges|]; [|done]. cbn [mbind option_bind] in Hst.
  destruct (audit_append (g_env g) _ _ _ _ _) as [log1|] eqn:E1; [|done]. cbn [mbind option_bind] in Hst.
  match type of Hst with context [match redacted_entities x with Some types => @?f types | None => ?d end] =>
    destruct (match redacted_entities x with Some types => f types | None => d end) as [log2|] eqn:E2 end; [|done]. injection Hst as <-.
  destruct (audit_append_entries _ _ _ _ _ _ _ Hstrip E1) as (p & Hp & Hent).
  assert (∀ e, e ∈ audit_entries log1 → e ∈ audit_entries log2) as Hgrow.
  { destruct (redacted_entities x); [by eapply audit_grows|by injection E2 as <-]. }
  unfold keeps, adds_only, stored. cbn [set_outbox set_events set_graph set_memories memories event_log outbox_events mongo saga_execution_log].
  split_and!; try done.
  - intros id m Hm. exists m. rewrite lookup_insert_ne; [done|]. intros <-; by rewrite Efresh in Hm.
  - intros e He. apply Hgrow. rewrite Hent. apply elem_of_app. by left.
  - intros o Ho. apply elem_of_app. by left.
  - intros id m Hm. apply lookup_insert_Some in Hm as [[_ <-]|[Hne Hm]]; [by left|right; by exists m].
  - eexists. rewrite lookup_insert_eq. by split_and!.
  - exists p. split; [done|]. apply Hgrow. rewrite Hent. apply elem_of_app. right. by apply list_elem_of_singleton.
  - eexists. split; [apply elem_of_app; right; by apply list_elem_of_singleton|done].
Qed.

Lemma store_chunks_spec now j ref ids m m' : store_chunks now j ref ids m = Some m' →
  (∀ id x, m !! id = Some x → ∃ x', m' !! id = Some x' ∧ key x' = key x) ∧
  (∀ id x, m' !! id = Some x → (ref = m_payload_ref x ∧ m_created_at x = now) ∨ ∃ x0, m !! id = Some x0 ∧ key x = key x0).
Proof.
  unfold store_chunks. set (m1 := (λ x, if same_file j x then retire now x else x) <$> m).
  destruct (_ && forallb _ _) eqn:E; [|done]. intros [= <-]. apply andb_true_iff in E as [_ Hids].
  assert (∀ i, i ∈ ids → m1 !! i = None) as Hnew.
  { intros i Hi. rewrite forallb_forall in Hids. specialize (Hids i ltac:(by apply list_elem_of_In)). by apply bool_decide_eq_true in Hids. }
  clear Hids. set (row := Memory _ _ _ _ ref now None).
  assert (∀ id, (id ∈ ids ∧ (foldr (λ i m, <[i := row]> m) m1 ids) !! id = Some row) ∨
                ((id ∉ ids) ∧ (foldr (λ i m, <[i := row]> m) m1 ids) !! id = m1 !! id)) as Hfold.
  { clear Hnew. intros id. induction ids as [|i ids IH]; [right; by split; [apply not_elem_of_nil|]|]. cbn [foldr].
    destruct (decide (id = i)) as [->|Hne]; [left; split; [left|by rewrite lookup_insert_eq]|].
    rewrite lookup_insert_ne by done. destruct IH as [[? ?]|[? ?]]; [left; split; [by right|done]|right].
    split; [|done]. rewrite elem_of_cons. by intros [?|?]. }
  assert (∀ id x, m1 !! id = Some x → ∃ x0, m !! id = Some x0 ∧ key x = key x0) as Hold.
  { intros id x Hx. unfold m1 in Hx. rewrite lookup_fmap in Hx. destruct (m !! id) as [x0|]; [|done]. injection Hx as <-.
    exists x0. split; [done|]. by destruct (same_file j x0). }
  split; intros id x Hx.
  - destruct (Hfold id) as [[Hin _]|[_ ->]].
    + specialize (Hnew id Hin). unfold m1 in Hnew. by rewrite lookup_fmap, Hx in Hnew.
    + unfold m1. rewrite lookup_fmap, Hx. eexists. split; [done|]. by destruct (same_file j x).
  - destruct (Hfold id) as [[_ E]|[_ E]]; rewrite E in Hx; [left; by injection Hx as <-|right; by apply Hold].
Qed.
End system.
