(* ===== verification/MemorySteps.v ===== *)
(** * MemorySteps: every step of the memory stores keeps them consistent

    Each call of a saga or of an indexing worker, and each action of the collector
    and of recovery, preserves [MemoryFacts.consistent]. *)
From S2P Require Import Prelude PyText AuditLog OutboxRelay Locks MemoryStore GarbageCollector GcFacts MemoryFacts.
Local Open Scope Z_scope.

(** The steps of the [try] block. *)
Definition in_try (p : pc) : bool := match p with Extract | InsertDoc | Embed | StoreGraph => true | _ => false end.

Section props.
Context {Log Env : Type} `{AuditLog Log Env} (rls : bool) (age : Z).
Implicit Types s : system Log.

(** ** Every step preserves the invariant *)
Lemma consistent_fail s i r w' lost' :
  consistent age s → sy_actors s !! i = Some (ASaga r) → committed (ASaga r) = false → r_pg_committed r = false →
  mild (sy_world s) w' → (∀ ref, ref ∈ sy_lost s → ref ∈ lost') →
  consistent age (System (sy_now s) w' (<[i := ASaga (on_failure r)]> (sy_actors s)) (sy_inserted s) lost' (sy_candidates s) (sy_orphans s)).
Proof.
  intros Hs Hi Hc Hpg Hm Hl. destruct (shapes _ _ Hs i _ Hi) as [_ Hstrip].
  destruct r as [sid rq p x mo me pg]. cbn in Hpg, Hstrip. subst pg.
  apply (consistent_quiet age s i (ASaga (Run sid rq p x mo me false))); [done|done|done|done|..];
    unfold on_failure, set_pc; cbn [r_saga_id r_request r_pc r_extraction r_mongo_id r_memory_id r_pg_committed]; destruct mo; try first [done|by left].
Qed.

Section saga_run.
Context s (i : nat) (r : run) (g : given Env) (x : extraction) (ref : string) (w : world Log) (r' : run).
Context (Hs : consistent age s) (Hi : sy_actors s !! i = Some (ASaga r)) (Hnow : g_now g = sy_now s) (Href : ref = default "" (r_mongo_id r))
  (Hfresh : r_pc r = InsertDoc → sy_inserted s !! g_id g = None)
  (Hstep : saga_step rls g x r (sy_world s) = (w, r')).
Let next : system Log := advance i (ASaga r') w (draw (match r_pc r with InsertDoc => took_effect (g_call g) | _ => false end) (g_id g)
  (match r_pc r with StoreGraph => lose (g_call g) ref s | _ => s end)).

Lemma consistent_try : in_try (r_pc r) = true → consistent age next.
Proof.
  intros Hpc. subst next. subst ref. pose proof (shapes _ _ Hs i _ Hi) as [Hshape Hstrip].
  destruct r as [sid rq p y mo me pg]. cbn [r_saga_id r_request r_pc r_extraction r_mongo_id r_memory_id r_pg_committed] in *.
  destruct p; try first [done|by left]; cbn [r_saga_id r_request r_pc r_extraction r_mongo_id r_memory_id r_pg_committed saga_step] in *;
    unfold advance, draw, lose; cbn [sy_now sy_world sy_actors sy_inserted sy_lost sy_candidates sy_orphans].
  - (* Extract *)
    injection Hstep as <- <-. destruct Hshape as [-> ->]. destruct (answered (g_call g)).
    + apply (consistent_quiet age s i (ASaga (Run sid rq Extract y None me false))); try first [done|by left]. apply mild_refl.
    + apply consistent_fail; try first [done|by left]. apply mild_refl.
  - (* InsertDoc *)
    destruct Hshape as [-> ->]. destruct (g_call g) eqn:Ec; cbn [took_effect answered andb] in *; injection Hstep as <- <-.
    + unfold _store_episodic_mongodb. rewrite Hnow.
      apply (consistent_insert age s i (ASaga (Run sid rq InsertDoc y None me false)) (ASaga (Run sid rq Embed y (Some (g_id g)) me false)));
        try first [done|by left]; [by apply Hfresh|by intros ref [= ->]].
    + apply consistent_fail; try first [done|by left]. apply mild_refl.
    + unfold _store_episodic_mongodb. rewrite Hnow.
      apply (consistent_insert age s i (ASaga (Run sid rq InsertDoc y None me false)) (ASaga (Run sid rq LogRolledBack y None me false)));
        try first [done|by left]; by apply Hfresh.
  - (* Embed *)
    injection Hstep as <- <-. destruct Hshape as [Href ->]. destruct (answered (g_call g)).
    + apply (consistent_quiet age s i (ASaga (Run sid rq Embed y mo me false))); try first [done|by left]. apply mild_refl.
    + apply consistent_fail; try first [done|by left]. apply mild_refl.
  - (* StoreGraph *)
    destruct Hshape as [[ref ->] ->]. cbn [default from_option id] in *.
    destruct (_store_semantic_graph_pg g rq y sid ref (sy_world s)) as [w'|] eqn:Est; injection Hstep as <- <-.
    + destruct (store_graph_spec g rq y sid ref _ _ Est Hstrip) as (Em & Hk & Hadd & _ & Hst).
      rewrite Hnow in Hadd. pose (a := ASaga (Run sid rq StoreGraph y (Some ref) me false)).
      destruct (g_call g) eqn:Ec; cbn [took_effect answered].
      * apply (consistent_commit age s i a _ w' ref); try done. intros _. by exists (g_id g).
      * apply consistent_fail; try first [done|by left]. apply mild_refl.
      * apply (consistent_commit age s i a _ w' ref); try done; [intros ? ?; by right|intros _; left].
    + apply consistent_fail; try first [done|by left]; [apply mild_refl|]. intros ? ?. destruct (g_call g); first [done|by right].
Qed.
Lemma consistent_after : in_try (r_pc r) = false → consistent age next.
Proof.
  intros Hpc. subst next. subst ref. pose proof (shapes _ _ Hs i _ Hi) as [Hshape Hstrip].
  destruct r as [sid rq p y mo me pg]. cbn [r_saga_id r_request r_pc r_extraction r_mongo_id r_memory_id r_pg_committed] in *.
  destruct p; try first [done|by left]; cbn [r_saga_id r_request r_pc r_extraction r_mongo_id r_memory_id r_pg_committed saga_step] in *;
    unfold advance, draw, lose; cbn [sy_now sy_world sy_actors sy_inserted sy_lost sy_candidates sy_orphans].
  - (* UndoMongo *)
    injection Hstep as <- <-. destruct Hshape as [[ref ->] ->]. cbn [default from_option id] in *. destruct (took_effect (g_call g)).
    + apply (consistent_undo age s i (ASaga (Run sid rq UndoMongo y (Some ref) me false)) _ ref); try first [done|by left].
    + apply (consistent_quiet age s i (ASaga (Run sid rq UndoMongo y (Some ref) me false))); try first [done|by left]. apply mild_refl.
  - (* UndoPg *)
    injection Hstep as <- <-. destruct Hshape as [Href ->].
    apply (consistent_quiet age s i (ASaga (Run sid rq UndoPg y mo me false))); try first [done|by left].
    destruct (took_effect (g_call g)); [apply mild_rollback|apply mild_refl].
  - (* LogRolledBack *)
    injection Hstep as <- <-. apply (consistent_quiet age s i (ASaga (Run sid rq LogRolledBack y mo me pg))); try first [done|by left].
    destruct (took_effect (g_call g)); [apply mild_transition|apply mild_refl].
  - (* LogCommitted *)
    injection Hstep as <- <-. apply (consistent_quiet age s i (ASaga (Run sid rq LogCommitted y mo me pg))); try first [done|by left].
    + destruct (took_effect (g_call g)); [apply mild_transition|apply mild_refl].
    + intros _. by eexists.
  - (* Cache *)
    injection Hstep as <- <-. apply (consistent_quiet age s i (ASaga (Run sid rq Cache y mo me pg))); try first [done|by left].
    + destruct (cache_key rq); [destruct (took_effect (g_call g)); [apply mild_cache|]|]; apply mild_refl.
    + intros _. by eexists.
  - (* LogCompleted *)
    injection Hstep as <- <-. apply (consistent_quiet age s i (ASaga (Run sid rq LogCompleted y mo me pg))); try first [done|by left].
    + destruct (took_effect (g_call g)); [apply mild_transition|apply mild_refl].
    + intros _. by eexists.
  - (* Returned *)
    injection Hstep as <- <-. apply (consistent_quiet age s i (ASaga (Run sid rq Returned y mo me pg))); try first [done|by left]; [apply mild_refl|].
    intros _. by eexists.
  - (* Raised *)
    injection Hstep as <- <-. apply (consistent_quiet age s i (ASaga (Run sid rq Raised y mo me pg))); try first [done|by left]. apply mild_refl.
Qed.
Lemma consistent_saga : consistent age next.
Proof. destruct (in_try (r_pc r)) eqn:E; [by apply consistent_try|by apply consistent_after]. Qed.
End saga_run.

Lemma consistent_index s i (r : index_run) (g : given Env) key hash ids ref w r' :
  consistent age s → sy_actors s !! i = Some (AIndex r) → g_now g = sy_now s → ref = default "" (ix_mongo_id r) →
  (ix_pc r = IdxInsert → sy_inserted s !! g_id g = None) →
  index_step rls key hash g ids r (sy_world s) = (w, r') →
  consistent age (advance i (AIndex r') w (draw (match ix_pc r with IdxInsert => took_effect (g_call g) | _ => false end) (g_id g)
    (if index_lost (ix_pc r) (g_call g) then lose ReplyLost ref s else s))).
Proof.
  intros Hs Hi Hnow -> Hfresh Hstep. pose proof (shapes _ _ Hs i _ Hi) as Hshape.
  destruct r as [j p mo]. cbn [ix_job ix_pc ix_mongo_id] in *.
  destruct p; cbn [ix_job ix_pc ix_mongo_id index_step index_lost] in *;
    unfold advance, draw, lose; cbn [sy_now sy_world sy_actors sy_inserted sy_lost sy_candidates sy_orphans].
  - cbn in Hshape. subst mo. rewrite Hnow in Hstep.
    destruct (g_call g) eqn:Ec; cbn [took_effect answered] in *; injection Hstep as <- <-.
    + apply (consistent_insert age s i (AIndex (IndexRun j IdxInsert None)) (AIndex (IndexRun j IdxEmbed (Some (g_id g)))));
        try first [done|by eexists|by left]; [by apply Hfresh|by intros ref [= ->]].
    + apply (consistent_quiet age s i (AIndex (IndexRun j IdxInsert None))); try first [done|by eexists|by left]. apply mild_refl.
    + apply (consistent_insert age s i (AIndex (IndexRun j IdxInsert None)) (AIndex (IndexRun j IdxFailed None))); try first [done|by eexists|by left]; by apply Hfresh.
  - injection Hstep as <- <-. cbn in Hshape. destruct Hshape as [ref ->].
    destruct (answered (g_call g)); apply (consistent_quiet age s i (AIndex (IndexRun j IdxEmbed (Some ref)))); try first [done|by eexists|by left]; apply mild_refl.
  - cbn in Hshape. destruct Hshape as [ref ->]. cbn [default from_option id] in *.
    pose (a := AIndex (IndexRun j IdxStore (Some ref))).
    destruct (store_file rls _ j ref ids (memories (sy_world s))) as [m|] eqn:Est; injection Hstep as <- <-.
    + unfold store_file in Est. destruct (_ && _); [done|]. rewrite Hnow in Est. destruct (store_chunks_spec _ _ _ _ _ _ Est) as [Hk Hadd].
      assert (keeps (sy_world s) (set_memories (λ _, m) (sy_world s))) as Hkeep by (by split_and!).
      assert (adds_only (Some (ref, sy_now s)) (sy_world s) (set_memories (λ _, m) (sy_world s))) as Hadds.
      { intros id' m' Hm'. destruct (Hadd id' m' Hm') as [[-> ->]|?]; [by left|by right]. }
      destruct (g_call g) eqn:Ec; cbn [took_effect answered].
      * apply (consistent_commit age s i a _ _ ref); try first [done|by eexists].
      * apply (consistent_quiet age s i a); try first [done|by eexists|by left]. apply mild_refl.
      * apply (consistent_commit age s i a _ _ ref); try first [done|by eexists]; [intros ? ?; by right|intros _; left].
    + destruct (g_call g); apply (consistent_quiet age s i a); try first [done|by eexists|by left]; try apply mild_refl; intros ? ?; by right.
  - cbn in Hshape. destruct Hshape as [ref ->]. cbn [default from_option id] in *. injection Hstep as <- <-.
    assert (mild (sy_world s) (if took_effect (g_call g) then set_cache <[key j:=hash]> (sy_world s) else sy_world s)) as Hm.
    { destruct (took_effect _); [apply mild_cache|apply mild_refl]. }
    destruct (g_call g); cbn [answered]; apply (consistent_quiet age s i (AIndex (IndexRun j IdxCache (Some ref)))); try first [done|by eexists|by left].
    1,3: intros ? ?; by right.
    all: intros _; right; intros ? [= <-]; by left.
  - injection Hstep as <- <-. cbn in Hshape. destruct Hshape as [ref ->]. cbn [default from_option id]. destruct (took_effect (g_call g)).
    + apply (consistent_undo age s i (AIndex (IndexRun j IdxUndo (Some ref))) _ ref); try done.
    + apply (consistent_quiet age s i (AIndex (IndexRun j IdxUndo (Some ref)))); try first [done|by eexists|by left]. apply mild_refl.
  - injection Hstep as <- <-. apply (consistent_quiet age s i (AIndex (IndexRun j IdxDone mo))); try first [done|by eexists|by left]. apply mild_refl.
  - injection Hstep as <- <-. apply (consistent_quiet age s i (AIndex (IndexRun j IdxFailed mo))); try first [done|by eexists|by left]. apply mild_refl.
Qed.

(** Steps of no actor: time, new actors, findings of the collector. *)
Lemma consistent_extend s w' now' new cands orph :
  consistent age s → mild (sy_world s) w' → sy_now s ≤ now' → (∀ a, a ∈ new → shape a ∧ actor_ref a = None) →
  let s' := System now' w' (sy_actors s ++ new) (sy_inserted s) (sy_lost s) cands orph in
  (∀ col oid, (col, oid) ∈ cands → expired age s' oid) →
  (∀ col oid, (col, oid) ∈ orph → expired age s' oid ∧ spared age s' oid) → consistent age s'.
Proof.
  intros Hs (Em & Hk & Hadd) Hnow Hnew s' Hcands Horph.
  assert (∀ i a ref, (sy_actors s ++ new) !! i = Some a → actor_ref a = Some ref → sy_actors s !! i = Some a) as Hold.
  { intros i a ref Hi Hr. apply lookup_app_Some in Hi as [?|[_ Hi]]; [done|]. apply list_elem_of_lookup_2 in Hi.
    destruct (Hnew a Hi). congruence. }
  split; subst s'; cbn [sy_now sy_world sy_actors sy_inserted sy_lost sy_candidates sy_orphans]; try done.
  - intros id m Hm. destruct (Hadd id m Hm) as [?|(m0 & Hm0 & Ek)]; [done|]. rewrite Em. pose proof Ek as [= _ -> _].
    destruct (docs_exist _ _ Hs id m0 Hm0) as [?|?]; [left; by eapply excused_mono|by right].
  - intros id m Hm. destruct (Hadd id m Hm) as [?|(m0 & Hm0 & [= _ -> _])]; [done|]. by apply (refs_drawn _ _ Hs id m0).
  - intros col oid d Hd. rewrite Em in Hd. by apply (docs_drawn _ _ Hs col).
  - intros i a Hi. apply lookup_app_Some in Hi as [?|[_ Hi]]; [by eapply shapes|]. apply list_elem_of_lookup_2 in Hi. by apply Hnew.
  - intros i a ref Hi Hr. eapply actor_ok_mono; [by eapply actors_ok; [done|by eapply Hold|done]|done|done| |done| |done].
    + intros _ _. cbn. by rewrite Em.
    + intros Hu. right. by eapply unreferenced_adds.
  - intros i j a b ref Hi Hj Ha Hb. eapply (actors_apart _ _ Hs i j a b ref); eauto.
Qed.
Lemma consistent_world s w' : consistent age s → mild (sy_world s) w' → consistent age (set_world w' s).
Proof.
  intros Hs Hm. unfold set_world. rewrite <- (app_nil_r (sy_actors s)).
  apply consistent_extend; try done; [by intros a ?%elem_of_nil|exact (candidates_expired _ _ Hs)|].
  intros col oid Hin. destruct (orphans_expired _ _ Hs col oid Hin) as [? Hu]. split; [done|].
  by eapply spared_adds; [done|apply Hm|..].
Qed.
Lemma consistent_delete s c col oid : consistent age s → (col, oid) ∈ sy_orphans s →
  consistent age (set_world (delete_one c (col, oid) (sy_world s)) s).
Proof.
  intros Hs Hin. unfold delete_one. destruct (took_effect c); [|apply consistent_world, mild_refl; done].
  destruct (orphans_expired _ _ Hs col oid Hin) as [(t & Ht & Hlt) Hu].
  split; unfold set_world; cbn [sy_now sy_world sy_actors sy_inserted sy_lost sy_candidates sy_orphans]; try apply Hs.
  - intros id m Hm. destruct (decide (m_payload_ref m = oid)) as [E|Hne]; [left; by apply (Hu id m)|].
    destruct (docs_exist _ _ Hs id m Hm) as [?|(col' & Hd)]; [by left|right]. exists col'. cbn. rewrite lookup_delete_ne by congruence. done.
  - intros col' oid' d Hd. cbn in Hd. apply lookup_delete_Some in Hd as [_ Hd]. by apply (docs_drawn _ _ Hs col').
  - intros i a ref Hi Hr. eapply actor_ok_mono; [by eapply actors_ok|done|done| |done|by right|apply (keeps_refl (sy_world s))].
    intros _ (t' & Ht' & Hle) Hd. cbn. rewrite lookup_delete_ne; [done|]. intros [= _ ->]. cbn in Hle. 
    rewrite Ht in Ht'. injection Ht' as <-. lia.
Qed.

Lemma consistent_empty log : consistent age (empty_system log : system Log).
Proof. split; try done; by intros col oid ?%elem_of_nil. Qed.
Lemma consistent_step s s' : consistent age s → sys_step rls age s s' → consistent age s'.
Proof.
  intros Hs. destruct 1 as [s t Ht|s c id rq w r Hid Hruns Hstrip Hst|s j| | |s|s wrls PAGE_SIZE namespaces Hpage Hrows|s c [col oid] Ho|s look up ns c
    |s wrls g row Hnow Hstrip].
  - rewrite <- (app_nil_r (sy_actors s)). apply consistent_extend; try done; [apply mild_refl|by intros a ?%elem_of_nil|..].
    + intros col oid Hin. by eapply expired_mono; [by eapply candidates_expired|cbn|].
    + intros col oid Hin. destruct (orphans_expired _ _ Hs col oid Hin). split; [by eapply expired_mono|done].
  - unfold start_run in Hst. injection Hst as <- <-. apply consistent_extend; try done.
    + destruct (took_effect c); [apply mild_sagas|apply mild_refl].
    + intros a Ha. destruct (answered c); [apply list_elem_of_singleton in Ha as ->; by split_and!|by apply elem_of_nil in Ha].
    + exact (candidates_expired _ _ Hs).
    + intros col oid Hin. destruct (orphans_expired _ _ Hs col oid Hin). split; [done|]. by destruct (took_effect c).
  - apply consistent_extend; try done; [apply mild_refl|by intros a ->%list_elem_of_singleton|..].
    + exact (candidates_expired _ _ Hs).
    + exact (orphans_expired _ _ Hs).
  - by eapply consistent_saga.
  - by eapply consistent_index.
  - rewrite <- (app_nil_r (sy_actors s)). apply consistent_extend; try done; [apply mild_refl|by intros a ?%elem_of_nil| |exact (orphans_expired _ _ Hs)].
    intros col oid [Hc|Hc]%elem_of_app; [|by apply (candidates_expired _ _ Hs col)].
    apply elem_of_gc_candidates in Hc as (d & Hd & Hlt). destruct (docs_drawn _ _ Hs _ _ _ Hd) as (t & ? & E).
    exists t. split; [done|cbn]. unfold ingested_before in Hlt. rewrite E in Hlt. lia.
  - rewrite <- (app_nil_r (sy_actors s)). apply consistent_extend; try done; [apply mild_refl|by intros a ?%elem_of_nil|exact (candidates_expired _ _ Hs)|].
    intros col oid [Hc|Hc]%elem_of_app; [|by apply (orphans_expired _ _ Hs col)].
    apply list_elem_of_In, filter_In in Hc as [Hc%list_elem_of_In Hn%bool_decide_eq_true].
    split; [by apply (candidates_expired _ _ Hs col)|]. intros id m Hm E. destruct (Hrows id m Hm) as [Hz Hns].
    destruct (m_namespace_id m) as [ns|] eqn:En; [|by right; right]. destruct Hn. cbn. apply elem_of_fetch_pg_refs; [done|].
    exists id, m, ns. split_and!; [done..|by apply Hns|]. unfold visible. assert (in_namespace ns m = true) as -> by by apply in_namespace_eq.
    by rewrite orb_true_r.
  - by apply consistent_delete.
  - by apply consistent_world, mild_reverse.
  - by apply consistent_world, mild_recover.
Qed.
Lemma reachable_consistent s : reachable rls age s → consistent age s.
Proof.
  intros [log Hr]. revert Hr. apply (rtc_ind_r (consistent age)); [apply consistent_empty|]. intros s1 s2 _ Hstep IH. by eapply consistent_step.
Qed.
End props.
