(* ===== verification/SagaLog.v ===== *)
(** * SagaLog: what the saga log's rows tell of the runs

    A row that says the graph was stored, or names a memory, belongs to a run that
    did store it; every run has its row.  So recovery finds what it needs. *)
From S2P Require Import Prelude PyText AuditLog OutboxRelay Locks MemoryStore GarbageCollector GcFacts MemoryFacts MemorySteps.
Local Open Scope Z_scope.

(** The row says that the graph was stored. *)
Definition claims (sg : saga) : Prop :=
  sg_state sg = "pg_committed"%string ∨ sg_state sg = "completed"%string ∨ is_Some (sg_memory_id sg).
(** The run failed, and undoes what it did. *)
Definition undone (a : actor) : bool :=
  match a with
  | ASaga r => match r_pc r with UndoMongo | UndoPg | LogRolledBack | Raised => true | _ => false end
  | AIndex r => match ix_pc r with IdxUndo | IdxFailed => true | _ => false end
  end.
(** The two rows are of the same request. *)
Definition same_origin (a b : saga) : Prop := sg_namespace_id a = sg_namespace_id b ∧ sg_agent_id a = sg_agent_id b.

Section log.
Context {Log Env : Type} `{AuditLog Log Env} (rls : bool) (age : Z).
Implicit Types s : system Log.

Definition backed s (id : string) (sg : saga) : Prop :=
  ∃ i r, sy_actors s !! i = Some (ASaga r) ∧ r_saga_id r = id ∧ committed (ASaga r) = true ∧
         (sg_memory_id sg = None ∨ sg_memory_id sg = r_memory_id r).
Record honest s : Prop := {
  runs_logged : ∀ i r, sy_actors s !! i = Some (ASaga r) →
    ∃ sg, saga_execution_log (sy_world s) !! r_saga_id r = Some sg ∧
          sg_namespace_id sg = rq_namespace_id (r_request r) ∧ sg_agent_id sg = rq_agent_id (r_request r);
  claims_backed : ∀ id sg, saga_execution_log (sy_world s) !! id = Some sg → claims sg → backed s id sg
}.
Definition losses_undone s : Prop :=
  ∀ ref, ref ∈ sy_lost s → ∃ i a, sy_actors s !! i = Some a ∧ actor_ref a = Some ref ∧ undone a = true.

(** Rows may change as [ok] says; none appears or goes. *)
Definition relabels (ok : string → saga → saga → Prop) (l l' : gmap string saga) : Prop :=
  ∀ id, option_Forall2 (λ a b, a = b ∨ (same_origin a b ∧ ok id a b)) (l !! id) (l' !! id).
Lemma relabels_refl ok l : relabels ok l l.
Proof. intros id. destruct (l !! id); constructor. by left. Qed.
Lemma relabels_alter ok f id l : (∀ a, l !! id = Some a → f a = a ∨ (same_origin a (f a) ∧ ok id a (f a))) → relabels ok l (alter f id l).
Proof.
  intros Hf i. destruct (decide (i = id)) as [->|Hne]; [|rewrite lookup_alter_ne by done; apply relabels_refl].
  rewrite lookup_alter_eq. destruct (l !! id) as [a|]; constructor. destruct (Hf a eq_refl) as [->|?]; [by left|by right].
Qed.

(** What a saga's call, and recovery, do to the rows. *)
Definition saga_ok (r r' : run) (id : string) (a b : saga) : Prop :=
  id = r_saga_id r ∧
  ((sg_state b = "rolled_back"%string ∧ sg_memory_id b = sg_memory_id a) ∨
   (committed (ASaga r') = true ∧ (sg_memory_id b = sg_memory_id a ∨ sg_memory_id b = r_memory_id r'))).
Definition recovery_ok (id : string) (a b : saga) : Prop := sg_state a = "pg_committed"%string ∧ sg_memory_id b = sg_memory_id a.

Lemma rollback_log (g : given Env) rq sid pg me ref reason (w : world Log) :
  saga_execution_log (default w (rollback_pg rls g rq sid pg me ref reason w)) = saga_execution_log w.
Proof.
  unfold rollback_pg. destruct pg, me; [|by destruct rls..].
  cbn [event_log delete_graph set_graph]. by destruct (audit_append _ _ _ _ _ _).
Qed.
Lemma transition_log r r' now state m (w : world Log) :
  (state = "rolled_back"%string ∧ m = None) ∨ (committed (ASaga r') = true ∧ (m = None ∨ m = r_memory_id r')) →
  relabels (saga_ok r r') (saga_execution_log w) (saga_execution_log (_saga_log_transition rls now (r_saga_id r) state m w)).
Proof.
  intros Hok. unfold _saga_log_transition. destruct (_ || _); [apply relabels_refl|]. cbn [saga_execution_log set_sagas].
  apply relabels_alter. intros a _. right. split; [done|]. split; [done|].
  destruct Hok as [[-> ->]|[Hc [->| ->]]]; [by left|by right; split; [|left]|].
  right. split; [done|]. cbn. destruct (r_memory_id r'); [by right|by left].
Qed.
Lemma saga_step_log (g : given Env) x r (w w' : world Log) r' : strip (rq_agent_id (r_request r)) = rq_agent_id (r_request r) →
  saga_step rls g x r w = (w', r') → relabels (saga_ok r r') (saga_execution_log w) (saga_execution_log w').
Proof.
  intros Hstrip Hstep. destruct r as [sid rq p y mo me pg]. cbn in Hstrip.
  destruct p; cbn [saga_step r_saga_id r_request r_pc r_extraction r_mongo_id r_memory_id r_pg_committed] in Hstep.
  4: { destruct (_store_semantic_graph_pg _ _ _ _ _ w) as [w1|] eqn:E; injection Hstep as <- _; [|apply relabels_refl].
    destruct (store_graph_spec _ _ _ _ _ _ _ E Hstrip) as (_ & _ & _ & El & _). destruct (took_effect _); [rewrite El|]; apply relabels_refl. }
  all: injection Hstep as <- <-; try (destruct (took_effect (g_call g)); [|apply relabels_refl]); try apply relabels_refl.
  - rewrite rollback_log. apply relabels_refl.
  - apply (transition_log (Run sid rq LogRolledBack y mo me pg)). by left.
  - apply (transition_log (Run sid rq LogCommitted y mo me pg)). right. by split; [|right].
  - destruct (cache_key _); [destruct (took_effect _)|]; apply relabels_refl.
  - apply (transition_log (Run sid rq LogCompleted y mo me pg)). right. by split; [|left].
Qed.
Lemma close_log now id state (w : world Log) :
  relabels recovery_ok (saga_execution_log w) (saga_execution_log (close_saga now id state w)).
Proof.
  cbn [close_saga saga_execution_log set_sagas]. apply relabels_alter. intros a _.
  destruct (String.eqb (sg_state a) "pg_committed") eqn:E; [|by left]. right. apply String.eqb_eq in E. by split_and!.
Qed.
Lemma recover_log wrls (g : given Env) row (w : world Log) :
  relabels recovery_ok (saga_execution_log w) (saga_execution_log (recover_saga wrls g row w)).
Proof.
  destruct row as [id sg]. unfold recover_saga. destruct (sg_memory_id sg) as [m|].
  - destruct (memory_in _ _ _).
    + destruct (audit_append _ _ _ _ _ _); [|apply relabels_refl]. destruct (took_effect _); [|apply relabels_refl].
      apply (close_log (g_now g) id "completed" (set_events _ w)).
    + destruct (_ || _); [apply relabels_refl|apply close_log].
  - destruct wrls; [apply relabels_refl|]. destruct (took_effect _); [apply close_log|apply relabels_refl].
Qed.

(** What the calls leave of a run. *)
Lemma saga_step_run (g : given Env) x r (w w' : world Log) r' : saga_step rls g x r w = (w', r') →
  r_saga_id r' = r_saga_id r ∧ r_request r' = r_request r ∧
  (committed (ASaga r) = true → committed (ASaga r') = true ∧ r_memory_id r' = r_memory_id r).
Proof.
  intros Hstep. destruct r as [sid rq p y mo me pg]. destruct p; cbn [saga_step r_pc r_request r_extraction r_saga_id r_mongo_id] in Hstep.
  4: { destruct (_store_semantic_graph_pg _ _ _ _ _ w); injection Hstep as _ <-; destruct (answered (g_call g)); by split_and!. }
  all: injection Hstep as _ <-; try (destruct (answered (g_call g))); by split_and!.
Qed.

(** ** The rows stay honest *)
Lemma honest_relabel ok s s' :
  honest s → relabels ok (saga_execution_log (sy_world s)) (saga_execution_log (sy_world s')) →
  (∀ i r', sy_actors s' !! i = Some (ASaga r') →
     ∃ r, sy_actors s !! i = Some (ASaga r) ∧ r_saga_id r' = r_saga_id r ∧ r_request r' = r_request r) →
  (∀ i r, sy_actors s !! i = Some (ASaga r) → committed (ASaga r) = true →
     ∃ r', sy_actors s' !! i = Some (ASaga r') ∧ r_saga_id r' = r_saga_id r ∧ committed (ASaga r') = true ∧ r_memory_id r' = r_memory_id r) →
  (∀ id a b, ok id a b → saga_execution_log (sy_world s) !! id = Some a → claims b →
     backed s' id b ∨ (claims a ∧ sg_memory_id b = sg_memory_id a)) → honest s'.
Proof.
  intros [Hruns Hclaims] Hrel Hold Hkeep Hok.
  assert (∀ id a, backed s id a → backed s' id a) as Hbacked.
  { intros id a (i & r & Hi & <- & Hc & Hm). destruct (Hkeep i r Hi Hc) as (r' & ? & ? & ? & Em).
    exists i, r'. rewrite Em. by split_and!. }
  split.
  - intros i r' Hi. destruct (Hold i r' Hi) as (r & Hi' & -> & ->). destruct (Hruns i r Hi') as (sg & Hsg & Hn & Ha).
    specialize (Hrel (r_saga_id r)). rewrite Hsg in Hrel. inversion Hrel as [a b Hab E1 E2|]; subst.
    exists b. split; [done|]. destruct Hab as [->|[[<- <-] _]]; done.
  - intros id b Hb Hcl. specialize (Hrel id). rewrite Hb in Hrel. inversion Hrel as [a b' Hab E1 E2|]; subst.
    destruct Hab as [->|[_ Hab]]; [by apply Hbacked, Hclaims|].
    destruct (Hok id a b Hab ltac:(done) Hcl) as [?|[Ha Em]]; [done|].
    destruct (Hclaims id a ltac:(done) Ha) as (i & r & ? & ? & ? & ?). apply Hbacked. exists i, r. by rewrite Em.
Qed.

(** Steps of anyone but a saga leave the runs alone. *)
Lemma honest_others ok s s' :
  honest s → relabels ok (saga_execution_log (sy_world s)) (saga_execution_log (sy_world s')) →
  (∀ i r, sy_actors s' !! i = Some (ASaga r) ↔ sy_actors s !! i = Some (ASaga r)) →
  (∀ id a b, ok id a b → claims b → claims a ∧ sg_memory_id b = sg_memory_id a) → honest s'.
Proof.
  intros Hs Hrel Hact Hok. apply (honest_relabel ok s s'); try done.
  - intros i r Hi%Hact. by exists r.
  - intros i r Hi Hc. exists r. split_and!; [by apply Hact|done..].
  - intros id a b Hab _ Hcl. right. by apply (Hok id).
Qed.
Lemma honest_same s s' : honest s → saga_execution_log (sy_world s') = saga_execution_log (sy_world s) →
  (∀ i r, sy_actors s' !! i = Some (ASaga r) ↔ sy_actors s !! i = Some (ASaga r)) → honest s'.
Proof. intros Hs El Hact. apply (honest_others (λ _ _ _, False) s s'); try done. rewrite El. apply relabels_refl. Qed.
Lemma honest_saga s i r (g : given Env) x w r' ins lost :
  honest s → sy_actors s !! i = Some (ASaga r) → strip (rq_agent_id (r_request r)) = rq_agent_id (r_request r) →
  saga_step rls g x r (sy_world s) = (w, r') →
  honest (System (sy_now s) w (<[i := ASaga r']> (sy_actors s)) ins lost (sy_candidates s) (sy_orphans s)).
Proof.
  intros Hs Hi Hstrip Hstep. destruct (saga_step_run _ _ _ _ _ _ Hstep) as (Eid & Erq & Hcom).
  assert (i < length (sy_actors s))%nat as Hlt by by eapply lookup_lt_Some.
  apply (honest_relabel (saga_ok r r') s); [done|by eapply saga_step_log|..]; cbn [sy_actors sy_world].
  - intros j r2 Hj. destruct (decide (j = i)) as [->|Hne].
    + rewrite list_lookup_insert_eq in Hj by done. injection Hj as <-. by exists r.
    + rewrite list_lookup_insert_ne in Hj by done. by exists r2.
  - intros j r2 Hj Hc. destruct (decide (j = i)) as [->|Hne].
    + rewrite Hi in Hj. injection Hj as <-. exists r'. rewrite list_lookup_insert_eq by done. destruct (Hcom Hc). by split_and!.
    + exists r2. by rewrite list_lookup_insert_ne.
  - intros id a b (-> & [[Er Em]|[Hc Hm]]) Ha Hcl.
    + right. split; [|done]. right. right. rewrite <- Em. destruct Hcl as [E|[E|?]]; [congruence..|done].
    + destruct Hm as [Em|Em].
      * destruct (sg_memory_id a) eqn:Ea; [right; split; [right; right; by eexists|done]|].
        left. exists i, r'. cbn [sy_actors]. rewrite list_lookup_insert_eq by done. split_and!; try done. by left.
      * left. exists i, r'. cbn [sy_actors]. rewrite list_lookup_insert_eq by done. split_and!; try done. by right.
Qed.
Lemma honest_start s c now id rq w r :
  honest s → (∀ r, ASaga r ∈ sy_actors s → r_saga_id r ≠ id) → start_run c now id rq (sy_world s) = (w, r) →
  honest (System (sy_now s) w (sy_actors s ++ match r with Some r => [ASaga r] | None => [] end) (sy_inserted s) (sy_lost s)
            (sy_candidates s) (sy_orphans s)).
Proof.
  intros [Hruns Hclaims] Hfresh Hst. unfold start_run in Hst. injection Hst as <- <-.
  assert (∀ l, (∀ i r, (sy_actors s ++ l) !! i = Some (ASaga r) → sy_actors s !! i = Some (ASaga r) ∨
    r = Run id rq Extract no_extraction None None false ∧ c = Answered) → 
    honest (System (sy_now s) (if took_effect c then _saga_log_start now id rq (sy_world s) else sy_world s) (sy_actors s ++ l)
      (sy_inserted s) (sy_lost s) (sy_candidates s) (sy_orphans s))) as Hgoal.
  { intros l Hl. split; cbn [sy_world sy_actors].
    - intros i r Hi. destruct (Hl i r Hi) as [Hi'|[-> ->]].
      + assert (r_saga_id r ≠ id) by (by apply Hfresh, list_elem_of_lookup_2 with i). destruct (Hruns i r Hi') as (sg & Hsg & ?).
        exists sg. split; [|done]. destruct (took_effect c); [|done]. cbn. by rewrite lookup_insert_ne.
      + eexists. cbn. by rewrite lookup_insert_eq.
    - intros sid sg Hsg Hcl.
      assert (saga_execution_log (sy_world s) !! sid = Some sg) as Hsg'.
      { destruct (took_effect c); [|done]. cbn in Hsg. apply lookup_insert_Some in Hsg as [[<- <-]|[_ ?]]; [|done].
        exfalso. destruct Hcl as [?|[?|[? ?]]]; done. }
      destruct (Hclaims sid sg Hsg' Hcl) as (i & r & Hi & ?). exists i, r. split; [|done]. cbn [sy_actors]. by apply lookup_app_l_Some. }
  apply Hgoal. intros i r Hi. apply lookup_app_Some in Hi as [?|[_ Hi]]; [by left|right]. destruct c; cbn in Hi; try done.
  apply list_lookup_singleton_Some in Hi as [_ [= <-]]. done.
Qed.

Lemma honest_empty log : honest (empty_system log : system Log).
Proof. by split. Qed.
Lemma index_actors (l : list actor) i (a b : index_run) : l !! i = Some (AIndex a) →
  ∀ j r, <[i := AIndex b]> l !! j = Some (ASaga r) ↔ l !! j = Some (ASaga r).
Proof.
  intros Hi j r. destruct (decide (j = i)) as [->|Hne]; [|by rewrite list_lookup_insert_ne].
  rewrite list_lookup_insert_eq by by eapply lookup_lt_Some. by rewrite Hi.
Qed.
Lemma index_step_log (g : given Env) key hash ids r (w w' : world Log) r' : index_step rls key hash g ids r w = (w', r') → saga_execution_log w' = saga_execution_log w.
Proof.
  unfold index_step. destruct (ix_pc r).
  3: { destruct (store_file _ _ _ _ _ _); intros [= <- _]; [by destruct (took_effect _)|done]. }
  all: intros [= <- _]; try done; by destruct (took_effect _).
Qed.

Lemma honest_step s s' : consistent age s → honest s → sys_step rls age s s' → honest s'.
Proof.
  intros Hs Hh. destruct 1 as [s t Ht|s c id rq w r Hid Hruns Hstrip Hst|s j|s i r g x ref w r' Hi Hg Href Hf Hstep
    |s i r g ids key hash ref w r' Hi Hg Href Hf Hstep|s|s wrls PAGE_SIZE namespaces Hpage Hrows|s c [col oid] Ho|s look up ns c|s wrls g row Hnow Hstrip];
    try by apply (honest_same s).
  - by eapply honest_start.
  - apply (honest_same s); [done..|]. intros i r. cbn [sy_actors]. rewrite lookup_app_Some. split; [|by left].
    intros [?|[_ Hi]]; [done|]. by apply list_lookup_singleton_Some in Hi as [_ ?].
  - destruct (shapes _ _ Hs i _ Hi) as [_ Hstrip]. destruct (r_pc r); by eapply (honest_saga s).
  - pose proof (index_step_log _ _ _ _ _ _ _ _ Hstep) as Hlog.
    destruct (index_lost _ _), (ix_pc r); (apply (honest_same s); [done|done|intros j q; cbn; by apply (index_actors _ _ r)]).
  - apply (honest_same s); [done| |done]. unfold delete_one. by destruct (took_effect c).
  - apply (honest_same s); [done| |done]. cbn [sy_world set_world]. unfold reverse_check.
    destruct (_ && _); [|done]. destruct (find_episode _ _ _); [done|]. by destruct (took_effect _).
  - apply (honest_others recovery_ok s); [done|apply recover_log|done|]. intros id a b [Ha ->] Hcl. split; [by left|done].
Qed.

(** ** Commits that were not acknowledged *)
Lemma saga_step_undone (g : given Env) x r (w w' : world Log) r' : saga_step rls g x r w = (w', r') →
  undone (ASaga r) = true → undone (ASaga r') = true ∧ r_mongo_id r' = r_mongo_id r.
Proof.
  intros Hstep Hu. destruct r as [sid rq p y mo me pg]. destruct p; try done; cbn [saga_step r_pc] in Hstep; injection Hstep as _ <-; done.
Qed.
Lemma index_step_undone (g : given Env) key hash ids r (w w' : world Log) r' : index_step rls key hash g ids r w = (w', r') →
  undone (AIndex r) = true → undone (AIndex r') = true ∧ ix_mongo_id r' = ix_mongo_id r.
Proof. intros Hstep Hu. destruct r as [j p mo]. destruct p; try done; cbn [index_step ix_pc] in Hstep; injection Hstep as _ <-; done. Qed.
Lemma lost_actor s s' i a a' lost :
  losses_undone s → sy_actors s !! i = Some a → sy_actors s' = <[i := a']> (sy_actors s) → sy_lost s' = lost ++ sy_lost s →
  (undone a = true → undone a' = true ∧ actor_ref a' = actor_ref a) →
  (∀ ref, ref ∈ lost → actor_ref a' = Some ref ∧ undone a' = true) → losses_undone s'.
Proof.
  intros Hs Hi Ea El Hkeep Hlost ref Href. rewrite El in Href. rewrite Ea.
  assert (i < length (sy_actors s))%nat as Hlt by by eapply lookup_lt_Some.
  apply elem_of_app in Href as [Hin|Hin].
  - exists i, a'. rewrite list_lookup_insert_eq by done. by destruct (Hlost ref Hin).
  - destruct (Hs ref Hin) as (j & b & Hj & Hr & Hu). destruct (decide (j = i)) as [->|Hne].
    + assert (b = a) as -> by congruence. destruct (Hkeep Hu) as [? E]. exists i, a'. rewrite list_lookup_insert_eq by done. by rewrite E.
    + exists j, b. by rewrite list_lookup_insert_ne.
Qed.
Lemma lost_step s s' : consistent age s → losses_undone s → sys_step rls age s s' → losses_undone s'.
Proof.
  intros Hs Hh. destruct 1 as [s t Ht|s c id rq w r Hid Hruns Hstrip Hst|s j|s i r g x ref w r' Hi Hg Href Hf Hstep
    |s i r g ids key hash ref w r' Hi Hg Href Hf Hstep|s|s wrls PAGE_SIZE namespaces Hpage Hrows|s c [col oid] Ho|s look up ns c|s wrls g row Hnow Hstrip];
    try exact Hh.
  - intros ref Hr. destruct (Hh ref Hr) as (i & a & Hi & ?). exists i, a. split; [|done]. by apply lookup_app_l_Some.
  - intros ref Hr. destruct (Hh ref Hr) as (i & a & Hi & ?). exists i, a. split; [|done]. by apply lookup_app_l_Some.
  - pose proof (shapes _ _ Hs i _ Hi) as [Hshape _].
    apply (lost_actor s _ i (ASaga r) (ASaga r') (match r_pc r, g_call g with StoreGraph, ReplyLost => [ref] | _, _ => [] end)); try done.
    + by destruct (r_pc r).
    + by destruct (r_pc r), (g_call g).
    + by eapply saga_step_undone.
    + intros ref' Hin. destruct (r_pc r) eqn:Ep, (g_call g) eqn:Ec; try by apply elem_of_nil in Hin.
      apply list_elem_of_singleton in Hin as ->. destruct Hshape as [[ref0 E] _]. unfold saga_step in Hstep. rewrite Ep, Ec, E in *.
      cbn [default from_option] in *. subst ref. 
      assert (r' = on_failure r) as -> by (destruct (_store_semantic_graph_pg _ _ _ _ _ _); by injection Hstep).
      unfold on_failure. by rewrite E.
  - pose proof (shapes _ _ Hs i _ Hi) as Hshape. cbn in Hshape.
    apply (lost_actor s _ i (AIndex r) (AIndex r') (if index_lost (ix_pc r) (g_call g) then [ref] else [])); try done.
    + by destruct (index_lost _ _).
    + by destruct (index_lost _ _).
    + by eapply index_step_undone.
    + intros ref' Hin. destruct (index_lost _ _) eqn:El; [|by apply elem_of_nil in Hin]. apply list_elem_of_singleton in Hin as ->.
      unfold index_step in Hstep. destruct (ix_pc r) eqn:Ep; try done; destruct Hshape as [ref0 E]; rewrite E in *; cbn [default from_option] in *; subst ref.
      * destruct (g_call g); try done. destruct (store_file _ _ _ _ _ _); by injection Hstep as _ <-.
      * destruct (g_call g); try done; by injection Hstep as _ <-.
Qed.

Lemma reachable_invariants s : reachable rls age s → consistent age s ∧ honest s ∧ losses_undone s.
Proof.
  intros [log Hr]. revert Hr. apply (rtc_ind_r (λ s, consistent age s ∧ honest s ∧ losses_undone s)).
  - split_and!; [apply consistent_empty|apply honest_empty|by intros ref ?%elem_of_nil].
  - intros s1 s2 _ Hstep (IH1 & IH2 & IH3). split_and!; [by eapply consistent_step|by eapply honest_step|by eapply lost_step].
Qed.
(** The document of a run that committed is not among the lost ones. *)
Lemma committed_not_lost s i a ref : consistent age s → losses_undone s → sy_actors s !! i = Some a → actor_ref a = Some ref →
  committed a = true → ref ∉ sy_lost s.
Proof.
  intros Hs Hl Hi Hr Hc Hin. destruct (Hl ref Hin) as (j & b & Hj & Hb & Hu).
  assert (i = j) as <- by by eapply (actors_apart _ _ Hs i j a b). rewrite Hi in Hj. injection Hj as <-.
  destruct a as [r|r]; cbn in Hc, Hu; [destruct (r_pc r)|destruct (ix_pc r)]; done.
Qed.
End log.
