(* ===== verification/MemoryProps.v ===== *)
(** * MemoryProps: the two databases agree on the memories, and recovery finishes sagas *)
From S2P Require Import Prelude PyText AuditLog OutboxRelay Locks MemoryStore GarbageCollector GcFacts MemoryFacts MemorySteps SagaLog.
Local Open Scope Z_scope.

(** The row waits for recovery. *)
Definition is_stuck (now : Z) (sg : saga) : bool := String.eqb (sg_state sg) "pg_committed" && (sg_updated_at sg <? now - RECOVERY_AGE).

Section props.
Context {Log Env : Type} `{AuditLog Log Env} (rls : bool) (age : Z).
Implicit Types s : system Log.

(** What a row needs to be finished: its memory, if it names one. *)
Definition recoverable (w : world Log) (row : string * saga) : Prop :=
  strip (sg_agent_id row.2) = sg_agent_id row.2 ∧
  ∀ m, sg_memory_id row.2 = Some m → is_Some (memory_in (sg_namespace_id row.2) m w).
Definition finished (row : string * saga) (now : Z) : saga :=
  Saga (sg_namespace_id row.2) (sg_agent_id row.2) "completed" (sg_memory_id row.2) now.
(** The event recorded for a row. *)
Definition recovered_event (row : string * saga) (e : string * string * string * jobject) : Prop :=
  ∃ m p, sg_memory_id row.2 = Some m ∧ audit_stored (saga_recovered_params m row.1) p ∧
         e = (sg_namespace_id row.2, sg_agent_id row.2, "saga_recovered"%string, p).
Definition names_memory (row : string * saga) : bool := match sg_memory_id row.2 with Some _ => true | None => false end.
(** Only the saga log and the events differ. *)
Definition only_log (w w' : world Log) : Prop :=
  w' = set_sagas (λ _, saga_execution_log w') (set_events (event_log w') w).

Lemma only_log_refl (w : world Log) : only_log w w.
Proof. by destruct w. Qed.
Lemma only_log_trans (w1 w2 w3 : world Log) : only_log w1 w2 → only_log w2 w3 → only_log w1 w3.
Proof. unfold only_log. intros E1 E2. etransitivity; [exact E2|]. rewrite E1. done. Qed.

Lemma committed_run s i r : consistent age s → sy_actors s !! i = Some (ASaga r) → committed (ASaga r) = true →
  ∃ ref id, r_mongo_id r = Some ref ∧ r_memory_id r = Some id ∧
            stored (r_request r) (r_extraction r) (r_saga_id r) ref id (sy_world s).
Proof.
  intros Hs Hi Hc. pose proof (shapes _ _ Hs i _ Hi) as [Hshape _].
  assert (∃ ref, r_mongo_id r = Some ref) as [ref Hr] by (cbn in Hc; destruct (r_pc r); try done; by destruct Hshape as [[ref ?] _]; exists ref).
  destruct (actors_ok _ _ Hs i _ ref Hi Hr) as (_ & _ & Hst). destruct (Hst Hc) as (id & ? & ?). by exists ref, id.
Qed.

(** ** One tick of recovery *)
Lemma elem_of_stuck now (w : world Log) id sg : (id, sg) ∈ stuck_sagas false now w →
  saga_execution_log w !! id = Some sg ∧ is_stuck now sg = true.
Proof.
  unfold stuck_sagas. intros Hin. pose proof (elem_of_sublist _ _ _ Hin (sublist_take _ _)) as H'.
  apply elem_of_sorted_by, list_elem_of_In, filter_In in H' as [Hm Hp]. by apply list_elem_of_In, elem_of_map_to_list in Hm.
Qed.
Lemma stuck_NoDup now (w : world Log) : NoDup (stuck_sagas false now w).*1.
Proof.
  unfold stuck_sagas. rewrite fmap_take. eapply sublist_NoDup; [|apply sublist_take].
  rewrite (fmap_Permutation fst _ _ (sorted_by_perm older_saga _)). apply filter_keys_NoDup.
Qed.
Lemma stuck_all now (w : world Log) id sg : (length (stuck_sagas false now w) < RECOVERY_BATCH)%nat →
  saga_execution_log w !! id = Some sg → is_stuck now sg = true → (id, sg) ∈ stuck_sagas false now w.
Proof.
  unfold stuck_sagas. intros Hlen Hl Hs. rewrite length_take in Hlen.
  rewrite take_ge by lia. apply elem_of_sorted_by, list_elem_of_In, filter_In. split; [|done].
  by apply list_elem_of_In, elem_of_map_to_list.
Qed.

Lemma recover_row (g : given Env) id sg (w : world Log) :
  recoverable w (id, sg) → saga_execution_log w !! id = Some sg → sg_state sg = "pg_committed"%string → took_effect (g_call g) = true →
  (∀ (env : Env) l ns agent ty params, strip agent = agent → is_Some (audit_append env l ns agent ty params)) →
  let w' := recover_saga false g (id, sg) w in
  only_log w w' ∧ saga_execution_log w' = <[id := finished (id, sg) (g_now g)]> (saga_execution_log w) ∧
  ∃ ev, audit_entries (event_log w') = audit_entries (event_log w) ++ ev ∧
        Forall2 recovered_event (List.filter names_memory [(id, sg)]) ev.
Proof.
  intros [Hstrip Hmem] Hl Hst Hg Haudit. cbn in Hmem, Hstrip. cbn [recover_saga]. unfold names_memory, finished. cbn [List.filter snd].
  assert (∀ state (w1 : world Log), saga_execution_log w1 = saga_execution_log w →
    saga_execution_log (close_saga (g_now g) id state w1) =
    <[id := Saga (sg_namespace_id sg) (sg_agent_id sg) state (sg_memory_id sg) (g_now g)]> (saga_execution_log w)) as Hclose.
  { intros state w1 E. cbn [close_saga set_sagas saga_execution_log]. rewrite E. apply map_eq. intros i.
    destruct (decide (i = id)) as [->|Hne]; [|by rewrite lookup_alter_ne, lookup_insert_ne].
    rewrite lookup_alter_eq, lookup_insert_eq, Hl. cbn. by rewrite Hst. }
  destruct (sg_memory_id sg) as [m|] eqn:Em.
  - destruct (Hmem m eq_refl) as [x ->]. destruct (Haudit (g_env g) (event_log w) (sg_namespace_id sg) (sg_agent_id sg) "saga_recovered"%string
      (saga_recovered_params m id) Hstrip) as [log Ha]. rewrite Ha, Hg.
    destruct (audit_append_entries _ _ _ _ _ _ _ Hstrip Ha) as (p & Hp & He).
    split_and!; [done|by rewrite Hclose|]. eexists. split; [exact He|]. constructor; [|constructor]. exists m, p. by split_and!.
  - rewrite Hg. split_and!; [done|by rewrite Hclose|]. exists []. split; [by rewrite app_nil_r|constructor].
Qed.

Lemma recover_rows rows : ∀ (gs : list (given Env)) (w : world Log),
  NoDup rows.*1 → (length rows ≤ length gs)%nat → Forall (λ g, took_effect (g_call g) = true) gs →
  (∀ (env : Env) l ns agent ty params, strip agent = agent → is_Some (audit_append env l ns agent ty params)) →
  (∀ id sg, (id, sg) ∈ rows → recoverable w (id, sg) ∧ saga_execution_log w !! id = Some sg ∧ sg_state sg = "pg_committed"%string) →
  let w' := foldl (λ w p, recover_saga false p.1 p.2 w) w (zip gs rows) in
  only_log w w' ∧
  (∀ id sg, (id, sg) ∈ rows → ∃ t, saga_execution_log w' !! id = Some (finished (id, sg) t)) ∧
  (∀ id, id ∉ rows.*1 → saga_execution_log w' !! id = saga_execution_log w !! id) ∧
  ∃ ev, audit_entries (event_log w') = audit_entries (event_log w) ++ ev ∧ Forall2 recovered_event (List.filter names_memory rows) ev.
Proof.
  induction rows as [|[id sg] rows IH]; intros gs w Hnd Hlen Hgs Haudit Hrows.
  { destruct gs; cbn; (split_and!; [apply only_log_refl|by intros id sg ?%elem_of_nil|done|exists []; split; [by rewrite app_nil_r|constructor]]). }
  destruct gs as [|g gs]; [cbn in Hlen; lia|]. cbn [zip zip_with foldl fst snd]. apply NoDup_cons in Hnd as [Hid Hnd].
  inversion Hgs as [|? ? Hg Hgs']; subst. destruct (Hrows id sg ltac:(by left)) as (Hrec & Hl & Hst).
  destruct (recover_row g id sg w Hrec Hl Hst Hg Haudit) as (Ho1 & Hl1 & ev1 & He1 & Hf1).
  set (w1 := recover_saga false g (id, sg) w) in *.
  assert (∀ i, i ≠ id → saga_execution_log w1 !! i = saga_execution_log w !! i) as Hother by (intros i ?; by rewrite Hl1, lookup_insert_ne).
  destruct (IH gs w1 Hnd ltac:(cbn in Hlen; lia) Hgs' Haudit) as (Ho2 & Hd2 & Hk2 & ev2 & He2 & Hf2).
  { intros i sg' Hin. destruct (Hrows i sg' ltac:(by right)) as ([? Hm] & ? & ?). split_and!; [split; [done|]| |done].
    - intros m Em. unfold only_log in Ho1. rewrite Ho1. by apply Hm.
    - rewrite Hother; [done|]. intros ->. apply Hid. by apply (list_elem_of_fmap_2 fst rows (id, sg')). }
  split_and!.
  - by eapply only_log_trans.
  - intros i sg' [[= -> ->]|Hin]%elem_of_cons; [|by apply Hd2]. exists (g_now g). rewrite Hk2 by done. by rewrite Hl1, lookup_insert_eq.
  - intros i Hi. cbn in Hi. rewrite not_elem_of_cons in Hi. destruct Hi. by rewrite Hk2, Hother.
  - exists (ev1 ++ ev2). split; [by rewrite He2, He1, app_assoc|]. 
    change (List.filter names_memory ((id, sg) :: rows)) with (List.filter names_memory ([(id, sg)] ++ rows)).
    rewrite List.filter_app. by apply Forall2_app.
Qed.

(** C26: The two databases agree, but for four exceptions.  However sagas, indexing
    workers, collection passes and recovery interleave, wherever processes stop, and
    whatever calls fail before or after taking effect: every memory has its document,
    unless the run that stored it failed after its commit took effect (the commit was
    not acknowledged, or an indexing worker's cache write failed), or the run
    committed later than the collector's age after inserting the document, or the
    memory is of no namespace (a collector under row-level security does not see it);
    a run that returned, and any run whose saga row says the graph was stored, has
    its memory, its audit event and its outbox row, and its document unless it
    committed so late; and no memory refers to the document of a run that raised,
    unless it failed after its commit. *)
Theorem memory_stores_agree s : reachable rls age s →
  (∀ id m, memories (sy_world s) !! id = Some m →
     (m_payload_ref m ∈ sy_lost s ∨ late age s m ∨ m_namespace_id m = None) ∨
     ∃ col, is_Some (mongo (sy_world s) !! (col, m_payload_ref m))) ∧
  (∀ i r, sy_actors s !! i = Some (ASaga r) →
     r_pc r = Returned ∨ (∃ sg, saga_execution_log (sy_world s) !! r_saga_id r = Some sg ∧ claims sg) →
     ∃ i' r' ref id, sy_actors s !! i' = Some (ASaga r') ∧ r_saga_id r' = r_saga_id r ∧ r_mongo_id r' = Some ref ∧
       stored (r_request r') (r_extraction r') (r_saga_id r') ref id (sy_world s) ∧
       ∀ m, memories (sy_world s) !! id = Some m → late age s m ∨ ∃ col, is_Some (mongo (sy_world s) !! (col, ref))) ∧
  (∀ i r ref, sy_actors s !! i = Some (ASaga r) → r_pc r = Raised → r_mongo_id r = Some ref →
     ref ∈ sy_lost s ∨ unreferenced ref (sy_world s)).
Proof.
  intros Hr. destruct (reachable_invariants _ _ _ Hr) as (Hs & Hh & Hl). split_and!; [exact (docs_exist _ _ Hs)|..].
  - assert (∀ i r, sy_actors s !! i = Some (ASaga r) → committed (ASaga r) = true → ∃ ref id, r_mongo_id r = Some ref ∧
      stored (r_request r) (r_extraction r) (r_saga_id r) ref id (sy_world s) ∧
      ∀ m, memories (sy_world s) !! id = Some m → late age s m ∨ ∃ col, is_Some (mongo (sy_world s) !! (col, ref))) as Hcom.
    { intros i r Hi Hc. destruct (committed_run _ _ _ Hs Hi Hc) as (ref & id & Hm & _ & Hst). exists ref, id. split_and!; [done|done|].
      intros m Hmem. destruct Hst as ((m' & Hm' & <- & Hns) & _). assert (m' = m) as -> by congruence.
      destruct (docs_exist _ _ Hs id m Hmem) as [[Hlost|[?|?]]|?]; [|by left|congruence|by right].
      by destruct (committed_not_lost _ _ _ _ _ Hs Hl Hi Hm Hc). }
    intros i r Hi [Hpc|(sg & Hsg & Hcl)].
    + destruct (Hcom i r Hi) as (ref & id & ?); [by cbn; rewrite Hpc|]. by exists i, r, ref, id.
    + destruct (claims_backed _ Hh _ _ Hsg Hcl) as (i' & r' & Hi' & Eid & Hc & _).
      destruct (Hcom i' r' Hi' Hc) as (ref & id & ?). by exists i', r', ref, id.
  - intros i r ref Hi Hpc Href. apply (actors_ok _ _ Hs i (ASaga r) ref Hi Href). cbn. by rewrite Hpc.
Qed.

Lemma stuck_recoverable s id sg : consistent age s → honest s → saga_execution_log (sy_world s) !! id = Some sg → claims sg →
  recoverable (sy_world s) (id, sg).
Proof.
  intros Hs Hh Hsg Hcl. destruct (claims_backed _ Hh _ _ Hsg Hcl) as (i & r & Hi & <- & Hc & Hm).
  destruct (runs_logged _ Hh i r Hi) as (sg' & Hsg' & En & Ea). assert (sg' = sg) as -> by congruence.
  split; cbn; [rewrite Ea; apply (shapes _ _ Hs i _ Hi)|]. intros m Em. destruct Hm as [?|Hm]; [congruence|].
  destruct (committed_run _ _ _ Hs Hi Hc) as (ref & id & _ & Hid & ((x & Hx & _ & Hn) & _)).
  assert (m = id) as -> by congruence. unfold memory_in, in_namespace. rewrite Hx, Hn, En, String.eqb_refl. by eexists.
Qed.

(** C27: Recovery finishes what was committed.  In any reachable state, a tick that
    sees the saga log (no row-level security), whose calls arrive and whose events
    are accepted, completes every saga it lists that stopped after its commit, and
    records one event for each that names its memory; if the batch was not full, no
    saga is left waiting; nothing else of the stores changes. *)
Theorem recovery_completes s now gs : reachable rls age s →
  (length (stuck_sagas false now (sy_world s)) ≤ length gs)%nat → Forall (λ g : given Env, took_effect (g_call g) = true) gs →
  (∀ (env : Env) l ns agent ty params, strip agent = agent → is_Some (audit_append env l ns agent ty params)) →
  let rows := stuck_sagas false now (sy_world s) in
  let w' := _saga_recovery_tick false now gs (sy_world s) in
  only_log (sy_world s) w' ∧
  (∀ id sg, (id, sg) ∈ rows → ∃ t, saga_execution_log w' !! id = Some (finished (id, sg) t)) ∧
  (∀ id, id ∉ rows.*1 → saga_execution_log w' !! id = saga_execution_log (sy_world s) !! id) ∧
  (∃ ev, audit_entries (event_log w') = audit_entries (event_log (sy_world s)) ++ ev ∧
         Forall2 recovered_event (List.filter names_memory rows) ev) ∧
  ((length rows < RECOVERY_BATCH)%nat → stuck_sagas false now w' = []).
Proof.
  intros Hr Hlen Hgs Haudit rows w'. destruct (reachable_invariants _ _ _ Hr) as (Hs & Hh & _).
  destruct (recover_rows rows gs (sy_world s) (stuck_NoDup _ _) Hlen Hgs Haudit) as (Ho & Hdone & Hkept & Hev).
  { intros id sg Hin. destruct (elem_of_stuck _ _ _ _ Hin) as [Hsg Hst]. unfold is_stuck in Hst.
    apply andb_true_iff in Hst as [Hst%String.eqb_eq _]. split_and!; [|done|done]. apply stuck_recoverable; [done..|by left]. }
  split_and!; [exact Ho|exact Hdone|exact Hkept|exact Hev|]. intros Hfull. apply elem_of_nil_inv. intros [id sg] Hin.
  destruct (elem_of_stuck _ _ _ _ Hin) as [Hsg Hst]. 
  destruct (decide (id ∈ rows.*1)) as [Hid|Hid].
  - apply list_elem_of_fmap in Hid as ([id' sg0] & -> & Hin0). destruct (Hdone _ _ Hin0) as [t Ht]. cbn in Hsg.
    pose proof (eq_trans (eq_sym Hsg) Ht) as [= ->]. done.
  - apply Hid. pose proof (eq_trans (eq_sym (Hkept id Hid)) Hsg) as Hsg'. apply (list_elem_of_fmap_2 fst rows (id, sg)). by apply stuck_all.
Qed.
End props.

(** ** Concrete runs *)
Section drive.
Context {Log Env : Type} `{AuditLog Log Env} (rls : bool) (age : Z).

(** The next call of actor [i], with the conditions of a step as a test. *)
Definition saga_allowed (g : given Env) (i : nat) (s : system Log) : bool :=
  match sy_actors s !! i with
  | Some (ASaga r) =>
      (g_now g =? sy_now s) &&
      match r_pc r with
      | InsertDoc => bool_decide (sy_inserted s !! g_id g = None)
      | _ => true
      end
  | _ => false
  end.
Definition saga_next (g : given Env) (x : extraction) (i : nat) (s : system Log) : system Log :=
  match sy_actors s !! i with
  | Some (ASaga r) =>
      let '(w, r') := saga_step rls g x r (sy_world s) in
      advance i (ASaga r') w (draw (match r_pc r with InsertDoc => took_effect (g_call g) | _ => false end) (g_id g)
        (match r_pc r with StoreGraph => lose (g_call g) (default "" (r_mongo_id r)) s | _ => s end))
  | _ => s
  end.
Fixpoint drive (gs : list (given Env)) (x : extraction) (i : nat) (s : system Log) : option (system Log) :=
  match gs with
  | [] => Some s
  | g :: gs => if saga_allowed g i s then drive gs x i (saga_next g x i s) else None
  end.
Lemma drive_reachable gs x i : ∀ s s' : system Log, reachable rls age s → drive gs x i s = Some s' → reachable rls age s'.
Proof.
  induction gs as [|g gs IH]; intros s s' Hr; cbn [drive]; [by intros [= <-]|].
  destruct (saga_allowed g i s) eqn:Ea; [|done]. apply IH. destruct Hr as [log Hr]. exists log. eapply rtc_r; [exact Hr|].
  unfold saga_allowed in Ea. unfold saga_next. destruct (sy_actors s !! i) as [[r|]|] eqn:Ei; try done.
  apply andb_true_iff in Ea as [Hnow%Z.eqb_eq Hpc]. destruct (saga_step _ _ _ _ _) as [w r'] eqn:Es.
  eapply step_saga; try done; intros Ep; rewrite Ep in Hpc. by apply bool_decide_eq_true in Hpc.
Qed.
End drive.

(** One request, its saga started at time 0, each call given by whether it arrives. *)
Definition demo_request : request := Request "ns-1" "agent-1" "fact" "episodic" (Some "user-1") (Some "session-1").
Definition demo_extraction : extraction := Extraction "Alice met Bob" (Some ["PERSON"%string]) 2 [("Alice", "person")] [("Alice", "met", "Bob", "0.9")].
Definition demo_given (c : call) : given unit :=
  Given c 0 "5f1d7f3e9b1e8a0001a1b2c3" "3a0c1b7e-0000-4000-8000-000000000001" tt tt.
Abbreviation demo_log := (list (string * string * string * jobject)).
Definition demo_age : Z := 86400 * 1000000.
Definition demo_start : system demo_log :=
  let '(w, r) := start_run Answered 0 "saga-1" demo_request (sy_world (empty_system [])) in
  System 0 w (match r with Some r => [ASaga r] | None => [] end) ∅ [] [] [].
Definition demo_run (rls : bool) (cs : list call) : option (system demo_log) :=
  @drive _ _ list_audit rls (demo_given <$> cs) demo_extraction 0 demo_start.
Lemma demo_start_reachable rls : @reachable _ _ list_audit rls demo_age demo_start.
Proof.
  exists []. eapply rtc_r; [apply rtc_refl|]. eapply (step_start _ _ (empty_system []) Answered "saga-1" demo_request); [done| |done|done].
  by intros r ?%elem_of_nil.
Qed.
Lemma demo_reachable rls cs s : demo_run rls cs = Some s → @reachable _ _ list_audit rls demo_age s.
Proof. apply drive_reachable, demo_start_reachable. Qed.
Definition demo_state (rls : bool) (cs : list call) : system demo_log := default demo_start (demo_run rls cs).
Lemma demo_state_reachable rls cs : match demo_run rls cs with Some _ => True | None => False end → @reachable _ _ list_audit rls demo_age (demo_state rls cs).
Proof. unfold demo_state. destruct (demo_run rls cs) as [s|] eqn:Hs; [|done]. intros _. by eapply demo_reachable. Qed.
Definition row_state (s : system demo_log) (id : string) : option string := sg_state <$> saga_execution_log (sy_world s) !! id.

Lemma memory_stores_agree_witness :
  ∃ s, @reachable _ _ list_audit false demo_age s ∧ row_state s "saga-1" = Some "completed"%string ∧
       size (memories (sy_world s)) = 1%nat ∧ sy_lost s = [] ∧
       (∀ id m, memories (sy_world s) !! id = Some m →
          (m_payload_ref m ∈ sy_lost s ∨ late demo_age s m ∨ m_namespace_id m = None) ∨
          ∃ col, is_Some (mongo (sy_world s) !! (col, m_payload_ref m))).
Proof.
  assert (@reachable _ _ list_audit false demo_age (demo_state false (replicate 7 Answered))) as Hr.
  { apply demo_state_reachable. by vm_compute. }
  exists (demo_state false (replicate 7 Answered)). split_and!; [exact Hr|by vm_compute..|].
  exact (proj1 (@memory_stores_agree _ _ list_audit false demo_age _ Hr)).
Defined.

(** The process stops after the row says [pg_committed]. *)
Lemma recovery_completes_witness :
  ∃ s, @reachable _ _ list_audit false demo_age s ∧ row_state s "saga-1" = Some "pg_committed"%string ∧
       length (stuck_sagas false 300000001 (sy_world s)) = 1%nat ∧
       stuck_sagas false 300000001 (@_saga_recovery_tick _ _ list_audit false 300000001 [demo_given Answered] (sy_world s)) = [].
Proof.
  assert (@reachable _ _ list_audit false demo_age (demo_state false (replicate 5 Answered))) as Hr.
  { apply demo_state_reachable. by vm_compute. }
  exists (demo_state false (replicate 5 Answered)). split_and!; [exact Hr|by vm_compute..|].
  apply (@recovery_completes _ _ list_audit false demo_age _ 300000001 [demo_given Answered] Hr).
  - vm_compute. lia.
  - by repeat constructor.
  - intros env l ns agent ty params _. by eexists.
  - vm_compute. lia.
Defined.

(** *** What recovery does not see *)

(** A process that stops between the commit and the next call leaves its row at
    [started], which no tick lists, though the memory is stored. *)
Example crash_after_commit_unseen :
  let s := demo_state false (replicate 4 Answered) in
  size (memories (sy_world s)) = 1%nat ∧ row_state s "saga-1" = Some "started"%string ∧
  stuck_sagas false (365 * 86400 * 1000000) (sy_world s) = [].
Proof. by vm_compute. Qed.
(** Under row-level security the row stays at [started] for ever. *)
Example transitions_hidden :
  let s := demo_state true (replicate 7 Answered) in
  size (memories (sy_world s)) = 1%nat ∧ row_state s "saga-1" = Some "started"%string.
Proof. by vm_compute. Qed.
(** A commit whose reply is lost: the run raises, its document is deleted, and the
    memory is retired, but under row-level security it stays live. *)
Definition live_memories (s : system demo_log) : nat :=
  length (List.filter (λ m, bool_decide (m_valid_to m.2 = None)) (map_to_list (memories (sy_world s)))).
Example lost_commit_rolled_back :
  let s := demo_state false [Answered; Answered; Answered; ReplyLost; Answered; Answered; Answered] in
  live_memories s = 0%nat ∧ mongo (sy_world s) = ∅ ∧ row_state s "saga-1" = Some "rolled_back"%string.
Proof. by vm_compute. Qed.
Example lost_commit_dangles :
  let s := demo_state true [Answered; Answered; Answered; ReplyLost; Answered; Answered; Answered] in
  live_memories s = 1%nat ∧ mongo (sy_world s) = ∅ ∧ row_state s "saga-1" = Some "started"%string.
Proof. by vm_compute. Qed.
(** An indexing worker whose cache write fails deletes the document of the chunks it
    has committed. *)
Definition demo_index (cs : list call) : world demo_log * index_run :=
  foldl (λ wr c, index_step false (λ _, "code:key"%string) "hash" (demo_given c) ["3a0c1b7e-0000-4000-8000-000000000002"%string] wr.2 wr.1)
    (sy_world (empty_system []), IndexRun (IndexJob "main.py" None (Some "ns-1"%string)) IdxInsert None) cs.
Example cache_failure_dangles :
  let '(w, r) := demo_index [Answered; Answered; Answered; NotSent; Answered] in
  ix_pc r = IdxFailed ∧ (m_valid_to <$> (map_to_list (memories w)).*2) = [None] ∧ mongo w = ∅.
Proof. by vm_compute. Qed.
(** Two more ways to lose a document, on the system of [MemoryFacts], with the age of
    the example settings, 300 seconds. *)
#[local] Existing Instance list_audit.
Definition example_age : Z := 300 * 1000000.
Abbreviation index_reachable := (@reachable demo_log unit list_audit false example_age).
Definition index_start (ns : option string) : system demo_log :=
  System 0 (sy_world (empty_system [])) [AIndex (IndexRun (IndexJob "main.py" None ns) IdxInsert None)] ∅ [] [] [].
Definition given_at (now : Z) : given unit := Given Answered now "5f1d7f3e9b1e8a0001a1b2c3" "" tt tt.
Definition index_next (s : system demo_log) : system demo_log :=
  match sy_actors s !! 0%nat with
  | Some (AIndex r) =>
      let '(w, r') := index_step false (λ _, "code:key"%string) "hash" (given_at (sy_now s)) ["3a0c1b7e-0000-4000-8000-000000000002"%string] r (sy_world s) in
      advance 0 (AIndex r') w (draw (match ix_pc r with IdxInsert => true | _ => false end) "5f1d7f3e9b1e8a0001a1b2c3" s)
  | _ => s
  end.
(** A collection pass after [wait]: candidates and references, before the deletions. *)
Definition pass_at (wrls : bool) (wait : Z) (s : system demo_log) : system demo_log :=
  let now := sy_now s + wait in
  let cands := gc_candidates (now - example_age) (sy_world s) ++ sy_candidates s in
  System now (sy_world s) (sy_actors s) (sy_inserted s) (sy_lost s) cands
    (gc_orphans (_fetch_pg_refs wrls 10 ["ns-1"%string] (sy_world s)) cands ++ sy_orphans s).
Definition delete_first (s : system demo_log) : system demo_log :=
  match sy_orphans s with o :: _ => set_world (delete_one Answered o (sy_world s)) s | [] => s end.

Lemma index_start_reachable ns : index_reachable (index_start ns).
Proof. exists []. eapply rtc_r; [apply rtc_refl|]. apply (step_start_index _ _ (empty_system []) (IndexJob "main.py" None ns)). Qed.
Lemma index_next_reachable s : index_reachable s →
  (∀ r, sy_actors s !! 0%nat = Some (AIndex r) → ix_pc r = IdxInsert → sy_inserted s !! "5f1d7f3e9b1e8a0001a1b2c3"%string = None) →
  index_reachable (index_next s).
Proof.
  intros [log Hr] Hf. unfold index_next. destruct (sy_actors s !! 0%nat) as [[|r]|] eqn:Ha; try by exists log.
  destruct (index_step _ _ _ _ _ _ _) as [w r'] eqn:Es. exists log. eapply rtc_r; [exact Hr|].
  pose proof (step_index false example_age s 0 r (given_at (sy_now s)) _ _ _ _ w r' Ha eq_refl eq_refl (Hf r eq_refl) Es) as Hstep.
  assert (index_lost (ix_pc r) (g_call (given_at (sy_now s))) = false) as El by by destruct (ix_pc r). rewrite El in Hstep.
  by destruct (ix_pc r).
Qed.
Lemma pass_reachable wrls wait s : index_reachable s → 0 ≤ wait →
  (∀ id m, memories (sy_world s) !! id = Some m → str_leb id ZERO_UUID = false ∧ ∀ ns, m_namespace_id m = Some ns → ns ∈ ["ns-1"%string]) →
  index_reachable (pass_at wrls wait s).
Proof.
  intros [log Hr] Hw Hm. exists log.
  set (s1 := System (sy_now s + wait) (sy_world s) (sy_actors s) (sy_inserted s) (sy_lost s) (sy_candidates s) (sy_orphans s)).
  set (s2 := System (sy_now s1) (sy_world s1) (sy_actors s1) (sy_inserted s1) (sy_lost s1)
    (gc_candidates (sy_now s1 - example_age) (sy_world s1) ++ sy_candidates s1) (sy_orphans s1)).
  apply (rtc_r _ s2); [apply (rtc_r _ s1); [apply (rtc_r _ s); [exact Hr|]|]|].
  - apply (step_tick _ _ s). lia.
  - apply (step_scan _ _ s1).
  - exact (step_refs false example_age s2 wrls 10 ["ns-1"%string] ltac:(lia) Hm).
Qed.
Lemma delete_first_reachable s : index_reachable s → index_reachable (delete_first s).
Proof.
  intros [log Hr]. unfold delete_first. destruct (sy_orphans s) as [|o l] eqn:Eo; [by exists log|].
  exists log. eapply rtc_r; [exact Hr|]. apply step_delete. rewrite Eo. by left.
Qed.
Definition index_outcome (s : system demo_log) : list actor * list (option Z) * nat :=
  (sy_actors s, m_valid_to <$> (map_to_list (memories (sy_world s))).*2, size (mongo (sy_world s))).

(** A job that commits later than the age after its insertion succeeds, and its
    chunks stay live without their document: the collector listed the document
    while the job was embedding. *)
Example slow_index_dangles :
  let job := IndexJob "main.py" None (Some "ns-1"%string) in
  let s := index_next (delete_first (index_next (pass_at true 301000000 (index_next (index_next (index_start (Some "ns-1"%string))))))) in
  index_reachable s ∧ index_outcome s = ([AIndex (IndexRun job IdxDone (Some "5f1d7f3e9b1e8a0001a1b2c3"%string))], [None], 0%nat).
Proof.
  split; [|vm_compute; reflexivity]. apply index_next_reachable; [apply delete_first_reachable, index_next_reachable;
    [apply pass_reachable; [repeat apply index_next_reachable; [apply index_start_reachable|..]|lia|]|]|]; vm_compute; try done; intros r [= <-]; done.
Qed.
(** A job of no namespace stores chunks that a collector under row-level security
    does not see; the document is deleted although they refer to it. *)
Example unscoped_chunks_dangle :
  let job := IndexJob "main.py" None None in
  let s := delete_first (pass_at true 301000000 (index_next (index_next (index_next (index_next (index_start None)))))) in
  index_reachable s ∧ index_outcome s = ([AIndex (IndexRun job IdxDone (Some "5f1d7f3e9b1e8a0001a1b2c3"%string))], [None], 0%nat).
Proof.
  split; [|vm_compute; reflexivity]. apply delete_first_reachable, pass_reachable; [repeat apply index_next_reachable; [apply index_start_reachable|..]|lia|].
  1-4: vm_compute; try done; intros r [= <-]; done.
  intros id m Hm. set (l := memories _) in Hm.
  assert (l = {["3a0c1b7e-0000-4000-8000-000000000002"%string := Memory None "default" "code_chunk" (Some ("main.py"%string, None)) "5f1d7f3e9b1e8a0001a1b2c3" 0 None]}) as El by (vm_compute; reflexivity).
  rewrite El in Hm. apply lookup_singleton_Some in Hm as [<- <-]. by split; [vm_compute|].
Qed.
(** A saga whose memory is gone is to be marked [failed], a state the table does not
    accept: the row stays as it is and is listed again. *)
Lemma failed_never_recorded {Log Env : Type} `{AuditLog Log Env} rls (g : given Env) id sg m (w : world Log) :
  sg_memory_id sg = Some m → memory_in (sg_namespace_id sg) m w = None → recover_saga rls g (id, sg) w = w.
Proof. intros Hm Hnone. cbn. rewrite Hm, Hnone. by destruct rls. Qed.
