(* ===== verification/Signing.v ===== *)
(** * Signing: the e-signature service

    Models [src/nce/signing_service]: the [SignTransport] protocol of
    [transport.py] as a type class, and its two implementations, [ManualTransport]
    of [manual.py] and [EmailCodeTransport] of [email_code.py].  A transport keeps
    its sessions in the process; a call returns the new state even when it raises,
    because what it wrote before stays.

    SHA-256 is a parameter, and so are the identifiers, codes and salts a request
    draws.  The details of audit entries and the text of errors are left out. *)
From S2P Require Import Prelude PyText PyStr.
From stdpp Require Import pretty.
Local Open Scope Z_scope.

Inductive sign_status := Pending | Signed | Declined | Locked | Expired.
#[global] Instance sign_status_eq : EqDecision sign_status.
Proof. solve_decision. Defined.

Inductive sign_error :=
  | UnknownSession | UnexpectedMethod | EmailRequired | IsDeclined | IsLocked | IsExpired | AttemptsExceeded
  | CodeRequired (remaining : Z) | InvalidCode (remaining : Z) | Unimplemented | InvalidMethod.

(** The session dict a caller sees. *)
Record sign_session := Session { s_id : string; s_status : sign_status; s_fingerprint : string; s_signer : list (string * json); s_method : string }.

(** What a request draws: the clock, an identifier, a code below a million, a salt. *)
Record drawn := Drawn { d_now : Z; d_id : string; d_code : Z; d_salt : string }.

Section signing.
Context (sha256 : string → string).

Definition sha256_fingerprint (doc : string) : string := sha256 doc.

(** ** The protocol *)

(** [session_of st id]: the status and the fingerprint of a session. *)
Class SignTransport (St : Type) := {
  session_of : St → string → option (sign_status * string);
  request_signature : drawn → string → list (string * json) → string → St → St * result sign_error sign_session;
  on_signed : Z → string → list (string * json) → St → St * result sign_error sign_session;
  on_declined : Z → string → list (string * json) → St → St * result sign_error sign_session;
  (* a request opens a pending session for the document, and touches no other *)
  request_opens d doc signer m st st' s : request_signature d doc signer m st = (st', Ok s) →
    s_id s = d_id d ∧ session_of st' (d_id d) = Some (Pending, sha256_fingerprint doc) ∧ ∀ i, i ≠ d_id d → session_of st' i = session_of st i;
  (* a successful call for [id] finds a session, which is signed afterwards; it keeps its fingerprint *)
  on_signed_signs now id payload st st' s : on_signed now id payload st = (st', Ok s) →
    (∃ status fp, session_of st id = Some (status, fp) ∧ session_of st' id = Some (Signed, fp)) ∧
    ∀ i, i ≠ id → session_of st' i = session_of st i;
  (* a failing call signs nothing *)
  on_signed_fails now id payload st st' e : on_signed now id payload st = (st', Err e) →
    ∀ i, session_of st' i = session_of st i ∨
         ∃ a b fp, session_of st i = Some (a, fp) ∧ session_of st' i = Some (b, fp) ∧ b ≠ Signed
}.

(** ** [ManualTransport] *)
Record manual_state := Manual { mn_sessions : gmap string sign_session; mn_audit : list (string * string) }.

Definition _new_session (d : drawn) (doc : string) (signer : list (string * json)) (method : string) : sign_session :=
  Session (d_id d) Pending (sha256_fingerprint doc) signer method.
Definition _transition_session (new_status : sign_status) (s : sign_session) : sign_session :=
  Session (s_id s) new_status (s_fingerprint s) (s_signer s) (s_method s).
Definition manual_request (d : drawn) (doc : string) (signer : list (string * json)) (method : string) (st : manual_state)
    : manual_state * result sign_error sign_session :=
  let s := _new_session d doc signer method in
  (Manual (<[s_id s := s]> (mn_sessions st)) (mn_audit st ++ [("requested"%string, s_id s)]), Ok s).
Definition _pull_session (id : string) (st : manual_state) : result sign_error sign_session :=
  match mn_sessions st !! id with Some s => Ok s | None => Err UnknownSession end.
Definition manual_transition (event : string) (new_status : sign_status) (id : string) (st : manual_state)
    : manual_state * result sign_error sign_session :=
  match _pull_session id st with
  | Err e => (st, Err e)
  | Ok s =>
      let updated := _transition_session new_status s in
      (Manual (<[id := updated]> (mn_sessions st)) (mn_audit st ++ [(event, id)]), Ok updated)
  end.
Definition manual_on_signed (now : Z) (id : string) (payload : list (string * json)) (st : manual_state)
    : manual_state * result sign_error sign_session := manual_transition "signed" Signed id st.
Definition manual_on_declined (now : Z) (id : string) (payload : list (string * json)) (st : manual_state)
    : manual_state * result sign_error sign_session := manual_transition "declined" Declined id st.

(** ** [EmailCodeTransport] *)
Definition _DEFAULT_CODE_TTL_SECONDS : Z := 900.
Definition _DEFAULT_MAX_ATTEMPTS : Z := 3.

Record email_session := EmailSession {
  es_id : string; es_status : sign_status; es_fingerprint : string; es_signer : list (string * json); es_created_at : Z; es_expires_at : Z;
  es_code_salt : string; es_code_hash : string; es_attempts : Z; es_max_attempts : Z; es_used : bool
}.
Record email_state := Email {
  em_ttl : Z; em_max_attempts : Z;                               (* constructor arguments; microseconds *)
  em_sessions : gmap string email_session; em_audit : list (string * string);
  em_dispatched : list (string * string * string)                (* session, recipient, code *)
}.

Definition hash_otp_code (code salt : string) : string := sha256 (salt +:+ ":" +:+ code).
Definition with_session (f : email_session → email_session) (id : string) (st : email_state) : email_state :=
  Email (em_ttl st) (em_max_attempts st) (alter f id (em_sessions st)) (em_audit st) (em_dispatched st).
Definition audited (event id : string) (st : email_state) : email_state :=
  Email (em_ttl st) (em_max_attempts st) (em_sessions st) (em_audit st ++ [(event, id)]) (em_dispatched st).
Definition set_status (status : sign_status) (s : email_session) : email_session :=
  EmailSession (es_id s) status (es_fingerprint s) (es_signer s) (es_created_at s) (es_expires_at s) (es_code_salt s) (es_code_hash s)
    (es_attempts s) (es_max_attempts s) (es_used s).
Definition count_attempt (s : email_session) : email_session :=
  EmailSession (es_id s) (es_status s) (es_fingerprint s) (es_signer s) (es_created_at s) (es_expires_at s) (es_code_salt s) (es_code_hash s)
    (es_attempts s + 1) (es_max_attempts s) (es_used s).
Definition set_used (s : email_session) : email_session :=
  EmailSession (es_id s) (es_status s) (es_fingerprint s) (es_signer s) (es_created_at s) (es_expires_at s) (es_code_salt s) (es_code_hash s)
    (es_attempts s) (es_max_attempts s) true.
Definition _public_session (s : email_session) : sign_session :=
  Session (es_id s) (es_status s) (es_fingerprint s) (es_signer s) "email_code".

(** [str] of a value that is neither text nor an integer. *)
Context (py_str : json → string).
(** [str(payload.get(k1) or payload.get(k2) or "").strip()] *)
Fixpoint first_text (keys : list string) (payload : list (string * json)) : string :=
  match keys with
  | [] => ""
  | k :: keys => match json_get k payload with
                 | Some v => if json_truthy v then strip (json_str py_str v) else first_text keys payload
                 | None => first_text keys payload
                 end
  end.
Fixpoint has_at (s : string) : bool := match s with EmptyString => false | String c s => (char_code c =? 64)%N || has_at s end.

Definition email_request (d : drawn) (doc : string) (signer : list (string * json)) (method : string) (st : email_state)
    : email_state * result sign_error sign_session :=
  let email := first_text ["email"%string] signer in
  if negb (String.eqb method "email_code") then (st, Err UnexpectedMethod)
  else if String.eqb email "" || negb (has_at email) then (st, Err EmailRequired)
  else
    let otp_code := digits 6 (d_code d) in
    let s := EmailSession (d_id d) Pending (sha256_fingerprint doc) signer (d_now d) (d_now d + em_ttl st) (d_salt d)
               (hash_otp_code otp_code (d_salt d)) 0 (em_max_attempts st) false in
    (audited "requested" (d_id d)
       (Email (em_ttl st) (em_max_attempts st) (<[d_id d := s]> (em_sessions st)) (em_audit st)
          (em_dispatched st ++ [(d_id d, email, otp_code)])), Ok (_public_session s)).

(** A wrong or missing code: the attempt counts, and the last one locks. *)
Definition failed_attempt (id : string) (s : email_session) (err : Z → sign_error) (st : email_state)
    : email_state * result sign_error sign_session :=
  let s' := count_attempt s in
  let st := audited "failed_attempt" id (with_session count_attempt id st) in
  if es_max_attempts s' <=? es_attempts s' then (with_session (set_status Locked) id st, Err AttemptsExceeded)
  else (st, Err (err (es_max_attempts s' - es_attempts s'))).

Definition email_on_signed (now : Z) (id : string) (payload : list (string * json)) (st : email_state)
    : email_state * result sign_error sign_session :=
  match em_sessions st !! id with
  | None => (st, Err UnknownSession)
  | Some s =>
      if bool_decide (es_status s = Signed) && es_used s then (st, Ok (_public_session s))
      else if bool_decide (es_status s = Declined) then (st, Err IsDeclined)
      else if bool_decide (es_status s = Locked) then (st, Err IsLocked)
      else if bool_decide (es_status s = Expired) then (st, Err IsExpired)
      else if es_expires_at s <? now then (audited "expired" id (with_session (set_status Expired) id st), Err IsExpired)
      else if es_max_attempts s <=? es_attempts s then (audited "locked" id (with_session (set_status Locked) id st), Err AttemptsExceeded)
      else
        let candidate := first_text ["code"; "otp"]%string payload in
        if String.eqb candidate "" then failed_attempt id s CodeRequired st
        else if negb (String.eqb (hash_otp_code candidate (es_code_salt s)) (es_code_hash s)) then failed_attempt id s InvalidCode st
        else (audited "signed" id (with_session (λ s, set_used (set_status Signed s)) id st),
              Ok (_public_session (set_used (set_status Signed s))))
  end.
Definition email_on_declined (now : Z) (id : string) (payload : list (string * json)) (st : email_state)
    : email_state * result sign_error sign_session :=
  match em_sessions st !! id with
  | None => (st, Err UnknownSession)
  | Some s => (audited "declined" id (with_session (set_status Declined) id st), Ok (_public_session (set_status Declined s)))
  end.

(** ** [get_signing_transport] *)
Inductive transport := TManual | TEmailCode.
Definition get_signing_transport (method : string) : result sign_error transport :=
  if String.eqb method "manual" then Ok TManual
  else if String.eqb method "email_code" then Ok TEmailCode
  else if bool_decide (method ∈ ["oneflow"; "criipto"; "signicat"]%string) then Err Unimplemented
  else Err InvalidMethod.

(** ** The implementations meet the protocol *)
#[export] Instance manual_transport : SignTransport manual_state.
Proof.
  refine {| session_of st id := (λ s, (s_status s, s_fingerprint s)) <$> mn_sessions st !! id;
            request_signature := manual_request; on_signed := manual_on_signed; on_declined := manual_on_declined |}.
  - intros d doc signer m st st' s [= <- <-]. cbn. rewrite lookup_insert_eq. split_and!; [done|done|].
    intros i Hne. by rewrite lookup_insert_ne.
  - intros now id payload st st' s. unfold manual_on_signed, manual_transition, _pull_session.
    destruct (mn_sessions st !! id) as [s0|] eqn:E; [|done]. intros [= <- <-]. cbn. rewrite lookup_insert_eq. split; [by eexists _, _|].
    intros i Hne. by rewrite lookup_insert_ne.
  - intros now id payload st st' e. unfold manual_on_signed, manual_transition, _pull_session.
    destruct (mn_sessions st !! id) as [s0|] eqn:E; [done|]. intros [= <- <-] i. by left.
Defined.

Definition email_session_of (st : email_state) (id : string) : option (sign_status * string) :=
  (λ s, (es_status s, es_fingerprint s)) <$> em_sessions st !! id.
Lemma alter_twice (f g : email_session → email_session) (id : string) (m : gmap string email_session) : alter f id (alter g id m) = alter (λ s, f (g s)) id m.
Proof.
  apply map_eq. intros i. destruct (decide (i = id)) as [->|Hne]; [|by rewrite !lookup_alter_ne].
  rewrite !lookup_alter_eq. by destruct (m !! id).
Qed.
Lemma email_sign_effect now id payload st st' r : email_on_signed now id payload st = (st', r) →
  st' = st ∨ ∃ s f, em_sessions st !! id = Some s ∧ em_sessions st' = alter f id (em_sessions st) ∧ es_fingerprint (f s) = es_fingerprint s ∧
    (es_status (f s) = Signed → es_status s = Signed ∨ ∃ p, r = Ok p).
Proof.
  unfold email_on_signed. destruct (em_sessions st !! id) as [s|] eqn:Es; [|by intros [= <- <-]; left].
  assert (∀ err, failed_attempt id s err st = (st', r) → es_status s ≠ Signed ∨ es_used s = false →
    st' = st ∨ ∃ s0 f, Some s = Some s0 ∧ em_sessions st' = alter f id (em_sessions st) ∧ es_fingerprint (f s0) = es_fingerprint s0 ∧
      (es_status (f s0) = Signed → es_status s0 = Signed ∨ ∃ p, r = Ok p)) as Hfail.
  { intros err. unfold failed_attempt. destruct (_ <=? _); intros [= <- <-] _; right.
    - exists s, (λ s, set_status Locked (count_attempt s)). split_and!; [done|apply alter_twice|done|done].
    - exists s, count_attempt. split_and!; [done|done|done|by left]. }
  destruct (_ && _) eqn:Eu; [by intros [= <- <-]; left|].
  assert (es_status s ≠ Signed ∨ es_used s = false) as Hu.
  { apply andb_false_iff in Eu as [Eu|Eu]; [left; by apply bool_decide_eq_false in Eu|by right]. }
  clear Eu. repeat (case_bool_decide; [by intros [= <- <-]; left|]).
  destruct (_ <? _); [intros [= <- <-]; right; by exists s, (set_status Expired)|].
  destruct (_ <=? _); [intros [= <- <-]; right; by exists s, (set_status Locked)|].
  destruct (String.eqb _ _); [intros Hf; by apply (Hfail _ Hf)|].
  destruct (negb _); [intros Hf; by apply (Hfail _ Hf)|].
  intros [= <- <-]; right. exists s, (λ s, set_used (set_status Signed s)). split_and!; [done..|]. right. by eexists.
Qed.

Lemma email_sign_ok now id payload st st' p : email_on_signed now id payload st = (st', Ok p) →
  ∃ s, em_sessions st !! id = Some s ∧
    (λ s, (es_status s, es_fingerprint s)) <$> em_sessions st' !! id = Some (Signed, es_fingerprint s).
Proof.
  unfold email_on_signed. destruct (em_sessions st !! id) as [s|] eqn:Es; [|done].
  destruct (_ && _) eqn:Eu.
  { intros [= <- _]. exists s. split; [done|]. rewrite Es. apply andb_true_iff in Eu as [Eu%bool_decide_eq_true _]. cbn. by rewrite Eu. }
  clear Eu. repeat (case_bool_decide; [done|]). destruct (_ <? _); [done|]. destruct (_ <=? _); [done|].
  unfold failed_attempt. destruct (String.eqb _ _); [by destruct (_ <=? _)|]. destruct (negb _); [by destruct (_ <=? _)|].
  intros [= <- _]. exists s. split; [done|]. cbn. by rewrite lookup_alter_eq, Es.
Qed.

#[export] Instance email_transport : SignTransport email_state.
Proof.
  refine {| session_of := email_session_of;
            request_signature := email_request; on_signed := email_on_signed; on_declined := email_on_declined |}.
  - intros d doc signer m st st' s. unfold email_request. destruct (negb _); [done|]. destruct (_ || _); [done|]. intros [= <- <-].
    unfold email_session_of. cbn. rewrite lookup_insert_eq. split_and!; [done|done|]. intros i Hne. by rewrite lookup_insert_ne.
  - intros now id payload st st' s Hs. destruct (email_sign_ok _ _ _ _ _ _ Hs) as (s0 & E & E').
    unfold email_session_of. rewrite E, E'. split; [by eexists _, _|]. intros i Hne.
    destruct (email_sign_effect _ _ _ _ _ _ Hs) as [->|(s1 & f & _ & -> & _)]; [done|]. by rewrite lookup_alter_ne.
  - intros now id payload st st' e Hs i. unfold email_session_of.
    destruct (email_sign_effect _ _ _ _ _ _ Hs) as [->|(s1 & f & E & -> & Efp & Hsig)]; [by left|].
    destruct (decide (i = id)) as [->|Hne]; [|left; by rewrite lookup_alter_ne].
    destruct (decide (es_status (f s1) = Signed)) as [Hd|Hd].
    + destruct (Hsig Hd) as [Hs1|[p Hp]]; [|done]. left. rewrite lookup_alter_eq, E. cbn. by rewrite Hd, Hs1, Efp.
    + right. rewrite lookup_alter_eq, E. cbn. rewrite Efp. eexists _, _, _. by split_and!.
Defined.
End signing.
