(* ===== verification/SigningProps.v ===== *)
(** * SigningProps: what signs a document, and what cannot

    Calls to a transport come in any order, with any payload.  The theorems follow
    one session of the emailed code through such a sequence. *)
From S2P Require Import Prelude PyText Signing.
From stdpp Require Import pretty.
Local Open Scope Z_scope.

Inductive op :=
  | Request (d : drawn) (doc : string) (signer : list (string * json)) (method : string)
  | Sign (now : Z) (id : string) (payload : list (string * json))
  | Decline (now : Z) (id : string) (payload : list (string * json)).
Definition drawn_ids (ops : list op) : list string := ops ≫= λ o, match o with Request d _ _ _ => [d_id d] | _ => [] end.

(** Compare two known statuses. *)
Ltac eval_status :=
  repeat match goal with |- context [@bool_decide (?a = ?b :> sign_status) ?i] =>
    let v := eval vm_compute in (@bool_decide (a = b) i) in change (@bool_decide (a = b) i) with v end.

Section props.
Context (sha256 : string → string) (py_str : json → string).
Implicit Types st : email_state.
Abbreviation candidate payload := (first_text py_str ["code"; "otp"]%string payload).

Definition perform (o : op) (st : email_state) : email_state :=
  match o with
  | Request d doc signer m => (email_request sha256 py_str d doc signer m st).1
  | Sign now id payload => (email_on_signed sha256 py_str now id payload st).1
  | Decline now id payload => (email_on_declined now id payload st).1
  end.
Definition performs (ops : list op) (st : email_state) : email_state := foldl (λ st o, perform o st) st ops.
Definition email_start (ttl max : Z) : email_state := Email ttl max ∅ [] [].

(** The call is allowed a guess: its candidate is looked at. *)
Definition open_at (now : Z) (s : email_session) : bool :=
  (bool_decide (es_status s = Pending) || (bool_decide (es_status s = Signed) && negb (es_used s))) && (now <=? es_expires_at s) &&
  (es_attempts s <? es_max_attempts s).
Definition is_guess (st : email_state) (o : op) (id : string) : bool :=
  match o with
  | Sign now i _ => String.eqb i id && match em_sessions st !! id with Some s => open_at now s | None => false end
  | _ => false
  end.
Fixpoint guesses (st : email_state) (ops : list op) (id : string) : nat :=
  match ops with
  | [] => 0
  | o :: ops => ((if is_guess st o id then 1 else 0) + guesses (perform o st) ops id)%nat
  end.

Lemma performs_snoc ops o st : performs (ops ++ [o]) st = perform o (performs ops st).
Proof. unfold performs. by rewrite foldl_app. Qed.
Lemma guesses_app st ops1 ops2 id : guesses st (ops1 ++ ops2) id = (guesses st ops1 id + guesses (performs ops1 st) ops2 id)%nat.
Proof. revert st. induction ops1 as [|o ops1 IH]; intros st; [done|]. cbn [guesses app]. rewrite IH. apply Nat.add_assoc. Qed.
Lemma guesses_snoc st ops o id :
  guesses st (ops ++ [o]) id = (guesses st ops id + if is_guess (performs ops st) o id then 1 else 0)%nat.
Proof. rewrite guesses_app. cbn [guesses]. by rewrite Nat.add_0_r. Qed.

(** ** One call *)

(** What [on_signed] does to the session it is for. *)
Definition waits (s : email_session) : bool := bool_decide (es_status s = Pending) || (bool_decide (es_status s = Signed) && negb (es_used s)).
Definition right_code (payload : list (string * json)) (s : email_session) : bool :=
  negb (String.eqb (candidate payload) "") && String.eqb (hash_otp_code sha256 (candidate payload) (es_code_salt s)) (es_code_hash s).
Definition after_sign (now : Z) (payload : list (string * json)) (s : email_session) : email_session :=
  if negb (waits s) then s
  else if es_expires_at s <? now then set_status Expired s
  else if es_max_attempts s <=? es_attempts s then set_status Locked s
  else if right_code payload s then set_used (set_status Signed s)
  else if es_max_attempts s <=? es_attempts s + 1 then set_status Locked (count_attempt s)
  else count_attempt s.
Lemma failed_sessions id s err st : em_sessions (failed_attempt id s err st).1 =
  alter (λ s', if es_max_attempts s <=? es_attempts s + 1 then set_status Locked (count_attempt s') else count_attempt s') id (em_sessions st).
Proof. unfold failed_attempt. cbn [es_max_attempts es_attempts count_attempt]. destruct (_ <=? _); [|done]. cbn. apply alter_twice. Qed.
Lemma sign_session now id payload st s : em_sessions st !! id = Some s →
  em_sessions (email_on_signed sha256 py_str now id payload st).1 = <[id := after_sign now payload s]> (em_sessions st).
Proof.
  intros Hs. unfold email_on_signed, after_sign, waits, right_code. rewrite Hs.
  assert (∀ f, alter f id (em_sessions st) = <[id := f s]> (em_sessions st)) as Halter.
  { intros f. apply map_eq. intros i. destruct (decide (i = id)) as [->|Hne]; [|by rewrite lookup_alter_ne, lookup_insert_ne].
    by rewrite lookup_alter_eq, lookup_insert_eq, Hs. }
  assert (em_sessions st = <[id := s]> (em_sessions st)) as Hsame by by rewrite insert_id.
  set (c := candidate payload).
  destruct (es_status s) eqn:Est; eval_status; cbn [andb orb negb]; [|destruct (es_used s); cbn [negb orb]| | |]; try exact Hsame.
  all: destruct (es_expires_at s <? now); [by cbn [fst em_sessions audited with_session]; rewrite Halter|].
  all: destruct (es_max_attempts s <=? es_attempts s); [by cbn [fst em_sessions audited with_session]; rewrite Halter|].
  all: destruct (String.eqb c ""); cbn [negb andb]; [by rewrite failed_sessions, Halter|].
  all: destruct (String.eqb (hash_otp_code _ _ _) _); cbn [negb];
    [by cbn [fst em_sessions audited with_session]; rewrite Halter|by rewrite failed_sessions, Halter].
Qed.

(** ** A sequence of calls *)

(** [id] was signed by a right code, in time and within the attempts. *)
Definition signed_by_code (st0 : email_state) (ops : list op) (id : string) : Prop :=
  ∃ pre now payload post s, ops = pre ++ Sign now id payload :: post ∧ em_sessions (performs pre st0) !! id = Some s ∧
    open_at now s = true ∧ right_code payload s = true.
(** The session was opened by a request, and counts its guesses. *)
Definition accounted (ttl max : Z) (ops : list op) (id : string) (s : email_session) : Prop :=
  let st0 := email_start ttl max in
  (∃ d doc signer, Request d doc signer "email_code" ∈ ops ∧ d_id d = id ∧ es_code_salt s = d_salt d ∧
     es_code_hash s = hash_otp_code sha256 (digits 6 (d_code d)) (d_salt d) ∧ es_expires_at s = d_now d + ttl ∧ es_fingerprint s = sha256 doc) ∧
  es_max_attempts s = max ∧ 0 ≤ es_attempts s ≤ Z.max 0 max ∧
  Z.of_nat (guesses st0 ops id) = es_attempts s + (if es_used s then 1 else 0) ∧
  (es_used s = true → es_attempts s < max ∧ es_status s ≠ Pending ∧ signed_by_code st0 ops id) ∧
  (es_status s = Signed → es_used s = true).

Lemma signed_by_code_app st0 ops o id : signed_by_code st0 ops id → signed_by_code st0 (ops ++ [o]) id.
Proof.
  intros (pre & now & payload & post & s & -> & ?). exists pre, now, payload, (post ++ [o]), s. split; [|done]. by rewrite <- app_assoc.
Qed.
Lemma drawn_ids_app ops1 ops2 : drawn_ids (ops1 ++ ops2) = drawn_ids ops1 ++ drawn_ids ops2.
Proof. apply bind_app. Qed.

(** A call for another session, or one that does not open it, leaves it. *)
Lemma perform_other o st id : (∀ now payload, o ≠ Sign now id payload ∧ o ≠ Decline now id payload) →
  (∀ d doc signer m, o = Request d doc signer m → d_id d ≠ id) → em_sessions (perform o st) !! id = em_sessions st !! id.
Proof.
  intros Hsd Hr. destruct o as [d doc signer m|now i payload|now i payload]; cbn [perform].
  - unfold email_request. destruct (negb _); [done|]. destruct (_ || _); [done|]. cbn [fst em_sessions audited].
    rewrite lookup_insert_ne; [done|]. by apply (Hr d doc signer m).
  - assert (i ≠ id) by (intros ->; by destruct (Hsd now payload)).
    destruct (em_sessions st !! i) as [s|] eqn:E; [by rewrite (sign_session _ _ _ _ s E), lookup_insert_ne|]. unfold email_on_signed. by rewrite E.
  - assert (i ≠ id) by (intros ->; by destruct (Hsd now payload)). unfold email_on_declined.
    destruct (em_sessions st !! i) as [s|] eqn:E; [|done]. cbn. by rewrite lookup_alter_ne.
Qed.

Lemma unopened ttl max ops id : id ∉ drawn_ids ops →
  em_sessions (performs ops (email_start ttl max)) !! id = None ∧ guesses (email_start ttl max) ops id = 0%nat.
Proof.
  induction ops as [|o ops IH] using rev_ind; [done|]. rewrite drawn_ids_app, not_elem_of_app. intros [Hn Ho].
  destruct (IH Hn) as [IH1 IH2]. rewrite performs_snoc, guesses_snoc, IH2.
  assert (is_guess (performs ops (email_start ttl max)) o id = false) as Hg.
  { destruct o; cbn; try done. rewrite IH1. by rewrite andb_false_r. }
  split; [|by rewrite Hg]. set (st := performs ops _) in *. destruct o as [d doc signer m|now i payload|now i payload]; cbn [perform].
  - cbn in Ho. rewrite list_elem_of_singleton in Ho. rewrite <- IH1. apply (perform_other (Request d doc signer m)); [done|].
    intros d' doc' signer' m' [= <- <- <- <-]. congruence.
  - destruct (decide (i = id)) as [->|Hne]; [unfold email_on_signed; by rewrite IH1|].
    rewrite <- IH1. apply (perform_other (Sign now i payload)); [|done]. intros now' p'. by split; intros [= _ ? _].
  - destruct (decide (i = id)) as [->|Hne]; [unfold email_on_declined; by rewrite IH1|].
    rewrite <- IH1. apply (perform_other (Decline now i payload)); [|done]. intros now' p'. by split; intros [= _ ? _].
Qed.

(** The session's own calls. *)
Lemma accounted_sign ttl max ops now payload id s :
  em_sessions (performs ops (email_start ttl max)) !! id = Some s → accounted ttl max ops id s →
  accounted ttl max (ops ++ [Sign now id payload]) id (after_sign now payload s).
Proof.
  intros Hs (Hreq & Hmax & Hatt & Hg & Hused & Hsigned). unfold accounted. rewrite guesses_snoc. cbn [is_guess].
  rewrite String.eqb_refl, Hs. cbn [andb].
  assert (∀ t, (es_code_salt t, es_code_hash t, es_expires_at t, es_fingerprint t, es_max_attempts t) =
               (es_code_salt s, es_code_hash s, es_expires_at s, es_fingerprint s, es_max_attempts s) →
    ∃ d doc signer, Request d doc signer "email_code" ∈ ops ++ [Sign now id payload] ∧ d_id d = id ∧ es_code_salt t = d_salt d ∧
      es_code_hash t = hash_otp_code sha256 (digits 6 (d_code d)) (d_salt d) ∧ es_expires_at t = d_now d + ttl ∧ es_fingerprint t = sha256 doc) as Hreq'.
  { intros t [= -> -> -> -> _]. destruct Hreq as (d & doc & signer & ? & ?). exists d, doc, signer. split; [|done]. apply elem_of_app. by left. }
  assert (es_used s = true → waits s = false) as Hw.
  { intros Hu. destruct (Hused Hu) as (_ & Hnp & _). unfold waits. rewrite bool_decide_eq_false_2 by done. by rewrite Hu, andb_false_r. }
  unfold after_sign, open_at. fold (waits s). destruct (waits s) eqn:Ew; cbn [negb andb].
  - assert (es_used s = false) as Eu by (destruct (es_used s); [by specialize (Hw eq_refl)|done]). rewrite Eu in Hg.
    destruct (Z.ltb_spec (es_expires_at s) now) as [Hexp|Hexp].
    { replace (now <=? es_expires_at s) with false by lia. cbn. rewrite Eu. split_and!; try done; [by apply Hreq'|lia..]. }
    replace (now <=? es_expires_at s) with true by lia. cbn [andb].
    destruct (Z.leb_spec (es_max_attempts s) (es_attempts s)) as [Hm|Hm].
    { replace (es_attempts s <? es_max_attempts s) with false by lia. cbn. rewrite Eu. split_and!; try done; [by apply Hreq'|lia..]. }
    replace (es_attempts s <? es_max_attempts s) with true by lia. destruct (right_code payload s) eqn:Er.
    + cbn. split_and!; try done; [by apply Hreq'|lia..|]. intros _. split_and!; [lia|done|].
      exists ops, now, payload, [], s. split_and!; [done|done| |done]. unfold open_at. fold (waits s). rewrite Ew. lia.
    + destruct (_ <=? _); cbn; rewrite Eu; (split_and!; [by apply Hreq'|done|lia|lia|lia|done|]); [done|].
      intros E. rewrite (Hsigned E) in Eu. done.
  - cbn. rewrite Nat.add_0_r. split_and!; [by apply Hreq'|done|lia|lia|done| |done].
    intros Hu. destruct (Hused Hu) as (? & ? & ?). split_and!; [done|done|]. by apply signed_by_code_app.
Qed.

Lemma request_unique ops d d' doc doc' signer signer' m m' : NoDup (drawn_ids ops) →
  Request d doc signer m ∈ ops → Request d' doc' signer' m' ∈ ops → d_id d = d_id d' → doc = doc'.
Proof.
  intros Hnd Hin Hin' E. revert Hnd Hin Hin'. induction ops as [|o ops IH]; [by intros _ ?%elem_of_nil|]. intros Hnd Hin Hin'.
  rewrite (drawn_ids_app [o] ops : drawn_ids (o :: ops) = _) in Hnd. apply NoDup_app in Hnd as (_ & Hdis & Hnd).
  assert (∀ d doc signer m, Request d doc signer m ∈ ops → d_id d ∈ drawn_ids ops) as Hids'.
  { intros d0 doc0 signer0 m0 H0. apply list_elem_of_bind. exists (Request d0 doc0 signer0 m0). split; [by left|done]. }
  apply elem_of_cons in Hin as [<-|Hin], Hin' as [E'|Hin'].
  - by injection E'.
  - exfalso. apply (Hdis (d_id d)); [by left|]. rewrite E. by eapply Hids'.
  - subst o. exfalso. apply (Hdis (d_id d')); [by left|]. rewrite <- E. by eapply Hids'.
  - by apply IH.
Qed.
Lemma accounted_declined ttl max ops now payload id s :
  accounted ttl max ops id s → accounted ttl max (ops ++ [Decline now id payload]) id (set_status Declined s).
Proof.
  intros (Hreq & Hmax & Hatt & Hg & Hused & Hsigned). unfold accounted. rewrite guesses_snoc. cbn [is_guess]. rewrite Nat.add_0_r.
  cbn. split_and!; try done; [|lia..|].
  - destruct Hreq as (d & doc & signer & ? & ?). exists d, doc, signer. split; [|done]. apply elem_of_app. by left.
  - intros Hu. destruct (Hused Hu) as (? & _ & ?). split_and!; [done|done|]. by apply signed_by_code_app.
Qed.
Lemma accounted_same ttl max ops o id s : accounted ttl max ops id s → is_guess (performs ops (email_start ttl max)) o id = false →
  accounted ttl max (ops ++ [o]) id s.
Proof.
  intros (Hreq & Hmax & Hatt & Hg & Hused & Hsigned) Ho. unfold accounted. rewrite guesses_snoc, Ho, Nat.add_0_r. split_and!; try done; [|lia..|].
  - destruct Hreq as (d & doc & signer & ? & ?). exists d, doc, signer. split; [|done]. apply elem_of_app. by left.
  - intros Hu. destruct (Hused Hu) as (? & ? & ?). split_and!; [done|done|]. by apply signed_by_code_app.
Qed.

Lemma constants ops st : em_ttl (performs ops st) = em_ttl st ∧ em_max_attempts (performs ops st) = em_max_attempts st.
Proof.
  induction ops as [|o ops [IH1 IH2]] using rev_ind; [done|]. rewrite performs_snoc. set (st' := performs ops st) in *.
  rewrite <- IH1, <- IH2. destruct o as [d doc signer m|now i payload|now i payload]; cbn [perform].
  - unfold email_request. destruct (negb _); [done|]. by destruct (_ || _).
  - unfold email_on_signed, failed_attempt. destruct (em_sessions st' !! i); [|done]. by repeat case_match.
  - unfold email_on_declined. by destruct (em_sessions st' !! i).
Qed.

Lemma all_accounted ttl max ops : NoDup (drawn_ids ops) →
  ∀ id s, em_sessions (performs ops (email_start ttl max)) !! id = Some s → accounted ttl max ops id s.
Proof.
  induction ops as [|o ops IH] using rev_ind; [done|]. rewrite drawn_ids_app. intros (Hnd & Hdis & _)%NoDup_app id s Hs.
  specialize (IH Hnd). rewrite performs_snoc in Hs. destruct (constants ops (email_start ttl max)) as [Httl Hmax].
  set (st := performs ops (email_start ttl max)) in *. destruct o as [d doc signer m|now i payload|now i payload]; cbn [perform] in Hs.
  - destruct (decide (d_id d = id)) as [<-|Hne].
    + assert (d_id d ∉ drawn_ids ops) as Hnew by (intros Hin; apply (Hdis _ Hin); by left).
      destruct (unopened ttl max ops _ Hnew) as [Hnone Hg]. fold st in Hnone.
      unfold email_request in Hs. destruct (negb _) eqn:Em; [cbn in Hs; by rewrite Hnone in Hs|]. apply negb_false_iff, String.eqb_eq in Em as ->.
      destruct (_ || _); [cbn in Hs; by rewrite Hnone in Hs|]. cbn [fst em_sessions audited] in Hs. rewrite lookup_insert_eq in Hs. injection Hs as <-.
      unfold accounted. rewrite guesses_snoc, Hg. cbn. split_and!; try done; [|lia..].
      exists d, doc, signer. split_and!; try done; [apply elem_of_app; right; by left|by rewrite Httl].
    + apply accounted_same; [|done]. apply IH. rewrite <- Hs. symmetry. apply (perform_other (Request d doc signer m)); [done|].
      by intros d' doc' signer' m' [= <- <- <- <-].
  - destruct (decide (i = id)) as [->|Hne].
    + destruct (em_sessions st !! id) as [s0|] eqn:E0.
      * rewrite (sign_session _ _ _ _ s0 E0), lookup_insert_eq in Hs. injection Hs as <-. apply accounted_sign; [done|by apply IH].
      * unfold email_on_signed in Hs. rewrite E0 in Hs. cbn in Hs. by rewrite E0 in Hs.
    + apply accounted_same; [|cbn; apply andb_false_iff; left; by apply String.eqb_neq]. apply IH. rewrite <- Hs. symmetry.
      apply (perform_other (Sign now i payload)); [|done]. intros now' p'. by split; intros [= _ ? _].
  - destruct (decide (i = id)) as [->|Hne].
    + unfold email_on_declined in Hs. destruct (em_sessions st !! id) as [s0|] eqn:E0; cbn in Hs; [|by rewrite E0 in Hs].
      rewrite lookup_alter_eq, E0 in Hs. injection Hs as <-. apply accounted_declined. by apply IH.
    + apply accounted_same; [|done]. apply IH. rewrite <- Hs. symmetry.
      apply (perform_other (Decline now i payload)); [|done]. intros now' p'. by split; intros [= _ ? _].
Qed.

(** C13: A document is signed by the code that was sent, and guessing is bounded.
    Whatever calls are made, in any order and with any payload, at most
    [max_attempts] codes are looked at for a session, wrong and right together; and
    if the session is signed, or was before it was declined, then one of those calls
    presented the very code drawn for it, before the session expired, with fewer
    than [max_attempts] failed attempts before.  (For a hash without collisions, and
    session identifiers drawn once.) *)
Theorem signed_only_by_code ttl max ops id s : Inj (=) (=) sha256 → NoDup (drawn_ids ops) →
  em_sessions (performs ops (email_start ttl max)) !! id = Some s →
  Z.of_nat (guesses (email_start ttl max) ops id) ≤ Z.max 0 max ∧
  (es_status s = Signed ∨ es_used s = true →
   ∃ pre now payload post d doc signer, ops = pre ++ Sign now id payload :: post ∧ Request d doc signer "email_code" ∈ pre ∧ d_id d = id ∧
     es_fingerprint s = sha256 doc ∧ candidate payload = digits 6 (d_code d) ∧ now ≤ d_now d + ttl ∧
     ∃ s0, em_sessions (performs pre (email_start ttl max)) !! id = Some s0 ∧ es_attempts s0 < max).
Proof.
  intros Hinj Hnd Hs. pose proof (all_accounted _ _ _ Hnd _ _ Hs) as (Hreq & Hm & Hatt & Hg & Hused & Hsigned).
  split; [destruct (es_used s); [destruct (Hused eq_refl) as [? _]|]; lia|].
  intros Hor. assert (es_used s = true) as Hu by (destruct Hor; auto). destruct (Hused Hu) as (_ & _ & Hcode). clear Hor Hused Hsigned.
  destruct Hcode as (pre & now & payload & post & s0 & -> & Hs0 & Hopen & Hright).
  rewrite drawn_ids_app in Hnd. apply NoDup_app in Hnd as (Hnd & Hdis & Hnd2).
  destruct (all_accounted _ _ _ Hnd _ _ Hs0) as ((d & doc & signer & Hin & Hid & Hsalt & Hhash & Hexp & Hfp) & Hm0 & _).
  unfold open_at in Hopen. apply andb_true_iff in Hopen as [[_ Hnow]%andb_true_iff Hlt].
  unfold right_code in Hright. apply andb_true_iff in Hright as [_ Hc%String.eqb_eq]. rewrite Hsalt, Hhash in Hc.
  unfold hash_otp_code in Hc. apply (inj sha256) in Hc. 
  exists pre, now, payload, post, d, doc, signer. split_and!; try done; [| |lia|exists s0; split; [done|lia]].
  - destruct Hreq as (d' & doc' & signer' & Hin' & Hid' & _ & _ & _ & ->). f_equal.
    assert (NoDup (drawn_ids (pre ++ Sign now id payload :: post))) as Hall by (rewrite drawn_ids_app; by apply NoDup_app).
    symmetry. eapply (request_unique _ d d'); [exact Hall|by apply elem_of_app; left|done|congruence].
  - by apply (inj (String.append (d_salt d))), (inj (String.append ":")) in Hc.
Qed.

(** A declined, locked or expired session is never signed afterwards. *)
Definition closed (s : email_session) : bool := match es_status s with Declined | Locked | Expired => true | _ => false end.
Lemma perform_session o st id s : em_sessions st !! id = Some s → (∀ d doc signer m, o = Request d doc signer m → d_id d ≠ id) →
  em_sessions (perform o st) !! id = Some s ∨ (∃ now payload, em_sessions (perform o st) !! id = Some (after_sign now payload s)) ∨
  em_sessions (perform o st) !! id = Some (set_status Declined s).
Proof.
  intros Hs Ho. destruct o as [d doc signer m|now i payload|now i payload].
  - left. rewrite <- Hs. apply (perform_other (Request d doc signer m)); [done|]. intros ? ? ? ? [= <- <- <- <-]. by eapply Ho.
  - destruct (decide (i = id)) as [->|Hne].
    + right; left. exists now, payload. cbn [perform]. by rewrite (sign_session _ _ _ _ s Hs), lookup_insert_eq.
    + left. rewrite <- Hs. apply (perform_other (Sign now i payload)); [|done]. intros now' p'. by split; intros [= _ ? _].
  - destruct (decide (i = id)) as [->|Hne].
    + right; right. cbn [perform]. unfold email_on_declined. rewrite Hs. cbn [fst em_sessions audited with_session]. by rewrite lookup_alter_eq, Hs.
    + left. rewrite <- Hs. apply (perform_other (Decline now i payload)); [|done]. intros now' p'. by split; intros [= _ ? _].
Qed.
Lemma after_sign_closed now payload s : closed s = true → after_sign now payload s = s.
Proof. unfold closed, after_sign, waits. intros Hc. by destruct (es_status s) eqn:E; eval_status. Qed.
Lemma closed_stays o st id s : em_sessions st !! id = Some s → closed s = true → (∀ d doc signer m, o = Request d doc signer m → d_id d ≠ id) →
  ∃ s', em_sessions (perform o st) !! id = Some s' ∧ closed s' = true.
Proof.
  intros Hs Hc Ho. destruct (perform_session o st id s Hs Ho) as [E|[(now & payload & E)|E]]; rewrite E; eexists; (split; [done|]); [done| |done].
  by rewrite after_sign_closed.
Qed.

(** A session that waits has an attempt left. *)
Lemma waiting_open ttl max ops id s : 0 < max → em_sessions (performs ops (email_start ttl max)) !! id = Some s → waits s = true →
  es_attempts s < es_max_attempts s.
Proof.
  intros Hmax. revert s. induction ops as [|o ops IH] using rev_ind; [done|]. intros s. rewrite performs_snoc.
  destruct (constants ops (email_start ttl max)) as [_ Hm]. set (st := performs ops (email_start ttl max)) in *. intros Hs Hw.
  assert ((∃ d doc signer m, o = Request d doc signer m ∧ d_id d = id) ∨ (∀ d doc signer m, o = Request d doc signer m → d_id d ≠ id)) as [Hreq|Hreq].
  { destruct o as [d doc signer m| |]; [|by right..]. destruct (decide (d_id d = id)); [left; by exists d, doc, signer, m|right].
    by intros ? ? ? ? [= <- <- <- <-]. }
  - destruct Hreq as (d & doc & signer & m & -> & <-). cbn [perform] in Hs. unfold email_request in Hs.
    destruct (negb _); [by apply IH|]. destruct (_ || _); [by apply IH|]. cbn [fst em_sessions audited] in Hs.
    rewrite lookup_insert_eq in Hs. injection Hs as <-. cbn. rewrite Hm. exact Hmax.
  - destruct (em_sessions st !! id) as [s0|] eqn:E0; cycle 1.
    { assert (em_sessions (perform o st) !! id = None) as Hnone; [|by rewrite Hnone in Hs].
      destruct o as [d doc signer m|now i payload|now i payload].
      - rewrite <- E0. apply (perform_other (Request d doc signer m)); [done|exact Hreq].
      - cbn [perform]. destruct (em_sessions st !! i) as [s1|] eqn:E1; [|unfold email_on_signed; by rewrite E1].
        rewrite (sign_session _ _ _ _ s1 E1), lookup_insert_ne; [done|]. intros ->. congruence.
      - cbn [perform]. unfold email_on_declined. destruct (em_sessions st !! i) as [s1|] eqn:E1; [|done].
        cbn [fst em_sessions audited with_session]. rewrite lookup_alter_ne; [done|]. intros ->. congruence. }
    destruct (perform_session o st id s0 E0 Hreq) as [E|[(now & payload & E)|E]]; rewrite E in Hs; injection Hs as <-; [by apply IH| |].
    + unfold after_sign in *. destruct (waits s0) eqn:Ew; cbn [negb] in *; [|congruence].
      destruct (_ <? _); [done|]. destruct (_ <=? _); [done|]. destruct (right_code _ _); [done|].
      destruct (Z.leb_spec (es_max_attempts s0) (es_attempts s0 + 1)); [done|]. cbn. lia.
    + done.
Qed.

(** The audit trail never says that a session was locked: the last failed attempt
    locks it without an entry, and later calls find it locked. *)
Lemma locked_never_audited ttl max ops id : 0 < max → ("locked"%string, id) ∉ em_audit (performs ops (email_start ttl max)).
Proof.
  intros Hmax. induction ops as [|o ops IH] using rev_ind; [by apply not_elem_of_nil|]. rewrite performs_snoc.
  pose proof (waiting_open ttl max ops) as Hopen. set (st := performs ops (email_start ttl max)) in *.
  assert (∀ ev i st', em_audit st' = em_audit st → ev ≠ "locked"%string → ("locked"%string, id) ∉ em_audit (audited ev i st')) as Haud.
  { intros ev i st' E Hne. cbn. rewrite E, not_elem_of_app, list_elem_of_singleton. split; [done|]. by intros [= ? _]. }
  destruct o as [d doc signer m|now i payload|now i payload]; cbn [perform].
  - unfold email_request. destruct (negb _); [done|]. destruct (_ || _); [done|]. by apply Haud.
  - unfold email_on_signed. destruct (em_sessions st !! i) as [s|] eqn:Es; [|done].
    specialize (Hopen i s Hmax Es). unfold waits in Hopen.
    assert (∀ err, ("locked"%string, id) ∉ em_audit (failed_attempt i s err st).1) as Hfail.
    { intros err. unfold failed_attempt. destruct (_ <=? _); by apply Haud. }
    destruct (es_status s) eqn:Est; eval_status; cbn [andb]; try done; revert Hopen; eval_status; cbn [orb andb]; intros Hopen.
    1: specialize (Hopen eq_refl). 2: destruct (es_used s); [done|]; specialize (Hopen eq_refl).
    all: destruct (_ <? _); [by apply Haud|]; replace (es_max_attempts s <=? es_attempts s) with false by lia.
    all: destruct (String.eqb _ _); [apply Hfail|]; destruct (negb _); [apply Hfail|by apply Haud].
  - unfold email_on_declined. destruct (em_sessions st !! i); [|done]. by apply Haud.
Qed.
End props.

(** ** Concrete sessions *)
Definition toy_sha (s : string) : string := "sha256:" +:+ s.
Definition no_repr (v : json) : string := "".
Definition demo_drawn : drawn := Drawn 0 "session-1" 4711 "5a17".
Definition demo_signer : list (string * json) := [("name", JStr "Kari"); ("email", JStr "kari@example.no")].
Definition demo_ops (l : list op) : list op := Request demo_drawn "contract" demo_signer "email_code" :: l.
Definition enter (now : Z) (code : string) : op := Sign now "session-1" [("code", JStr code)].
Definition demo_status (l : list op) : option sign_status :=
  es_status <$> em_sessions (performs toy_sha no_repr (demo_ops l) (email_start _DEFAULT_CODE_TTL_SECONDS _DEFAULT_MAX_ATTEMPTS)) !! "session-1"%string.

#[local] Instance toy_sha_inj : Inj (=) (=) toy_sha.
Proof. intros a b E. by apply (inj (String.append "sha256:")) in E. Qed.
Lemma signed_only_by_code_witness :
  let ops := demo_ops [enter 10 "000000"; enter 20 "004711"] in
  demo_status [enter 10 "000000"; enter 20 "004711"] = Some Signed ∧
  ∃ pre now payload post d doc signer, ops = pre ++ Sign now "session-1" payload :: post ∧ Request d doc signer "email_code" ∈ pre ∧
    first_text no_repr ["code"; "otp"]%string payload = digits 6 (d_code d) ∧ now ≤ d_now d + 900.
Proof.
  split; [vm_compute; reflexivity|].
  destruct (em_sessions (performs toy_sha no_repr (demo_ops [enter 10 "000000"; enter 20 "004711"]) (email_start 900 3)) !! "session-1"%string) as [s|] eqn:E;
    [|vm_compute in E; discriminate E].
  destruct (signed_only_by_code toy_sha no_repr 900 3 (demo_ops [enter 10 "000000"; enter 20 "004711"]) "session-1" s) as [_ H];
    [exact toy_sha_inj|vm_compute; repeat constructor; set_solver|exact E|].
  destruct H as (pre & now & payload & post & d & doc & signer & H1 & H2 & H3 & H4 & H5 & H6 & H7).
  - left. vm_compute in E. injection E as <-. reflexivity.
  - by exists pre, now, payload, post, d, doc, signer.
Defined.

(** Three wrong codes lock the session for the right one; so does expiry. *)
Example locked_out : demo_status [enter 1 "1"; enter 2 "2"; enter 3 "3"; enter 4 "004711"] = Some Locked.
Proof. by vm_compute. Qed.
Example expired_out : demo_status [enter 901 "004711"] = Some Expired.
Proof. by vm_compute. Qed.
(** Declining overwrites a signature, after which the signed call is no longer
    replayed but refused. *)
Example decline_overwrites_signed :
  demo_status [enter 1 "004711"; Decline 2 "session-1" []] = Some Declined ∧
  (email_on_signed toy_sha no_repr 3 "session-1" [("code"%string, JStr "004711")]
     (performs toy_sha no_repr (demo_ops [enter 1 "004711"; Decline 2 "session-1" []]) (email_start 900 3))).2 = Err IsDeclined.
Proof. by vm_compute. Qed.
(** The manual transport signs a session that was declined. *)
Example manual_signs_declined :
  let st := (manual_request toy_sha demo_drawn "contract" demo_signer "manual" (Manual ∅ [])).1 in
  let st := (manual_on_declined 1 "session-1" [] st).1 in
  s_status <$> mn_sessions (manual_on_signed 2 "session-1" [] st).1 !! "session-1"%string = Some Signed.
Proof. by vm_compute. Qed.
