(* ===== verification/Agreements.v ===== *)
(** * Agreements: extraction, authoring, review and signing of supplier agreements

    Models [src/nce/vertical_modules/agreements]: the review queue's writers
    ([extract.py] with the queue insert of [mcp_handlers.py], [authoring.py],
    [review.py], [signing.py]) and the graph helpers of [graph.py] they use.  A row of
    the queue holds the terms of an agreement and whether money may be computed
    from them.

    Left out: the language model behind the extraction, node ownership and the
    events of graph writes, agreement memories and their verification, and the
    extraction log.  Times in the ledger are left out: its rows are in order.
    PostgreSQL's [jsonb] and its equality, the encoders and SHA-256 are parameters. *)
From S2P Require Import Prelude PyText PyFloat Signing.
From stdpp Require Import pretty.
Local Open Scope Z_scope.

Inductive review_status := AutoGreen | NeedsReviewYellow | ManualRed.
#[global] Instance review_status_eq : EqDecision review_status.
Proof. solve_decision. Defined.
Definition status_text (s : review_status) : string :=
  match s with AutoGreen => "auto_green" | NeedsReviewYellow => "needs_review_yellow" | ManualRed => "manual_red" end.

Record review_row := ReviewRow {
  q_source_doc_ref : string; q_confidence : float; q_status : review_status; q_extracted : json; q_reviewed_by : option string
}.
Record ledger_row := LedgerRow { l_namespace_id : string; l_model_version : string; l_payload : list (string * json) }.
Record agreements_db := AgreementsDb {
  review_queue : gmap (string * string) review_row;                   (* namespace, agreement *)
  v3_cognitive_ledger : list ledger_row;
  graph_nodes : gset (string * string);                               (* namespace, label *)
  graph_edges : gmap (string * string * string * string) string       (* namespace, subject, predicate, object; confidence *)
}.
Definition set_queue f (db : agreements_db) : agreements_db :=
  AgreementsDb (f (review_queue db)) (v3_cognitive_ledger db) (graph_nodes db) (graph_edges db).
Definition append_ledger (r : ledger_row) (db : agreements_db) : agreements_db :=
  AgreementsDb (review_queue db) (v3_cognitive_ledger db ++ [r]) (graph_nodes db) (graph_edges db).

(** Equality of documents as Python compares them. *)
Fixpoint json_eqb (a b : json) : bool :=
  match a, b with
  | JNull, JNull => true
  | JBool x, JBool y => Bool.eqb x y
  | JInt x, JInt y => x =? y
  | JFloat x, JFloat y => String.eqb x y
  | JStr x, JStr y => String.eqb x y
  | JArr l, JArr k =>
      (fix go l k := match l, k with
                     | [], [] => true
                     | x :: l, y :: k => json_eqb x y && go l k
                     | _, _ => false
                     end) l k
  | JObj l, JObj k =>
      (fix go l k := match l, k with
                     | [], [] => true
                     | (i, x) :: l, (j, y) :: k => String.eqb i j && json_eqb x y && go l k
                     | _, _ => false
                     end) l k
  | _, _ => false
  end.

(** ** The graph helpers *)
Definition upsert_node (ns label : string) (db : agreements_db) : agreements_db :=
  AgreementsDb (review_queue db) (v3_cognitive_ledger db) ({[(ns, label)]} ∪ graph_nodes db) (graph_edges db).
Definition upsert_agreement_edge (ns subject predicate object confidence : string) (db : agreements_db) : agreements_db :=
  AgreementsDb (review_queue db) (v3_cognitive_ledger db) (graph_nodes db) (<[(ns, subject, predicate, object) := confidence]> (graph_edges db)).
Definition nonempty (o : option string) : option string := match o with Some s => if String.eqb s "" then None else Some s | None => None end.
Definition agreement_label (id : string) : string := "Agreement:" +:+ id.
Definition upsert_agreement_node (ns id : string) (supplier customer : option string) (db : agreements_db) : agreements_db :=
  let db := upsert_node ns (agreement_label id) db in
  let db := match nonempty supplier with
            | Some s => upsert_agreement_edge ns ("Vendor:" +:+ s) "under" (agreement_label id) "1.0" db
            | None => db
            end in
  match nonempty customer with
  | Some c => upsert_agreement_edge ns ("Customer:" +:+ c) "under" (agreement_label id) "1.0" db
  | None => db
  end.
Definition upsert_agreement_term_node (ns id term_type value confidence : string) (db : agreements_db) : agreements_db :=
  let label := "AgreementTerm:" +:+ id +:+ ":" +:+ term_type in
  upsert_agreement_edge ns (agreement_label id) "has_term" label confidence (upsert_node ns label db).

(** ** Extraction *)
Definition MONEY_LEGAL : list string := ["kickbackTiers"; "frameDiscountPct"; "paymentTermsDays"; "volumeCommitment"]%string.
Definition EXTRACTED_FIELDS : list string :=
  ["supplierId"; "customerId"; "validFrom"; "validTo"; "paymentTermsDays"; "frameDiscountPct"; "volumeCommitment"; "kickbackTiers"]%string.
Definition _map_confidence_to_status (field_name : string) (confidence autogreen_thresh review_thresh : float) : review_status :=
  if fleb autogreen_thresh confidence then if bool_decide (field_name ∈ MONEY_LEGAL) then NeedsReviewYellow else AutoGreen
  else if fleb review_thresh confidence then NeedsReviewYellow
  else ManualRed.
(** Each field's value and confidence as the model reports them, by name. *)
Definition do_extract_agreement (report : string → json * float) (autogreen_thresh review_thresh : float)
    : list (string * (json * float * review_status)) :=
  (λ f, let '(v, c) := report f in (f, (v, c, _map_confidence_to_status f c autogreen_thresh review_thresh))) <$> EXTRACTED_FIELDS.
Definition overall_status (fields : list (string * (json * float * review_status))) : review_status :=
  if existsb (λ f, bool_decide (f.2.2 = ManualRed)) fields then ManualRed
  else if existsb (λ f, bool_decide (f.2.2 = NeedsReviewYellow)) fields then NeedsReviewYellow
  else AutoGreen.
(** [sum(confidences) / len(confidences)]; at least one field has a confidence. *)
Definition overall_confidence (fields : list (string * (json * float * review_status))) : float :=
  fdiv (py_sum ((λ f, f.2.1.2) <$> fields)) (of_Z (Z.of_nat (length fields))).

Section agreements.
Context (jsonb : json → json) (jsonb_eqb : json → json → bool) (float_repr : float → string) (canonical_json : json → option string) (sha256 : string → string).

Definition extracted_field (f : string * (json * float * review_status)) : string * json :=
  let '(name, (v, c, s)) := f in
  (name, JObj [("value", v); ("extractionConfidence", JFloat (float_repr c)); ("reviewStatus", JStr (status_text s))]%string).
(** The queue's new row; [None]: the identifier is taken. *)
Definition extract_agreement (ns id source_doc_ref : string) (report : string → json * float) (autogreen_thresh review_thresh : float)
    (db : agreements_db) : option agreements_db :=
  let fields := do_extract_agreement report autogreen_thresh review_thresh in
  match review_queue db !! (ns, id) with
  | Some _ => None
  | None => Some (set_queue <[(ns, id) := ReviewRow source_doc_ref (overall_confidence fields) (overall_status fields)
                                            (jsonb (JObj (extracted_field <$> fields))) None]> db)
  end.

(** ** Authoring *)
Definition _KNOWN_TERM_FIELDS : list string :=
  ["validFrom"; "validTo"; "paymentTermsDays"; "frameDiscountPct"; "volumeCommitment"; "kickbackTiers"]%string.
Definition _AUTHORED_CONFIDENCE : float := of_Z 100.
Definition _authored_field (v : json) : json :=
  JObj [("value", v); ("extractionConfidence", JFloat "100.0"); ("reviewStatus", JStr (status_text NeedsReviewYellow))]%string.
(** The known terms that are given and not null. *)
Definition terms_written (terms : list (string * json)) : list (string * json) :=
  omap (λ f, match json_get f terms with Some JNull | None => None | Some v => Some (f, v) end) _KNOWN_TERM_FIELDS.
Definition _build_extracted (supplier customer : option string) (terms : list (string * json)) : json :=
  JObj ((match nonempty supplier with Some s => [("supplierId"%string, _authored_field (JStr s))] | None => [] end) ++
        (match nonempty customer with Some c => [("customerId"%string, _authored_field (JStr c))] | None => [] end) ++
        ((λ t, (t.1, _authored_field t.2)) <$> terms_written terms)).
Definition upsert_draft (ns id : string) (extracted : json) (q : gmap (string * string) review_row) : gmap (string * string) review_row :=
  let ref := "authored://" +:+ id in
  <[(ns, id) := match q !! (ns, id) with
                | None => ReviewRow ref _AUTHORED_CONFIDENCE NeedsReviewYellow extracted None
                | Some r => ReviewRow ref _AUTHORED_CONFIDENCE
                    (if jsonb_eqb (q_extracted r) extracted then q_status r
                     else match q_status r with ManualRed => ManualRed | _ => NeedsReviewYellow end) extracted (q_reviewed_by r)
                end]> q.
Definition do_create_agreement (term_text : json → string) (ns id : string) (supplier customer : option string)
    (terms : list (string * json)) (db : agreements_db) : agreements_db :=
  let db := upsert_agreement_node ns id supplier customer db in
  let db := upsert_agreement_term_node ns id "lifecycleState" "DRAFT" "1.0" db in
  let db := foldl (λ db t, upsert_agreement_term_node ns id t.1 (term_text t.2) "1.0" db) db (terms_written terms) in
  set_queue (upsert_draft ns id (jsonb (_build_extracted supplier customer terms))) db.

(** ** Review *)
Inductive review_error := BadDecision | ReviewerRequired | RowNotFound.
(** [between]: what other transactions commit between the SELECT and the UPDATE. *)
Definition do_review_extraction (between : agreements_db → agreements_db) (ns id decision reviewed_by : string)
    (corrected : option (list (string * json))) (db : agreements_db) : result review_error agreements_db :=
  if negb (bool_decide (decision ∈ ["confirm"; "reject"]%string)) then Err BadDecision
  else if String.eqb reviewed_by "" then Err ReviewerRequired
  else
    match review_queue db !! (ns, id) with
    | None => Err RowNotFound
    | Some existing =>
        let extracted := match corrected with Some t => jsonb (JObj t) | None => q_extracted existing end in
        let status := if String.eqb decision "confirm" then AutoGreen else ManualRed in
        Ok (set_queue (alter (λ r, ReviewRow (q_source_doc_ref r) (q_confidence r) status extracted (Some reviewed_by)) (ns, id)) (between db))
    end.

(** ** Signing *)
Definition _MODEL_VERSION : string := "agreements-signing-v1".
Definition signature_row (ns id kind session signer fingerprint status : string) (more : list (string * json)) : ledger_row :=
  LedgerRow ns _MODEL_VERSION
    ([("agreement_id", JStr id); ("kind", JStr kind); ("session_id", JStr session); ("signer", JStr signer);
      ("fingerprint", JStr fingerprint)]%string ++ more ++ [("status"%string, JStr status)]).
Definition has_text (k v : string) (l : list (string * json)) : bool :=
  match json_get k l with Some (JStr s) => String.eqb s v | _ => false end.
Definition _read_request_payload (ns id session : string) (db : agreements_db) : option (list (string * json)) :=
  l_payload <$> list.last (List.filter (λ r, String.eqb (l_namespace_id r) ns && String.eqb (l_model_version r) _MODEL_VERSION &&
     has_text "kind" "signature_request" (l_payload r) && has_text "agreement_id" id (l_payload r) &&
     has_text "session_id" session (l_payload r)) (v3_cognitive_ledger db)).

Inductive signing_error := SignerRequired | DocumentRequired | NotCanonical | TransportError (e : sign_error).
(** [Ok None]: no row of the queue. *)
Definition _compute_terms_fingerprint (ns id : string) (db : agreements_db) : result signing_error (option string) :=
  match review_queue db !! (ns, id) with
  | None => Ok None
  | Some r => match canonical_json (q_extracted r) with Some c => Ok (Some (sha256 c)) | None => Err NotCanonical end
  end.
Definition _upsert_signature_node (ns id session : string) (db : agreements_db) : agreements_db :=
  let label := "AgreementSignature:" +:+ id +:+ ":" +:+ session in
  upsert_agreement_edge ns (agreement_label id) "has_signature" label "1.0" (upsert_node ns label db).
Definition terms_json (fp : option string) : json := match fp with Some s => JStr s | None => JNull end.
Definition blank (s : string) : bool := String.eqb (strip s) "".

Context {St : Type} `{SignTransport sha256 St}.
Definition do_request_signature (d : drawn) (ns id signer document : string) (db : agreements_db) (st : St)
    : agreements_db * St * result signing_error string :=
  if blank signer then (db, st, Err SignerRequired)
  else if blank document then (db, st, Err DocumentRequired)
  else
    let fingerprint := sha256_fingerprint sha256 document in
    match request_signature sha256 d document [("id"%string, JStr signer)] "manual" st with
    | (st, Err e) => (db, st, Err (TransportError e))
    | (st, Ok session) =>
        match _compute_terms_fingerprint ns id db with
        | Err e => (db, st, Err e)
        | Ok terms =>
            (append_ledger (signature_row ns id "signature_request" (s_id session) signer fingerprint "pending"
                              [("terms_fingerprint"%string, terms_json terms)])
               (_upsert_signature_node ns id (s_id session) db), st, Ok (s_id session))
        end
    end.

Inductive record_outcome := SessionNotFound | SignerMismatch | TermsChanged | FingerprintMismatch | Recorded.
(** The checks, in one read transaction. *)
Definition check_signature (ns id session signer document : string) (db : agreements_db) : result signing_error record_outcome :=
  match _compute_terms_fingerprint ns id db with
  | Err e => Err e
  | Ok current =>
      match _read_request_payload ns id session db with
      | None => Ok SessionNotFound
      | Some p =>
          match json_get "fingerprint" p with
          | Some (JStr expected) =>
              if negb (match json_get "signer" p with Some (JStr s) => String.eqb s signer | Some JNull | None => true | _ => false end) then Ok SignerMismatch
              else if negb (json_eqb (terms_json current) (default JNull (json_get "terms_fingerprint" p))) then Ok TermsChanged
              else if negb (String.eqb (sha256_fingerprint sha256 document) expected) then Ok FingerprintMismatch
              else Ok Recorded
          | _ => Ok SessionNotFound
          end
      end
  end.
(** The writes, in one transaction; an explicit reject stays. *)
Definition write_signature (ns id session signer document : string) (db : agreements_db) : agreements_db :=
  let db := append_ledger (signature_row ns id "signature_recorded" session signer (sha256_fingerprint sha256 document) "signed" []) db in
  let db := upsert_agreement_term_node ns id "lifecycleState" "SIGNED" "1.0" db in
  set_queue (alter (λ r, match q_status r with
                         | ManualRed => r
                         | _ => ReviewRow (q_source_doc_ref r) (q_confidence r) AutoGreen (q_extracted r) (Some signer)
                         end) (ns, id)) db.
(** [between]: what other transactions commit between the checks and the writes. *)
Definition do_record_signature (between : agreements_db → agreements_db) (now : Z) (ns id session signer document : string)
    (db : agreements_db) (st : St) : agreements_db * St * result signing_error record_outcome :=
  if blank session || blank signer then (db, st, Err SignerRequired)
  else if blank document then (db, st, Err DocumentRequired)
  else
    match check_signature ns id session signer document db with
    | Err e => (db, st, Err e)
    | Ok Recorded =>
        match on_signed sha256 now session
                [("agreement_id"%string, JStr id); ("fingerprint"%string, JStr (sha256_fingerprint sha256 document)); ("signer"%string, JStr signer)] st with
        | (st, Err e) => (db, st, Err (TransportError e))
        | (st, Ok _) => (write_signature ns id session signer document (between db), st, Ok Recorded)
        end
    | Ok outcome => (db, st, Ok outcome)
    end.
End agreements.
