(* ===== verification/AgreementsProps.v ===== *)
(** * AgreementsProps: money terms need a person's consent *)
From S2P Require Import Prelude PyText PyFloat Signing Agreements.
From stdpp Require Import pretty.
Local Open Scope Z_scope.

(** ** Generic facts *)
Fixpoint json_eqb_eq (a : json) : ∀ b, json_eqb a b = true → a = b.
Proof.
  destruct a as [|x|x|x|x|l|l]; intros [|y|y|y|y|k|k]; cbn [json_eqb]; try done.
  - by intros ->%eqb_prop.
  - by intros ->%Z.eqb_eq.
  - by intros ->%String.eqb_eq.
  - by intros ->%String.eqb_eq.
  - intros E. f_equal. revert k E. induction l as [|x l IH]; intros [|y k]; try done.
    intros [Hx Hl]%andb_true_iff. f_equal; [by apply json_eqb_eq|by apply IH].
  - intros E. f_equal. revert k E. induction l as [|[i x] l IH]; intros [|[j y] k]; try done.
    intros [[Hi%String.eqb_eq Hx]%andb_true_iff Hl]%andb_true_iff. f_equal; [f_equal; [done|by apply json_eqb_eq]|by apply IH].
Qed.
Lemma has_text_get k v l : has_text k v l = true → json_get k l = Some (JStr v).
Proof. unfold has_text. destruct (json_get k l) as [[]|]; try done. by intros ->%String.eqb_eq. Qed.

(** Extraction leaves money terms to a person, whatever the model reports. *)
Lemma extraction_never_green report t1 t2 : overall_status (do_extract_agreement report t1 t2) ≠ AutoGreen.
Proof.
  assert (("paymentTermsDays"%string, let '(v, c) := report "paymentTermsDays"%string in (v, c, _map_confidence_to_status "paymentTermsDays" c t1 t2))
    ∈ do_extract_agreement report t1 t2) as Hin.
  { unfold do_extract_agreement. apply list_elem_of_fmap. exists "paymentTermsDays"%string.
    split; [by destruct (report _)|]. unfold EXTRACTED_FIELDS. set_solver. }
  set (f := (_, _)) in Hin. assert (f.2.2 ≠ AutoGreen) as Hf.
  { subst f. cbn. destruct (report _) as [v c]. unfold _map_confidence_to_status.
    destruct (fleb t1 c); [by rewrite bool_decide_eq_true_2 by (unfold MONEY_LEGAL; set_solver)|by destruct (fleb t2 c)]. }
  unfold overall_status. destruct (existsb _ _) eqn:E1; [done|]. destruct (existsb (λ f, bool_decide (f.2.2 = NeedsReviewYellow)) _) eqn:E2; [done|].
  exfalso. destruct (f.2.2) eqn:Es; [done|..].
  - apply not_true_iff_false in E2. apply E2. apply existsb_exists. exists f. split; [by apply list_elem_of_In|by apply bool_decide_eq_true].
  - apply not_true_iff_false in E1. apply E1. apply existsb_exists. exists f. split; [by apply list_elem_of_In|by apply bool_decide_eq_true].
Qed.

Section props.
Context (jsonb : json → json) (jsonb_eqb : json → json → bool) (float_repr : float → string) (canonical_json : json → option string)
  (sha256 : string → string) (term_text : json → string).
Context {St : Type} `{SignTransport sha256 St}.

(** ** The system: authors, reviewers and signers

    Beside the program's state, two records of the past: the terms that reviewers
    confirmed, and the recordings that were overtaken: another transaction replaced the
    terms after the checks had read the first and before the writes promoted the second. *)
Record agr_system := AgrSystem {
  ag_db : agreements_db; ag_st : St;
  ag_endorsed : list (string * string * json);
  ag_overtaken : list (string * string * option json * json)
}.
Implicit Types s : agr_system.
Definition terms_of (db : agreements_db) (ns id : string) : option json := q_extracted <$> review_queue db !! (ns, id).
Definition overtaken_by (ns id : string) (signed written : option json) : list (string * string * option json * json) :=
  match written with
  | Some w => if match signed with Some t => jsonb_eqb t w | None => false end then [] else [(ns, id, signed, w)]
  | None => []
  end.
Definition promoted (seen : agreements_db) ns id s : list (string * string * option json * json) :=
  overtaken_by ns id (terms_of seen ns id) (terms_of (ag_db s) ns id) ++ ag_overtaken s.

(** What a review decides on: the corrected terms, or those the SELECT saw. *)
Definition decided (seen : agreements_db) (ns id : string) (corrected : option (list (string * json))) : json :=
  match corrected with Some t => jsonb (JObj t) | None => default JNull (q_extracted <$> review_queue seen !! (ns, id)) end.

Inductive agr_step : agr_system → agr_system → Prop :=
  | st_extract s ns id ref report t1 t2 db :
      extract_agreement jsonb float_repr ns id ref report t1 t2 (ag_db s) = Some db →
      agr_step s (AgrSystem db (ag_st s) (ag_endorsed s) (ag_overtaken s))
  | st_create s ns id supplier customer terms :
      agr_step s (AgrSystem (do_create_agreement jsonb jsonb_eqb term_text ns id supplier customer terms (ag_db s)) (ag_st s) (ag_endorsed s) (ag_overtaken s))
  (* the SELECT of a review may have seen any earlier state *)
  | st_review s seen ns id decision reviewed_by corrected db :
      do_review_extraction jsonb (λ _, ag_db s) ns id decision reviewed_by corrected seen = Ok db →
      agr_step s (AgrSystem db (ag_st s)
        (if String.eqb decision "confirm" then (ns, id, decided seen ns id corrected) :: ag_endorsed s else ag_endorsed s) (ag_overtaken s))
  | st_request s d ns id signer document db st r :
      do_request_signature canonical_json sha256 d ns id signer document (ag_db s) (ag_st s) = (db, st, r) →
      agr_step s (AgrSystem db st (ag_endorsed s) (ag_overtaken s))
  (* the checks of a recording may have seen any earlier state: the ledger only grows,
     so that an earlier state has no row of it that the present one has not; a
     recording that is refused changes at most the transport *)
  | st_record s seen now ns id session signer document db st :
      (∀ row, row ∈ v3_cognitive_ledger seen → row ∈ v3_cognitive_ledger (ag_db s)) →
      do_record_signature canonical_json sha256 (λ _, ag_db s) now ns id session signer document seen (ag_st s) = (db, st, Ok Recorded) →
      agr_step s (AgrSystem db st (ag_endorsed s) (promoted seen ns id s))
  (* the other writers of the ledger *)
  | st_ledger s row : l_model_version row ≠ _MODEL_VERSION →
      agr_step s (AgrSystem (append_ledger row (ag_db s)) (ag_st s) (ag_endorsed s) (ag_overtaken s))
  | st_transport s st : agr_step s (AgrSystem (ag_db s) st (ag_endorsed s) (ag_overtaken s)).

Definition agr_start (st : St) : agr_system := AgrSystem (AgreementsDb ∅ [] ∅ ∅) st [] [].
Definition agr_reachable s : Prop := ∃ st, rtc agr_step (agr_start st) s.

(** ** Consent *)
Definition same_terms (a b : json) : Prop := jsonb_eqb a b = true.
Definition request_row (ns id session signer fp : string) (terms : option string) : ledger_row :=
  signature_row ns id "signature_request" session signer fp "pending" [("terms_fingerprint"%string, terms_json terms)].
Definition recorded_row (ns id session signer fp : string) : ledger_row := signature_row ns id "signature_recorded" session signer fp "signed" [].
Definition fingerprint_of (terms : option json) : option (option string) :=
  match terms with Some t => (λ c, Some (sha256 c)) <$> canonical_json t | None => Some None end.
(** The terms (or their absence) were signed: a signature was recorded for a request of
    the same signer and document that carries their fingerprint. *)
Definition signed_as (db : agreements_db) (ns id : string) (terms : option json) : Prop :=
  ∃ session signer fp sealed, fingerprint_of terms = Some sealed ∧
    request_row ns id session signer fp sealed ∈ v3_cognitive_ledger db ∧
    recorded_row ns id session signer fp ∈ v3_cognitive_ledger db.
Definition consented s (ns id : string) (terms : json) : Prop := (ns, id, terms) ∈ ag_endorsed s ∨ signed_as (ag_db s) ns id (Some terms).
(** Consent to these terms, or the terms took the place of the signed ones while the
    signature was being recorded. *)
Definition covered s (ns id : string) (terms : json) : Prop :=
  (∃ terms', consented s ns id terms' ∧ same_terms terms' terms) ∨
  (∃ signed written, (ns, id, signed, written) ∈ ag_overtaken s ∧ signed_as (ag_db s) ns id signed ∧ same_terms written terms).
Definition well_kept (l : list ledger_row) : Prop :=
  ∀ r, r ∈ l → l_model_version r = _MODEL_VERSION →
    (∃ ns id session signer fp terms, r = request_row ns id session signer fp terms) ∨
    (∃ ns id session signer fp, r = recorded_row ns id session signer fp).
Definition consistent_terms s : Prop :=
  well_kept (v3_cognitive_ledger (ag_db s)) ∧
  ∀ ns id r, review_queue (ag_db s) !! (ns, id) = Some r → q_status r = AutoGreen →
    covered s ns id (q_extracted r).

(** ** The graph helpers leave the queue and the ledger *)
Definition same_queue (db db' : agreements_db) : Prop :=
  review_queue db' = review_queue db ∧ v3_cognitive_ledger db' = v3_cognitive_ledger db.
Lemma term_node_queue ns id t v c db : same_queue db (upsert_agreement_term_node ns id t v c db).
Proof. done. Qed.
Lemma agreement_node_queue ns id supplier customer db : same_queue db (upsert_agreement_node ns id supplier customer db).
Proof. unfold upsert_agreement_node. by destruct (nonempty supplier), (nonempty customer). Qed.
Lemma term_nodes_queue ns id terms db :
  same_queue db (foldl (λ db t, upsert_agreement_term_node ns id t.1 (term_text t.2) "1.0" db) db terms).
Proof. revert db. induction terms as [|t l IH]; intros db; [done|]. exact (IH _). Qed.
Lemma create_queue ns id supplier customer terms db :
  let db' := do_create_agreement jsonb jsonb_eqb term_text ns id supplier customer terms db in
  review_queue db' = upsert_draft jsonb_eqb ns id (jsonb (_build_extracted supplier customer terms)) (review_queue db) ∧
  v3_cognitive_ledger db' = v3_cognitive_ledger db.
Proof.
  unfold do_create_agreement. cbn [set_queue review_queue v3_cognitive_ledger].
  match goal with |- context [foldl ?f ?db1 ?l] => destruct (term_nodes_queue ns id l db1) as [-> ->] end.
  destruct (agreement_node_queue ns id supplier customer db) as [Eq El].
  set (db1 := upsert_agreement_node ns id supplier customer db) in *.
  change (review_queue (upsert_agreement_term_node _ _ _ _ _ db1)) with (review_queue db1).
  change (v3_cognitive_ledger (upsert_agreement_term_node _ _ _ _ _ db1)) with (v3_cognitive_ledger db1). by rewrite Eq, El.
Qed.

(** ** A recording *)
Lemma find_request ns id session db p : well_kept (v3_cognitive_ledger db) → _read_request_payload ns id session db = Some p →
  ∃ signer fp terms, p = l_payload (request_row ns id session signer fp terms) ∧
    request_row ns id session signer fp terms ∈ v3_cognitive_ledger db.
Proof.
  intros Hw. unfold _read_request_payload. destruct (list.last _) as [r|] eqn:El; [|done]. intros [= <-].
  apply last_Some_elem_of, list_elem_of_In, filter_In in El as [Hin Hf]. apply list_elem_of_In in Hin.
  rewrite !andb_true_iff in Hf. destruct Hf as ((((Hns%String.eqb_eq & Hv%String.eqb_eq) & Hk%has_text_get) & Hid%has_text_get) & Hs%has_text_get).
  destruct (Hw r Hin Hv) as [(ns' & id' & session' & signer & fp & terms & ->)|(ns' & id' & session' & signer & fp & ->)]; [|done].
  cbn in Hns, Hid, Hs. injection Hid as ->. injection Hs as ->. subst ns'. by exists signer, fp, terms.
Qed.

Lemma signature_rules between now ns id session signer document db st db' st' r :
  well_kept (v3_cognitive_ledger db) →
  do_record_signature canonical_json sha256 between now ns id session signer document db st = (db', st', r) →
  match r with
  | Ok Recorded =>
      (∃ terms, _compute_terms_fingerprint canonical_json sha256 ns id db = Ok terms ∧
         request_row ns id session signer (sha256 document) terms ∈ v3_cognitive_ledger db) ∧
      (∃ a fp, session_of sha256 st session = Some (a, fp) ∧ session_of sha256 st' session = Some (Signed, fp)) ∧
      v3_cognitive_ledger db' = v3_cognitive_ledger (between db) ++ [recorded_row ns id session signer (sha256 document)] ∧
      (∀ k, k ≠ (ns, id) → review_queue db' !! k = review_queue (between db) !! k) ∧
      (∀ row, review_queue (between db) !! (ns, id) = Some row →
         review_queue db' !! (ns, id) = Some (if bool_decide (q_status row = ManualRed) then row
           else ReviewRow (q_source_doc_ref row) (q_confidence row) AutoGreen (q_extracted row) (Some signer)))
  | Ok _ => db' = db ∧ st' = st
  | Err _ => db' = db
  end.
Proof.
  intros Hw. unfold do_record_signature. destruct (_ || _); [by intros [= <- <- <-]|]. destruct (blank document); [by intros [= <- <- <-]|].
  destruct (check_signature _ _ ns id session signer document db) as [outcome|e] eqn:Ec; [|by intros [= <- <- <-]].
  destruct outcome; try by intros [= <- <- <-].
  destruct (on_signed sha256 now session _ st) as [st1 [s|e]] eqn:Eo; intros [= <- <- <-]; [|done].
  unfold check_signature in Ec. destruct (_compute_terms_fingerprint _ _ ns id db) as [terms|] eqn:Et; [|done].
  destruct (_read_request_payload ns id session db) as [p|] eqn:Ep; [|done].
  destruct (find_request _ _ _ _ _ Hw Ep) as (signer0 & fp0 & terms0 & -> & Hin). cbn -[terms_json] in Ec.
  destruct (String.eqb signer0 signer) eqn:E1; [|done]. apply String.eqb_eq in E1 as ->. cbn -[terms_json] in Ec.
  destruct (json_eqb (terms_json terms) _) eqn:E2; [|done]. apply json_eqb_eq in E2. cbn in Ec.
  destruct (String.eqb (sha256_fingerprint sha256 document) fp0) eqn:E3; [|done]. apply String.eqb_eq in E3. unfold sha256_fingerprint in E3. subst fp0.
  assert (terms0 = terms) as -> by (destruct terms, terms0; cbn in E2; congruence).
  split_and!.
  - by exists terms.
  - destruct (on_signed_signs _ _ _ _ _ _ _ Eo) as [(a & fp & ? & ?) _]. by exists a, fp.
  - done.
  - intros k Hk. cbn [write_signature review_queue set_queue]. by rewrite lookup_alter_ne.
  - intros row Hrow. unfold write_signature. cbn [review_queue set_queue]. rewrite lookup_alter_eq. cbn. rewrite Hrow. cbn.
    by destruct (q_status row) eqn:Eq; case_bool_decide.
Qed.


(** ** Every step keeps consent *)
Context `{!PreOrder same_terms}.
Lemma signed_as_grows db db' ns id terms : (∀ r, r ∈ v3_cognitive_ledger db → r ∈ v3_cognitive_ledger db') →
  signed_as db ns id terms → signed_as db' ns id terms.
Proof. intros Hl (session & signer & fp & sealed & ? & ? & ?). exists session, signer, fp, sealed. auto. Qed.
Lemma covered_same s ns id a b : same_terms a b → covered s ns id a → covered s ns id b.
Proof. intros Hab [(t & ? & ?)|(x & w & ? & ? & ?)]; [left; exists t|right; exists x, w]; split_and!; try done; by etrans. Qed.
Lemma covered_grows s db st endorsed overtaken ns id terms : (∀ r, r ∈ v3_cognitive_ledger (ag_db s) → r ∈ v3_cognitive_ledger db) →
  (∀ e, e ∈ ag_endorsed s → e ∈ endorsed) → (∀ o, o ∈ ag_overtaken s → o ∈ overtaken) →
  covered s ns id terms → covered (AgrSystem db st endorsed overtaken) ns id terms.
Proof.
  intros Hl He Ho [(t & [?|?] & ?)|(x & w & ? & ? & ?)].
  - left. exists t. split; [left; by apply He|done].
  - left. exists t. split; [right; by eapply signed_as_grows|done].
  - right. exists x, w. split_and!; [by apply Ho|by eapply signed_as_grows|done].
Qed.
Lemma consistent_change s db st endorsed overtaken :
  consistent_terms s → (∀ r, r ∈ v3_cognitive_ledger (ag_db s) → r ∈ v3_cognitive_ledger db) → well_kept (v3_cognitive_ledger db) →
  (∀ e, e ∈ ag_endorsed s → e ∈ endorsed) → (∀ o, o ∈ ag_overtaken s → o ∈ overtaken) →
  (∀ ns id r, review_queue db !! (ns, id) = Some r → q_status r = AutoGreen →
     (∃ r0, review_queue (ag_db s) !! (ns, id) = Some r0 ∧ q_status r0 = AutoGreen ∧ same_terms (q_extracted r0) (q_extracted r)) ∨
     covered (AgrSystem db st endorsed overtaken) ns id (q_extracted r)) →
  consistent_terms (AgrSystem db st endorsed overtaken).
Proof.
  intros [_ Hs] Hl Hw He Ho Hq. split; [done|]. intros ns id r Hr Hg. destruct (Hq ns id r Hr Hg) as [(r0 & Hr0 & Hg0 & Heq)|?]; [|done].
  eapply covered_same; [exact Heq|]. eapply covered_grows; [done..|]. by apply Hs.
Qed.
Lemma well_kept_snoc l r : well_kept l → ((∃ ns id session signer fp terms, r = request_row ns id session signer fp terms) ∨
  (∃ ns id session signer fp, r = recorded_row ns id session signer fp)) → well_kept (l ++ [r]).
Proof. intros Hl Hr r' [?| ->%list_elem_of_singleton]%elem_of_app ?; [by apply Hl|done]. Qed.

Lemma fingerprint_computed ns id db fp : _compute_terms_fingerprint canonical_json sha256 ns id db = Ok fp →
  fingerprint_of (terms_of db ns id) = Some fp.
Proof.
  unfold _compute_terms_fingerprint, terms_of. destruct (review_queue db !! (ns, id)) as [row|]; cbn; [|by intros [= <-]].
  destruct (canonical_json (q_extracted row)); [by intros [= <-]|done].
Qed.

Lemma consent_recorded s seen now ns id session signer document db st :
  consistent_terms s → (∀ row, row ∈ v3_cognitive_ledger seen → row ∈ v3_cognitive_ledger (ag_db s)) →
  do_record_signature canonical_json sha256 (λ _, ag_db s) now ns id session signer document seen (ag_st s) = (db, st, Ok Recorded) →
  consistent_terms (AgrSystem db st (ag_endorsed s) (promoted seen ns id s)).
Proof.
  intros Hs Hsub Hrec. assert (well_kept (v3_cognitive_ledger seen)) as Hw by (intros row Hrow; by apply Hs, Hsub).
  destruct (signature_rules _ _ _ _ _ _ _ _ _ _ _ _ Hw Hrec) as ((sealed & Hsealed & Hreq) & _ & Hl & Hother & Hrow).
  apply fingerprint_computed in Hsealed.
  assert (∀ r, r ∈ v3_cognitive_ledger (ag_db s) → r ∈ v3_cognitive_ledger db) as Hgrows by (intros r Hr; rewrite Hl; apply elem_of_app; by left).
  assert (signed_as db ns id (terms_of seen ns id)) as Hsigned.
  { exists session, signer, (sha256 document), sealed. split_and!; [done|by apply Hgrows, Hsub|]. rewrite Hl. apply elem_of_app. right. by left. }
  apply (consistent_change s); [done|done| |done|intros o Ho; apply elem_of_app; by right|].
  { rewrite Hl. apply well_kept_snoc; [apply Hs|]. right. by eexists _, _, _, _, _. }
  intros ns' id' r Hr Hg. destruct (decide ((ns', id') = (ns, id))) as [[= -> ->]|Hne]; [|left; rewrite Hother in Hr by done; by exists r].
  destruct (review_queue (ag_db s) !! (ns, id)) as [row|] eqn:Eq.
  2:{ exfalso. unfold do_record_signature in Hrec. destruct (_ || _); [done|]. destruct (blank document); [done|].
      destruct (check_signature _ _ _ _ _ _ _ _) as [[]|]; try done. destruct (on_signed _ _ _ _ _) as [st1 [|]]; [|done]. injection Hrec as <- _.
      unfold write_signature in Hr. cbn [review_queue set_queue] in Hr. rewrite lookup_alter_eq in Hr. cbn in Hr. by rewrite Eq in Hr. }
  rewrite (Hrow row eq_refl) in Hr. case_bool_decide; [left; injection Hr as ->; by exists r|].
  injection Hr as <-. cbn [q_extracted]. right.
  assert (terms_of (ag_db s) ns id = Some (q_extracted row)) as Ew by (unfold terms_of; by rewrite Eq).
  destruct (terms_of seen ns id) as [t|] eqn:Es; [destruct (jsonb_eqb t (q_extracted row)) eqn:Et|].
  - left. exists t. by split; [right|].
  - right. exists (Some t), (q_extracted row). split_and!; [|done|reflexivity]. unfold promoted. rewrite Es, Ew. cbn. rewrite Et. by left.
  - right. exists None, (q_extracted row). split_and!; [|done|reflexivity]. unfold promoted. rewrite Es, Ew. by left.
Qed.

Lemma consent_step s s' : consistent_terms s → agr_step s s' → consistent_terms s'.
Proof.
  intros Hs. destruct 1 as [s ns id ref report t1 t2 db Hex|s ns id supplier customer terms|s seen ns id decision reviewed_by corrected db Hrv
    |s d ns id signer document db st r Hreq|s seen now ns id session signer document db st Hsub Hrec|s row Hv|s st].
  - unfold extract_agreement in Hex. destruct (review_queue (ag_db s) !! (ns, id)) eqn:E; [done|]. injection Hex as <-.
    apply (consistent_change s); try done; [apply Hs|]. intros ns' id' r Hr Hg. cbn [review_queue set_queue] in Hr.
    apply lookup_insert_Some in Hr as [[_ <-]|[_ Hr]]; [by apply extraction_never_green in Hg|left; by exists r].
  - destruct (create_queue ns id supplier customer terms (ag_db s)) as [Eq El].
    apply (consistent_change s); [done|by rewrite El|rewrite El; apply Hs|done|done|]. intros ns' id' r Hr Hg. rewrite Eq in Hr. left.
    unfold upsert_draft in Hr. apply lookup_insert_Some in Hr as [[[= <- <-] <-]|[_ Hr]]; [|by exists r].
    destruct (review_queue (ag_db s) !! (ns, id)) as [r0|]; [|done]. cbn in Hg |- *. exists r0. split; [done|].
    destruct (jsonb_eqb (q_extracted r0) _) eqn:Ej; [done|by destruct (q_status r0)].
  - unfold do_review_extraction in Hrv. destruct (negb _); [done|]. destruct (String.eqb reviewed_by ""); [done|].
    destruct (review_queue seen !! (ns, id)) as [existing|] eqn:Eseen; [|done]. injection Hrv as <-.
    apply (consistent_change s); try done; [apply Hs|by intros e He; destruct (String.eqb _ _); [right|]|].
    intros ns' id' r Hr Hg. cbn [review_queue set_queue] in Hr. apply lookup_alter_Some in Hr as [([= <- <-] & r0 & Hr0 & ->)|[_ Hr]]; [|left; by exists r].
    cbn in Hg. destruct (String.eqb decision "confirm"); [|done]. right; left. cbn. unfold decided. rewrite Eseen. eexists. split; [left; by left|]. by destruct corrected.
  - unfold do_request_signature in Hreq. destruct (blank signer); [by injection Hreq as <- _ _|]. destruct (blank document); [by injection Hreq as <- _ _|].
    destruct (request_signature _ _ _ _ _ _) as [st1 [session|e]]; [|by injection Hreq as <- _ _].
    destruct (_compute_terms_fingerprint _ _ _ _ _) as [terms|]; [|by injection Hreq as <- _ _]. injection Hreq as <- _ _.
    apply (consistent_change s); [done| | |done|done|].
    + intros r0 Hr0. cbn. apply elem_of_app. by left.
    + cbn. apply well_kept_snoc; [apply Hs|]. left. by eexists _, _, _, _, _, _.
    + intros ns' id' r0 Hr0 Hg. left. by exists r0.
  - by eapply consent_recorded.
  - apply (consistent_change s); try done; [by intros r Hr; apply elem_of_app; left| |intros ns id r Hr Hg; left; by exists r].
    intros r [?| ->%list_elem_of_singleton]%elem_of_app ?; [by apply Hs|done].
  - apply (consistent_change s); try done; [apply Hs|]. intros ns id r Hr Hg. left. by exists r.
Qed.

Lemma ledger_consistent s : agr_reachable s → consistent_terms s.
Proof.
  intros [st Hr]. revert Hr. apply (rtc_ind_r consistent_terms).
  - split; [by intros r0 ?%elem_of_nil|done].
  - intros s1 s2 _ Hstep IH. by eapply consent_step.
Qed.

(** C12: Money terms need a person's consent.  However agreements are extracted,
    authored, reviewed and signed, by anyone, in any order and with any transactions
    between the reads and the writes of a review or a recording, a row of the review
    queue is [auto_green] only if a reviewer confirmed its terms, or a signature was
    recorded for a request by the same signer and over the same document that carries
    the fingerprint of its terms, or its terms took the place of terms signed so
    while that signature was being recorded: another transaction wrote them after the
    recording had checked the signed ones, and the recording promoted them.  If no
    recording was overtaken in this way, the row's own terms have consent.  Terms are
    the same if [jsonb] has them equal. *)
Theorem green_needs_consent s ns id r : agr_reachable s → review_queue (ag_db s) !! (ns, id) = Some r → q_status r = AutoGreen →
  covered s ns id (q_extracted r) ∧
  ((∀ signed written, (ns, id, signed, written) ∉ ag_overtaken s) →
     ∃ terms, consented s ns id terms ∧ same_terms terms (q_extracted r)).
Proof.
  intros Hr Hrow Hg. assert (covered s ns id (q_extracted r)) as Hc by by apply ledger_consistent.
  split; [done|]. intros Hno. destruct Hc as [?|(x & w & Hin & _)]; [done|]. by destruct (Hno x w).
Qed.

(** C14: A signature attests to one document, one signer and one set of terms.  A
    recording succeeds only if the ledger holds a request for that agreement and
    session by the same signer, over the same document, and with the fingerprint of
    the terms as they were when the checks ran; then the ledger gains one entry, the
    queue's row becomes green unless it was rejected, and nothing else of the queue
    changes.  A recording that is refused changes neither the database nor the
    transport, and an error of the transport leaves the database alone. *)
Theorem signature_binds between now ns id session signer document db st db' st' r :
  well_kept (v3_cognitive_ledger db) →
  do_record_signature canonical_json sha256 between now ns id session signer document db st = (db', st', r) →
  match r with
  | Ok Recorded =>
      (∃ terms, _compute_terms_fingerprint canonical_json sha256 ns id db = Ok terms ∧
         request_row ns id session signer (sha256 document) terms ∈ v3_cognitive_ledger db) ∧
      (∃ a fp, session_of sha256 st session = Some (a, fp) ∧ session_of sha256 st' session = Some (Signed, fp)) ∧
      v3_cognitive_ledger db' = v3_cognitive_ledger (between db) ++ [recorded_row ns id session signer (sha256 document)] ∧
      (∀ k, k ≠ (ns, id) → review_queue db' !! k = review_queue (between db) !! k) ∧
      (∀ row, review_queue (between db) !! (ns, id) = Some row →
         review_queue db' !! (ns, id) = Some (if bool_decide (q_status row = ManualRed) then row
           else ReviewRow (q_source_doc_ref row) (q_confidence row) AutoGreen (q_extracted row) (Some signer)))
  | Ok _ => db' = db ∧ st' = st
  | Err _ => db' = db
  end.
Proof. apply signature_rules. Qed.
End props.

(** ** Concrete agreements *)
Fixpoint json_eqb_refl (a : json) : json_eqb a a = true.
Proof.
  destruct a as [|x|x|x|x|l|l]; cbn [json_eqb]; try done.
  - by destruct x.
  - apply Z.eqb_refl.
  - apply String.eqb_refl.
  - apply String.eqb_refl.
  - induction l as [|x l IH]; [done|]. by rewrite json_eqb_refl.
  - induction l as [|[i x] l IH]; [done|]. by rewrite String.eqb_refl, json_eqb_refl.
Qed.
#[export] Instance json_eqb_preorder : PreOrder (same_terms json_eqb).
Proof. split; [exact json_eqb_refl|]. by intros a b c ->%json_eqb_eq ?. Qed.
Definition demo_sha (s : string) : string := "sha256:" +:+ s.
Definition demo_canon (v : json) : option string := Some (json_dumps v).
Definition draft (pct : string) (db : agreements_db) : agreements_db :=
  do_create_agreement id json_eqb json_dumps "acme" "agr-1" (Some "998877665"%string) None
    [("frameDiscountPct", JFloat pct); ("volumeCommitment", JInt 100000)]%string db.
Definition demo_db : agreements_db := draft "5.0" (AgreementsDb ∅ [] ∅ ∅).
Definition demo_request : agreements_db * manual_state * result signing_error string :=
  do_request_signature demo_canon demo_sha (Drawn 0 "session-1" 0 "") "acme" "agr-1" "kari" "contract" demo_db (Manual ∅ []).
Definition demo_record (between : agreements_db → agreements_db) (signer document : string) :
    agreements_db * manual_state * result signing_error record_outcome :=
  do_record_signature demo_canon demo_sha between 1 "acme" "agr-1" "session-1" signer document demo_request.1.1 demo_request.1.2.
Definition row_of (db : agreements_db) : option (review_status * json) :=
  (λ r, (q_status r, q_extracted r)) <$> review_queue db !! ("acme", "agr-1")%string.
Definition demo_terms : json := default JNull (snd <$> row_of demo_db).

Lemma demo_well_kept : well_kept (v3_cognitive_ledger demo_request.1.1).
Proof.
  intros r Hr. assert (v3_cognitive_ledger demo_request.1.1 =
    [request_row "acme" "agr-1" "session-1" "kari" (demo_sha "contract") (Some (demo_sha (json_dumps demo_terms)))]) as E by (vm_compute; reflexivity).
  rewrite E in Hr. apply list_elem_of_singleton in Hr as ->. left. by eexists _, _, _, _, _, _.
Qed.
Lemma signature_binds_witness :
  (demo_record id "kari" "contract").2 = Ok Recorded ∧
  v3_cognitive_ledger (demo_record id "kari" "contract").1.1 =
    v3_cognitive_ledger demo_request.1.1 ++ [recorded_row "acme" "agr-1" "session-1" "kari" (demo_sha "contract")] ∧
  (demo_record id "ola" "contract").1 = demo_request.1 ∧ (demo_record id "kari" "another").1 = demo_request.1.
Proof.
  pose proof (λ signer document db' st' r, signature_binds demo_canon demo_sha id 1 "acme" "agr-1" "session-1" signer document
    demo_request.1.1 demo_request.1.2 db' st' r demo_well_kept) as H.
  split_and!.
  - vm_compute. reflexivity.
  - destruct (demo_record id "kari" "contract") as [[db' st'] r] eqn:E. specialize (H _ _ _ _ _ E).
    assert (r = Ok Recorded) as -> by (apply (f_equal snd) in E; cbn in E; rewrite <- E; vm_compute; reflexivity).
    destruct H as (_ & _ & H & _). exact H.
  - destruct (demo_record id "ola" "contract") as [[db' st'] r] eqn:E. specialize (H _ _ _ _ _ E).
    assert (r = Ok SignerMismatch) as -> by (apply (f_equal snd) in E; cbn in E; rewrite <- E; vm_compute; reflexivity).
    cbn. destruct H as [-> ->]. by destruct demo_request as [[? ?] ?].
  - destruct (demo_record id "kari" "another") as [[db' st'] r] eqn:E. specialize (H _ _ _ _ _ E).
    assert (r = Ok FingerprintMismatch) as -> by (apply (f_equal snd) in E; cbn in E; rewrite <- E; vm_compute; reflexivity).
    cbn. destruct H as [-> ->]. by destruct demo_request as [[? ?] ?].
Defined.

Definition demo_steps : agr_system :=
  AgrSystem (demo_record id "kari" "contract").1.1 (demo_record id "kari" "contract").1.2 [] [].
Lemma demo_reached : agr_reachable id json_eqb (λ _, EmptyString) demo_canon demo_sha json_dumps demo_steps.
Proof.
  exists (Manual ∅ []). eapply rtc_r; [eapply rtc_r; [eapply rtc_r; [apply rtc_refl|]|]|].
  - apply (st_create _ _ _ _ _ _ _ "acme" "agr-1" (Some "998877665"%string) None
      [("frameDiscountPct", JFloat "5.0"); ("volumeCommitment", JInt 100000)]%string).
  - apply (st_request _ _ _ _ _ _ _ (Drawn 0 "session-1" 0 "") "acme" "agr-1" "kari" "contract" demo_request.1.1 demo_request.1.2 demo_request.2).
    cbn [ag_db ag_st agr_start]. unfold demo_request, demo_db, draft. by destruct (do_request_signature _ _ _ _ _ _ _ _ _) as [[? ?] ?].
  - set (s := AgrSystem demo_request.1.1 demo_request.1.2 [] []).
    change demo_steps with (AgrSystem (demo_record id "kari" "contract").1.1 (demo_record id "kari" "contract").1.2 (ag_endorsed s) (ag_overtaken s)).
    assert (ag_overtaken s = promoted json_eqb (ag_db s) "acme" "agr-1" s) as ->.
    { unfold promoted. set (t := terms_of _ _ _). assert (t = Some demo_terms) as -> by (vm_compute; reflexivity).
      unfold overtaken_by. by rewrite json_eqb_refl. }
    apply (st_record _ _ _ _ _ _ s (ag_db s) 1 "acme" "agr-1" "session-1" "kari" "contract" _ _); [done|].
    assert ((demo_record id "kari" "contract").2 = Ok Recorded) as <- by (vm_compute; reflexivity).
    transitivity (demo_record id "kari" "contract"); [|by destruct (demo_record id "kari" "contract") as [[? ?] ?]].
    unfold demo_record, do_record_signature. reflexivity.
Qed.
Lemma green_needs_consent_witness :
  row_of (ag_db demo_steps) = Some (AutoGreen, demo_terms) ∧
  ∃ terms, consented demo_canon demo_sha demo_steps "acme" "agr-1" terms ∧ same_terms json_eqb terms demo_terms.
Proof.
  split; [vm_compute; reflexivity|].
  destruct (review_queue (ag_db demo_steps) !! ("acme", "agr-1")%string) as [r|] eqn:E; [|vm_compute in E; discriminate E].
  pose proof (green_needs_consent id json_eqb (λ _, EmptyString) demo_canon demo_sha json_dumps demo_steps "acme" "agr-1" r demo_reached E) as H.
  assert (row_of (ag_db demo_steps) = Some (q_status r, q_extracted r)) as Hr by (unfold row_of; rewrite E; reflexivity).
  assert (row_of (ag_db demo_steps) = Some (AutoGreen, demo_terms)) as Hd by (vm_compute; reflexivity).
  rewrite Hr in Hd. injection Hd as Hs He. rewrite <- He. apply (proj2 (H Hs)). by intros ? ? ?%elem_of_nil.
Defined.

(** *** What the checks do not cover *)

(** The exception of [green_needs_consent]: terms that another transaction swaps
    between the checks and the writes of a recording are made green, though the
    signature does not cover them. *)
Example terms_swapped_during_signing :
  let '(db, _, r) := demo_record (draft "50.0") "kari" "contract" in
  r = Ok Recorded ∧ fst <$> row_of db = Some AutoGreen ∧ snd <$> row_of db = snd <$> row_of (draft "50.0" demo_db) ∧
  _compute_terms_fingerprint demo_canon demo_sha "acme" "agr-1" db ≠ _compute_terms_fingerprint demo_canon demo_sha "acme" "agr-1" demo_db.
Proof. vm_compute. split_and!; [done..|]. intros [=]. Qed.
(** The lifecycle's node is the same for a draft and for a signed agreement. *)
Lemma lifecycle_not_recorded ns id c db :
  upsert_agreement_term_node ns id "lifecycleState" "DRAFT" c db = upsert_agreement_term_node ns id "lifecycleState" "SIGNED" c db.
Proof. done. Qed.
(** A row that extraction itself marked [manual_red], without any person's reject, is
    not promoted by a signature either. *)
Definition unsure (f : string) : json * float := (JNull, of_Z 10).
Definition red_db : agreements_db :=
  default (AgreementsDb ∅ [] ∅ ∅) (extract_agreement id (λ _, EmptyString) "acme" "agr-1" "doc" unsure (of_Z 90) (of_Z 60) (AgreementsDb ∅ [] ∅ ∅)).
Example extraction_red_blocks_signature :
  let '(db, st, _) := do_request_signature demo_canon demo_sha (Drawn 0 "session-1" 0 "") "acme" "agr-1" "kari" "contract" red_db (Manual ∅ []) in
  let '(db, _, r) := do_record_signature demo_canon demo_sha id 1 "acme" "agr-1" "session-1" "kari" "contract" db st in
  r = Ok Recorded ∧ fst <$> row_of db = Some ManualRed.
Proof. by vm_compute. Qed.
(** Sessions live in the process: after a restart a pending signature cannot be
    recorded. *)
Example session_lost_at_restart :
  (do_record_signature demo_canon demo_sha id 1 "acme" "agr-1" "session-1" "kari" "contract" demo_request.1.1 (Manual ∅ [])).2 =
  Err (TransportError UnknownSession).
Proof. by vm_compute. Qed.
