(* ===== verification/Resolver.v ===== *)
(** * Resolver: candidates for a merge, and the queue that decides on them

    Models [src/nce/entity_resolution]: the normalisers of [normalizers.py],
    [resolve] and [filter_rejected_merges] of [resolver.py], and the review queue of
    [merge_queue.py] with its handlers in [mcp_handlers.py].

    The score a row gets is computed by PostgreSQL's [pg_trgm] and is a parameter; so
    are the alias files and [str.casefold].  A scan of the nodes is in any order. *)
From S2P Require Import Prelude PyFloat PyText PyStr.
From stdpp Require Import pretty.
From Stdlib Require Import Ascii.
Local Open Scope Z_scope.

(** ** Normalisers *)
(** A prefix in any case, and the rest of the text. *)
Fixpoint after_prefix (p s : string) : option string :=
  match p, s with
  | EmptyString, _ => Some s
  | String a p, String b s => if Ascii.eqb (lower_char b) a then after_prefix p s else None
  | _, EmptyString => None
  end.
Definition reversed (s : string) : string := string_rev s EmptyString.
(** [re.sub(r"^(?:NO\s*|\bNO\b)", "", raw, flags=re.IGNORECASE).strip()] *)
Definition strip_country (raw : string) : string := strip (default raw (after_prefix "no" raw)).
(** [re.sub(r"(?:\s*MVA|\bMVA\b)$", "", cleaned, flags=re.IGNORECASE).strip()] *)
Definition strip_vat (s : string) : string :=
  strip (match after_prefix "avm" (reversed s) with Some r => reversed r | None => s end).
Fixpoint drop_punctuation (s : string) : string :=
  match s with
  | EmptyString => EmptyString
  | String c s => if is_space c || bool_decide (char_code c ∈ [45; 46; 47]%N) then drop_punctuation s else String c (drop_punctuation s)
  end.
Definition normalize_org_nr (value : string) : string :=
  if String.eqb value "" then "" else drop_punctuation (strip_vat (strip_country (strip value))).

Section resolver.
Context (casefold : string → string) (alias_map : string → gmap string string).

Definition normalize (value name : string) : string :=
  if bool_decide (name ∈ ["org_nr"; "orgnr"; "organization_number"]%string) then normalize_org_nr value
  else let normalized := casefold (strip value) in default normalized (alias_map name !! normalized).

(** ** The nodes, the queue *)
Record kg_vertex := KgVertex { v_id : string; v_namespace_id : string; v_entity_type : string; v_label : string }.
Inductive merge_status := MergePending | MergeConfirmed | MergeRejected.
#[global] Instance merge_status_eq : EqDecision merge_status.
Proof. solve_decision. Defined.
Record merge_row := MergeRow {
  mq_id : string; mq_namespace_id : string; mq_node_type : string; mq_candidate_payload : list (string * json); mq_target_node_id : option string;
  mq_score : float; mq_status : merge_status; mq_decided_by : option string
}.
Record Match_ := Match { node_id : string; score : float; matched_on : list string }.

(** ** [resolve] *)
Definition _TOP_N : nat := 25.
(** [str(raw)] of a number. *)
Definition number_text (v : json) : option string :=
  match v with JInt z => Some (pretty z) | JFloat r => Some r | JBool true => Some "True"%string | JBool false => Some "False"%string | _ => None end.
Definition normalized_key (key : string) (raw : json) : option string :=
  match raw with
  | JStr s => let cleaned := strip s in
              if String.eqb cleaned "" then None
              else let norm := normalize cleaned key in if String.eqb (strip norm) "" then None else Some norm
  | _ => (λ s, normalize s key) <$> number_text raw
  end.
Definition normalized_keys (candidate : list (string * json)) (keys : list string) : list (string * string) :=
  foldl (λ d key, match json_get key candidate ≫= normalized_key key with Some norm => dict_set key norm d | None => d end) [] keys.

(** [similarity values label]: the composite score of a label. *)
Context (similarity : list string → string → float).
Definition by_score (a b : Match_) : bool := fleb (score b) (score a).
Definition scored (ns node_type : string) (d : list (string * string)) (nodes : list kg_vertex) : list Match_ :=
  (λ n, Match (v_id n) (similarity d.*2 (v_label n)) d.*1) <$>
    List.filter (λ n, String.eqb (v_namespace_id n) ns && String.eqb (v_entity_type n) node_type) nodes.

Definition rejected_targets (ns : string) (p : merge_row → bool) (ms : list Match_) (queue : list merge_row) : list string :=
  omap mq_target_node_id (List.filter (λ r, String.eqb (mq_namespace_id r) ns && bool_decide (mq_status r = MergeRejected) &&
    match mq_target_node_id r with Some t => existsb (λ m, String.eqb (node_id m) t) ms | None => false end && p r) queue).
(** [payload->>'key' = text]: PostgreSQL's text of a value is a parameter beyond strings. *)
Context (json_text : json → option string).
Definition payload_has (k v : string) (r : merge_row) : bool :=
  bool_decide (json_get k (mq_candidate_payload r) ≫= json_text = Some v).
Definition filter_rejected_merges (ns : string) (candidate_id : option string) (ms : list Match_) (queue : list merge_row) : list Match_ :=
  let everyone := rejected_targets ns (λ _, true) ms queue in
  let rows := match candidate_id with
              | Some cand =>
                  if String.eqb cand "" then everyone
                  else match rejected_targets ns (λ r, payload_has "id" cand r || payload_has "candidate_id" cand r || payload_has "node_id" cand r) ms queue with
                       | [] => everyone
                       | own => own
                       end
              | None => everyone
              end in
  List.filter (λ m, negb (existsb (String.eqb (node_id m)) rows)) ms.

(** [candidate_id or candidate.get("id") or candidate.get("node_id") or candidate.get("candidate_id")], as text. *)
Context (py_str : json → string).
Definition candidate_ref (candidate_id : option string) (candidate : list (string * json)) : option string :=
  match candidate_id, List.find json_truthy (omap (λ k, json_get k candidate) ["id"; "node_id"]%string) with
  | Some (String _ _ as s), _ => Some s
  | _, Some v => Some (json_str py_str v)
  | _, None => match json_get "candidate_id" candidate with Some JNull | None => None | Some v => Some (json_str py_str v) end
  end.
Definition resolve (ns : string) (candidate : list (string * json)) (keys : list string) (node_type : string) (suppress_rejected : bool)
    (candidate_id : option string) (nodes : list kg_vertex) (queue : list merge_row) : list Match_ :=
  let d := normalized_keys candidate keys in
  match d with
  | [] => []
  | _ => let matches := take _TOP_N (sorted_by by_score (scored ns node_type d nodes)) in
         if suppress_rejected then filter_rejected_merges ns (candidate_ref candidate_id candidate) matches queue else matches
  end.
End resolver.

(** ** The merge queue *)
Inductive merge_error := NotPending | MissingArgument.
Definition enqueue (id ns node_type : string) (candidate : list (string * json)) (target : option string) (score : float)
    (queue : list merge_row) : list merge_row :=
  queue ++ [MergeRow id ns node_type candidate target score MergePending None].
Definition is_pending (ns : string) (r : merge_row) : bool := String.eqb (mq_namespace_id r) ns && bool_decide (mq_status r = MergePending).
Definition list_pending (ns : string) (queue : list merge_row) : list merge_row := List.filter (is_pending ns) queue.
Definition decide_row (new_status : merge_status) (decided_by : string) (r : merge_row) : merge_row :=
  MergeRow (mq_id r) (mq_namespace_id r) (mq_node_type r) (mq_candidate_payload r) (mq_target_node_id r) (mq_score r) new_status (Some decided_by).

(** How recording the decision's feedback goes; a statement that fails in the database
    aborts the transaction although its exception is caught. *)
Inductive feedback := NoFeedback | FeedbackDone | FeedbackRaised | FeedbackAborted.
Definition _set_decision (ns queue_id : string) (new_status : merge_status) (decided_by : string) (fb : feedback) (queue : list merge_row)
    : result merge_error (list merge_row) :=
  let here r := String.eqb (mq_id r) queue_id && is_pending ns r in
  if existsb here queue then
    match fb with
    | FeedbackAborted => Ok queue
    | _ => Ok ((λ r, if here r then decide_row new_status decided_by r else r) <$> queue)
    end
  else raise NotPending.
Definition confirm (ns queue_id decided_by : string) := _set_decision ns queue_id MergeConfirmed decided_by.
Definition reject (ns queue_id decided_by : string) := _set_decision ns queue_id MergeRejected decided_by.

Definition handle_merge_queue_confirm (ns queue_id decided_by : string) (queue : list merge_row) : result merge_error (list merge_row) :=
  if String.eqb queue_id "" || String.eqb decided_by "" then raise MissingArgument else confirm ns queue_id decided_by NoFeedback queue.
Definition handle_merge_queue_reject (ns queue_id decided_by : string) (queue : list merge_row) : result merge_error (list merge_row) :=
  if String.eqb queue_id "" || String.eqb decided_by "" then raise MissingArgument else reject ns queue_id decided_by NoFeedback queue.

Example org_nr_forms : normalize_org_nr "NO 987 654 321 MVA" = "987654321"%string ∧ normalize_org_nr "987-654.321" = "987654321"%string.
Proof. by vm_compute. Qed.
(** The country code goes wherever it starts the text, digits or not. *)
Example org_nr_strips_names : normalize_org_nr "Nordic123" = "rdic123"%string.
Proof. by vm_compute. Qed.
