(* ===== verification/ResolverProps.v ===== *)
(** * ResolverProps: the best candidates are found, and a decision is made once *)
From S2P Require Import Prelude PyFloat PyText PyStr Resolver.
Local Open Scope Z_scope.

Lemma and_iff_when (P Q R : Prop) : (P → (Q ↔ R)) → P ∧ Q ↔ P ∧ R.
Proof. tauto. Qed.

(** ** Ranking *)
Section rank.
Context {A : Type} (leb : A → A → bool).
Hypothesis leb_trans : ∀ x y z, leb x y = true → leb y z = true → leb x z = true.
(** The first elements of a sorted list are before the others. *)
Lemma take_sorted n l x y : Sorted (λ x y, leb x y = true) l → x ∈ take n l → y ∈ drop n l → leb x y = true.
Proof.
  intros Hs Hx Hy. assert (StronglySorted (λ x y, leb x y = true) (take n l ++ drop n l)) as H.
  { rewrite take_drop. apply Sorted_StronglySorted; [|done]. intros a b c. apply leb_trans. }
  by apply StronglySorted_split in H as [_ H]; apply H.
Qed.
Lemma take_Sorted n (R : A → A → Prop) l : Sorted R l → Sorted R (take n l).
Proof.
  intros H. revert n. induction H as [|x l Hs IH Hhd]; intros [|n]; cbn; try constructor; [apply IH|].
  destruct Hhd; destruct n; cbn; by constructor.
Qed.
End rank.

(** Sorting needs the order to be total on the list only. *)
Lemma sorted_on {A} (leb : A → A → bool) l :
  (∀ x y, x ∈ l → y ∈ l → leb x y = true ∨ leb y x = true) → Sorted (λ x y, leb x y = true) (sorted_by leb l).
Proof.
  induction l as [|x l IH]; intros Htot; [constructor|]. assert (Sorted (λ x y, leb x y = true) (sorted_by leb l)) as Hs.
  { apply IH. intros; apply Htot; by right. }
  change (sorted_by leb (x :: l)) with (insert_by leb x (sorted_by leb l)).
  assert (∀ y, y ∈ sorted_by leb l → leb x y = true ∨ leb y x = true) as Hx.
  { intros y Hy%elem_of_sorted_by. apply Htot; [by left|by right]. }
  clear IH Htot. induction Hs as [|y l' Hs IHs Hhd]; cbn [insert_by]; [repeat constructor|].
  destruct (leb x y) eqn:E; [by repeat constructor|]. assert (leb y x = true) by (destruct (Hx y); [by left|congruence|done]).
  constructor; [apply IHs; intros z Hz; apply Hx; by right|]. destruct Hhd as [|z l'' Hyz]; cbn [insert_by]; [by constructor|].
  destruct (leb x z); by constructor.
Qed.

Lemma fleb_nan x y : fleb x y = true → is_nan x = false ∧ is_nan y = false.
Proof. by destruct x, y. Qed.
Lemma fleb_trans x y z : fleb x y = true → fleb y z = true → fleb x z = true.
Proof.
  intros Hxy Hyz. destruct (fleb_nan _ _ Hxy) as [Hx Hy], (fleb_nan _ _ Hyz) as [_ Hz].
  destruct (fleb_or_fltb x z Hx Hz) as [?|Hzx]; [done|]. exfalso.
  assert (∀ a b, is_nan a = false → is_nan b = false → fleb a b = true → ¬ key_lt (fkey b) (fkey a)) as Hle.
  { intros a b Ha Hb Hab Hk. apply (fltb_key b a Hb Ha), fltb_compare in Hk. apply fleb_compare in Hab.
    rewrite fcompare_swap, Hk in Hab. cbn in Hab. by destruct Hab. }
  apply (fltb_key z x Hz Hx) in Hzx. pose proof (Hle x y Hx Hy Hxy) as H1. pose proof (Hle y z Hy Hz Hyz) as H2.
  unfold key_lt in *. lia.
Qed.

Section resolve.
Context (casefold : string → string) (alias_map : string → gmap string string) (similarity : list string → string → float)
  (json_text : json → option string) (py_str : json → string).
Hypothesis similarity_number : ∀ values label, is_nan (similarity values label) = false.

Lemma scored_in m ns ty d nodes : m ∈ scored similarity ns ty d nodes ↔
  ∃ n, n ∈ nodes ∧ v_namespace_id n = ns ∧ v_entity_type n = ty ∧ m = Match (v_id n) (similarity d.*2 (v_label n)) d.*1.
Proof.
  unfold scored. rewrite list_elem_of_fmap. split.
  - intros (n & -> & [Hn [E1%String.eqb_eq E2%String.eqb_eq]%andb_true_iff]%elem_of_filter_b). by exists n.
  - intros (n & Hn & <- & <- & ->). exists n. split; [done|]. apply elem_of_filter_b. by rewrite !String.eqb_refl.
Qed.

(** The candidates before rejected ones are suppressed. *)
Lemma ranked ns ty d nodes :
  let ms := take _TOP_N (sorted_by by_score (scored similarity ns ty d nodes)) in
  Sorted (λ a b, by_score a b = true) ms ∧ (length ms ≤ _TOP_N)%nat ∧
  (∀ m, m ∈ ms → m ∈ scored similarity ns ty d nodes) ∧
  (∀ m, m ∈ scored similarity ns ty d nodes → m ∈ ms ∨ length ms = _TOP_N ∧ ∀ m', m' ∈ ms → by_score m' m = true).
Proof.
  set (all := scored similarity ns ty d nodes). set (s := sorted_by by_score all). intros ms.
  assert (Sorted (λ a b, by_score a b = true) s) as Hs.
  { apply sorted_on. intros x y (n & _ & _ & _ & ->)%scored_in (n' & _ & _ & _ & ->)%scored_in. unfold by_score. cbn.
    destruct (fleb_or_fltb (similarity d.*2 (v_label n')) (similarity d.*2 (v_label n))) as [?|?%fltb_fleb]; auto. }
  split_and!.
  - by apply take_Sorted.
  - unfold ms. rewrite length_take. lia.
  - intros m Hm. apply (elem_of_sorted_by by_score). rewrite <- (take_drop _TOP_N). apply elem_of_app. by left.
  - intros m Hm. apply (elem_of_sorted_by by_score) in Hm. fold s in Hm. rewrite <- (take_drop _TOP_N s) in Hm.
    apply elem_of_app in Hm as [Hm|Hm]; [by left|right]. split.
    + unfold ms. rewrite length_take. assert (0 < length (drop _TOP_N s))%nat by (destruct (drop _TOP_N s); [by apply elem_of_nil in Hm|cbn; lia]).
      rewrite length_drop in *. lia.
    + intros m' Hm'. eapply (take_sorted by_score); [|done..]. intros a b c. unfold by_score. intros ? ?. by eapply fleb_trans.
Qed.

(** ** Suppression *)
Lemma rejected_in t ns p ms queue : t ∈ rejected_targets ns p ms queue ↔
  ∃ r, r ∈ queue ∧ mq_namespace_id r = ns ∧ mq_status r = MergeRejected ∧ mq_target_node_id r = Some t ∧ (∃ m, m ∈ ms ∧ node_id m = t) ∧ p r = true.
Proof.
  unfold rejected_targets. rewrite list_elem_of_omap. split.
  - intros (r & [Hr H]%elem_of_filter_b & Et). rewrite !andb_true_iff in H. destruct H as (((H1%String.eqb_eq & H2%bool_decide_eq_true) & H3) & H4).
    rewrite Et in H3. apply existsb_elem in H3 as (m & Hm & E%String.eqb_eq). exists r. split_and!; try done. by exists m.
  - intros (r & Hr & <- & E & Et & (m & Hm & <-) & Hp). exists r. split; [|done]. apply elem_of_filter_b. split; [done|].
    rewrite !andb_true_iff. split_and!; [apply String.eqb_refl|by apply bool_decide_eq_true| |done]. rewrite Et. apply existsb_elem.
    exists m. split; [done|]. apply String.eqb_refl.
Qed.
(** The row rejects a merge of the candidate. *)
Definition names_candidate (cand : string) (r : merge_row) : bool :=
  payload_has json_text "id" cand r || payload_has json_text "candidate_id" cand r || payload_has json_text "node_id" cand r.
Lemma suppressed ns cand ms queue m : m ∈ filter_rejected_merges json_text ns cand ms queue ↔
  m ∈ ms ∧
  ∀ r, r ∈ queue → mq_namespace_id r = ns → mq_status r = MergeRejected → mq_target_node_id r = Some (node_id m) →
    ∃ c, cand = Some c ∧ c ≠ ""%string ∧ names_candidate c r = false ∧
      ∃ r' m', r' ∈ queue ∧ mq_namespace_id r' = ns ∧ mq_status r' = MergeRejected ∧ mq_target_node_id r' = Some (node_id m') ∧ m' ∈ ms ∧
        names_candidate c r' = true.
Proof.
  unfold filter_rejected_merges. rewrite elem_of_filter_b, negb_true_iff.
  set (rows := match cand with Some _ => _ | None => _ end).
  assert (existsb (String.eqb (node_id m)) rows = false ↔ node_id m ∉ rows) as ->.
  { rewrite <- not_true_iff_false, existsb_elem. split; [intros H Hin; apply H; exists (node_id m); by rewrite String.eqb_refl|].
    by intros H (t & Ht & <-%String.eqb_eq). }
  apply and_iff_when. intros Hm. unfold rows; clear rows.
  assert (node_id m ∉ rejected_targets ns (λ _, true) ms queue ↔
    ∀ r, r ∈ queue → mq_namespace_id r = ns → mq_status r = MergeRejected → mq_target_node_id r = Some (node_id m) → False) as Hall.
  { rewrite rejected_in. split; [|by intros H (r & ? & ? & ? & ? & _); eapply H].
    intros H r Hr Hns Hst Ht. apply H. exists r. split_and!; try done. by exists m. }
  destruct cand as [c|]; [|rewrite Hall; split; [intros H r ? ? ? ?; by destruct (H r)|intros H r ? ? ? ?; by destruct (H r) as (? & ? & _)]].
  destruct (String.eqb_spec c ""); [rewrite Hall; split; [intros H r ? ? ? ?; by destruct (H r)|]|].
  { intros H r Hr Hns Hst Ht. destruct (H r Hr Hns Hst Ht) as (c' & [= <-] & Hc & _). done. }
  fold (names_candidate c). set (own := rejected_targets ns (names_candidate c) ms queue).
  assert (node_id m ∉ own ↔ ∀ r, r ∈ queue → mq_namespace_id r = ns → mq_status r = MergeRejected → mq_target_node_id r = Some (node_id m) → names_candidate c r = false) as Hown.
  { unfold own. rewrite rejected_in. split.
    - intros H r Hr Hns Hst Ht. apply not_true_iff_false. intros Hc. apply H. exists r. split_and!; try done. by exists m.
    - intros H (r & Hr & Hns & Hst & Ht & _ & Hc). by rewrite (H r) in Hc. }
  destruct own as [|t own'] eqn:Eown.
  - rewrite Hall. split; [intros H0 r ? ? ? ?; by destruct (H0 r)|]. intros H r Hr Hns Hst Ht.
    destruct (H r Hr Hns Hst Ht) as (c' & [= <-] & _ & _ & r' & m' & ? & ? & ? & ? & ? & ?).
    assert (node_id m' ∈ own) as Hin by (apply rejected_in; exists r'; split_and!; try done; by exists m').
    rewrite Eown in Hin. by apply elem_of_nil in Hin.
  - rewrite Hown. assert (t ∈ own) as (r' & ? & ? & ? & ? & (m' & ? & <-) & ?)%rejected_in by (rewrite Eown; by left).
    split; [|by intros Hq r Hr Hns Hst Ht; destruct (Hq r Hr Hns Hst Ht) as (c' & [= <-] & _ & ? & _)].
    intros Hq r Hr Hns Hst Ht. exists c. split_and!; [done..|by apply Hq|]. exists r', m'. by split_and!.
Qed.

Lemma filter_Sorted {A} (R : A → A → Prop) (f : A → bool) l : (∀ x y z, R x y → R y z → R x z) → Sorted R l → Sorted R (List.filter f l).
Proof.
  intros Htr Hs. apply Sorted_StronglySorted in Hs; [|done]. apply StronglySorted_Sorted. induction Hs as [|x l Hs IH Hall]; cbn; [constructor|].
  destruct (f x); [|done]. constructor; [done|]. apply Forall_forall. intros y [Hy _]%elem_of_filter_b. by eapply Forall_forall in Hall.
Qed.
Lemma resolve_cases ns candidate keys ty suppress id nodes queue :
  let d := normalized_keys casefold alias_map candidate keys in
  let ms := take _TOP_N (sorted_by by_score (scored similarity ns ty d nodes)) in
  let found := resolve casefold alias_map similarity json_text py_str ns candidate keys ty suppress id nodes queue in
  d = [] ∧ found = [] ∨ d ≠ [] ∧ found = if suppress then filter_rejected_merges json_text ns (candidate_ref py_str id candidate) ms queue else ms.
Proof. cbn. unfold resolve. destruct (normalized_keys _ _ _ _); [by left|by right]. Qed.

(** C19: The candidates for a merge are the best there are.  The matches come in
    descending order of their score, at most 25 of them, each a node of the namespace
    and type with the score of its label; a node of that type is missing only if 25
    others score at least as much, or a rejected row of the queue targets it.  With
    suppression on, no match is left that was rejected for this very candidate, and if
    the candidate has no identifier or no rejection of its own among the matches, none
    that was rejected for any. *)
Theorem resolve_finds_best ns candidate keys ty suppress id nodes queue :
  let d := normalized_keys casefold alias_map candidate keys in
  let found := resolve casefold alias_map similarity json_text py_str ns candidate keys ty suppress id nodes queue in
  let cand := candidate_ref py_str id candidate in
  Sorted (λ a b, by_score a b = true) found ∧ (length found ≤ _TOP_N)%nat ∧
  (∀ m, m ∈ found → ∃ n, n ∈ nodes ∧ v_namespace_id n = ns ∧ v_entity_type n = ty ∧ m = Match (v_id n) (similarity d.*2 (v_label n)) d.*1) ∧
  (d ≠ [] → ∀ n, n ∈ nodes → v_namespace_id n = ns → v_entity_type n = ty →
     let m := Match (v_id n) (similarity d.*2 (v_label n)) d.*1 in
     m ∈ found ∨
     (∃ better, length better = _TOP_N ∧ (∀ m', m' ∈ better → m' ∈ scored similarity ns ty d nodes ∧ by_score m' m = true) ∧
        ∀ m', m' ∈ found → m' ∈ better) ∨
     suppress = true ∧ ∃ r, r ∈ queue ∧ mq_namespace_id r = ns ∧ mq_status r = MergeRejected ∧ mq_target_node_id r = Some (v_id n)) ∧
  (suppress = true → ∀ m r, m ∈ found → r ∈ queue → mq_namespace_id r = ns → mq_status r = MergeRejected →
     mq_target_node_id r = Some (node_id m) → ∃ c, cand = Some c ∧ c ≠ ""%string ∧ names_candidate c r = false).
Proof.
  intros d found cand. destruct (resolve_cases ns candidate keys ty suppress id nodes queue) as [[Hd Hf]|[Hd Hf]]; fold d found in Hd, Hf.
  { rewrite Hf. split_and!; [constructor|cbn; lia|by intros m ?%elem_of_nil|done|by intros _ m r ?%elem_of_nil]. }
  destruct (ranked ns ty d nodes) as (Hs & Hl & Hin & Hbest). set (ms := take _ _) in *.
  assert (∀ m, m ∈ found → m ∈ ms) as Hsub by (rewrite Hf; destruct suppress; [by intros m [? _]%suppressed|done]).
  split_and!.
  - rewrite Hf. destruct suppress; [|done]. apply filter_Sorted; [|done]. intros a b c. unfold by_score. intros ? ?. by eapply fleb_trans.
  - rewrite Hf. destruct suppress; [|done]. etrans; [apply List.filter_length_le|done].
  - intros m Hm%Hsub%Hin. by apply scored_in.
  - intros _ n Hn Hns Hty. set (m := Match _ _ _). assert (m ∈ scored similarity ns ty d nodes) as Hm by (apply scored_in; by exists n).
    destruct (Hbest m Hm) as [Hmm|[Hlen Hb]]; [|right; left; exists ms; split_and!; [done| |done]; intros m' Hm'; split; [by apply Hin|by apply Hb]].
    rewrite Hf. destruct suppress; [|by left].
    destruct (existsb (λ r, String.eqb (mq_namespace_id r) ns && bool_decide (mq_status r = MergeRejected) && bool_decide (mq_target_node_id r = Some (v_id n))) queue) eqn:E.
    + right; right. split; [done|].
      apply existsb_elem in E as (r & Hr & [[H1%String.eqb_eq H2%bool_decide_eq_true]%andb_true_iff H3%bool_decide_eq_true]%andb_true_iff). by exists r.
    + left. apply suppressed. split; [done|]. intros r Hr H1 H2 H3. exfalso. apply not_true_iff_false in E. apply E, existsb_elem.
      exists r. split; [done|]. rewrite H1, String.eqb_refl, !bool_decide_eq_true_2; done.
  - intros -> m r Hm Hr H1 H2 H3. rewrite Hf in Hm. apply suppressed in Hm as [_ Hm].
    destruct (Hm r Hr H1 H2 H3) as (c & ? & ? & ? & _). by exists c.
Qed.
End resolve.

(** ** Decisions *)
Inductive mq_step : list merge_row → list merge_row → Prop :=
  | mq_enqueue q id ns ty candidate target score : id ∉ mq_id <$> q → mq_step q (enqueue id ns ty candidate target score q)
  | mq_decide q q' ns id status who fb : status ≠ MergePending → _set_decision ns id status who fb q = Ok q' → mq_step q q'.

(** What a decision does to a row. *)
Lemma set_decision_rows ns id status who fb q q' : _set_decision ns id status who fb q = Ok q' →
  (∃ r, r ∈ q ∧ mq_id r = id ∧ mq_namespace_id r = ns ∧ mq_status r = MergePending) ∧
  q' = if (match fb with FeedbackAborted => true | _ => false end) then q
       else (λ r, if String.eqb (mq_id r) id && is_pending ns r then decide_row status who r else r) <$> q.
Proof.
  unfold _set_decision. destruct (existsb _ q) eqn:E; [|done]. intros Hq. split; [|by destruct fb; injection Hq as <-].
  apply existsb_elem in E as (r & Hr & [H1%String.eqb_eq [H2%String.eqb_eq H3%bool_decide_eq_true]%andb_true_iff]%andb_true_iff). by exists r.
Qed.
Lemma decide_ids p status who (q : list merge_row) : mq_id <$> ((λ r, if p r : bool then decide_row status who r else r) <$> q) = mq_id <$> q.
Proof. rewrite <- list_fmap_compose. apply list_fmap_ext. intros i r _. cbn. by destruct (p r). Qed.

(** A row's later form: the same, or the row decided. *)
Definition continues (r r' : merge_row) : Prop :=
  r' = r ∨ mq_status r = MergePending ∧ ∃ status who, status ≠ MergePending ∧ r' = decide_row status who r.
Lemma continues_trans a b c : continues a b → continues b c → continues a c.
Proof.
  intros [->|(Ha & s & w & Hs & ->)] H; [done|]. destruct H as [->|(Hb & _)]; [by right; split; [|by exists s, w]|]. by cbn in Hb.
Qed.
Lemma mq_step_rows q q' : mq_step q q' → NoDup (mq_id <$> q) →
  NoDup (mq_id <$> q') ∧ ∀ i r, q !! i = Some r → ∃ r', q' !! i = Some r' ∧ continues r r'.
Proof.
  intros [q0 id ns ty candidate target score Hid|q0 q1 ns id status who fb Hst Hd] Hnd.
  - unfold enqueue. split; [rewrite fmap_app; by apply NoDup_snoc|]. intros i r Hr. exists r. split; [by apply lookup_app_l_Some|by left].
  - apply set_decision_rows in Hd as [_ ->]. destruct fb; [..|split; [done|]; intros i r Hr; exists r; split; [done|by left]].
    all: rewrite decide_ids; split; [done|]; intros i r Hr; rewrite list_lookup_fmap, Hr; cbn; eexists; split; [done|].
    all: destruct (_ && _) eqn:E; [|by left]; right; apply andb_true_iff in E as [_ [_ E%bool_decide_eq_true]%andb_true_iff];
      split; [done|]; by exists status, who.
Qed.
Lemma mq_history q q' : rtc mq_step q q' → NoDup (mq_id <$> q) →
  NoDup (mq_id <$> q') ∧ ∀ i r, q !! i = Some r → ∃ r', q' !! i = Some r' ∧ continues r r'.
Proof.
  induction 1 as [q|q1 q2 q3 H1 _ IH]; intros Hnd; [by split; [|intros i r Hr; exists r; split; [|left]]|].
  destruct (mq_step_rows _ _ H1 Hnd) as [Hnd2 H12]. destruct (IH Hnd2) as [Hnd3 H23]. split; [done|]. intros i r Hr.
  destruct (H12 i r Hr) as (r2 & Hr2 & Hc). destruct (H23 i r2 Hr2) as (r3 & Hr3 & Hc'). exists r3. split; [done|]. by eapply continues_trans.
Qed.

(** C18: A merge is decided once, and a decision stays.  In every history of the queue
    rows keep their place and content, and change at most from pending to decided.
    Confirming or rejecting succeeds exactly for a row that is pending in the caller's
    namespace, writes the decision and its author into that row alone, and every later
    attempt to decide it, by anyone and whatever happened since, is refused. *)
Theorem merge_decided_once q ns id status who : rtc mq_step [] q → status ≠ MergePending →
  (∀ q', rtc mq_step q q' → ∀ i r, q !! i = Some r → ∃ r', q' !! i = Some r' ∧ continues r r') ∧
  match _set_decision ns id status who NoFeedback q with
  | Ok q1 =>
      (∃ i r, q !! i = Some r ∧ mq_id r = id ∧ mq_namespace_id r = ns ∧ mq_status r = MergePending ∧ q1 = <[i := decide_row status who r]> q) ∧
      ∀ q2 ns' status' who' fb, rtc mq_step q1 q2 → _set_decision ns' id status' who' fb q2 = Err NotPending
  | Err e => e = NotPending ∧ ∀ r, r ∈ q → mq_id r = id → mq_namespace_id r = ns → mq_status r ≠ MergePending
  end.
Proof.
  intros Hq Hst. destruct (mq_history _ _ Hq) as [Hnd _]; [constructor|]. split; [intros q' Hq'; by apply mq_history|].
  destruct (_set_decision ns id status who NoFeedback q) as [q1|e] eqn:Ed.
  - pose proof (set_decision_rows _ _ _ _ _ _ _ Ed) as [(r & Hr & Hid & Hns & Hp) Hq1]. apply list_elem_of_lookup in Hr as [i Hi].
    assert (q1 = <[i := decide_row status who r]> q) as Hq1'.
    { rewrite Hq1. apply list_eq. intros j. rewrite list_lookup_fmap. destruct (decide (j = i)) as [->|Hne].
      - rewrite list_lookup_insert_eq by (by apply lookup_lt_Some in Hi). rewrite Hi. cbn. unfold is_pending.
        by rewrite Hid, Hns, !String.eqb_refl, bool_decide_eq_true_2.
      - rewrite list_lookup_insert_ne by done. destruct (q !! j) as [r'|] eqn:Hj; [|done]. cbn.
        destruct (String.eqb_spec (mq_id r') id) as [E|]; [|done]. exfalso. apply Hne.
        eapply (NoDup_lookup (mq_id <$> q) j i); [done|by rewrite list_lookup_fmap, Hj; cbn; rewrite E|by rewrite list_lookup_fmap, Hi; cbn; rewrite Hid]. }
    split; [by exists i, r|]. intros q2 ns' status' who' fb H12.
    assert (NoDup (mq_id <$> q1)) as Hnd1 by (rewrite Hq1; by rewrite decide_ids).
    destruct (mq_history _ _ H12 Hnd1) as [Hnd2 Hrows].
    destruct (Hrows i (decide_row status who r)) as (r2 & Hr2 & Hc); [rewrite Hq1'; apply list_lookup_insert_eq; by apply lookup_lt_Some in Hi|].
    destruct Hc as [->|[Hc _]]; [|by cbn in Hc]. destruct (_set_decision ns' id status' who' fb q2) as [q3|[]] eqn:E3; [|done|by unfold _set_decision in E3; destruct (existsb _ _), fb].
    exfalso. apply set_decision_rows in E3 as [(r' & Hr' & Hid' & _ & Hp') _]. apply list_elem_of_lookup in Hr' as [j Hj].
    assert (j = i) as -> by (eapply (NoDup_lookup (mq_id <$> q2) j i); [done|by rewrite list_lookup_fmap, Hj; cbn; rewrite Hid'|by rewrite list_lookup_fmap, Hr2; cbn; rewrite Hid]).
    rewrite Hr2 in Hj. injection Hj as <-. by cbn in Hp'.
  - unfold _set_decision in Ed. destruct (existsb _ q) eqn:E; [done|]. injection Ed as <-. split; [done|]. intros r Hr Hid Hns Hp.
    apply not_true_iff_false in E. apply E, existsb_elem. exists r. split; [done|]. unfold is_pending.
    by rewrite Hid, Hns, !String.eqb_refl, bool_decide_eq_true_2.
Qed.

(** ** Concrete runs *)
Definition demo_similarity (values : list string) (label : string) : float :=
  if existsb (λ v, contains v (lower label)) values then of_ratio 9 10 else of_ratio 1 10.
Lemma demo_similarity_number values label : is_nan (demo_similarity values label) = false.
Proof. unfold demo_similarity. destruct (existsb _ values); vm_compute; reflexivity. Qed.
Definition demo_text (v : json) : option string := match v with JStr s => Some s | _ => None end.
Definition demo_nodes : list kg_vertex :=
  [KgVertex "n1" "acme" "VENDOR" "Vendor:987654321"; KgVertex "n2" "acme" "VENDOR" "Vendor:123456789";
   KgVertex "n3" "acme" "DEVICE" "Device:987654321"; KgVertex "n4" "globex" "VENDOR" "Vendor:987654321"]%string.
Definition demo_queue : list merge_row :=
  [MergeRow "q1" "acme" "VENDOR" [("id", JStr "cand-1")] (Some "n1") (of_ratio 1 2) MergeRejected (Some "kari")]%string.
Definition demo_resolve (candidate : string) (suppress : bool) : list Match_ :=
  resolve id (λ _, ∅) demo_similarity demo_text (λ _, EmptyString) "acme"
    [("orgnr", JStr "NO 987 654 321 MVA"); ("id", JStr candidate)]%string ["orgnr"%string] "VENDOR" suppress None demo_nodes demo_queue.

Example demo_found : node_id <$> demo_resolve "cand-1" false = ["n1"; "n2"]%string.
Proof. by vm_compute. Qed.
Lemma resolve_finds_best_witness :
  node_id <$> demo_resolve "cand-1" true = ["n2"%string] ∧
  (∀ m r, m ∈ demo_resolve "cand-1" true → r ∈ demo_queue → mq_namespace_id r = "acme"%string → mq_status r = MergeRejected →
     mq_target_node_id r = Some (node_id m) → ∃ c, Some "cand-1"%string = Some c ∧ c ≠ ""%string ∧ names_candidate demo_text c r = false).
Proof.
  split; [vm_compute; reflexivity|].
  destruct (resolve_finds_best id (λ _, ∅) demo_similarity demo_text (λ _, EmptyString) demo_similarity_number "acme"
    [("orgnr", JStr "NO 987 654 321 MVA"); ("id", JStr "cand-1")]%string ["orgnr"%string] "VENDOR" true None demo_nodes demo_queue)
    as (_ & _ & _ & _ & H). exact (H eq_refl).
Defined.
(** A candidate that was never rejected loses the matches others were rejected for, until
    it has a rejection of its own. *)
Example rejected_for_another : node_id <$> demo_resolve "cand-2" true = ["n2"%string].
Proof. by vm_compute. Qed.
Example own_rejection_readmits :
  node_id <$> filter_rejected_merges demo_text "acme" (Some "cand-2"%string) (demo_resolve "cand-2" false)
    (demo_queue ++ [MergeRow "q2" "acme" "VENDOR" [("id", JStr "cand-2")] (Some "n2") (of_ratio 1 2) MergeRejected (Some "kari")]%string) = ["n1"%string].
Proof. by vm_compute. Qed.

Definition pending_queue : list merge_row := enqueue "q1" "acme" "VENDOR" [] (Some "n1"%string) (of_ratio 1 2) [].
Lemma merge_decided_once_witness :
  _set_decision "acme" "q1" MergeConfirmed "kari" NoFeedback pending_queue =
    Ok [MergeRow "q1" "acme" "VENDOR" [] (Some "n1") (of_ratio 1 2) MergeConfirmed (Some "kari")]%string ∧
  ∀ q2 ns status who fb, rtc mq_step [MergeRow "q1" "acme" "VENDOR" [] (Some "n1") (of_ratio 1 2) MergeConfirmed (Some "kari")]%string q2 →
    _set_decision ns "q1" status who fb q2 = Err NotPending.
Proof.
  assert (rtc mq_step [] pending_queue) as Hq.
  { apply rtc_once. apply mq_enqueue. cbn. apply not_elem_of_nil. }
  split; [vm_compute; reflexivity|]. intros q2 ns status who fb H2.
  destruct (merge_decided_once pending_queue "acme" "q1" MergeConfirmed "kari" Hq ltac:(discriminate)) as [_ [_ H]].
  by apply H.
Defined.
(** A feedback statement that fails in the database takes the decision with it, although
    the call returns as if it had been made. *)
Example feedback_error_loses_decision : confirm "acme" "q1" "kari" FeedbackAborted pending_queue = Ok pending_queue.
Proof. by vm_compute. Qed.
(** Only the handlers insist on an author. *)
Example decided_by_nobody : confirm "acme" "q1" "" NoFeedback pending_queue ≠ Err NotPending ∧
  handle_merge_queue_confirm "acme" "q1" "" pending_queue = Err MissingArgument.
Proof. by vm_compute. Qed.
