(* ===== verification/Rebates.v ===== *)
(** * Rebates: what a supplier agreement entitles to, and the gate before a rebate

    Models, of [src/nce/vertical_modules/agreements]: the vendor lookup of
    [coverage.py], [kickback.py] (tiers, the reconciliation of a kickback, the
    snapshots of terms) and the audit of [compliance.py] that approves or refuses a
    rebate.  Both read the review queue of [Agreements] and append to its ledger.

    Left out: the general ledger of the economy module (its rows are an argument), the
    reasons' text, log output and the times in the ledger. *)
From S2P Require Import Prelude PyFloat PyDecimal PyText PyStr Resolver Signing Agreements.
From stdpp Require Import pretty.
From Stdlib Require Import Ascii.
Local Open Scope Z_scope.

Inductive rebate_error :=
  | AgreementIdRequired | BadUuid | BadDate | BadProjection
  | AttributeError_          (* a method or field an unexpected value does not have *)
  | OverflowError_           (* [float] of an integer beyond the floats *)
  | InvalidOperation_.       (* a decimal that needs more than 28 digits *)

Section rebates.
Context (casefold : string → string) (alias_map : string → gmap string string) (similarity : list string → string → float)
  (json_text : json → option string) (py_str : json → string).
Context (float_of_text decimal_of_text : string → number) (float_of_wide : Z → option decimal).
Context (date_fromisoformat : string → option Z).
Context (jsonb : json → json).

(** ** Fields and vendors *)
Definition obj_get (k : string) (l : list (string * json)) : json := default JNull (json_get k l).
Definition _unwrap_field (extracted : list (string * json)) (field : string) : json :=
  match obj_get field extracted with JObj v => obj_get "value" v | v => v end.
Definition _coerce_extracted (v : json) : result rebate_error (list (string * json)) :=
  match v with JObj l => Ok l | _ => raise AttributeError_ end.

Definition _VENDOR_CANDIDATE_GATE : float := of_ratio 2 10.
(** [label.split(":")[-1]] *)
Fixpoint until (a : ascii) (s : string) : string :=
  match s with EmptyString => EmptyString | String c s => if Ascii.eqb c a then EmptyString else String c (until a s) end.
Definition last_part (s : string) : string := reversed (until ":"%char (reversed s)).
Definition label_matches (raw_id_norm : string) (n : kg_vertex) : bool := String.eqb (lower (strip (last_part (v_label n)))) raw_id_norm.
(** The first confirmed candidate; below the gate the search stops. *)
Fixpoint confirm_vendor (ns raw_id_norm : string) (nodes : list kg_vertex) (ms : list Match_) : option string :=
  match ms with
  | [] => None
  | m :: ms =>
      if fltb (score m) _VENDOR_CANDIDATE_GATE then None
      else match List.find (λ n, String.eqb (v_id n) (node_id m) && String.eqb (v_namespace_id n) ns) nodes with
           | Some n => if label_matches raw_id_norm n then Some (node_id m) else confirm_vendor ns raw_id_norm nodes ms
           | None => confirm_vendor ns raw_id_norm nodes ms
           end
  end.
Definition _resolve_vendor_node_id (ns : string) (nodes : list kg_vertex) (raw_id : option string) : option string :=
  match nonempty raw_id with
  | None => None
  | Some raw =>
      let raw_id_norm := lower (strip raw) in
      if String.eqb raw_id_norm "" then None
      else confirm_vendor ns raw_id_norm nodes
             (resolve casefold alias_map similarity json_text py_str ns [("orgnr"%string, JStr raw_id_norm)] ["orgnr"%string] "VENDOR" false None nodes [])
  end.
(** [str(v) if v else None] *)
Definition text_or_none (v : json) : option string := if json_truthy v then Some (json_str py_str v) else None.

(** ** Tiers *)
Record tier := Tier { t_threshold : decimal; t_pct : decimal }.
Inductive terms_error := MalformedTerms | TooLarge.
Definition is_bool (v : json) : bool := match v with JBool _ => true | _ => false end.
Definition normalize_tier (entry : json) : result terms_error tier :=
  match entry with
  | JObj e =>
      match obj_get "threshold" e, obj_get "pct" e with
      | JNull, _ | _, JNull => raise MalformedTerms
      | threshold, pct =>
          if is_bool threshold || is_bool pct then raise MalformedTerms
          else
            match float_of float_of_text float_of_wide threshold, float_of float_of_text float_of_wide pct with
            | None, _ => raise TooLarge
            | Some NotNumeric, _ => raise MalformedTerms
            | _, None => raise TooLarge
            | Some (Finite t), Some (Finite p) => if dec_ltb t (Dec 0 0) || dec_ltb p (Dec 0 0) then raise MalformedTerms else Ok (Tier t p)
            | _, _ => raise MalformedTerms
            end
      end
  | _ => raise MalformedTerms
  end.
Fixpoint normalize_each (l : list json) : result terms_error (list tier) :=
  match l with [] => Ok [] | e :: l => t ← normalize_tier e; ts ← normalize_each l; Ok (t :: ts) end.
Definition by_threshold (a b : tier) : bool := dec_leb (t_threshold a) (t_threshold b).
Fixpoint duplicate_threshold (l : list tier) : bool :=
  match l with
  | a :: ((b :: _) as l') => dec_eqb (t_threshold a) (t_threshold b) || duplicate_threshold l'
  | _ => false
  end.
Definition _normalize_tiers (raw_tiers : json) : result terms_error (list tier) :=
  match raw_tiers with
  | JNull => Ok []
  | JArr l => ts ← normalize_each l;
              let ts := sorted_by by_threshold ts in
              if duplicate_threshold ts then raise MalformedTerms else Ok ts
  | _ => raise MalformedTerms
  end.
(** The tiers up to the first whose threshold is not reached, and that tier. *)
Fixpoint split_tiers (spend : decimal) (active : option tier) (l : list tier) : option tier * option tier :=
  match l with
  | [] => (active, None)
  | t :: l => if dec_leb (t_threshold t) spend then split_tiers spend (Some t) l else (active, Some t)
  end.
Definition money (d : decimal) : result rebate_error decimal :=
  match quantize ROUND_HALF_UP (-2) d with Some d => Ok d | None => raise InvalidOperation_ end.
Definition percent_of (amount pct : decimal) : result rebate_error decimal := money (dec_div (dec_mul amount pct) (Dec 100 0)).
Record progression := Progression { active_tier : option tier; next_tier : option tier; earned_to_date : decimal; to_next_tier : option decimal }.
Definition _tier_progression (tiers : list tier) (spend : decimal) : result rebate_error progression :=
  let '(active, next) := split_tiers spend None tiers in
  earned ← (match active with Some t => percent_of spend (t_pct t) | None => Ok (Dec 0 0) end);
  match next with
  | Some t => d ← money (dec_sub (t_threshold t) spend); Ok (Progression active next earned (Some d))
  | None => Ok (Progression active next earned None)
  end.

(** ** The ceiling of a rebate *)
Definition _RESTRICTED_CLAUSE_MARKERS : list string :=
  ["no_rebate"; "rebate_prohibited"; "no_kickback"; "kickback_prohibited"; "no_incentive"; "exclusivity"; "anti_bribery"; "anti_corruption"]%string.
(** The markers found; none: the check passes. *)
Definition _evaluate_restricted_clause (extracted : list (string * json)) : list string :=
  let blob := lower (json_dumps (JObj extracted)) in
  List.filter (λ marker, contains marker blob || contains (replace_char "_"%char " "%char marker) blob) _RESTRICTED_CLAUSE_MARKERS.
Definition _coerce_finite_nonneg (raw : json) : result terms_error (option decimal) :=
  match raw with
  | JNull => Ok None
  | JBool _ => raise MalformedTerms
  | _ => match decimal_of decimal_of_text raw with
         | Finite d => if dec_ltb d (Dec 0 0) then raise MalformedTerms else Ok (Some d)
         | _ => raise MalformedTerms
         end
  end.
(** [max] of a list that is not empty. *)
Definition dec_max (l : list decimal) : decimal :=
  match l with [] => Dec 0 0 | d :: l => foldl (λ a b, if dec_ltb a b then b else a) d l end.
Definition signed_terms (extracted : list (string * json)) : result terms_error (list tier * option decimal * option decimal) :=
  tiers ← _normalize_tiers (_unwrap_field extracted "kickbackTiers");
  frame_pct ← _coerce_finite_nonneg (_unwrap_field extracted "frameDiscountPct");
  volume ← _coerce_finite_nonneg (_unwrap_field extracted "volumeCommitment");
  Ok (tiers, frame_pct, volume).
Definition rates (tiers : list tier) (frame_pct : option decimal) (volume : decimal) : list decimal :=
  match (split_tiers volume None tiers).1 with Some t => [t_pct t] | None => [] end ++
  match frame_pct with Some p => [p] | None => [] end.
Definition _evaluate_discount_limit (extracted : list (string * json)) (rebate : decimal) : result rebate_error bool :=
  match signed_terms extracted with
  | Err TooLarge => raise OverflowError_
  | Err MalformedTerms => Ok false
  | Ok (tiers, frame_pct, volume) =>
      match volume with
      | None => Ok false
      | Some volume =>
          match rates tiers frame_pct volume with
          | [] => Ok false
          | rates => ceiling ← percent_of volume (dec_max rates); Ok (negb (dec_ltb ceiling rebate))
          end
      end
  end.

(** ** The agreement that governs a supplier *)
(** The agreement's supplier is the vendor. *)
Definition governs (ns supplier_node_id : string) (nodes : list kg_vertex) (extracted : list (string * json)) : bool :=
  bool_decide (_resolve_vendor_node_id ns nodes (text_or_none (_unwrap_field extracted "supplierId")) = Some supplier_node_id).
Fixpoint matched_agreements (ns supplier_node_id : string) (nodes : list kg_vertex) (rows : list (string * review_row))
    : result rebate_error (list (string * list (string * json))) :=
  match rows with
  | [] => Ok []
  | (id, row) :: rows =>
      extracted ← _coerce_extracted (q_extracted row);
      rest ← matched_agreements ns supplier_node_id nodes rows;
      Ok (if governs ns supplier_node_id nodes extracted then (id, extracted) :: rest else rest)
  end.
Definition signed_rows (ns : string) (db : agreements_db) : list (string * review_row) :=
  omap (λ kr, if String.eqb kr.1.1 ns && bool_decide (q_status kr.2 = AutoGreen) then Some (kr.1.2, kr.2) else None) (map_to_list (review_queue db)).
Definition _find_signed_agreement (ns supplier_node_id : string) (agreement_id_raw : json) (nodes : list kg_vertex) (db : agreements_db)
    : result rebate_error (option (string * list (string * json))) :=
  match (match agreement_id_raw with
         | JNull => Some (signed_rows ns db)
         | raw => id ← UUID (json_str py_str raw); row ← review_queue db !! (ns, id);
                  if bool_decide (q_status row = AutoGreen) then Some [(id, row)] else None
         end) with
  | None => Ok None
  | Some candidates =>
      matched ← matched_agreements ns supplier_node_id nodes candidates;
      Ok (match matched with [m] => Some m | _ => None end)
  end.

(** ** The audit *)
Definition _COMPLIANCE_VERSION : string := "agreements-compliance-v1".
Record checks := Checks { signed_agreement : bool; restricted_clause : bool; discount_limit : bool }.
Record audit_answer := AuditAnswer { approved : bool; ans_agreement_id : option string; ans_checks : checks }.
(** [float(rebate)] in JSON. *)
Context (float_json : json → json).
Definition opt_json (o : option string) : json := match o with Some s => JStr s | None => JNull end.
Definition decision_row (ns po_number supplier_id : string) (rebate : json) (a : audit_answer) : ledger_row :=
  LedgerRow ns _COMPLIANCE_VERSION
    [("kind", JStr "compliance_audit"); ("po_number", JStr po_number); ("supplier_id", JStr supplier_id);
     ("agreement_id", opt_json (ans_agreement_id a)); ("rebate_amount", float_json rebate); ("approved", JBool (approved a));
     ("checks", JObj [("signed_agreement", JBool (signed_agreement (ans_checks a))); ("restricted_clause", JBool (restricted_clause (ans_checks a)));
                      ("discount_limit", JBool (discount_limit (ans_checks a)))])]%string.
Definition refused : audit_answer := AuditAnswer false None (Checks false false false).
(** The decision for a supplier and an amount that can be read. *)
Definition audit (ns supplier_id : string) (rebate : decimal) (agreement_id_raw : json) (nodes : list kg_vertex) (db : agreements_db)
    : result rebate_error audit_answer :=
  match _resolve_vendor_node_id ns nodes (Some supplier_id) with
  | None => Ok refused
  | Some supplier_node_id =>
      matched ← _find_signed_agreement ns supplier_node_id agreement_id_raw nodes db;
      match matched with
      | None => Ok refused
      | Some (id, extracted) =>
          match _evaluate_restricted_clause extracted with
          | _ :: _ => Ok (AuditAnswer false (Some id) (Checks true false false))
          | [] =>
              within ← _evaluate_discount_limit extracted rebate;
              Ok (if within : bool then AuditAnswer true (Some id) (Checks true true true) else AuditAnswer false (Some id) (Checks true true false))
          end
      end
  end.
Definition not_blank (v : json) : option string := match v with JStr s => if blank s then None else Some s | _ => None end.
(** [namespace_id]: [None] when it is missing or no UUID. *)
Definition do_run_compliance_audit (namespace_id : option string) (po_number supplier_id rebate_amount agreement_id : json)
    (nodes : list kg_vertex) (db : agreements_db) : result rebate_error (agreements_db * audit_answer) :=
  match namespace_id, not_blank po_number, not_blank supplier_id with
  | Some ns, Some po, Some supplier =>
      match (match rebate_amount with JInt z => Finite (Dec z 0) | JFloat r => float_number r | _ => NotNumeric end) with
      | Finite rebate =>
          if dec_ltb rebate (Dec 0 0) then Ok (db, refused)
          else a ← audit ns supplier rebate agreement_id nodes db;
               Ok (append_ledger (decision_row ns po supplier rebate_amount a) db, a)
      | _ => Ok (db, refused)
      end
  | _, _, _ => Ok (db, refused)
  end.

(** ** Reconciling a kickback *)
Definition _KICKBACK_VERSION : string := "agreements-kickback-v1".
Definition _TERM_FIELDS : list string := ["kickbackTiers"; "volumeCommitment"; "frameDiscountPct"; "paymentTermsDays"]%string.
Definition _snapshot_terms (extracted : list (string * json)) : list (string * json) := (λ f, (f, _unwrap_field extracted f)) <$> _TERM_FIELDS.
Definition _parse_date_or_none (raw : json) : option Z :=
  match raw with JNull => None | _ => date_fromisoformat (String.substring 0 10 (json_str py_str raw)) end.
Definition _within_period (gl_date_raw : json) (since until_ : option Z) : bool :=
  match since, until_ with
  | None, None => true
  | _, _ => match _parse_date_or_none gl_date_raw with
            | None => false
            | Some d => negb (match since with Some s => d <? s | None => false end) && negb (match until_ with Some u => u <? d | None => false end)
            end
  end.
Definition _terms_equal (a b : json) : bool := String.eqb (json_dumps a) (json_dumps b).

Definition snapshot_row (ns id : string) (terms : list (string * json)) : ledger_row :=
  LedgerRow ns _KICKBACK_VERSION [("agreement_id", JStr id); ("kind", JStr "term_snapshot"); ("terms", jsonb (JObj terms))]%string.
Definition is_snapshot (ns id : string) (r : ledger_row) : bool :=
  String.eqb (l_namespace_id r) ns && String.eqb (l_model_version r) _KICKBACK_VERSION &&
  has_text "kind" "term_snapshot" (l_payload r) && has_text "agreement_id" id (l_payload r).
Definition snapshots (ns id : string) (db : agreements_db) : list ledger_row := List.filter (is_snapshot ns id) (v3_cognitive_ledger db).
Definition _read_latest_term_snapshot (ns id : string) (db : agreements_db) : option (list (string * json)) := l_payload <$> list.last (snapshots ns id db).
Definition _append_term_snapshot (ns id : string) (terms : list (string * json)) (db : agreements_db) : agreements_db :=
  append_ledger (snapshot_row ns id terms) db.

(** The spend, and how many rows were counted and skipped. *)
Record spending := Spending { spend : decimal; gl_rows_matched : Z; gl_rows_skipped : Z }.
Definition gl_vendor (ns : string) (nodes : list kg_vertex) (raw : json) : result rebate_error (option string) :=
  match raw with
  | JStr s => Ok (_resolve_vendor_node_id ns nodes (Some s))
  | v => if json_truthy v then raise AttributeError_ else Ok None
  end.
Definition skip (s : spending) : spending := Spending (spend s) (gl_rows_matched s) (gl_rows_skipped s + 1).
Definition count_gl_row (ns : string) (supplier_node_id : option string) (since until_ : option Z) (nodes : list kg_vertex)
    (s : spending) (gl_row : list (string * json)) : result rebate_error spending :=
  if negb (_within_period (obj_get "gl_date" gl_row) since until_) then
    Ok (match since, until_, _parse_date_or_none (obj_get "gl_date" gl_row) with
        | None, None, _ | _, _, Some _ => s
        | _, _, None => skip s
        end)
  else
    gl_node_id ← gl_vendor ns nodes (obj_get "supplier_id" gl_row);
    Ok (match supplier_node_id with
        | None => s
        | Some n =>
            if negb (bool_decide (gl_node_id = Some n)) then s
            else match obj_get "amount_nok" gl_row with
                 | JNull | JBool _ => skip s
                 | v => match decimal_of decimal_of_text v with
                        | Finite amount => Spending (dec_add (spend s) amount) (gl_rows_matched s + 1) (gl_rows_skipped s)
                        | _ => skip s
                        end
                 end
        end).
Fixpoint count_gl_rows (ns : string) (supplier_node_id : option string) (since until_ : option Z) (nodes : list kg_vertex)
    (s : spending) (rows : list (list (string * json))) : result rebate_error spending :=
  match rows with
  | [] => Ok s
  | r :: rows => s ← count_gl_row ns supplier_node_id since until_ nodes s r; count_gl_rows ns supplier_node_id since until_ nodes s rows
  end.

Record kickback_report := KickbackReport {
  kr_supplier_node_id : option string; kr_spend_to_date : decimal; kr_progression : progression; kr_projection_drift : option decimal;
  kr_term_drift : bool; kr_matched : Z; kr_skipped : Z
}.
Inductive kickback_result :=
  | KickbackNotFound | UnconfirmedTerms (status : review_status) | MalformedTermsResult | GlUnavailable (terms : list (string * json))
  | KickbackOk (report : kickback_report).

(** The second transaction: the spend, the tiers and the snapshot. *)
Definition reconcile_tx (ns id : string) (extracted : list (string * json)) (tiers : list tier) (since until_ : option Z)
    (gl_rows : list (list (string * json))) (nodes : list kg_vertex) (db : agreements_db)
    : result rebate_error (agreements_db * (option string * spending * progression * bool)) :=
  let supplier_node_id := _resolve_vendor_node_id ns nodes (text_or_none (_unwrap_field extracted "supplierId")) in
  let terms := _snapshot_terms extracted in
  s ← count_gl_rows ns supplier_node_id since until_ nodes (Spending (Dec 0 0) 0 0) gl_rows;
  p ← _tier_progression tiers (spend s);
  Ok (match _read_latest_term_snapshot ns id db with
      | None => (_append_term_snapshot ns id terms db, (supplier_node_id, s, p, false))
      | Some previous =>
          if _terms_equal (obj_get "terms" previous) (JObj terms) then (db, (supplier_node_id, s, p, false))
          else (_append_term_snapshot ns id terms db, (supplier_node_id, s, p, true))
      end).
Definition kickback_report_of (r : option string * spending * progression * bool) (projected : option decimal) : result rebate_error kickback_report :=
  let '(supplier_node_id, s, p, drift) := r in
  projection ← (match projected with Some d => d ← money (dec_sub (earned_to_date p) d); Ok (Some d) | None => Ok None end);
  total ← money (spend s);
  Ok (KickbackReport supplier_node_id total p projection drift (gl_rows_matched s) (gl_rows_skipped s)).

Definition given (v : json) : option json := if json_truthy v then Some v else None.
Definition date_argument (v : json) : result rebate_error (option Z) :=
  match given v with
  | None => Ok None
  | Some v => match _parse_date_or_none v with Some d => Ok (Some d) | None => raise BadDate end
  end.
Definition projection_argument (v : json) : result rebate_error (option decimal) :=
  match v with
  | JNull => Ok None
  | JBool _ => raise BadProjection
  | _ => match decimal_of decimal_of_text v with Finite d => Ok (Some d) | _ => raise BadProjection end
  end.
Definition agreement_argument (v : json) : result rebate_error string :=
  match given v with
  | None => raise AgreementIdRequired
  | Some v => match UUID (json_str py_str v) with Some id => Ok id | None => raise BadUuid end
  end.
(** [gl_rows]: [None] when the economy module cannot be read.  [between]: what other
    transactions commit between the two of this call. *)
Definition do_reconcile_kickback (between : agreements_db → agreements_db) (ns : string) (agreement_id since_iso until_iso projected : json)
    (gl_rows : option (list (list (string * json)))) (nodes : list kg_vertex) (db : agreements_db) : agreements_db * result rebate_error kickback_result :=
  match (id ← agreement_argument agreement_id; since ← date_argument since_iso; until_ ← date_argument until_iso;
         projected ← projection_argument projected; Ok (id, since, until_, projected)) with
  | Err e => (db, Err e)
  | Ok (id, since, until_, projected) =>
      match review_queue db !! (ns, id) with
      | None => (db, Ok KickbackNotFound)
      | Some row =>
          if negb (bool_decide (q_status row = AutoGreen)) then (db, Ok (UnconfirmedTerms (q_status row)))
          else match _coerce_extracted (q_extracted row) with
               | Err e => (db, Err e)
               | Ok extracted =>
                   match _normalize_tiers (obj_get "kickbackTiers" (_snapshot_terms extracted)), gl_rows with
                   | Err MalformedTerms, _ => (db, Ok MalformedTermsResult)
                   | Err TooLarge, _ => (db, Err OverflowError_)
                   | Ok _, None => (db, Ok (GlUnavailable (_snapshot_terms extracted)))
                   | Ok tiers, Some gl_rows =>
                       match reconcile_tx ns id extracted tiers since until_ gl_rows nodes (between db) with
                       | Err e => (between db, Err e)
                       | Ok (db', r) => (db', (KickbackOk <$> kickback_report_of r projected))
                       end
                   end
               end
      end
  end.
End rebates.
