(* ===== verification/RebatesProps.v ===== *)
(** * RebatesProps: a rebate is approved only by its agreement, and a kickback adds up *)
From S2P Require Import Prelude PyFloat PyText PyStr PyDecimal Signing Agreements AgreementsProps Resolver Rebates.
Local Open Scope Z_scope.

(** ** A hundredth *)
Lemma half_up n k : 0 <= n → 0 <= k → round_nat ROUND_HALF_UP n k = (2 * n + 10 ^ k) / (2 * 10 ^ k).
Proof.
  intros Hn Hk. assert (0 < 10 ^ k) as HT by (apply Z.pow_pos_nonneg; lia). unfold round_nat.
  pose proof (Z.div_mod n (10 ^ k) ltac:(lia)) as E. pose proof (Z.mod_pos_bound n (10 ^ k) HT). set (T := 10 ^ k) in *.
  destruct (Z.leb_spec T (2 * (n mod T))).
  - apply Z.div_unique with (2 * (n mod T) - T); [left; lia|]. lia.
  - apply Z.div_unique with (2 * (n mod T) + T); [left; lia|]. lia.
Qed.
(** Trailing zeros do not change what a number rounds to. *)
Lemma quantize_shift e c f j : 0 <= j → quantize ROUND_HALF_UP e (Dec c (f + j)) = quantize ROUND_HALF_UP e (Dec (c * 10 ^ j) f).
Proof.
  intros Hj. unfold quantize. cbn [dexp coef].
  assert ((if e <=? f + j then at_exp e (Dec c (f + j)) else round_coef ROUND_HALF_UP c (e - (f + j))) =
          (if e <=? f then at_exp e (Dec (c * 10 ^ j) f) else round_coef ROUND_HALF_UP (c * 10 ^ j) (e - f))) as ->; [|done].
  unfold at_exp. cbn [dexp coef]. destruct (Z.leb_spec e f).
  - rewrite (proj2 (Z.leb_le e (f + j))) by lia. rewrite <- Z.mul_assoc, <- Z.pow_add_r by lia. do 2 f_equal. lia.
  - assert (0 < 10 ^ j) by (apply Z.pow_pos_nonneg; lia). unfold round_coef.
    rewrite Z.sgn_mul, Z.abs_mul, (Z.sgn_pos (10 ^ j)), (Z.abs_eq (10 ^ j)), Z.mul_1_r by lia. rewrite (half_up (_ * _)) by (try apply Z.mul_nonneg_nonneg; lia). destruct (Z.leb_spec e (f + j)).
    + assert (10 ^ j = 10 ^ (f + j - e) * 10 ^ (e - f)) as -> by (rewrite <- Z.pow_add_r by lia; f_equal; lia).
      set (T := 10 ^ (e - f)). assert (0 < T) by (apply Z.pow_pos_nonneg; lia).
      assert ((2 * (Z.abs c * (10 ^ (f + j - e) * T)) + T) / (2 * T) = Z.abs c * 10 ^ (f + j - e)) as ->.
      { symmetry. apply Z.div_unique with T; [left; lia|]. lia. }
      by rewrite Z.mul_assoc, (Z.mul_comm (Z.sgn c)), Z.abs_sgn.
    + rewrite half_up by lia. f_equal.
      assert (10 ^ (e - f) = 10 ^ (e - (f + j)) * 10 ^ j) as -> by (rewrite <- Z.pow_add_r by lia; f_equal; lia).
      set (T := 10 ^ (e - (f + j))). assert (0 < T) by (apply Z.pow_pos_nonneg; lia).
      replace (2 * (Z.abs c * 10 ^ j) + T * 10 ^ j) with ((2 * Z.abs c + T) * 10 ^ j) by lia.
      replace (2 * (T * 10 ^ j)) with (2 * T * 10 ^ j) by lia. symmetry. apply Z.div_mul_cancel_r; lia.
Qed.
Lemma div_100 c e : Z.abs c < 10 ^ PREC → ∃ c' j, 0 <= j ∧ dec_div (Dec c e) (Dec 100 0) = Dec c' (e - 2 + j) ∧ c' * 10 ^ j = c.
Proof.
  intros Hc. unfold dec_div. cbn [coef dexp]. rewrite Z.sub_0_r. destruct (Z.eqb_spec c 0) as [->|Hc0].
  { exists 0, 2. split_and!; [lia| |lia]. f_equal. lia. }
  change (num_digits 100) with 3. assert (num_digits c <= PREC) as Hd.
  { apply Z.nlt_ge. intros Hlt. destruct (num_digits_bounds (Z.abs c) ltac:(lia)) as [Hlow _].
    assert (num_digits (Z.abs c) = num_digits c) as En by (unfold num_digits; by rewrite Z.abs_idemp). rewrite En in Hlow.
    assert (10 ^ PREC <= 10 ^ (num_digits c - 1)) by (apply Z.pow_le_mono_r; unfold PREC in *; lia). lia. }
  set (shift := 3 - num_digits c + PREC + 1). assert (4 <= shift) by (unfold shift; lia).
  rewrite (proj2 (Z.leb_le 0 shift)) by lia. change (Z.abs 100) with 100. rewrite Z.mul_1_r. change (Z.sgn 100) with 1. rewrite Z.mul_1_r.
  assert (Z.abs c * 10 ^ shift = Z.abs c * 10 ^ (shift - 2) * 100) as E.
  { rewrite <- Z.mul_assoc. f_equal. change 100 with (10 ^ 2). rewrite <- Z.pow_add_r by lia. f_equal. lia. }
  rewrite E, Z.mod_mul, Z.eqb_refl, Z.div_mul by lia. replace (e - (e - shift)) with shift by lia.
  destruct (strip_zeros_value (Z.to_nat shift) (Z.abs c * 10 ^ (shift - 2)) (e - shift) e ltac:(lia)) as (k & Hk & H1 & H2 & H3 & H4).
  set (d := strip_zeros _ _ _ _) in *. assert (shift - 2 <= k) as Hk2.
  { destruct (H4 ltac:(lia)) as [?|Hm]; [lia|]. apply Z.nlt_ge. intros Hlt. apply Hm. apply Z.mod_divide; [lia|].
    exists (Z.abs c * 10 ^ (shift - 2 - k - 1)). apply (Z.mul_reg_r _ _ (10 ^ k)); [pose proof (Z.pow_pos_nonneg 10 k); lia|].
    rewrite H3. rewrite <- !Z.mul_assoc. f_equal. change 10 with (10 ^ 1) at 3. rewrite <- !Z.pow_add_r by lia. f_equal. lia. }
  exists (Z.sgn c * coef d), (k - (shift - 2)). split; [lia|].
  assert (coef d * 10 ^ (k - (shift - 2)) = Z.abs c) as Hcd.
  { apply (Z.mul_reg_r _ _ (10 ^ (shift - 2))); [pose proof (Z.pow_pos_nonneg 10 (shift - 2)); lia|].
    rewrite <- Z.mul_assoc, <- Z.pow_add_r by lia. replace (k - (shift - 2) + (shift - 2)) with k by lia. done. }
  split; [|rewrite <- Z.mul_assoc, Hcd, Z.mul_comm; apply Z.abs_sgn].
  assert (0 < 10 ^ (k - (shift - 2))) by (apply Z.pow_pos_nonneg; lia). assert (0 <= coef d <= Z.abs c) by nia.
  rewrite fix28_small; [f_equal; lia|]. cbn [coef]. rewrite Z.abs_mul. destruct (Z.sgn_spec c) as [[_ ->]|[[_ ->]|[_ ->]]]; lia.
Qed.
(** A percentage is the exact product, rounded once. *)
Lemma percent_exact a p : Z.abs (coef a * coef p) < 10 ^ PREC → percent_of a p = money (Dec (coef a * coef p) (dexp a + dexp p - 2)).
Proof.
  intros H. unfold percent_of, money. destruct a as [a ea], p as [p ep]. cbn [coef dexp] in *. rewrite dec_mul_small by done.
  destruct (div_100 _ (ea + ep) H) as (c' & j & Hj & -> & E). rewrite quantize_shift by done. by rewrite E.
Qed.

(** ** Tiers *)
Definition below (a b : tier) : Prop := dec_ltb (t_threshold a) (t_threshold b) = true.
Definition fair (t : tier) : Prop := dec_ltb (t_threshold t) (Dec 0 0) = false ∧ dec_ltb (t_pct t) (Dec 0 0) = false.
Section tiers.
Context (float_of_text : string → number) (float_of_wide : Z → option decimal).
Abbreviation normalize_tiers := (_normalize_tiers float_of_text float_of_wide).

Lemma strictly_sorted ts : Sorted (λ a b, by_threshold a b = true) ts → duplicate_threshold ts = false → StronglySorted below ts.
Proof.
  intros Hs Hd. apply Sorted_StronglySorted; [intros a b c Hab Hbc; unfold below in *; eapply dec_ltb_leb_trans; [exact Hab|];
    rewrite dec_ltb_leb in Hbc; destruct (dec_leb_total (t_threshold b) (t_threshold c)) as [?|E]; [done|by rewrite E in Hbc]|].
  induction Hs as [|a ts Hs IH Hhd]; [constructor|]. destruct Hhd as [|b ts Hab]; [by repeat constructor|].
  cbn [duplicate_threshold] in Hd. apply orb_false_iff in Hd as [Hd1 Hd2]. constructor; [by apply IH|]. constructor. by apply dec_ltb_neq.
Qed.
Lemma normalize_each_fair l ts : normalize_each float_of_text float_of_wide l = Ok ts → Forall fair ts.
Proof.
  revert ts. induction l as [|e l IH]; intros ts; cbn; [by intros [= <-]; constructor|].
  intros (t & Ht & H)%bind_Ok. apply bind_Ok in H as (ts' & Hts & [= <-]). constructor; [|by apply IH].
  unfold normalize_tier in Ht. repeat case_match; try done.
  all: injection Ht as <-; repeat match goal with H : (_ || _) = false |- _ => apply orb_false_iff in H as [??] end; by split.
Qed.
Lemma normalized_tiers raw ts : normalize_tiers raw = Ok ts → StronglySorted below ts ∧ Forall fair ts.
Proof.
  unfold _normalize_tiers. destruct raw as [| | | | |l|]; try done; [by intros [= <-]; split; constructor|].
  intros (ts0 & Hts & H)%bind_Ok. destruct (duplicate_threshold _) eqn:Ed; [done|]. injection H as <-. split.
  - apply strictly_sorted; [|done]. apply sorted_by_sorted. intros a b. apply dec_leb_total.
  - apply normalize_each_fair in Hts. eapply Permutation_Forall; [symmetry; apply sorted_by_perm|done].
Qed.
End tiers.

(** The tiers a spend reaches come first; the last of them is active. *)
Lemma split_tiers_spec s active ts a n : StronglySorted below ts → split_tiers s active ts = (a, n) →
  ∃ reached rest, ts = reached ++ rest ∧ Forall (λ t, dec_leb (t_threshold t) s = true) reached ∧ Forall (λ t, dec_ltb s (t_threshold t) = true) rest ∧
    a = (match list.last reached with Some t => Some t | None => active end) ∧ n = head rest.
Proof.
  intros Hs. revert active. induction Hs as [|t ts Hs IH Hall]; intros active; cbn [split_tiers].
  - intros [= <- <-]. by exists [], [].
  - destruct (dec_leb (t_threshold t) s) eqn:E.
    + intros (reached & rest & -> & H1 & H2 & -> & ->)%IH. exists (t :: reached), rest. split_and!; [done|by constructor|done| |done].
      rewrite last_cons. by destruct (list.last reached).
    + intros [= <- <-]. exists [], (t :: ts). split_and!; [done|constructor| |done|done].
      assert (dec_ltb s (t_threshold t) = true) as Ht by (rewrite dec_ltb_leb, E; done). constructor; [done|].
      eapply Forall_impl; [exact Hall|]. intros t' Htt. unfold below in Htt. eapply dec_ltb_leb_trans; [exact Ht|].
      rewrite dec_ltb_leb in Htt. destruct (dec_leb_total (t_threshold t) (t_threshold t')) as [?|E']; [done|by rewrite E' in Htt].
Qed.

(** ** Approvals and kickbacks *)
Section props.
Context (casefold : string → string) (alias_map : string → gmap string string) (similarity : list string → string → float)
  (json_text : json → option string) (py_str : json → string).
Context (float_of_text decimal_of_text : string → number) (float_of_wide : Z → option decimal).
Context (date_fromisoformat : string → option Z) (jsonb : json → json) (float_json : json → json).
Abbreviation vendor := (_resolve_vendor_node_id casefold alias_map similarity json_text py_str).
Abbreviation governs := (governs casefold alias_map similarity json_text py_str).
Abbreviation matched_agreements := (matched_agreements casefold alias_map similarity json_text py_str).
Abbreviation find_signed := (_find_signed_agreement casefold alias_map similarity json_text py_str).
Abbreviation audit := (audit casefold alias_map similarity json_text py_str float_of_text decimal_of_text float_of_wide).
Abbreviation run_audit := (do_run_compliance_audit casefold alias_map similarity json_text py_str float_of_text decimal_of_text float_of_wide float_json).
Abbreviation discount_limit := (_evaluate_discount_limit float_of_text decimal_of_text float_of_wide).
Abbreviation signed_terms := (signed_terms float_of_text decimal_of_text float_of_wide).

(** ** The agreement that governs a supplier *)
Definition governing (ns node : string) (nodes : list kg_vertex) (db : agreements_db) (id : string) (extracted : list (string * json)) : Prop :=
  ∃ row, review_queue db !! (ns, id) = Some row ∧ q_status row = AutoGreen ∧ q_extracted row = JObj extracted ∧ governs ns node nodes extracted = true.
(** The caller names it, or it is the only one. *)
Definition chosen (ns node : string) (agreement_id : json) (nodes : list kg_vertex) (db : agreements_db) (id : string) : Prop :=
  match agreement_id with
  | JNull => ∀ id' extracted', governing ns node nodes db id' extracted' → id' = id
  | raw => UUID (json_str py_str raw) = Some id
  end.

Lemma signed_rows_in ns db id row : (id, row) ∈ signed_rows ns db ↔ review_queue db !! (ns, id) = Some row ∧ q_status row = AutoGreen.
Proof.
  unfold signed_rows. rewrite list_elem_of_omap. split.
  - intros ([[ns' id'] row'] & Hin & E). cbn in E. destruct (_ && _) eqn:Eb; [|done]. injection E as -> ->.
    apply andb_true_iff in Eb as [->%String.eqb_eq Hg%bool_decide_eq_true]. split; [|done]. by apply elem_of_map_to_list in Hin.
  - intros [Hr Hg]. exists ((ns, id), row). split; [by apply elem_of_map_to_list|]. cbn. by rewrite String.eqb_refl, bool_decide_eq_true_2.
Qed.
Lemma signed_rows_nodup ns db : NoDup (signed_rows ns db).*1.
Proof.
  unfold signed_rows. pose proof (NoDup_fst_map_to_list (review_queue db)) as Hnd. induction (map_to_list (review_queue db)) as [|[[ns' id'] row] l IH]; [constructor|].
  cbn in Hnd |- *. apply NoDup_cons in Hnd as [Hn Hnd]. specialize (IH Hnd). destruct (_ && _) eqn:E; [|done]. cbn. apply NoDup_cons. split; [|done].
  intros ([id'' row''] & -> & ([[ns3 id3] row3] & Hin & E3)%list_elem_of_omap)%list_elem_of_fmap. cbn in E3. destruct (String.eqb ns3 ns && _) eqn:E4; [|done].
  injection E3 as -> ->. apply andb_true_iff in E as [->%String.eqb_eq _], E4 as [->%String.eqb_eq _]. apply Hn, list_elem_of_fmap. by exists ((ns, id''), row'').
Qed.
Lemma matched_in ns node nodes rows ms : matched_agreements ns node nodes rows = Ok ms →
  (∀ id extracted, (id, extracted) ∈ ms ↔ ∃ row, (id, row) ∈ rows ∧ q_extracted row = JObj extracted ∧ governs ns node nodes extracted = true) ∧
  (NoDup rows.*1 → NoDup ms.*1).
Proof.
  revert ms. induction rows as [|[id row] rows IH]; intros ms; cbn.
  { intros [= <-]. split; [|constructor]. intros id extracted. split; [by intros ?%elem_of_nil|by intros (row & ?%elem_of_nil & _)]. }
  intros (extracted & He & H)%bind_Ok. apply bind_Ok in H as (rest & Hrest & [= <-]). destruct (IH rest Hrest) as [IH1 IH2].
  assert (q_extracted row = JObj extracted) as Erow by (unfold _coerce_extracted in He; destruct (q_extracted row); try done; by injection He as <-).
  split.
  - intros id' extracted'. destruct (governs ns node nodes extracted) eqn:Eg.
    + rewrite elem_of_cons, IH1. split.
      * intros [[= -> ->]|(row' & ? & ?)]; [exists row; by split; [left|]|exists row'; by split; [right|]].
      * intros (row' & [[= -> ->]|Hin]%elem_of_cons & E & ?); [left; congruence|right; by exists row'].
    + rewrite IH1. split.
      * intros (row' & ? & ?). exists row'. by split; [right|].
      * intros (row' & [[= -> ->]|Hin]%elem_of_cons & E & ?); [congruence|by exists row'].
  - intros [Hn Hnd]%NoDup_cons. specialize (IH2 Hnd). destruct (governs ns node nodes extracted); [|done]. apply NoDup_cons. split; [|done].
    intros ([id' ex'] & E & (row' & Hin & _)%IH1)%list_elem_of_fmap. cbn in E. subst id'. apply Hn, list_elem_of_fmap. by exists (id, row').
Qed.

(** The match is the only row that governs. *)
Definition only_match (ns node : string) (nodes : list kg_vertex) (rows : list (string * review_row)) (id : string) (extracted : list (string * json)) : Prop :=
  (∃ row, (id, row) ∈ rows ∧ q_extracted row = JObj extracted ∧ governs ns node nodes extracted = true) ∧
  ∀ id' extracted' row', (id', row') ∈ rows → q_extracted row' = JObj extracted' → governs ns node nodes extracted' = true → id' = id.
Definition one_of (ns node : string) (nodes : list kg_vertex) (rows : list (string * review_row)) : result rebate_error (option (string * list (string * json))) :=
  matched ← matched_agreements ns node nodes rows; Ok (match matched with [m] => Some m | _ => None end).
Lemma one_of_spec ns node nodes rows o : one_of ns node nodes rows = Ok o → NoDup rows.*1 →
  ∀ id extracted, o = Some (id, extracted) ↔ only_match ns node nodes rows id extracted.
Proof.
  intros (ms & Hms & Ho)%bind_Ok Hnd id extracted. destruct (matched_in _ _ _ _ _ Hms) as [Hin Hnd']. specialize (Hnd' Hnd). unfold only_match.
  rewrite <- Hin. assert ((∀ id' extracted' row', (id', row') ∈ rows → q_extracted row' = JObj extracted' → governs ns node nodes extracted' = true → id' = id) ↔
    ∀ id' extracted', (id', extracted') ∈ ms → id' = id) as ->.
  { split; [intros Hall id' ex' (row' & ? & ? & ?)%Hin; by eapply Hall|intros Hall id' ex' row' ? ? ?; apply (Hall id' ex'), Hin; by exists row']. }
  injection Ho as <-. destruct ms as [|[id1 ex1] [|[id2 ex2] ms]].
  - split; [done|by intros [?%elem_of_nil _]].
  - split.
    + intros [= -> ->]. split; [by left|]. by intros id' ex' [= -> ->]%list_elem_of_singleton.
    + intros [[= -> ->]%list_elem_of_singleton _]. done.
  - split; [done|]. intros [_ Hall]. exfalso. assert (id1 = id) by (apply (Hall id1 ex1); by left). assert (id2 = id) by (apply (Hall id2 ex2); right; by left).
    subst. cbn in Hnd'. apply NoDup_cons in Hnd' as [Hn _]. apply Hn. by left.
Qed.
Definition named_row (ns : string) (raw : json) (db : agreements_db) : option (list (string * review_row)) :=
  id ← UUID (json_str py_str raw); row ← review_queue db !! (ns, id); if bool_decide (q_status row = AutoGreen) then Some [(id, row)] else None.
Lemma named_spec ns node raw nodes db o :
  match named_row ns raw db with Some rows => one_of ns node nodes rows | None => Ok None end = Ok o →
  ∀ id extracted, o = Some (id, extracted) ↔ governing ns node nodes db id extracted ∧ UUID (json_str py_str raw) = Some id.
Proof.
  unfold named_row. intros H id extracted. destruct (UUID (json_str py_str raw)) as [id0|]; cbn in H; [|injection H as <-; by split; [|intros [_ ?]]].
  destruct (review_queue db !! (ns, id0)) as [row|] eqn:Er; cbn in H.
  2: { injection H as <-. split; [done|]. intros [(row & ? & _) [= ->]]. congruence. }
  destruct (bool_decide (q_status row = AutoGreen)) eqn:Eg; [apply bool_decide_eq_true in Eg|apply bool_decide_eq_false in Eg].
  2: { injection H as <-. split; [done|]. intros [(row' & ? & ? & _) [= ->]]. congruence. }
  rewrite (one_of_spec _ _ _ _ _ H); [|apply NoDup_singleton]. unfold governing, only_match. split.
  - intros [(row' & [= -> ->]%list_elem_of_singleton & ? & ?) _]. split; [by exists row|done].
  - intros [(row' & Hr & ? & ? & ?) [= ->]]. rewrite Er in Hr. injection Hr as <-. split; [exists row; split_and!; try done; by left|].
    by intros id' ex' row' [= -> ->]%list_elem_of_singleton.
Qed.

(** Found exactly when it governs the supplier and is named or alone. *)
Lemma find_signed_spec ns node agreement_id nodes db o : find_signed ns node agreement_id nodes db = Ok o →
  ∀ id extracted, o = Some (id, extracted) ↔ governing ns node nodes db id extracted ∧ chosen ns node agreement_id nodes db id.
Proof.
  intros H. unfold _find_signed_agreement in H. destruct agreement_id; try by apply (named_spec _ _ _ _ _ _ H).
  intros id extracted. rewrite (one_of_spec ns node nodes _ _ H (signed_rows_nodup ns db)). unfold governing, only_match, chosen. split.
  - intros [(row & [? ?]%signed_rows_in & ? & ?) Hall]. split; [by exists row|]. intros id' ex' (row' & ? & ? & ? & ?). eapply Hall; [by apply signed_rows_in|done..].
  - intros [(row & ? & ? & ? & ?) Hall]. split; [exists row; split_and!; try done; by apply signed_rows_in|].
    intros id' ex' row' [? ?]%signed_rows_in ? ?. apply (Hall id' ex'). by exists row'.
Qed.

(** ** The audit *)
(** The ceiling: the committed volume times the highest rate it reaches, as a percentage. *)
Definition within_ceiling (extracted : list (string * json)) (rebate : decimal) : Prop :=
  ∃ tiers frame_pct volume ceiling, signed_terms extracted = Ok (tiers, frame_pct, Some volume) ∧ rates tiers frame_pct volume ≠ [] ∧
    percent_of volume (dec_max (rates tiers frame_pct volume)) = Ok ceiling ∧ dec_leb rebate ceiling = true.
Definition entitled (ns supplier : string) (rebate : decimal) (agreement_id : json) (nodes : list kg_vertex) (db : agreements_db) (id : string) : Prop :=
  ∃ node extracted, vendor ns nodes (Some supplier) = Some node ∧ governing ns node nodes db id extracted ∧ chosen ns node agreement_id nodes db id ∧
    _evaluate_restricted_clause extracted = [] ∧ within_ceiling extracted rebate.

Lemma discount_limit_spec extracted rebate b : discount_limit extracted rebate = Ok b → b = true ↔ within_ceiling extracted rebate.
Proof.
  unfold _evaluate_discount_limit, within_ceiling. destruct (signed_terms extracted) as [[[tiers frame_pct] volume]|[]] eqn:Es; [|by intros [= <-]; split; [|intros (? & ? & ? & ? & ? & _)]|done].
  destruct volume as [volume|]; [|by intros [= <-]; split; [|intros (? & ? & ? & ? & ? & _)]].
  destruct (rates tiers frame_pct volume) as [|r rs] eqn:Er.
  - intros [= <-]. split; [done|]. intros (ti & f & v & c & [= <- <- <-] & Hne & _). by rewrite Er in Hne.
  - intros (ceiling & Hc & [= <-])%bind_Ok. rewrite dec_ltb_leb, negb_involutive. split.
    + intros Hle. exists tiers, frame_pct, volume, ceiling. by rewrite Er.
    + intros (ti & f & v & c & [= <- <- <-] & _ & Hc' & Hle). rewrite Er, Hc in Hc'. by injection Hc' as <-.
Qed.
Lemma audit_spec ns supplier rebate agreement_id nodes db a : audit ns supplier rebate agreement_id nodes db = Ok a →
  (approved a = true → ∃ id, a = AuditAnswer true (Some id) (Checks true true true) ∧ entitled ns supplier rebate agreement_id nodes db id) ∧
  (∀ id, entitled ns supplier rebate agreement_id nodes db id → approved a = true).
Proof.
  unfold Rebates.audit. destruct (vendor ns nodes (Some supplier)) as [node|] eqn:Ev.
  2: { intros [= <-]. split; [done|]. intros id (node & ex & E & _). congruence. }
  intros (o & Ho & H)%bind_Ok. pose proof (find_signed_spec _ _ _ _ _ _ Ho) as Hspec.
  assert (∀ id, entitled ns supplier rebate agreement_id nodes db id →
    ∃ ex, o = Some (id, ex) ∧ _evaluate_restricted_clause ex = [] ∧ within_ceiling ex rebate) as Hent.
  { intros id (node' & ex & E & Hg & Hc & Hr & Hw). rewrite Ev in E. injection E as <-. exists ex. split_and!; try done. by apply Hspec. }
  destruct o as [[id extracted]|]; [|injection H as <-; split; [done|]; by intros id (ex & ? & _)%Hent].
  destruct (_evaluate_restricted_clause extracted) eqn:Er.
  2: { injection H as <-. split; [done|]. intros id' (ex & [= <- <-] & E & _)%Hent. congruence. }
  apply bind_Ok in H as (w & Hw & [= <-]). pose proof (discount_limit_spec _ _ _ Hw) as Hwc. split.
  - destruct w; [|done]. intros _. exists id. split; [done|]. destruct (proj1 (Hspec id extracted) eq_refl) as [? ?].
    exists node, extracted. split_and!; try done. by apply Hwc.
  - intros id' (ex & [= <- <-] & _ & Hin)%Hent. apply Hwc in Hin as ->. done.
Qed.

(** What a request must look like to be audited at all. *)
Definition readable (namespace_id : option string) (po_number supplier_id rebate_amount : json) (ns po supplier : string) (rebate : decimal) : Prop :=
  namespace_id = Some ns ∧ po_number = JStr po ∧ blank po = false ∧ supplier_id = JStr supplier ∧ blank supplier = false ∧
  (rebate_amount = JInt (coef rebate) ∧ dexp rebate = 0 ∨ ∃ r, rebate_amount = JFloat r ∧ float_number r = Finite rebate) ∧ dec_ltb rebate (Dec 0 0) = false.
Lemma not_blank_Some v s : not_blank v = Some s ↔ v = JStr s ∧ blank s = false.
Proof. destruct v; cbn; try by split; [|intros [? _]]. destruct (blank s0) eqn:E; (split; [intros [=]; subst|intros [[= ->] ?]]); congruence || done. Qed.
Lemma run_audit_cases namespace_id po_number supplier_id rebate_amount agreement_id nodes db db' a :
  run_audit namespace_id po_number supplier_id rebate_amount agreement_id nodes db = Ok (db', a) →
  (∃ ns po supplier rebate, readable namespace_id po_number supplier_id rebate_amount ns po supplier rebate ∧
     audit ns supplier rebate agreement_id nodes db = Ok a ∧ db' = append_ledger (decision_row float_json ns po supplier rebate_amount a) db) ∨
  (∀ ns po supplier rebate, ¬ readable namespace_id po_number supplier_id rebate_amount ns po supplier rebate) ∧ db' = db ∧ a = refused.
Proof.
  unfold do_run_compliance_audit. intros H. destruct namespace_id as [ns|]; [|injection H as <- <-; right; split; [by intros ? ? ? ? [? _]|done]].
  destruct (not_blank po_number) as [po|] eqn:Epo; [apply not_blank_Some in Epo as [-> Hpo]|].
  2: { injection H as <- <-. right. split; [|done]. intros ? po ? ? (_ & -> & Hb & _). cbn in Epo. by rewrite Hb in Epo. }
  destruct (not_blank supplier_id) as [supplier|] eqn:Esu; [apply not_blank_Some in Esu as [-> Hsu]|].
  2: { injection H as <- <-. right. split; [|done]. intros ? ? su ? (_ & _ & _ & -> & Hb & _). cbn in Esu. by rewrite Hb in Esu. }
  set (n := match rebate_amount with JInt z => Finite (Dec z 0) | JFloat r => float_number r | _ => NotNumeric end) in H.
  assert (∀ rebate, n = Finite rebate ↔ rebate_amount = JInt (coef rebate) ∧ dexp rebate = 0 ∨ ∃ r, rebate_amount = JFloat r ∧ float_number r = Finite rebate) as Hn.
  { intros [c e]. subst n. cbn. destruct rebate_amount; try by split; [|intros [[? _]|(? & ? & _)]].
    - split; [intros [= <- <-]; by left|]. intros [[[= ->] ->]|(? & ? & _)]; done.
    - split; [intros E; right; by eexists|]. intros [[? _]|(r & [= ->] & ?)]; done. }
  destruct n as [| |rebate] eqn:En.
  1,2: injection H as <- <-; right; split; [|done]; intros ? ? ? rebate (_ & _ & _ & _ & _ & Hr%Hn & _); done.
  destruct (dec_ltb rebate (Dec 0 0)) eqn:Eneg.
  { injection H as <- <-. right. split; [|done]. intros ? ? ? r (_ & _ & _ & _ & _ & Hr%Hn & Hneg). injection Hr as <-. congruence. }
  apply bind_Ok in H as (a' & Ha & [= <- <-]). left. exists ns, po, supplier, rebate. split_and!; try done. unfold readable. split_and!; try done. by apply Hn.
Qed.

(** A rebate is approved by its agreement and nothing else.  The audit answers yes
    exactly if the request is complete with a finite amount that is not negative, the
    supplier is a known vendor, a confirmed agreement governs it and was named or is
    the only one, no restricting clause is found in it, and the amount is within the
    committed volume times the highest rate that volume reaches.  Whatever the answer,
    the queue is not touched, and a request that could be read leaves one ledger row
    with that answer; an unreadable one is refused without a row. *)
Theorem rebate_fail_closed namespace_id po_number supplier_id rebate_amount agreement_id nodes db db' a :
  run_audit namespace_id po_number supplier_id rebate_amount agreement_id nodes db = Ok (db', a) →
  (approved a = true ↔
     ∃ ns po supplier rebate id, readable namespace_id po_number supplier_id rebate_amount ns po supplier rebate ∧
       entitled ns supplier rebate agreement_id nodes db id) ∧
  (db' = db ∧ a = refused ∨
   ∃ ns po supplier, namespace_id = Some ns ∧ po_number = JStr po ∧ supplier_id = JStr supplier ∧
     db' = append_ledger (decision_row float_json ns po supplier rebate_amount a) db).
Proof.
  intros H. destruct (run_audit_cases _ _ _ _ _ _ _ _ _ H) as [(ns & po & supplier & rebate & Hr & Ha & ->)|(Hno & -> & ->)].
  - destruct (audit_spec _ _ _ _ _ _ _ Ha) as [Hy Hn]. split.
    + split; [intros (id & _ & He)%Hy; by exists ns, po, supplier, rebate, id|].
      intros (ns' & po' & su' & rebate' & id & Hr' & He). destruct Hr as (-> & -> & _ & -> & _ & Hreb & _), Hr' as ([= <-] & [= <-] & _ & [= <-] & _ & Hreb' & _).
      assert (rebate' = rebate) as ->; [|by apply (Hn id)]. destruct rebate, rebate'; cbn in *. destruct Hreb as [[-> ->]|(r & -> & E)], Hreb' as [[E' ->]|(r' & E1 & E2)]; congruence.
    + right. exists ns, po, supplier. destruct Hr as (? & ? & _ & ? & _). by split_and!.
  - split; [|by left]. split; [done|]. intros (ns & po & su & rebate & id & Hr & _). by destruct (Hno ns po su rebate).
Qed.

(** ** Reconciling a kickback *)
Abbreviation parse_date := (_parse_date_or_none py_str date_fromisoformat).
Abbreviation count_rows := (count_gl_rows casefold alias_map similarity json_text py_str decimal_of_text date_fromisoformat).
Abbreviation normalize_tiers := (_normalize_tiers float_of_text float_of_wide).
Abbreviation reconcile_tx := (reconcile_tx casefold alias_map similarity json_text py_str decimal_of_text date_fromisoformat jsonb).
Abbreviation reconcile := (do_reconcile_kickback casefold alias_map similarity json_text py_str float_of_text decimal_of_text float_of_wide date_fromisoformat jsonb).

(** The amount a row of the ledger adds to the spend with a vendor in a period. *)
Definition counted (ns : string) (supplier : option string) (since until_ : option Z) (nodes : list kg_vertex) (row : list (string * json)) : option decimal :=
  if _within_period py_str date_fromisoformat (obj_get "gl_date" row) since until_ then
    match supplier, obj_get "supplier_id" row, obj_get "amount_nok" row with
    | Some n, JStr s, (JInt _ | JFloat _ | JStr _) as amount =>
        if bool_decide (vendor ns nodes (Some s) = Some n) then
          match decimal_of decimal_of_text amount with Finite d => Some d | _ => None end
        else None
    | _, _, _ => None
    end
  else None.
Lemma count_row_spec ns supplier since until_ nodes s row s' :
  count_gl_row casefold alias_map similarity json_text py_str decimal_of_text date_fromisoformat ns supplier since until_ nodes s row = Ok s' →
  match counted ns supplier since until_ nodes row with
  | Some d => spend s' = dec_add (spend s) d ∧ gl_rows_matched s' = gl_rows_matched s + 1
  | None => spend s' = spend s ∧ gl_rows_matched s' = gl_rows_matched s
  end.
Proof.
  unfold count_gl_row, counted. destruct (_within_period _ _ _ _ _); cbn [negb]; [|intros [= <-]; by repeat case_match].
  intros (g & Hg & [= <-])%bind_Ok. destruct supplier as [n|]; [|done]. unfold gl_vendor in Hg.
  destruct (obj_get "supplier_id" row) as [| | | |v| |].
  5: { injection Hg as <-. case_bool_decide; cbn [negb]; destruct (obj_get "amount_nok" row); cbn [decimal_of]; try done; repeat case_match; by simplify_eq. }
  all: destruct (json_truthy _); [done|]; injection Hg as <-; by rewrite bool_decide_eq_false_2.
Qed.
Lemma count_rows_spec ns supplier since until_ nodes s rows s' : count_rows ns supplier since until_ nodes s rows = Ok s' →
  let amounts := omap (counted ns supplier since until_ nodes) rows in
  spend s' = foldl dec_add (spend s) amounts ∧ gl_rows_matched s' = gl_rows_matched s + Z.of_nat (length amounts).
Proof.
  revert s. induction rows as [|row rows IH]; intros s; cbn; [intros [= <-]; split; [done|lia]|].
  intros (s1 & H1 & (H2 & H3)%IH)%bind_Ok. apply count_row_spec in H1. rewrite H2, H3.
  destruct (counted _ _ _ _ _ row); destruct H1 as [-> ->]; cbn; (split; [done|lia]).
Qed.
Lemma progression_spec tiers s p : StronglySorted below tiers → _tier_progression tiers s = Ok p →
  ∃ reached rest, tiers = reached ++ rest ∧ Forall (λ t, dec_leb (t_threshold t) s = true) reached ∧ Forall (λ t, dec_ltb s (t_threshold t) = true) rest ∧
    active_tier p = list.last reached ∧ next_tier p = head rest ∧
    match active_tier p with Some t => percent_of s (t_pct t) = Ok (earned_to_date p) | None => earned_to_date p = Dec 0 0 end ∧
    match next_tier p with Some t => ∃ d, money (dec_sub (t_threshold t) s) = Ok d ∧ to_next_tier p = Some d | None => to_next_tier p = None end.
Proof.
  intros Hs. unfold _tier_progression. destruct (split_tiers s None tiers) as [a n] eqn:E.
  destruct (split_tiers_spec _ _ _ _ _ Hs E) as (reached & rest & -> & H1 & H2 & -> & ->). intros (earned & He & H)%bind_Ok.
  assert ((match list.last reached with Some t => Some t | None => None end) = list.last reached) as El by (by destruct (list.last reached)). rewrite El in *.
  exists reached, rest. destruct (head rest) as [t|].
  - apply bind_Ok in H as (d & Hd & [= <-]). cbn. split_and!; try done; [|by exists d]. destruct (list.last reached); [done|by injection He as <-].
  - injection H as <-. cbn. split_and!; try done. destruct (list.last reached); [done|by injection He as <-].
Qed.

(** What a successful reconciliation read, and its second transaction. *)
Definition inputs_of (ns : string) (agreement_id since_iso until_iso : json) (gl_rows : option (list (list (string * json)))) (db : agreements_db)
    (id : string) (since until_ : option Z) (row : review_row) (extracted : list (string * json)) (tiers : list tier) (rows : list (list (string * json))) : Prop :=
  agreement_argument py_str agreement_id = Ok id ∧ date_argument py_str date_fromisoformat since_iso = Ok since ∧
  date_argument py_str date_fromisoformat until_iso = Ok until_ ∧ review_queue db !! (ns, id) = Some row ∧ q_status row = AutoGreen ∧
  q_extracted row = JObj extracted ∧ normalize_tiers (_unwrap_field extracted "kickbackTiers") = Ok tiers ∧ gl_rows = Some rows.
Lemma reconcile_inv between ns agreement_id since_iso until_iso projected gl_rows nodes db db' rep :
  reconcile between ns agreement_id since_iso until_iso projected gl_rows nodes db = (db', Ok (KickbackOk rep)) →
  ∃ id since until_ row extracted tiers rows r p, inputs_of ns agreement_id since_iso until_iso gl_rows db id since until_ row extracted tiers rows ∧
    reconcile_tx ns id extracted tiers since until_ rows nodes (between db) = Ok (db', r) ∧ kickback_report_of r p = Ok rep.
Proof.
  unfold do_reconcile_kickback. match goal with |- match ?m with _ => _ end = _ → _ => destruct m as [[[[id since] until_] p]|e] eqn:Ea end; [|done].
  apply bind_Ok in Ea as (id0 & Hid & Ea). apply bind_Ok in Ea as (s0 & Hsince & Ea). apply bind_Ok in Ea as (u0 & Huntil & Ea).
  apply bind_Ok in Ea as (p0 & Hp & [= -> -> -> ->]). destruct (review_queue db !! (ns, id)) as [row|] eqn:Er; [|done].
  case_bool_decide; cbn [negb]; [|done]. destruct (_coerce_extracted (q_extracted row)) as [extracted|] eqn:Ex; [|done].
  change (obj_get "kickbackTiers" (_snapshot_terms extracted)) with (_unwrap_field extracted "kickbackTiers").
  destruct (normalize_tiers _) as [tiers|[]] eqn:Et; [|done..]. destruct gl_rows as [rows|]; [|done].
  destruct (reconcile_tx _ _ _ _ _ _ _ _ _) as [[db1 r]|] eqn:Etx; [|done].
  destruct (kickback_report_of r p) as [rep'|] eqn:Erep; [|done]. intros [= <- <-].
  exists id, since, until_, row, extracted, tiers, rows, r, p. unfold inputs_of. split_and!; try done.
  unfold _coerce_extracted in Ex. destruct (q_extracted row); try done. by injection Ex as <-.
Qed.

(** A kickback is computed from confirmed terms, and adds up.  A reconciliation that
    returns amounts read a confirmed agreement whose tiers have strictly rising
    thresholds and no negative number; the spend is the sum of the amounts that the
    ledger's rows for that vendor carry in the period; the active tier is the highest
    one the spend reaches and the next tier the lowest it does not; what was earned is
    the spend times the active tier's rate, rounded half up to hundredths once; and
    the review queue is left alone. *)
Theorem kickback_adds_up between ns agreement_id since_iso until_iso projected gl_rows nodes db db' rep :
  reconcile between ns agreement_id since_iso until_iso projected gl_rows nodes db = (db', Ok (KickbackOk rep)) →
  ∃ id since until_ row extracted tiers rows, inputs_of ns agreement_id since_iso until_iso gl_rows db id since until_ row extracted tiers rows ∧
    StronglySorted below tiers ∧ Forall fair tiers ∧ review_queue db' = review_queue (between db) ∧
    let amounts := omap (counted ns (kr_supplier_node_id rep) since until_ nodes) rows in
    let spend := foldl dec_add (Dec 0 0) amounts in
    kr_matched rep = Z.of_nat (length amounts) ∧ money spend = Ok (kr_spend_to_date rep) ∧
    ∃ reached rest, tiers = reached ++ rest ∧
      Forall (λ t, dec_leb (t_threshold t) spend = true) reached ∧ Forall (λ t, dec_ltb spend (t_threshold t) = true) rest ∧
      active_tier (kr_progression rep) = list.last reached ∧ next_tier (kr_progression rep) = head rest ∧
      match active_tier (kr_progression rep) with
      | Some t => Z.abs (coef spend * coef (t_pct t)) < 10 ^ PREC →
                  money (Dec (coef spend * coef (t_pct t)) (dexp spend + dexp (t_pct t) - 2)) = Ok (earned_to_date (kr_progression rep))
      | None => earned_to_date (kr_progression rep) = Dec 0 0
      end.
Proof.
  intros (id & since & until_ & row & extracted & tiers & rows & r & p & Hin & Htx & Hrep)%reconcile_inv.
  exists id, since, until_, row, extracted, tiers, rows. split; [done|]. destruct Hin as (_ & _ & _ & _ & _ & _ & Ht & _).
  apply normalized_tiers in Ht as [Hsorted Hfair]. split_and!; [done..| |].
  - apply bind_Ok in Htx as (s & _ & H). apply bind_Ok in H as (pr & _ & [= H]). revert H. by repeat case_match; intros [= <- _].
  - apply bind_Ok in Htx as (s & Hs & H). apply bind_Ok in H as (pr & Hpr & H).
    assert (∃ drift, r = (vendor ns nodes (text_or_none py_str (_unwrap_field extracted "supplierId")), s, pr, drift)) as [drift ->].
    { injection H as H. revert H. by repeat case_match; intros [= _ <-]; eexists. }
    apply bind_Ok in Hrep as (pj & _ & H'). apply bind_Ok in H' as (total & Htotal & [= <-]). cbn [kr_supplier_node_id kr_matched kr_spend_to_date kr_progression].
    destruct (count_rows_spec _ _ _ _ _ _ _ _ Hs) as [Hsp Hm]. cbn [spend gl_rows_matched] in Hsp, Hm. cbn zeta. rewrite <- Hsp.
    split; [lia|]. split; [done|]. destruct (progression_spec _ _ _ Hsorted Hpr) as (reached & rest & H1 & H2 & H3 & H4 & H5 & H6 & _).
    exists reached, rest. split_and!; try done. destruct (active_tier pr); [|done]. intros Hb. by rewrite <- percent_exact.
Qed.

(** ** The snapshots *)
Lemma snapshot_is ns id terms : is_snapshot ns id (snapshot_row jsonb ns id terms) = true.
Proof.
  unfold is_snapshot, snapshot_row, has_text. cbn [l_namespace_id l_model_version l_payload]. rewrite !String.eqb_refl. cbn. apply String.eqb_refl.
Qed.
Lemma latest_appended ns id terms db : _read_latest_term_snapshot ns id (_append_term_snapshot jsonb ns id terms db) = Some (l_payload (snapshot_row jsonb ns id terms)).
Proof.
  unfold _read_latest_term_snapshot, snapshots, _append_term_snapshot. cbn [append_ledger v3_cognitive_ledger].
  rewrite List.filter_app. cbn [List.filter]. by rewrite snapshot_is, last_snoc.
Qed.
(** The latest snapshot of the terms is this one. *)
Definition snapshot_current (ns id : string) (extracted : list (string * json)) (db : agreements_db) : Prop :=
  ∃ p, _read_latest_term_snapshot ns id db = Some p ∧ _terms_equal (obj_get "terms" p) (JObj (_snapshot_terms extracted)) = true.

(** What a reconciliation does to the ledger. *)
Definition snapshot_effect (ns id : string) (extracted : list (string * json)) (db db' : agreements_db) (drift : bool) : Prop :=
  match _read_latest_term_snapshot ns id db with
  | None => db' = _append_term_snapshot jsonb ns id (_snapshot_terms extracted) db ∧ drift = false
  | Some p =>
      if _terms_equal (obj_get "terms" p) (JObj (_snapshot_terms extracted)) then db' = db ∧ drift = false
      else db' = _append_term_snapshot jsonb ns id (_snapshot_terms extracted) db ∧ drift = true
  end.
Lemma reconcile_effect between ns agreement_id since_iso until_iso projected gl_rows nodes db db' rep id row extracted :
  reconcile between ns agreement_id since_iso until_iso projected gl_rows nodes db = (db', Ok (KickbackOk rep)) →
  agreement_argument py_str agreement_id = Ok id → review_queue db !! (ns, id) = Some row → q_extracted row = JObj extracted →
  snapshot_effect ns id extracted (between db) db' (kr_term_drift rep).
Proof.
  intros Hrec Hid Hrow Hex. apply reconcile_inv in Hrec as (id' & since & until_ & r0 & ex' & tiers & rows & r & p & (Hid' & _ & _ & Hrow' & _ & Hex' & _) & Htx & Hrep).
  rewrite Hid in Hid'. injection Hid' as <-. rewrite Hrow in Hrow'. injection Hrow' as <-. rewrite Hex in Hex'. injection Hex' as <-.
  apply bind_Ok in Htx as (s & _ & H). apply bind_Ok in H as (pr & _ & H).
  assert (∀ v s pr d, r = (v, s, pr, d) → kr_term_drift rep = d) as Hdrift.
  { intros v s1 pr1 d ->. apply bind_Ok in Hrep as (? & _ & H'). by apply bind_Ok in H' as (? & _ & [= <-]). }
  unfold snapshot_effect. destruct (_read_latest_term_snapshot ns id (between db)) as [q|]; [destruct (_terms_equal _ _)|]; injection H as <- <-; (split; [done|by eapply Hdrift]).
Qed.
Lemma effect_current ns id extracted db db' drift : json_dumps (jsonb (JObj (_snapshot_terms extracted))) = json_dumps (JObj (_snapshot_terms extracted)) →
  snapshot_effect ns id extracted db db' drift → snapshot_current ns id extracted db'.
Proof.
  intros Hjsonb. assert (∀ db0, snapshot_current ns id extracted (_append_term_snapshot jsonb ns id (_snapshot_terms extracted) db0)) as Happ.
  { intros db0. eexists. split; [apply latest_appended|]. unfold _terms_equal.
    change (obj_get "terms" (l_payload (snapshot_row jsonb ns id (_snapshot_terms extracted)))) with (jsonb (JObj (_snapshot_terms extracted))).
    rewrite Hjsonb. apply String.eqb_refl. }
  unfold snapshot_effect. destruct (_read_latest_term_snapshot ns id db) as [q|] eqn:El; [destruct (_terms_equal _ _) eqn:Eq|]; intros [-> _]; [by exists q|apply Happ..].
Qed.

(** The ledger records each change of the terms once.  A reconciliation appends a
    snapshot of the terms exactly if there is none yet or the latest one differs, and
    reports a drift exactly in the second case; afterwards the latest snapshot is of
    these terms, and a later reconciliation appends nothing and reports no drift as
    long as neither the terms nor the snapshots change.  (The terms come from a
    [jsonb] column and keep their text in another.) *)
Theorem snapshots_record_changes between ns agreement_id since_iso until_iso projected gl_rows nodes db db' rep id row extracted :
  reconcile between ns agreement_id since_iso until_iso projected gl_rows nodes db = (db', Ok (KickbackOk rep)) →
  agreement_argument py_str agreement_id = Ok id → review_queue db !! (ns, id) = Some row → q_extracted row = JObj extracted →
  json_dumps (jsonb (JObj (_snapshot_terms extracted))) = json_dumps (JObj (_snapshot_terms extracted)) →
  snapshot_effect ns id extracted (between db) db' (kr_term_drift rep) ∧
  snapshot_current ns id extracted db' ∧
  ∀ db1 db2 between' since_iso' until_iso' projected' gl_rows' nodes' rep',
    reconcile between' ns agreement_id since_iso' until_iso' projected' gl_rows' nodes' db1 = (db2, Ok (KickbackOk rep')) →
    (∃ row', review_queue db1 !! (ns, id) = Some row' ∧ q_extracted row' = JObj extracted) →
    snapshots ns id (between' db1) = snapshots ns id db' → db2 = between' db1 ∧ kr_term_drift rep' = false.
Proof.
  intros Hrec Hid Hrow Hex Hjsonb. pose proof (reconcile_effect _ _ _ _ _ _ _ _ _ _ _ _ _ _ Hrec Hid Hrow Hex) as H1.
  pose proof (effect_current _ _ _ _ _ _ Hjsonb H1) as Hcur. split_and!; [exact H1|exact Hcur|].
  intros db1 db2 btw si ui pj gl nd rp Hrec2 (row' & Hrow' & Hex') Hsnap.
  pose proof (reconcile_effect _ _ _ _ _ _ _ _ _ _ _ _ _ _ Hrec2 Hid Hrow' Hex') as H2. destruct Hcur as (p & Hp & Heq).
  assert (_read_latest_term_snapshot ns id (btw db1) = Some p) as Ep by (unfold _read_latest_term_snapshot in *; by rewrite Hsnap).
  unfold snapshot_effect in H2. by rewrite Ep, Heq in H2.
Qed.
End props.

(** ** Nothing is paid without consent *)
Section consent.
Context (casefold : string → string) (alias_map : string → gmap string string) (similarity : list string → string → float)
  (json_text : json → option string) (py_str : json → string).
Context (float_of_text decimal_of_text : string → number) (float_of_wide : Z → option decimal) (float_json : json → json).
Context (jsonb : json → json) (jsonb_eqb : json → json → bool) (float_repr : float → string) (canonical_json : json → option string)
  (sha256 : string → string) (term_text : json → string).
Context {St : Type} `{SignTransport sha256 St} `{!PreOrder (same_terms jsonb_eqb)}.

(** An approved rebate is covered by consent. *)
Lemma approval_is_covered (s : agr_system) namespace_id po_number supplier_id rebate_amount agreement_id nodes db' a :
  agr_reachable jsonb jsonb_eqb float_repr canonical_json sha256 term_text s →
  do_run_compliance_audit casefold alias_map similarity json_text py_str float_of_text decimal_of_text float_of_wide float_json
    namespace_id po_number supplier_id rebate_amount agreement_id nodes (ag_db s) = Ok (db', a) →
  agr_reachable jsonb jsonb_eqb float_repr canonical_json sha256 term_text (AgrSystem db' (ag_st s) (ag_endorsed s) (ag_overtaken s)) ∧
  (approved a = true → ∃ ns po supplier rebate id row,
     readable namespace_id po_number supplier_id rebate_amount ns po supplier rebate ∧
     entitled casefold alias_map similarity json_text py_str float_of_text decimal_of_text float_of_wide ns supplier rebate agreement_id nodes (ag_db s) id ∧
     review_queue (ag_db s) !! (ns, id) = Some row ∧ q_status row = AutoGreen ∧ covered jsonb_eqb canonical_json sha256 s ns id (q_extracted row)).
Proof.
  intros Hr Ha. destruct (run_audit_cases _ _ _ _ _ _ _ _ _ _ _ _ _ _ _ _ _ _ Ha) as [(ns & po & supplier & rebate & Hread & Haudit & ->)|(_ & -> & ->)].
  2: { split; [by destruct s|done]. }
  split.
  - destruct Hr as [st Hr]. exists st. eapply rtc_r; [exact Hr|]. by apply st_ledger.
  - intros Hy. destruct (audit_spec _ _ _ _ _ _ _ _ _ _ _ _ _ _ _ Haudit) as [Hyes _]. destruct (Hyes Hy) as (id & _ & Hent).
    pose proof Hent as (node & extracted & _ & (row & Hrow & Hg & Hex & _) & _).
    destruct (ledger_consistent _ _ _ _ _ _ _ Hr) as [_ Hs]. exists ns, po, supplier, rebate, id, row. split_and!; try done. by apply Hs.
Qed.

(** No rebate without a person's consent.  In every state that extraction,
    authoring, review, signing and the other writers of the ledger can reach, a rebate
    that the audit approves is covered by an [auto_green] agreement whose terms a
    reviewer confirmed or a recorded signature covers, or replaced the signed ones
    while the signature was being recorded; and the audit is itself a step of that
    system, so that this holds after it too. *)
Theorem rebate_needs_consent (s : agr_system) namespace_id po_number supplier_id rebate_amount agreement_id nodes db' a :
  agr_reachable jsonb jsonb_eqb float_repr canonical_json sha256 term_text s →
  do_run_compliance_audit casefold alias_map similarity json_text py_str float_of_text decimal_of_text float_of_wide float_json
    namespace_id po_number supplier_id rebate_amount agreement_id nodes (ag_db s) = Ok (db', a) →
  agr_reachable jsonb jsonb_eqb float_repr canonical_json sha256 term_text (AgrSystem db' (ag_st s) (ag_endorsed s) (ag_overtaken s)) ∧
  (approved a = true → ∃ ns po supplier rebate id row,
     readable namespace_id po_number supplier_id rebate_amount ns po supplier rebate ∧
     entitled casefold alias_map similarity json_text py_str float_of_text decimal_of_text float_of_wide ns supplier rebate agreement_id nodes (ag_db s) id ∧
     review_queue (ag_db s) !! (ns, id) = Some row ∧ q_status row = AutoGreen ∧ covered jsonb_eqb canonical_json sha256 s ns id (q_extracted row)).
Proof. apply approval_is_covered. Qed.
End consent.

(** ** Concrete agreements *)
Definition uuid_1 : string := "11111111-1111-1111-1111-111111111111".
Definition rate_similarity (values : list string) (label : string) : float :=
  if existsb (λ v, contains v (lower label)) values then of_ratio 9 10 else of_ratio 1 10.
Definition demo_vendors : list kg_vertex := [KgVertex "v1" "acme" "VENDOR" "Vendor:998877665"; KgVertex "v2" "acme" "VENDOR" "Vendor:112233445"]%string.
Definition demo_row (status : review_status) (fields : list (string * json)) : review_row :=
  ReviewRow "doc" (of_Z 100) status (JObj (("supplierId", JObj [("value", JStr "998877665")]) :: fields))%string (Some "kari"%string).
Definition demo_queue (status : review_status) (fields : list (string * json)) : agreements_db :=
  AgreementsDb {[("acme"%string, uuid_1) := demo_row status fields]} [] ∅ ∅.
Definition no_text (s : string) : number := NotNumeric.
Definition run_demo_audit (rebate : string) (db : agreements_db) : result rebate_error (agreements_db * audit_answer) :=
  do_run_compliance_audit id (λ _, ∅) rate_similarity (λ _, None) json_dumps no_text no_text (λ _, None) id (Some "acme"%string)
    (JStr "PO-1") (JStr "998877665") (JFloat rebate) JNull demo_vendors db.
Definition answer_of (r : result rebate_error (agreements_db * audit_answer)) : option bool := match r with Ok (_, a) => Some (approved a) | Err _ => None end.
(** A frame discount of five per cent on a volume of 100000. *)
Definition frame_terms : list (string * json) :=
  [("frameDiscountPct", JObj [("value", JFloat "5.0")]); ("volumeCommitment", JObj [("value", JInt 100000)])]%string.
Definition frame_db : agreements_db := demo_queue AutoGreen frame_terms.

Example audit_answers : answer_of (run_demo_audit "5000.0" frame_db) = Some true ∧ answer_of (run_demo_audit "5000.01" frame_db) = Some false ∧
  answer_of (run_demo_audit "5000.0" (demo_queue NeedsReviewYellow frame_terms)) = Some false ∧ answer_of (run_demo_audit "nan" frame_db) = Some false.
Proof. by vm_compute. Qed.
Lemma rebate_fail_closed_witness :
  answer_of (run_demo_audit "5000.0" frame_db) = Some true ∧
  ∃ ns po supplier rebate id, readable (Some "acme"%string) (JStr "PO-1") (JStr "998877665") (JFloat "5000.0") ns po supplier rebate ∧
    entitled Datatypes.id (λ _, ∅) rate_similarity (λ _, None) json_dumps no_text no_text (λ _, None) ns supplier rebate JNull demo_vendors frame_db id.
Proof.
  split; [vm_compute; reflexivity|].
  assert (answer_of (run_demo_audit "5000.0" frame_db) = Some true) as Ha by (vm_compute; reflexivity).
  destruct (run_demo_audit "5000.0" frame_db) as [[db' a]|e] eqn:E; [|discriminate Ha]. injection Ha as Ha.
  destruct (rebate_fail_closed _ _ _ _ _ _ _ _ _ _ _ _ _ _ _ _ _ _ E) as [[H _] _]. exact (H Ha).
Defined.

(** The agreement authored and signed in [AgreementsProps]. *)
Lemma signed_audit : answer_of (run_demo_audit "5000.0" (ag_db demo_steps)) = Some true.
Proof. vm_compute. reflexivity. Qed.
Lemma rebate_needs_consent_witness : answer_of (run_demo_audit "5000.0" (ag_db demo_steps)) = Some true ∧
  ∃ ns id row, review_queue (ag_db demo_steps) !! (ns, id) = Some row ∧ covered json_eqb demo_canon demo_sha demo_steps ns id (q_extracted row).
Proof.
  split; [exact signed_audit|]. pose proof signed_audit as Ha. destruct (run_demo_audit "5000.0" (ag_db demo_steps)) as [[db' a]|e] eqn:E; [|discriminate Ha].
  injection Ha as Ha.
  destruct (rebate_needs_consent _ _ _ _ _ _ _ _ _ _ _ _ _ _ _ demo_steps _ _ _ _ _ _ _ _ demo_reached E) as [_ H].
  destruct (H Ha) as (ns & po & supplier & rebate & i & row & _ & _ & H1 & _ & H2). exists ns, i, row. split; [exact H1|exact H2].
Defined.

Definition demo_kickback (terms : list (string * json)) (gl_rows : list (list (string * json))) : agreements_db * result rebate_error kickback_result :=
  do_reconcile_kickback id (λ _, ∅) rate_similarity (λ _, None) json_dumps no_text no_text (λ _, None) (λ _, None) id id "acme" (JStr uuid_1) JNull JNull JNull
    (Some gl_rows) demo_vendors (demo_queue AutoGreen terms).
Definition tier_terms : list (string * json) :=
  [("kickbackTiers", JArr [JObj [("threshold", JInt 50000); ("pct", JFloat "2.5")]; JObj [("threshold", JInt 10000); ("pct", JInt 1)]])]%string.
Definition demo_gl : list (list (string * json)) :=
  [[("supplier_id", JStr "998877665"); ("amount_nok", JFloat "30000.1")]; [("supplier_id", JStr "112233445"); ("amount_nok", JInt 7)];
   [("supplier_id", JStr "998877665"); ("amount_nok", JFloat "25000.1")]; [("supplier_id", JStr "998877665"); ("amount_nok", JNull)]]%string.
Definition demo_result : agreements_db * result rebate_error kickback_result := Eval vm_compute in demo_kickback tier_terms demo_gl.
Definition demo_report : kickback_report := Eval vm_compute in
  match demo_result.2 with Ok (KickbackOk r) => r | _ => KickbackReport None (Dec 0 0) (Progression None None (Dec 0 0) None) None false 0 0 end.
Lemma demo_runs : demo_kickback tier_terms demo_gl = (demo_result.1, Ok (KickbackOk demo_report)).
Proof. vm_compute. reflexivity. Qed.
(** 55000.2 at 2.5 per cent is 1375.005, rounded half up. *)
Example demo_earned : earned_to_date (kr_progression demo_report) = Dec 137501 (-2) ∧ kr_matched demo_report = 2 ∧ kr_skipped demo_report = 1.
Proof. done. Qed.
Lemma kickback_adds_up_witness : ∃ reached rest : list tier,
  active_tier (kr_progression demo_report) = list.last reached ∧ next_tier (kr_progression demo_report) = head rest ∧
  demo_kickback tier_terms demo_gl = (demo_result.1, Ok (KickbackOk demo_report)).
Proof.
  destruct (kickback_adds_up _ _ _ _ _ _ _ _ _ _ _ _ _ _ _ _ _ _ _ _ _ demo_runs)
    as (i & si & un & row & ex & tiers & rows & _ & _ & _ & _ & _ & _ & reached & rest & _ & _ & _ & H1 & H2 & _).
  exists reached, rest. split; [exact H1|]. split; [exact H2|exact demo_runs].
Defined.
Lemma snapshots_record_changes_witness :
  snapshot_effect id "acme" uuid_1 (("supplierId", JObj [("value", JStr "998877665")]) :: tier_terms)%string (demo_queue AutoGreen tier_terms) demo_result.1 false.
Proof.
  destruct (snapshots_record_changes _ _ _ _ _ _ _ _ _ _ _ _ _ _ _ _ _ _ _ _ _ uuid_1 (demo_row AutoGreen tier_terms)
    (("supplierId", JObj [("value", JStr "998877665")]) :: tier_terms)%string demo_runs) as [H _]; [vm_compute; reflexivity..|exact H].
Defined.

(** *** What the gate does not look at *)

(** An agreement that has expired still authorises a rebate. *)
Example expired_agreement_approves :
  answer_of (run_demo_audit "5000.0" (demo_queue AutoGreen (("validTo", JObj [("value", JStr "2001-01-01")])%string :: frame_terms))) = Some true.
Proof. by vm_compute. Qed.
(** The ceiling is per request: what was approved before does not count. *)
Example approvals_not_cumulative :
  match run_demo_audit "5000.0" frame_db with
  | Ok (db, a) => approved a = true ∧ answer_of (run_demo_audit "5000.0" db) = Some true
  | Err _ => False
  end.
Proof. by vm_compute. Qed.
(** Numbers that are too large raise instead of being refused. *)
Example large_volume_raises :
  run_demo_audit "1.0" (demo_queue AutoGreen [("frameDiscountPct", JObj [("value", JFloat "5.0")]); ("volumeCommitment", JObj [("value", JInt (10 ^ 28))])]%string) =
    Err InvalidOperation_ ∧
  run_demo_audit "1.0" (demo_queue AutoGreen [("kickbackTiers", JObj [("value", JArr [JObj [("threshold", JInt (10 ^ 400)); ("pct", JInt 1)]])])]%string) = Err OverflowError_.
Proof. by vm_compute. Qed.
(** A marker is found inside longer words. *)
Example marker_inside_words :
  answer_of (run_demo_audit "5000.0" (demo_queue AutoGreen (("notes", JStr "Casino rebate programme")%string :: frame_terms))) = Some false.
Proof. by vm_compute. Qed.
(** A number written with spaces is normalised for the search and then not recognised. *)
Example spaced_number_unknown :
  let vendor := _resolve_vendor_node_id id (λ _, ∅) rate_similarity (λ _, None) json_dumps "acme" demo_vendors in
  vendor (Some "998877665"%string) = Some "v1"%string ∧ vendor (Some "998 877 665"%string) = None ∧ normalize_org_nr "998 877 665" = "998877665"%string.
Proof. by vm_compute. Qed.
