(* ===== verification/PurchaseOrders.v ===== *)
(** * PurchaseOrders: order lines, and the submission of a purchase order

    Models, of [src/nce/vertical_modules/procurement]: the status machine and the
    writer of order lines ([po_line.py]), the transports ([transports.py]), the
    governed submission with its rebate gate ([po.py], [do_submit_po]) and its tool
    ([mcp_handlers.py]), with the ownership guard per transition of
    [src/nce/entity_resolution/ownership.py].

    An order leaves the process: what a transport did is returned beside the result
    of the transaction, and survives its rollback.  Parameters: the numeric columns
    ([numeric precision scale] rounds a float or fails), the collation of line
    references, [float] on text, [repr] of a float, the text of an exception.  Not
    modelled: descriptions, currencies and times of lines, log output, and the drafting
    of orders ([do_generate_po], with its ranking and bid lookup). *)
From S2P Require Import Prelude PyFloat PyText PyStr Txn AuditLog Policy OutboxRelay EventBus Governor.
Local Open Scope Z_scope.

(** ** The status machine *)
Inductive POLineStatus := DRAFT | ORDERED | RECEIVED | CANCELLED.
#[global] Instance POLineStatus_eq_dec : EqDecision POLineStatus.
Proof. solve_decision. Defined.
Definition status_value (s : POLineStatus) : string :=
  match s with DRAFT => "DRAFT" | ORDERED => "ORDERED" | RECEIVED => "RECEIVED" | CANCELLED => "CANCELLED" end.
Definition status_of_value (v : string) : option POLineStatus :=
  List.find (λ s, String.eqb (status_value s) v) [DRAFT; ORDERED; RECEIVED; CANCELLED].
Definition ALLOWED_TRANSITIONS (s : POLineStatus) : list POLineStatus :=
  match s with DRAFT => [ORDERED; CANCELLED] | ORDERED => [RECEIVED; CANCELLED] | RECEIVED | CANCELLED => [] end.

(** A status argument: a member of the enum, or text. *)
Inductive status_arg := Member (s : POLineStatus) | Text (s : string).

Inductive po_error :=
  | UnknownStatus (text : string)
  | InvalidTransition (current next : POLineStatus)
  | OwnershipError (node_type writer : string) (owner : option string) (transition : option string)
  | DataError                     (* the driver or the database rejects a value *)
  | TypeError                     (* an argument of the wrong type *).

Definition as_status (a : status_arg) : result po_error POLineStatus :=
  match a with
  | Member s => Ok s
  | Text t => match status_of_value (upper t) with Some s => Ok s | None => raise (UnknownStatus t) end
  end.
Definition validate_status_transition (current_status new_status : status_arg) : result po_error () :=
  curr ← as_status current_status;
  nxt ← as_status new_status;
  if decide (curr = nxt) then Ok ()
  else ensure (bool_decide (nxt ∈ ALLOWED_TRANSITIONS curr)) (InvalidTransition curr nxt).

Definition po_line_label (po_number line_ref : string) : string :=
  "PO_LINE:" +:+ upper po_number +:+ ":" +:+ upper line_ref.
Definition _po_label (po_number : string) : string := "PO:" +:+ upper po_number.

(** ** Tables *)
Section purchase_orders.
Context {Num : Type} (numeric : Z → Z → float → option Num).

Record line := Line {
  l_project_id : option string;
  l_bom_line_label : option string;
  l_artnr : option string;
  l_quantity : Num;
  l_unit_price : option Num;
  l_line_total : option Num;
  l_status : POLineStatus                     (* a CHECK admits the four values *)
}.
Record graph_node := GraphNode { n_entity_type : string; n_source_id : option string }.

Record po_db := PoDb {
  po_lines : gmap (string * string * string) line;                 (* namespace, PO number, line reference *)
  po_owners : gmap (string * string * option string) string;       (* namespace, node type, transition *)
  po_nodes : gmap (string * string) graph_node;                    (* namespace, label *)
  po_edges : gset (string * string * string * string);             (* namespace, subject, predicate, object *)
  po_outbox : list outbox_row;
  po_webhooks : list webhook;
  po_uuids : nat
}.
Definition set_lines f d := PoDb (f (po_lines d)) (po_owners d) (po_nodes d) (po_edges d) (po_outbox d) (po_webhooks d) (po_uuids d).
Definition set_nodes f d := PoDb (po_lines d) (po_owners d) (f (po_nodes d)) (po_edges d) (po_outbox d) (po_webhooks d) (po_uuids d).
Definition set_edges f d := PoDb (po_lines d) (po_owners d) (po_nodes d) (f (po_edges d)) (po_outbox d) (po_webhooks d) (po_uuids d).
Definition set_outbox f d := PoDb (po_lines d) (po_owners d) (po_nodes d) (po_edges d) (f (po_outbox d)) (po_webhooks d) (po_uuids d).
Definition set_uuids f d := PoDb (po_lines d) (po_owners d) (po_nodes d) (po_edges d) (po_outbox d) (po_webhooks d) (f (po_uuids d)).
Abbreviation po_tx := (tx po_db po_error).

(** ** Ownership per transition *)
Definition _lookup_owner (d : po_db) (ns node_type : string) (transition : option string) : option string :=
  match transition with
  | Some _ => match po_owners d !! (ns, node_type, transition) with Some o => Some o | None => po_owners d !! (ns, node_type, None) end
  | None => po_owners d !! (ns, node_type, None)
  end.
Definition assert_owner (ns node_type writer_engine : string) (transition : option string) : po_tx () :=
  owner ← gets (λ d, _lookup_owner d ns node_type transition);
  match owner with
  | None => fail (OwnershipError node_type writer_engine None transition)
  | Some o => if String.eqb o writer_engine then mret () else fail (OwnershipError node_type writer_engine (Some o) transition)
  end.

(** ** Order lines *)
Context (OUTBOX_HANDLERS : registry) (gen_random_uuid : nat → string).
Context (collate : string → string → bool) (float_text : string → option float) (float_repr : float → string) (str_of : json → string).

Definition NODE_TYPE_PO_LINE : string := "PO_LINE".
Definition _PROCUREMENT_ENGINE : string := "procurement".
Definition nonempty (o : option string) : option string := match o with Some s => if String.eqb s "" then None else Some s | None => None end.
(** [COALESCE] *)
Definition coalesce {A} (a b : option A) : option A := match a with Some _ => a | None => b end.
Definition status_transition (s : POLineStatus) : option string := Some ("status:" +:+ lower (status_value s)).

Record line_view := LineView {
  v_po_number : string; v_line_ref : string; v_po_line_label : string; v_status : POLineStatus;
  v_project_id : option string; v_bom_line_label : option string; v_project_value : option float
}.

(** The [INSERT … ON CONFLICT DO UPDATE] on a node and on a line: the status of a
    line that exists stays. *)
Definition upsert_node (entity_type : string) (source_id : option string) (old : option graph_node) : option graph_node :=
  match old with
  | None => Some (GraphNode entity_type source_id)
  | Some n => Some (GraphNode (n_entity_type n) (coalesce source_id (n_source_id n)))
  end.
Definition upsert_line (new : line) (old : option line) : option line :=
  match old with
  | None => Some new
  | Some o => Some (Line (coalesce (l_project_id new) (l_project_id o)) (coalesce (l_bom_line_label new) (l_bom_line_label o))
                         (coalesce (l_artnr new) (l_artnr o)) (l_quantity new) (l_unit_price new) (l_line_total new) (l_status o))
  end.
Definition numeric_or_null (precision scale : Z) (x : option float) : option (option Num) :=
  match x with None => Some None | Some x => Some <$> numeric precision scale x end.
Definition column {A} (o : option A) : po_tx A := match o with Some a => mret a | None => fail DataError end.

Definition upsert_po_line_node (ns po_number line_ref : string) (bom_line_label project_id artnr : option string)
    (quantity : float) (unit_price line_total : option float) (status : status_arg) (source_id : option string) : po_tx line_view :=
  status_enum ← lift (as_status status);
  assert_owner ns NODE_TYPE_PO_LINE _PROCUREMENT_ENGINE (status_transition status_enum) ≫= λ _,
  let lbl := po_line_label po_number line_ref in
  let calculated_total := match line_total with Some t => Some t | None => (λ p, fmul p quantity) <$> unit_price end in
  modify (set_nodes (partial_alter (upsert_node NODE_TYPE_PO_LINE source_id) (ns, lbl))) ≫= λ _,
  modify (set_edges (λ es, {[(ns, _po_label po_number, "contains"%string, lbl)]} ∪ es)) ≫= λ _,
  (match nonempty bom_line_label with
   | Some bom => modify (set_edges (λ es, {[(ns, lbl, "fulfills"%string, bom)]} ∪ es))
   | None => mret ()
   end) ≫= λ _,
  q ← column (numeric 14 4 quantity);
  p ← column (numeric_or_null 18 2 unit_price);
  t ← column (numeric_or_null 18 2 calculated_total);
  modify (set_lines (partial_alter (upsert_line (Line project_id bom_line_label artnr q p t status_enum)) (ns, po_number, line_ref))) ≫= λ _,
  mret (LineView po_number line_ref lbl status_enum project_id bom_line_label None).

Definition fresh_uuid : po_tx string := n ← gets po_uuids; modify (set_uuids S) ≫= λ _, mret (gen_random_uuid n).
Definition publish_event (now : Z) (ns node_type op aggregate_id : string) (payload : json) : po_tx () :=
  hooks ← gets po_webhooks;
  if consumed OUTBOX_HANDLERS hooks ns (_selector_key node_type op) then
    id ← fresh_uuid;
    modify (set_outbox (publish OUTBOX_HANDLERS hooks id now ns node_type op aggregate_id payload))
  else mret ().

(** The payload the project module expects. *)
Definition status_payload (ns po_number line_ref : string) (project_id bom_line_label : option string)
    (nxt : POLineStatus) (project_value : option float) : json :=
  JObj [("namespace_id", JStr ns); ("po_number", JStr po_number); ("line_ref", JStr line_ref);
        ("project_id", JStr (default "" project_id)); ("bom_line_label", JStr (default "" bom_line_label));
        ("id", JStr (default "" bom_line_label)); ("status", JStr (status_value nxt));
        ("project_value", match project_value with Some v => JFloat (float_repr v) | None => JNull end)]%string.

(** [between]: what other transactions commit between the read and the update,
    which names no status. *)
Definition update_po_line_status (between : po_db → po_db) (now : Z) (ns po_number line_ref : string)
    (new_status : status_arg) (current_status : option status_arg) (project_id bom_line_label : option string)
    (project_value : option float) : po_tx line_view :=
  row ← gets (λ d, po_lines d !! (ns, po_number, line_ref));
  let effective_current := coalesce current_status ((λ r, Member (l_status r)) <$> row) in
  let effective_project_id := coalesce project_id (row ≫= l_project_id) in
  let effective_bom_line_label := coalesce bom_line_label (row ≫= l_bom_line_label) in
  lift (match effective_current with Some c => validate_status_transition c new_status | None => Ok () end) ≫= λ _,
  nxt ← lift (as_status new_status);
  assert_owner ns NODE_TYPE_PO_LINE _PROCUREMENT_ENGINE (status_transition nxt) ≫= λ _,
  modify between ≫= λ _,
  let lbl := po_line_label po_number line_ref in
  modify (set_lines (alter (λ r, Line (coalesce effective_project_id (l_project_id r)) (coalesce effective_bom_line_label (l_bom_line_label r))
                                      (l_artnr r) (l_quantity r) (l_unit_price r) (l_line_total r) nxt) (ns, po_number, line_ref))) ≫= λ _,
  publish_event now ns NODE_TYPE_PO_LINE "status_changed" lbl
    (status_payload ns po_number line_ref effective_project_id effective_bom_line_label nxt project_value) ≫= λ _,
  mret (LineView po_number line_ref lbl nxt effective_project_id effective_bom_line_label project_value).

(** ** Transports

    [place_order] acts on the supplier's side, and answers or raises. *)
Record order := Order {
  o_po_number : string; o_supplier_id : string; o_line_items : list json; o_namespace_id : string; o_idempotency_key : string
}.
Section transports.
Context {World : Type}.
Definition PoTransport : Type := World → order → World * option json.
Definition NettailerPoTransport : PoTransport := λ w _, (w, None).
Definition NetsetPoTransport : PoTransport := λ w _, (w, None).
Definition ManualPoTransport : PoTransport := λ w o,
  (w, Some (JObj [("status", JStr "placed"); ("method", JStr "manual"); ("po_number", JStr (o_po_number o));
                  ("supplier_id", JStr (o_supplier_id o)); ("line_count", JInt (Z.of_nat (length (o_line_items o))));
                  ("idempotency_key", JStr (o_idempotency_key o))]%string)).
End transports.

(** ** Placing an order *)

(** [float(v)]; an integer beyond the floats raises. *)
Definition py_float (v : json) : option float :=
  match v with
  | JInt z => match of_Z z with SpecFloat.S754_infinity _ => None | x => Some x end
  | JBool b => Some (of_Z (if b then 1 else 0))
  | JFloat t | JStr t => float_text t
  | _ => None
  end.
Definition json_or (v w : json) : json := if json_truthy v then v else w.
(** A [TEXT] parameter: [None] or a string. *)
Definition text_param (v : json) : po_tx (option string) :=
  match v with JNull => mret None | JStr s => mret (Some s) | _ => fail DataError end.
Definition to_float (v : json) : po_tx float := match py_float v with Some x => mret x | None => fail TypeError end.

Definition draft_line (ns po_number : string) (idx : nat) (item : json) : po_tx line_view :=
  match item with
  | JObj l =>
      let get k := default JNull (json_get k l) in
      let l_ref := json_str str_of (default (JInt (Z.of_nat idx)) (json_get "line_ref" l)) in
      b_ref ← text_param (json_or (get "bom_line_ref") (get "bom_line_label"));
      sku ← text_param (json_or (get "sku") (get "artnr"));
      u_price ← to_float (json_or (get "unit_price") (JFloat "0.0"));
      qty ← to_float (json_or (json_or (get "qty") (get "quantity")) (JInt 1));
      upsert_po_line_node ns po_number l_ref b_ref None sku qty (Some u_price) (Some (fmul qty u_price)) (Member DRAFT) None
  | _ => fail TypeError
  end%string.

(** [SELECT line_ref, project_id, bom_line_label … ORDER BY line_ref] *)
Definition fetched : Type := string * option string * option string.
Definition lines_of (ns po_number : string) (d : po_db) : list fetched :=
  sorted_by (λ a b, collate a.1.1 b.1.1)
    (omap (λ kl, if String.eqb kl.1.1.1 ns && String.eqb kl.1.1.2 po_number
                 then Some (kl.1.2, l_project_id kl.2, l_bom_line_label kl.2) else None) (map_to_list (po_lines d))).

(** The body of [_governed_place_po] after the order was placed. *)
Definition order_lines (between : string → po_db → po_db) (now : Z) (ns po_number : string) (line_items : list json) (po_value : float) :
    po_tx (list line_view) :=
  rows ← gets (lines_of ns po_number);
  rows ← (match rows, line_items with
          | [], _ :: _ =>
              tx_for (imap (λ i item, (S i, item)) line_items) (λ ii, draft_line ns po_number ii.1 ii.2) ≫= λ _,
              gets (lines_of ns po_number)
          | _, _ => mret rows
          end);
  tx_for rows (λ r, update_po_line_status (between r.1.1) now ns po_number r.1.1 (Member ORDERED) None r.1.2 r.2 (Some po_value)).

(** ** The submission *)
Section submit.
Context {World Log Env Agr : Type} `{!AuditLog Log Env}.
Context (sha256 : string → string) (PO_CEILING : float) (json_loads : string → option json).
(** The audit that the agreements engine exports: it commits on its own, and answers
    whether the rebate is approved, or raises. *)
Context (do_run_compliance_audit : Agr → string → json → json → json → option (Agr * bool)).
Abbreviation gdb := (@gov_db Log po_db).

Definition _ACTION_TYPE_SUBMIT : string := "submit_po".
Definition _PO_AGENT_ID : string := "procurement.submit_po".
Definition _derive_submit_idempotency_key (namespace_id po_number : string) : string :=
  "submit:" +:+ sha256 (json_dumps_compact (JObj [("namespace_id", JStr namespace_id); ("po_number", JStr po_number)]%string)).

Record submission := Submission {
  sb_namespace_id : string;
  sb_idempotency_key : string;
  sb_confirm : bool;
  sb_po_number : string;
  sb_supplier_id : string;
  sb_line_items : list json;
  sb_po_value : float;
  sb_rebate_override : bool;
  sb_rebate_amount : json;
  sb_transport : option (string * @PoTransport World);   (* with its [str] *)
  sb_a2a_client : option (option json);                  (* what [call_tool] answers, or it raises *)
  sb_redis_client : option redis
}.
(** What [engine.modules] gives for the agreements engine. *)
Inductive modules := NoModules | EngineDisabled | EngineUnavailable | NotExported | Exported.
Inductive audit_error := NotProvided | Disabled | NotInRegistry | NoFunction | RejectedOverride | Raised.
(** The rest of a call's surroundings: the connection, the event log's arguments, the
    queue's fresh id, the clock, concurrent commits, the texts of exceptions. *)
Record surroundings := Surroundings {
  su_in_tx : bool;
  su_modules : modules;
  su_env : Env; su_env' : Env; su_env'' : Env;
  su_fresh_id : string;
  su_now : Z;
  su_between : string → po_db → po_db;
  su_detail : audit_error → string
}.
Record submitted := Submitted {
  sd_po_number : string; sd_supplier_id : string; sd_transport_result : json; sd_ordered_lines : list line_view
}.
Inductive submit_outcome := RebateGated (decision : string) (why : audit_error) | Gate (o : outcome submitted).
Inductive submit_error := DecisionNotRecorded | GateError (e : gov_error).

Definition _audit_rebate_decision (env : Env) (db : gdb) (namespace_id po_number decision why : string) : option gdb :=
  l ← audit_append env (audit db) namespace_id _PO_AGENT_ID "config_changed"
        [("actor", JStr _PO_AGENT_ID);
         ("changes", JObj [("event", JStr "rebate_compliance_audit"); ("po_number", JStr po_number);
                           ("decision", JStr decision); ("detail", JStr why)])]%string;
  Some (GovDb (action_idempotency db) (action_approval_queue db) l (app_state db)).

Definition approves (r : json) : result audit_error () :=
  match r with JObj l => ensure (json_truthy (default JNull (json_get "approved" l))) RejectedOverride | _ => raise Raised end.
Definition _call_agreements_compliance_audit (m : modules) (a2a_client : option (option json)) (agr : Agr)
    (po_number supplier_id : string) (rebate_amount : json) (namespace_id : string) : Agr * result audit_error () :=
  match m with
  | EngineDisabled => (agr, raise Disabled)
  | EngineUnavailable => (agr, raise NotInRegistry)
  | NotExported => (agr, raise NoFunction)
  | Exported =>
      match do_run_compliance_audit agr namespace_id (JStr po_number) (JStr supplier_id) rebate_amount with
      | Some (agr', approved) => (agr', ensure approved RejectedOverride)
      | None => (agr, raise Raised)
      end
  | NoModules =>
      (agr, match a2a_client with
            | None => raise NotProvided
            | Some None => raise Raised
            | Some (Some (JStr t)) => match json_loads t with Some r => approves r | None => raise Raised end
            | Some (Some r) => approves r
            end)
  end.

(** The arguments of the governed call; a value's [str] matters to no decision. *)
Fixpoint pyval_of (v : json) : pyval :=
  match v with
  | JNull => PNone
  | JBool b => PBool b
  | JInt z => PInt z
  | JFloat r => PFloat r
  | JStr s => PStr s
  | JArr l => PSeq (map pyval_of l) (str_of v)
  | JObj l => PDict (map (λ kv, (kv.1, pyval_of kv.2)) l) (str_of v)
  end.
Definition place_args (s : submission) : list (string * pyval) :=
  [("namespace_id", PStr (sb_namespace_id s)); ("idempotency_key", PStr (sb_idempotency_key s)); ("confirm", PBool (sb_confirm s));
   ("po_number", PStr (sb_po_number s)); ("supplier_id", PStr (sb_supplier_id s));
   ("line_items", pyval_of (JArr (sb_line_items s))); ("po_value", PFloat (float_repr (sb_po_value s)));
   ("transport", match sb_transport s with Some t => PObj t.1 | None => PNone end)]%string.
Definition place_call (s : submission) (e : surroundings) (h : po_db → option (submitted * po_db)) : @gov_call Env po_db submitted :=
  GovCall _ACTION_TYPE_SUBMIT h (place_args s) (Some (su_in_tx e)) (sb_redis_client s) (Some (sb_namespace_id s))
    (PStr (sb_idempotency_key s)) (sb_confirm s)
    (PolicyArgs (Some (sb_po_value s)) (Some PO_CEILING) None None None None None None None None None None)
    (su_env e) (su_fresh_id e).

(** The body, once the transport has answered. *)
Definition place_body (s : submission) (e : surroundings) (reply : option json) (d : po_db) : option (submitted * po_db) :=
  match reply with
  | None => None
  | Some r =>
      match order_lines (su_between e) (su_now e) (sb_namespace_id s) (sb_po_number s) (sb_line_items s) (sb_po_value s) d with
      | Ok (d', lines) => Some (Submitted (sb_po_number s) (sb_supplier_id s) r lines, d')
      | Err _ => None
      end
  end.
(** Does the gate call its handler?  Then a handler that raises makes it fail so. *)
Definition calls_handler (c : (po_db → option (submitted * po_db)) → @gov_call Env po_db submitted) (seen1 seen2 now : gdb) : bool :=
  match governed (c (λ _, None)) seen1 seen2 now with Err HandlerError => true | _ => false end.
Definition order_of (s : submission) : order :=
  Order (sb_po_number s) (sb_supplier_id s) (sb_line_items s) (sb_namespace_id s) (sb_idempotency_key s).
Definition _governed_place_po (s : submission) (e : surroundings) (w : World) (seen1 seen2 now : gdb) :
    World * result gov_error (gdb * outcome submitted) :=
  let _transport := match sb_transport s with Some t => t.2 | None => NetsetPoTransport end in
  let '(w', reply) := _transport w (order_of s) in
  (if calls_handler (place_call s e) seen1 seen2 now then w' else w,
   governed (place_call s e (place_body s e reply)) seen1 seen2 now).

Definition gate_result (r : result gov_error (gdb * outcome submitted)) : result submit_error (gdb * submit_outcome) :=
  match r with Ok (db, o) => Ok (db, Gate o) | Err x => raise (GateError x) end.
Definition do_submit_po (s : submission) (e : surroundings) (agr : Agr) (w : World) (seen1 seen2 now : gdb) :
    Agr * World * result submit_error (gdb * submit_outcome) :=
  if sb_rebate_override s && sb_confirm s then
    let '(agr, checked) :=
      _call_agreements_compliance_audit (su_modules e) (sb_a2a_client s) agr (sb_po_number s) (sb_supplier_id s) (sb_rebate_amount s)
        (sb_namespace_id s) in
    let recorded := _audit_rebate_decision (su_env' e) now (sb_namespace_id s) (sb_po_number s) "approved"
                      "Agreements compliance-audit approved rebate override." in
    match (match checked, recorded with Ok _, Some now => inl now | Ok _, None => inr Raised | Err x, _ => inr x end) with
    | inl now => let '(w, r) := _governed_place_po s e w seen1 seen2 now in (agr, w, gate_result r)
    | inr x =>
        let decision : string := if contains "rejected" (lower (su_detail e x)) then "rejected" else "unavailable" in
        (agr, w, match _audit_rebate_decision (su_env'' e) now (sb_namespace_id s) (sb_po_number s) decision (su_detail e x) with
                 | Some now => Ok (now, RebateGated decision x)
                 | None => raise DecisionNotRecorded
                 end)
    end
  else let '(w, r) := _governed_place_po s e w seen1 seen2 now in (agr, w, gate_result r).

(** ** The tool *)
Record submit_arguments := SubmitArguments {
  a_namespace_id : string; a_po_number : json; a_supplier_id : json; a_line_items : list json; a_po_value : json;
  a_rebate_override : json; a_rebate_amount : json; a_confirm : json; a_idempotency_key : json; a_transport_method : json
}.
(** [str(v or d)] *)
Definition text_or (d : string) (v : json) : string := json_str str_of (json_or v (JStr d)).
(** [None]: [ValueError] or [TypeError]. *)
Definition handle_procurement_submit_po (a : submit_arguments) (a2a_client : option (option json)) (redis_client : option redis) (text : string) :
    option submission :=
  let po_number := strip (text_or "" (a_po_number a)) in
  if String.eqb po_number "" then None else
  po_value ← py_float (json_or (a_po_value a) (JFloat "0.0"));
  rebate_amount ← py_float (json_or (a_rebate_amount a) (JFloat "0.0"));
  let given := strip (text_or "" (a_idempotency_key a)) in
  let key := if String.eqb given "" then _derive_submit_idempotency_key (a_namespace_id a) po_number else given in
  let transport_method := strip (lower (text_or "manual" (a_transport_method a))) in
  Some (Submission (a_namespace_id a) key (json_truthy (a_confirm a)) po_number (strip (text_or "DEFAULT" (a_supplier_id a)))
          (a_line_items a) po_value (json_truthy (a_rebate_override a)) (JFloat (float_repr rebate_amount))
          (Some (text, if String.eqb transport_method "netset" then NetsetPoTransport else ManualPoTransport)) a2a_client redis_client).
End submit.
End purchase_orders.
Arguments po_db Num : clear implicits.
Arguments line Num : clear implicits.
Arguments submission World : clear implicits.
