(* ===== verification/PurchaseOrdersProps.v ===== *)
(** * PurchaseOrdersProps: an order leaves once, with consent, and its lines follow *)
From S2P Require Import Prelude PyFloat PyText PyStr Txn AuditLog Policy OutboxRelay EventBus EventTypes EventLog EventLogFacts EventLogProps Governor GovernorProps PurchaseOrders.
Local Open Scope Z_scope.

(** ** The status machine *)
Definition status_step (a b : POLineStatus) : Prop := b ∈ ALLOWED_TRANSITIONS a.

Lemma validate_ok c n u : validate_status_transition c n = Ok u →
  ∃ cur nxt, as_status c = Ok cur ∧ as_status n = Ok nxt ∧ (nxt = cur ∨ status_step cur nxt).
Proof.
  unfold validate_status_transition. intros (cur & Hc & (nxt & Hn & H)%bind_Ok)%bind_Ok. exists cur, nxt. split; [done|]. split; [done|].
  destruct (decide (cur = nxt)) as [->|]; [by left|]. apply ensure_Ok, bool_decide_eq_true in H. by right.
Qed.
Lemma terminal_stays a b : ALLOWED_TRANSITIONS a = [] → rtc status_step a b → b = a.
Proof. intros Ha Hr. inversion Hr as [|? x ? Hs]; subst; [done|]. unfold status_step in Hs. rewrite Ha in Hs. by apply elem_of_nil in Hs. Qed.

Section lines.
Context {Num : Type} (numeric : Z → Z → float → option Num).
Context (OUTBOX_HANDLERS : registry) (gen_random_uuid : nat → string).
Context (collate : string → string → bool) (float_text : string → option float) (float_repr : float → string) (str_of : json → string).
Implicit Types (d : po_db Num).
Abbreviation update := (update_po_line_status OUTBOX_HANDLERS gen_random_uuid float_repr).

(** Every line is still there, and its status is one that the machine reaches from
    where it was, or from one of the statuses [C]. *)
Definition moves (C : list POLineStatus) d d' : Prop :=
  ∀ k r, po_lines d !! k = Some r →
    ∃ r' origin, po_lines d' !! k = Some r' ∧ origin ∈ l_status r :: C ∧ rtc status_step origin (l_status r').
#[local] Instance moves_preorder C : PreOrder (moves C).
Proof.
  split; [intros d k r Hr; exists r, (l_status r); by split_and!; [|left|]|].
  intros d1 d2 d3 H1 H2 k r (r1 & o1 & H & Ho1 & Hs1)%H1. apply H2 in H as (r2 & o2 & ? & [->|Ho2]%elem_of_cons & Hs2).
  - exists r2, o1. by split_and!; [|done|etrans].
  - exists r2, o2. by split_and!; [|right|].
Qed.
Lemma assert_owner_ok ns ty engine tr d d' u : assert_owner ns ty engine tr d = Ok (d', u) → d' = d.
Proof.
  unfold assert_owner. intros (d1 & o & [<- <-]%gets_Ok & H)%tx_bind_Ok. destruct (_lookup_owner _ _ _ _) as [o|]; [|done].
  destruct (String.eqb o engine); [|done]. by apply tx_ret_Ok in H as [-> _].
Qed.

Lemma column_ok {A} (o : option A) d d' a : column o d = Ok (d', a) → d' = d.
Proof. unfold column. destruct o; [by intros [<- _]%tx_ret_Ok|done]. Qed.

(** The event of a status change. *)
Definition status_event (d : po_db Num) (now : Z) ns po ref (p b : option string) nxt (pv : option float) : list outbox_row :=
  if consumed OUTBOX_HANDLERS (po_webhooks d) ns (_selector_key NODE_TYPE_PO_LINE "status_changed")
  then [OutboxRow (gen_random_uuid (po_uuids d)) ns NODE_TYPE_PO_LINE (po_line_label po ref) (_selector_key NODE_TYPE_PO_LINE "status_changed")
          (status_payload float_repr ns po ref p b nxt pv) 0 None now false]
  else [].

Lemma publish_event_ok now ns ty op agg payload d d' u : publish_event OUTBOX_HANDLERS gen_random_uuid now ns ty op agg payload d = Ok (d', u) →
  po_lines d' = po_lines d ∧ po_owners d' = po_owners d ∧ po_nodes d' = po_nodes d ∧ po_edges d' = po_edges d ∧ po_webhooks d' = po_webhooks d ∧
  po_outbox d' = po_outbox d ++
    if consumed OUTBOX_HANDLERS (po_webhooks d) ns (_selector_key ty op)
    then [OutboxRow (gen_random_uuid (po_uuids d)) ns ty agg (_selector_key ty op) payload 0 None now false] else [].
Proof.
  unfold publish_event. intros (d1 & h & [<- <-]%gets_Ok & H)%tx_bind_Ok. destruct (consumed _ _ _ _) eqn:Ec.
  - apply tx_bind_Ok in H as (d2 & id & Hid & H). unfold fresh_uuid in Hid.
    apply tx_bind_Ok in Hid as (d3 & n & [<- <-]%gets_Ok & Hid). apply tx_bind_Ok in Hid as (d4 & [] & Hs%modify_Ok & [<- <-]%tx_ret_Ok).
    apply modify_Ok in H as <-. subst d4. cbn. unfold publish. by rewrite Ec.
  - apply tx_ret_Ok in H as [-> _]. by rewrite app_nil_r.
Qed.

(** One update. *)
Lemma update_between_ok between now ns po ref n cur p b pv d d' v : update between now ns po ref n cur p b pv d = Ok (d', v) →
  ∃ nxt p' b', as_status n = Ok nxt ∧
    (∀ c, coalesce cur ((λ r, Member (l_status r)) <$> po_lines d !! (ns, po, ref)) = Some c →
       ∃ s, as_status c = Ok s ∧ (nxt = s ∨ status_step s nxt)) ∧
    po_lines d' = alter (λ r, Line (coalesce p' (l_project_id r)) (coalesce b' (l_bom_line_label r)) (l_artnr r) (l_quantity r)
                                   (l_unit_price r) (l_line_total r) nxt) (ns, po, ref) (po_lines (between d)) ∧
    po_owners d' = po_owners (between d) ∧ po_nodes d' = po_nodes (between d) ∧ po_edges d' = po_edges (between d) ∧
    po_webhooks d' = po_webhooks (between d) ∧
    po_outbox d' = po_outbox (between d) ++ status_event (between d) now ns po ref p' b' nxt pv ∧
    v = LineView po ref (po_line_label po ref) nxt p' b' pv.
Proof.
  unfold update_po_line_status. intros (d1 & row & [<- <-]%gets_Ok & H)%tx_bind_Ok. cbv zeta in H.
  apply tx_bind_Ok in H as (d1 & u & [<- Hval]%lift_Ok & H). apply tx_bind_Ok in H as (d1 & nxt & [<- Hn]%lift_Ok & H).
  apply tx_bind_Ok in H as (d1 & u1 & ->%assert_owner_ok & H). apply tx_bind_Ok in H as (d1 & u2 & <-%modify_Ok & H).
  apply tx_bind_Ok in H as (d2 & u3 & <-%modify_Ok & H). apply tx_bind_Ok in H as (d3 & u4 & Hp%publish_event_ok & [<- <-]%tx_ret_Ok).
  destruct Hp as (H1 & H2 & H3 & H4 & H5 & H6). eexists nxt, _, _. split; [done|]. split.
  - intros c Hc. rewrite Hc in Hval. apply validate_ok in Hval as (s & nxt' & Hs & Hn' & ?). exists s. assert (nxt' = nxt) as -> by congruence. by split.
  - split; [exact H1|]. split; [exact H2|]. split; [exact H3|]. split; [exact H4|]. split; [exact H5|]. by split; [exact H6|].
Qed.

(** One update that claims no status, when no other transaction commits in between. *)
Lemma update_ok now ns po ref n p b pv d d' v : update id now ns po ref n None p b pv d = Ok (d', v) →
  ∃ nxt p' b', as_status n = Ok nxt ∧
    (∀ r, po_lines d !! (ns, po, ref) = Some r → nxt = l_status r ∨ status_step (l_status r) nxt) ∧
    po_lines d' = alter (λ r, Line (coalesce p' (l_project_id r)) (coalesce b' (l_bom_line_label r)) (l_artnr r) (l_quantity r)
                                   (l_unit_price r) (l_line_total r) nxt) (ns, po, ref) (po_lines d) ∧
    po_owners d' = po_owners d ∧ po_nodes d' = po_nodes d ∧ po_edges d' = po_edges d ∧ po_webhooks d' = po_webhooks d ∧
    po_outbox d' = po_outbox d ++ status_event d now ns po ref p' b' nxt pv ∧
    v = LineView po ref (po_line_label po ref) nxt p' b' pv.
Proof.
  intros (nxt & p' & b' & Hn & Hst & H)%update_between_ok. exists nxt, p', b'. split; [done|]. split; [|exact H].
  intros r Hr. rewrite Hr in Hst. by destruct (Hst _ eq_refl) as (s & [= <-] & ?).
Qed.

Lemma update_moves C between now ns po ref n cur p b pv d d' v :
  (∀ c s, cur = Some c → as_status c = Ok s → s ∈ C) → moves C d (between d) →
  update between now ns po ref n cur p b pv d = Ok (d', v) → moves C d d'.
Proof.
  intros HC Hb (nxt & p' & b' & Hn & Hst & Hl & _)%update_between_ok k r Hr. destruct (Hb k r Hr) as (r1 & o & Hr1 & Ho & Hs). rewrite Hl.
  destruct (decide (k = (ns, po, ref))) as [->|Hne].
  2:{ exists r1, o. by rewrite lookup_alter_ne. }
  rewrite lookup_alter_eq, Hr1, Hr in *. destruct cur as [c|]; cbn in Hst.
  - destruct (Hst c eq_refl) as (s & Hcs & Hnxt). eexists _, s. split; [done|]. split; [right; by eapply HC|].
    cbn. destruct Hnxt as [->|?]; [done|by apply rtc_once].
  - destruct (Hst _ eq_refl) as (s & [= <-] & Hnxt). eexists _, (l_status r). split; [done|]. split; [by left|].
    cbn. destruct Hnxt as [->|?]; [done|by apply rtc_once].
Qed.

Lemma upsert_ok ns po ref bom p a q up lt st src d d' v :
  upsert_po_line_node numeric ns po ref bom p a q up lt st src d = Ok (d', v) →
  ∃ new, po_lines d' = partial_alter (upsert_line new) (ns, po, ref) (po_lines d) ∧ as_status st = Ok (l_status new) ∧
    po_owners d' = po_owners d ∧ po_outbox d' = po_outbox d ∧ po_webhooks d' = po_webhooks d.
Proof.
  unfold upsert_po_line_node. intros (d1 & s & [<- Hs]%lift_Ok & H)%tx_bind_Ok. apply tx_bind_Ok in H as (d1 & u1 & ->%assert_owner_ok & H).
  cbv zeta in H. apply tx_bind_Ok in H as (d1 & u2 & <-%modify_Ok & H). apply tx_bind_Ok in H as (d2 & u3 & <-%modify_Ok & H).
  apply tx_bind_Ok in H as (d3 & u4 & Hf & H).
  assert (po_lines d3 = po_lines d ∧ po_owners d3 = po_owners d ∧ po_outbox d3 = po_outbox d ∧ po_webhooks d3 = po_webhooks d) as (E1 & E2 & E3 & E4).
  { destruct (nonempty bom); [by apply modify_Ok in Hf as <-|by apply tx_ret_Ok in Hf as [<- _]]. }
  apply tx_bind_Ok in H as (d4 & q' & ->%column_ok & H). apply tx_bind_Ok in H as (d4 & p' & ->%column_ok & H).
  apply tx_bind_Ok in H as (d4 & t' & ->%column_ok & H). apply tx_bind_Ok in H as (d4 & u5 & <-%modify_Ok & [<- _]%tx_ret_Ok).
  eexists. cbn. rewrite E1. by split_and!.
Qed.
Lemma upsert_moves C ns po ref bom p a q up lt st src : respects (moves C) (upsert_po_line_node numeric ns po ref bom p a q up lt st src).
Proof.
  intros d d' v (new & Hl & _)%upsert_ok. intros k r Hr. rewrite Hl. destruct (decide (k = (ns, po, ref))) as [->|Hne].
  - rewrite lookup_partial_alter_eq, Hr. eexists _, (l_status r). by split; [|split; [left|]].
  - rewrite lookup_partial_alter_ne by done. exists r, (l_status r). by split_and!; [|left|].
Qed.

(** ** The lines of an order *)
Lemma elem_of_lines_of ns po d r : r ∈ lines_of collate ns po d ↔
  ∃ ln, po_lines d !! (ns, po, r.1.1) = Some ln ∧ r.1.2 = l_project_id ln ∧ r.2 = l_bom_line_label ln.
Proof.
  unfold lines_of. rewrite elem_of_sorted_by, list_elem_of_omap. split.
  - intros ([[[n p] ref] ln] & Hin%elem_of_map_to_list & H). cbn in H.
    destruct (String.eqb n ns) eqn:E1; [|done]. destruct (String.eqb p po) eqn:E2; [|done].
    apply String.eqb_eq in E1 as ->. apply String.eqb_eq in E2 as ->. injection H as <-. by exists ln.
  - intros (ln & Hl & E1 & E2). exists ((ns, po, r.1.1), ln). split; [by apply elem_of_map_to_list|].
    cbn. rewrite !String.eqb_refl, <- E1, <- E2. by destruct r as [[? ?] ?].
Qed.
Lemma line_refs_NoDup ns po d : NoDup ((λ r, r.1.1) <$> lines_of collate ns po d).
Proof.
  unfold lines_of. rewrite sorted_by_perm. pose proof (NoDup_fst_map_to_list (po_lines d)) as Hnd.
  induction (map_to_list (po_lines d)) as [|[[[n p] ref] ln] l IH]; [constructor|].
  cbn in Hnd. apply NoDup_cons in Hnd as [Hni Hnd]. specialize (IH Hnd). cbn.
  destruct (String.eqb n ns) eqn:E1; [|done]. destruct (String.eqb p po) eqn:E2; [|done]. cbn.
  apply String.eqb_eq in E1 as ->. apply String.eqb_eq in E2 as ->.
  constructor; [|done]. intros (r & -> & Hr)%list_elem_of_fmap. apply Hni.
  apply list_elem_of_omap in Hr as ([[[n' p'] ref'] ln'] & Hin & H). cbn in H.
  destruct (String.eqb n' ns) eqn:E1; [|done]. destruct (String.eqb p' po) eqn:E2; [|done]. injection H as <-.
  apply String.eqb_eq in E1 as ->. apply String.eqb_eq in E2 as ->. apply list_elem_of_fmap. by exists (ns, po, ref', ln').
Qed.

(** Drafting adds lines of this order, in [DRAFT]. *)
Record drafts (ns po : string) (d d' : po_db Num) : Prop := {
  dr_other k : k.1 ≠ (ns, po) → po_lines d' !! k = po_lines d !! k;
  dr_keeps k r : po_lines d !! k = Some r → ∃ r', po_lines d' !! k = Some r' ∧ l_status r' = l_status r;
  dr_new k r' : po_lines d' !! k = Some r' → po_lines d !! k = None → l_status r' = DRAFT;
  dr_outbox : po_outbox d' = po_outbox d;
  dr_webhooks : po_webhooks d' = po_webhooks d
}.
#[local] Instance drafts_preorder ns po : PreOrder (drafts ns po).
Proof.
  split; [by intros d; split; [|eauto|congruence|..]|]. intros d1 d2 d3 H1 H2. split.
  - intros k Hk. by rewrite (dr_other _ _ _ _ H2 k Hk), (dr_other _ _ _ _ H1 k Hk).
  - intros k r Hr. destruct (dr_keeps _ _ _ _ H1 _ _ Hr) as (r1 & Hr1 & <-). by apply (dr_keeps _ _ _ _ H2).
  - intros k r3 Hr3 Hn. destruct (po_lines d2 !! k) as [r2|] eqn:E2; [|by apply (dr_new _ _ _ _ H2 _ _ Hr3)].
    destruct (dr_keeps _ _ _ _ H2 _ _ E2) as (r3' & Hr3' & Hs). replace r3 with r3' by congruence. rewrite Hs. by apply (dr_new _ _ _ _ H1 k).
  - by rewrite (dr_outbox _ _ _ _ H2), (dr_outbox _ _ _ _ H1).
  - by rewrite (dr_webhooks _ _ _ _ H2), (dr_webhooks _ _ _ _ H1).
Qed.
Lemma upsert_drafts ns po ref bom p a q up lt src : respects (drafts ns po) (upsert_po_line_node numeric ns po ref bom p a q up lt (Member DRAFT) src).
Proof.
  intros d d' v (new & Hl & [= Hs] & _ & Ho & Hw)%upsert_ok. split; [..|done|done]; intros k; rewrite ?Hl.
  - intros Hk. apply lookup_partial_alter_ne. by intros <-.
  - intros r Hr. destruct (decide (k = (ns, po, ref))) as [->|Hne].
    + rewrite lookup_partial_alter_eq, Hr. by eexists.
    + rewrite lookup_partial_alter_ne by done. by exists r.
  - intros r' Hr' Hn. destruct (decide (k = (ns, po, ref))) as [->|Hne].
    + rewrite lookup_partial_alter_eq, Hn in Hr'. by injection Hr' as <-.
    + rewrite lookup_partial_alter_ne in Hr' by done. congruence.
Qed.
Lemma draft_line_drafts ns po idx item : respects (drafts ns po) (draft_line numeric float_text str_of ns po idx item).
Proof.
  assert (∀ v, respects (drafts ns po) (text_param (Num:=Num) v)) as Ht.
  { intros v. destruct v; try apply respects_fail; apply respects_ret; apply _. }
  assert (∀ v, respects (drafts ns po) (to_float (Num:=Num) float_text v)) as Hf.
  { intros v. unfold to_float. destruct (py_float _ _); [apply respects_ret; apply _|apply respects_fail]. }
  unfold draft_line. destruct item; try apply respects_fail. cbv zeta.
  repeat (apply respects_bind; [apply _|apply Ht || apply Hf|intros ?]). apply upsert_drafts.
Qed.

(** Advancing a list of lines to [ORDERED]. *)
Abbreviation advance_line now ns po pv r :=
  (update id now ns po (fst (fst r)) (Member ORDERED) None (snd (fst r)) (snd r) (Some pv)).
Definition status_at d k : option POLineStatus := l_status <$> po_lines d !! k.
Definition orderable (s : POLineStatus) : Prop := s = DRAFT ∨ s = ORDERED.
Definition consumes d ns : bool := consumed OUTBOX_HANDLERS (po_webhooks d) ns (_selector_key NODE_TYPE_PO_LINE "status_changed").
Lemma to_ordered s : ORDERED = s ∨ status_step s ORDERED → orderable s.
Proof.
  intros [<-|H]; [by right|]. unfold status_step in H. destruct s; cbn in H; [by left|by right|..]; by apply elem_of_nil in H.
Qed.

Record ordered (ns po : string) (refs : list string) (d d' : po_db Num) (vs : list line_view) : Prop := {
  or_other k : (∀ ref, ref ∈ refs → k ≠ (ns, po, ref)) → po_lines d' !! k = po_lines d !! k;
  or_line ref s : ref ∈ refs → status_at d (ns, po, ref) = Some s → orderable s ∧ status_at d' (ns, po, ref) = Some ORDERED;
  or_none k : po_lines d !! k = None → po_lines d' !! k = None;
  or_views : (λ v, (v_line_ref v, v_status v)) <$> vs = (λ ref, (ref, ORDERED)) <$> refs;
  or_webhooks : po_webhooks d' = po_webhooks d;
  or_events : ∃ evs, po_outbox d' = po_outbox d ++ evs ∧
    (λ ev, (ob_namespace_id ev, ob_aggregate_id ev, ob_event_type ev)) <$> evs =
    if consumes d ns then (λ ref, (ns, po_line_label po ref, "PO_LINE.status_changed"%string)) <$> refs else []
}.
Lemma advance_line_ordered now ns po pv r d d' v : advance_line now ns po pv r d = Ok (d', v) → ordered ns po [r.1.1] d d' [v].
Proof.
  intros (nxt & p' & b' & [= <-] & Hst & Hl & _ & _ & _ & Hw & Ho & ->)%update_ok. split.
  - intros k Hk. rewrite Hl. apply lookup_alter_ne. intros <-. by apply (Hk r.1.1); [left|].
  - intros ref s ->%list_elem_of_singleton. unfold status_at. rewrite Hl, lookup_alter_eq. destruct (po_lines d !! _) as [ln|] eqn:E; [|done].
    intros [= <-]. split; [apply to_ordered; by apply Hst|done].
  - intros k Hk. rewrite Hl. destruct (decide (k = (ns, po, r.1.1))) as [->|]; [by rewrite lookup_alter_eq, Hk|by rewrite lookup_alter_ne].
  - done.
  - done.
  - eexists. split; [exact Ho|]. unfold status_event, consumes. by destruct (consumed _ _ _ _).
Qed.
Lemma ordered_app ns po refs refs' d d1 d2 vs vs' :
  ordered ns po refs d d1 vs → ordered ns po refs' d1 d2 vs' → ordered ns po (refs ++ refs') d d2 (vs ++ vs').
Proof.
  intros H1 H2. split.
  - intros k Hk. rewrite (or_other _ _ _ _ _ _ H2), (or_other _ _ _ _ _ _ H1); [done|..]; intros ref Hr; apply Hk, elem_of_app; auto.
  - intros ref s Href Hs. destruct (decide (ref ∈ refs)) as [Hin|Hin].
    + destruct (or_line _ _ _ _ _ _ H1 ref s Hin Hs) as [Hord H1']. split; [done|]. destruct (decide (ref ∈ refs')) as [Hin'|Hin'].
      * by apply (or_line _ _ _ _ _ _ H2 ref ORDERED).
      * unfold status_at. rewrite (or_other _ _ _ _ _ _ H2); [done|]. intros ref' Hr' [= ->]. done.
    + apply elem_of_app in Href as [?|Href]; [done|]. apply (or_line _ _ _ _ _ _ H2); [done|].
      unfold status_at. rewrite (or_other _ _ _ _ _ _ H1); [done|]. intros ref' Hr' [= ->]. done.
  - intros k Hk. by apply (or_none _ _ _ _ _ _ H2), (or_none _ _ _ _ _ _ H1).
  - by rewrite !fmap_app, (or_views _ _ _ _ _ _ H1), (or_views _ _ _ _ _ _ H2).
  - by rewrite (or_webhooks _ _ _ _ _ _ H2), (or_webhooks _ _ _ _ _ _ H1).
  - destruct (or_events _ _ _ _ _ _ H1) as (e1 & E1 & F1), (or_events _ _ _ _ _ _ H2) as (e2 & E2 & F2).
    exists (e1 ++ e2). rewrite E2, E1, app_assoc. split; [done|]. rewrite fmap_app, F1, F2.
    unfold consumes. rewrite (or_webhooks _ _ _ _ _ _ H1). destruct (consumed _ _ _ _); [by rewrite fmap_app|done].
Qed.
Lemma ordered_nil ns po d : ordered ns po [] d d [].
Proof. split; try done. - by intros ? ? ?%elem_of_nil. - exists []. rewrite app_nil_r. split; [done|]. by destruct (consumes _ _). Qed.
Lemma advance_lines_ordered now ns po pv rows d d' vs :
  tx_for rows (λ r, advance_line now ns po pv r) d = Ok (d', vs) → ordered ns po ((λ r, r.1.1) <$> rows) d d' vs.
Proof.
  revert d d' vs. induction rows as [|r rows IH]; intros d d' vs H; cbn [tx_for] in H.
  - apply tx_ret_Ok in H as [<- <-]. apply ordered_nil.
  - apply tx_bind_Ok in H as (d1 & v & Hv%advance_line_ordered & H). apply tx_bind_Ok in H as (d2 & vs' & Hvs%IH & [<- <-]%tx_ret_Ok).
    exact (ordered_app _ _ _ _ _ _ _ _ _ Hv Hvs).
Qed.

(** Ordering the lines of a purchase order, with nothing else committing meanwhile. *)
Lemma order_lines_ordered now ns po items pv d d' vs :
  order_lines numeric OUTBOX_HANDLERS gen_random_uuid collate float_text float_repr str_of (λ _, id) now ns po items pv d = Ok (d', vs) →
  ∃ d1, drafts ns po d d1 ∧ (lines_of collate ns po d ≠ [] ∨ items = [] → d1 = d) ∧
    ordered ns po ((λ r, r.1.1) <$> lines_of collate ns po d1) d1 d' vs.
Proof.
  unfold order_lines. intros (d0 & rows & [<- <-]%gets_Ok & H)%tx_bind_Ok. apply tx_bind_Ok in H as (d1 & rows & Hr & H).
  apply advance_lines_ordered in H. exists d1.
  assert (drafts ns po d d1 ∧ rows = lines_of collate ns po d1 ∧ (lines_of collate ns po d ≠ [] ∨ items = [] → d1 = d)) as (? & -> & ?); [|done].
  destruct (lines_of collate ns po d) as [|l0 ls] eqn:El; [|by apply tx_ret_Ok in Hr as [<- <-]].
  destruct items as [|i0 items]; [by apply tx_ret_Ok in Hr as [<- <-]|].
  apply tx_bind_Ok in Hr as (d2 & vs' & Hd & [<- <-]%gets_Ok). split; [|split; [done|by intros [?|?]]].
  refine (respects_for _ _ _ _ _ _ _ Hd). intros [i it]. apply draft_line_drafts.
Qed.

(** What was there, what is there now, and what was published. *)
Lemma order_lines_effect now ns po items pv d d' vs :
  order_lines numeric OUTBOX_HANDLERS gen_random_uuid collate float_text float_repr str_of (λ _, id) now ns po items pv d = Ok (d', vs) →
  let refs := v_line_ref <$> vs in
  (∀ k, k.1 ≠ (ns, po) → po_lines d' !! k = po_lines d !! k) ∧
  (∀ ref, is_Some (po_lines d !! (ns, po, ref)) → is_Some (po_lines d' !! (ns, po, ref))) ∧
  (∀ ref l', po_lines d' !! (ns, po, ref) = Some l' → l_status l' = ORDERED ∧
     match po_lines d !! (ns, po, ref) with
     | Some l => orderable (l_status l)
     | None => lines_of collate ns po d = [] ∧ items ≠ []
     end) ∧
  NoDup refs ∧ (∀ ref, ref ∈ refs ↔ is_Some (po_lines d' !! (ns, po, ref))) ∧
  ∃ evs, po_outbox d' = po_outbox d ++ evs ∧
    (λ ev, (ob_namespace_id ev, ob_aggregate_id ev, ob_event_type ev)) <$> evs =
    if consumes d ns then (λ ref, (ns, po_line_label po ref, "PO_LINE.status_changed"%string)) <$> refs else [].
Proof.
  intros (d1 & Hd & Hsame & Ho)%order_lines_ordered refs.
  assert (refs = (λ r, r.1.1) <$> lines_of collate ns po d1) as ->.
  { pose proof (or_views _ _ _ _ _ _ Ho) as Hv. apply (f_equal (fmap fst)) in Hv. rewrite <- !list_fmap_compose in Hv.
    exact Hv. }
  assert (∀ ref, ref ∈ (λ r, r.1.1) <$> lines_of collate ns po d1 ↔ is_Some (po_lines d1 !! (ns, po, ref))) as Hrefs.
  { intros ref. rewrite list_elem_of_fmap. setoid_rewrite elem_of_lines_of. split.
    - intros (r & -> & ln & Hl & _). by exists ln.
    - intros [ln Hl]. by exists (ref, l_project_id ln, l_bom_line_label ln); split; [|exists ln]. }
  assert (∀ ref l1, po_lines d1 !! (ns, po, ref) = Some l1 →
    orderable (l_status l1) ∧ ∃ l', po_lines d' !! (ns, po, ref) = Some l' ∧ l_status l' = ORDERED) as Hline.
  { intros ref l1 Hl1. destruct (or_line _ _ _ _ _ _ Ho ref (l_status l1)) as [H1 H2]; [apply Hrefs; by eexists|unfold status_at; by rewrite Hl1|].
    split; [done|]. unfold status_at in H2. destruct (po_lines d' !! _) as [l'|]; [|done]. exists l'. by injection H2. }
  assert (∀ ref, is_Some (po_lines d' !! (ns, po, ref)) ↔ is_Some (po_lines d1 !! (ns, po, ref))) as Hdom.
  { intros ref. split.
    - intros [l' Hl']. destruct (po_lines d1 !! _) eqn:E; [by eexists|]. by rewrite (or_none _ _ _ _ _ _ Ho) in Hl'.
    - intros [l1 Hl1]. destruct (Hline _ _ Hl1) as (_ & l' & ? & _). by eexists. }
  split_and!.
  - intros k Hk. rewrite (or_other _ _ _ _ _ _ Ho); [by apply (dr_other _ _ _ _ Hd)|]. intros ref _ ->. done.
  - intros ref [l Hl]. apply Hdom. destruct (dr_keeps _ _ _ _ Hd _ _ Hl) as (l1 & ? & _). by eexists.
  - intros ref l' Hl'. destruct (proj1 (Hdom ref)) as [l1 Hl1]; [by eexists|]. destruct (Hline _ _ Hl1) as (Hor & l'' & Hl'' & Hs).
    split; [congruence|]. destruct (po_lines d !! (ns, po, ref)) as [l|] eqn:El.
    + destruct (dr_keeps _ _ _ _ Hd _ _ El) as (l1' & Hl1' & Hs'). congruence.
    + destruct (decide (lines_of collate ns po d ≠ [] ∨ items = [])) as [Hn|Hn]; [rewrite (Hsame Hn) in Hl1; congruence|].
      split; [destruct (lines_of collate ns po d); [done|by destruct Hn; left]|]. intros ->. apply Hn. by right.
  - apply line_refs_NoDup.
  - intros ref. by rewrite Hrefs, Hdom.
  - destruct (or_events _ _ _ _ _ _ Ho) as (evs & He1 & He2). exists evs. rewrite He1, (dr_outbox _ _ _ _ Hd). split; [done|].
    rewrite He2. unfold consumes. by rewrite (dr_webhooks _ _ _ _ Hd).
Qed.

(** *** Histories of lines

    Writes, updates and submissions, each beginning in the state where the previous
    one ended, and each update of a line with whatever such history commits between
    its read and its write.  An update may claim the current status itself; [C] lists
    the claims. *)
Section runs.
Context (C : list POLineStatus).
Inductive line_run : po_db Num → po_db Num → Prop :=
  | lr_refl d : line_run d d
  | lr_then d1 d2 d3 : line_run d1 d2 → line_run d2 d3 → line_run d1 d3
  | lr_upsert ns po ref bom p a q up lt st src d d' v :
      upsert_po_line_node numeric ns po ref bom p a q up lt st src d = Ok (d', v) → line_run d d'
  | lr_update between now ns po ref n cur p b pv d d' v :
      (∀ c s, cur = Some c → as_status c = Ok s → s ∈ C) → line_run d (between d) →
      update between now ns po ref n cur p b pv d = Ok (d', v) → line_run d d'
  | lr_order between now ns po items pv d d' vs :
      (∀ ref x, line_run x (between ref x)) →
      order_lines numeric OUTBOX_HANDLERS gen_random_uuid collate float_text float_repr str_of between now ns po items pv d = Ok (d', vs) →
      line_run d d'.
End runs.

Lemma drafts_moves C ns po d d' : drafts ns po d d' → moves C d d'.
Proof. intros Hd k r Hr. destruct (dr_keeps _ _ _ _ Hd _ _ Hr) as (r' & ? & E). exists r', (l_status r). rewrite E. by split_and!; [|left|]. Qed.
Lemma order_moves C between now ns po items pv : (∀ ref x, moves C x (between ref x)) → respects (moves C)
  (order_lines numeric OUTBOX_HANDLERS gen_random_uuid collate float_text float_repr str_of between now ns po items pv).
Proof.
  intros Hb. unfold order_lines. apply respects_bind; [apply _|apply respects_gets; apply _|intros rows].
  apply respects_bind; [apply _| |intros rows'; apply respects_for; [apply _|intros r d d' v; by apply update_moves]].
  destruct rows; [|by apply respects_ret; apply _]. destruct items; [by apply respects_ret; apply _|].
  apply respects_bind; [apply _| |intros ?; apply respects_gets; apply _].
  apply respects_for; [apply _|]. intros [i it] d d' v H. by eapply drafts_moves, draft_line_drafts.
Qed.
Lemma line_run_moves C d d' : line_run C d d' → moves C d d'.
Proof.
  induction 1 as [|? ? ? _ IH1 _ IH2|? ? ? ? ? ? ? ? ? ? ? ? ? ? H|? ? ? ? ? ? ? ? ? ? ? ? ? HC _ IH H|? ? ? ? ? ? ? ? ? _ IH H].
  - reflexivity.
  - by etrans.
  - by eapply upsert_moves.
  - by eapply update_moves.
  - eapply order_moves; [exact IH|exact H].
Qed.

End lines.

(** ** The submission *)
Section submit.
Context {Num World Agr : Type} (numeric : Z → Z → float → option Num).
Context (OUTBOX_HANDLERS : registry) (gen_random_uuid : nat → string).
Context (collate : string → string → bool) (float_text : string → option float) (float_repr : float → string) (str_of : json → string).
Context `{!AuditLog Log Env}.
Context (PO_CEILING : float) (json_loads : string → option json).
Context (do_run_compliance_audit : Agr → string → json → json → json → option (Agr * bool)).
Abbreviation gdb := (@gov_db Log (po_db Num)).
Abbreviation submission := (submission World).
Abbreviation surroundings := (@surroundings Num Env).
Abbreviation place_call := (@place_call Num float_repr str_of World Env PO_CEILING).
Abbreviation place_body := (@place_body Num numeric OUTBOX_HANDLERS gen_random_uuid collate float_text float_repr str_of World Env).
Abbreviation calls_handler := (@calls_handler Num Log Env _).
Abbreviation _governed_place_po :=
  (_governed_place_po numeric OUTBOX_HANDLERS gen_random_uuid collate float_text float_repr str_of PO_CEILING).
Abbreviation compliance_audit := (_call_agreements_compliance_audit json_loads do_run_compliance_audit).
Abbreviation do_submit_po :=
  (do_submit_po numeric OUTBOX_HANDLERS gen_random_uuid collate float_text float_repr str_of PO_CEILING json_loads do_run_compliance_audit).
Implicit Types (s : submission) (e : surroundings) (db now seen : gdb) (w : World).

Definition sb_key s : string * string := (sb_namespace_id s, strip (sb_idempotency_key s)).
Definition recorded db (k : string * string) : Prop := is_Some (action_idempotency db !! k).
Definition transport_of s : @PoTransport World := match sb_transport s with Some t => t.2 | None => NetsetPoTransport end.

(** What lets an order out. *)
Record gate_passed s e seen1 seen2 now : Prop := {
  gp_key : (sb_key s).2 ≠ "";
  gp_kill : match sb_redis_client s with
            | None => True
            | Some hexists => hexists "submit_po" = Some false ∧ hexists "*" = Some false
            end;
  gp_tx : su_in_tx e = true;
  gp_confirm : sb_confirm s = true;
  gp_ceiling : fltb PO_CEILING (sb_po_value s) = false;
  gp_seen1 : ¬ recorded seen1 (sb_key s);
  gp_seen2 : ¬ recorded seen2 (sb_key s);
  gp_now : ¬ recorded now (sb_key s)
}.

Lemma po_policy v c : requires_confirm (evaluate_policy (PolicyArgs v (Some c) None None None None None None None None None None)) =
  match v with Some v => fltb c v | None => false end.
Proof. destruct v as [v|]; [|done]. unfold evaluate_policy. cbn. by destruct (fltb c v). Qed.

(** The gate decides before it calls its handler: either its answer does not
    depend on the handler, and neither the keys nor the orders change; or everything
    is passed and the handler runs. *)
Definition blocked_by (f : (po_db Num → option (submitted * po_db Num)) → result gov_error (gdb * outcome submitted)) now : Prop :=
  ∃ r, (∀ h, f h = r) ∧ r ≠ Err HandlerError ∧
    ∀ db o, r = Ok (db, o) → action_idempotency db = action_idempotency now ∧ app_state db = app_state now ∧ ∀ x k, o ≠ ExecutedNow x k.
Lemma blocked_const f now err : (∀ h, f h = Err err) → err ≠ HandlerError → blocked_by f now.
Proof. intros Hf Hne. exists (Err err). split; [done|]. split; [congruence|done]. Qed.
Lemma pending_blocks s e seen now key why dry shown :
  blocked_by (λ h,
    let '(db, id) := _record_pending_approval seen now (su_fresh_id e) (sb_namespace_id s) (call_agent (place_call s e h)) _ACTION_TYPE_SUBMIT
         (call_target (place_call s e h)) (call_entity (place_call s e h)) key why (call_params (place_call s e h)) dry in
    Ok (db, PendingApproval key id shown)) now.
Proof.
  match goal with |- blocked_by ?f _ => exists (f (λ _, None)) end. split; [reflexivity|]. cbn -[_record_pending_approval].
  destruct (_record_pending_approval _ _ _ _ _ _ _ _ _ _ _ _) as [db id] eqn:Er. split; [done|]. intros db' o [= <- <-].
  apply record_pending_ok in Er as (? & _ & ? & _). by split_and!.
Qed.
Lemma key_unused db s : _idempotency_key_exists db (sb_namespace_id s) (sb_key s).2 = false → ¬ recorded db (sb_key s).
Proof. intros H Hr. apply (idempotency_exists db (sb_namespace_id s) (sb_key s).2) in Hr. congruence. Qed.

Lemma gate_cases s e seen1 seen2 now :
  blocked_by (λ h, governed (place_call s e h) seen1 seen2 now) now ∨
  (gate_passed s e seen1 seen2 now ∧ ∀ h, governed (place_call s e h) seen1 seen2 now =
     _execute_governed (place_call s e h) true seen2 now (sb_key s).1 (sb_key s).2).
Proof.
  pose proof (λ db, key_unused db s) as Hun. unfold sb_key in *. cbn [fst snd] in *. set (key := strip (sb_idempotency_key s)) in *.
  destruct (negb (String.eqb (sb_idempotency_key s) "") && negb (String.eqb key "")) eqn:Ek.
  2:{ left. apply (blocked_const _ _ MissingIdempotencyKeyError); [|done]. intros h. unfold governed. cbn -[strip]. unfold key in Ek. by rewrite Ek. }
  destruct (_check_kill_switch (sb_redis_client s) _ACTION_TYPE_SUBMIT) as [[]|err] eqn:Ekill.
  2:{ left. apply (blocked_const _ _ err).
      - intros h. unfold governed. cbn -[strip _check_kill_switch]. unfold key in Ek. rewrite Ek. cbn -[_check_kill_switch]. by rewrite Ekill.
      - unfold _check_kill_switch in Ekill. intros ->. repeat case_match; discriminate. }
  set (policy := evaluate_policy (PolicyArgs (Some (sb_po_value s)) (Some PO_CEILING) None None None None None None None None None None)).
  set (pending h why dry_run shown :=
       let '(db, id) := _record_pending_approval seen1 now (su_fresh_id e) (sb_namespace_id s) (call_agent (place_call s e h)) _ACTION_TYPE_SUBMIT
            (call_target (place_call s e h)) (call_entity (place_call s e h)) key why (call_params (place_call s e h)) dry_run in
       Ok (db, PendingApproval key id shown) : result gov_error (gdb * outcome submitted)).
  assert (∀ h, governed (place_call s e h) seen1 seen2 now =
    (_ ← ensure (su_in_tx e) GovernanceError;
     if _idempotency_key_exists seen1 (sb_namespace_id s) key then Ok (now, AlreadyExecuted key) else
     if negb (sb_confirm s) then pending h (inr tt) None None else
     if requires_confirm policy then pending h (inl (reason policy)) (Some (reason policy)) (Some (reason policy))
     else _execute_governed (place_call s e h) (su_in_tx e) seen2 now (sb_namespace_id s) key)) as Hg.
  { intros h. unfold governed. cbn -[strip _check_kill_switch evaluate_policy]. unfold key in Ek. rewrite Ek. cbn -[_check_kill_switch evaluate_policy].
    by rewrite Ekill. }
  assert (∀ g, (∀ h, governed (place_call s e h) seen1 seen2 now = g h) → blocked_by g now →
    blocked_by (λ h, governed (place_call s e h) seen1 seen2 now) now) as Hblock.
  { intros g Hgg (r & Hr & ?). exists r. split; [intros h; by rewrite Hgg|done]. }
  destruct (su_in_tx e) eqn:Etx; cbn [ensure mbind result_bind] in Hg; [|left; by apply (blocked_const _ _ GovernanceError)].
  destruct (_idempotency_key_exists seen1 (sb_namespace_id s) key) eqn:E1.
  { left. exists (Ok (now, AlreadyExecuted key)). split; [done|]. split; [done|]. intros db o [= <- <-]. by split_and!. }
  destruct (sb_confirm s) eqn:Ec; cbn [negb] in Hg; [|left; eapply Hblock; [exact Hg|apply pending_blocks]].
  destruct (requires_confirm policy) eqn:Ep; [left; eapply Hblock; [exact Hg|apply pending_blocks]|].
  unfold policy in Ep. rewrite po_policy in Ep.
  destruct (_idempotency_key_exists seen2 (sb_namespace_id s) key) eqn:E2.
  { left. exists (Ok (now, AlreadyExecuted key)). split; [intros h; rewrite Hg; unfold _execute_governed; cbn; by rewrite E2|].
    split; [done|]. intros db o [= <- <-]. by split_and!. }
  destruct (action_idempotency now !! (sb_namespace_id s, key)) as [act|] eqn:En.
  { left. exists (Ok (now, AlreadyExecuted key)).
    split; [intros h; rewrite Hg; unfold _execute_governed, _record_idempotency_key; cbn -[lookup]; by rewrite E2, En|].
    split; [done|]. intros db o [= <- <-]. by split_and!. }
  right. split; [|done]. apply andb_true_iff in Ek as [_ Ek%negb_true_iff%String.eqb_neq]. split; try done; [|auto..|].
  - apply (check_kill_switch_ok (place_call s e (λ _, None)) ()). exact Ekill.
  - unfold recorded, sb_key. fold key. rewrite En. by intros [? ?].
Qed.

(** The transport acts exactly when the gate is passed; the commit then records the
    key, and the lines of the order. *)
Definition refused_by_gate now (o : outcome submitted) db : Prop :=
  action_idempotency db = action_idempotency now ∧ app_state db = app_state now ∧ ∀ x k, o ≠ ExecutedNow x k.
Definition executed s e w now (o : outcome submitted) db : Prop :=
  ∃ x, o = ExecutedNow x (sb_key s).2 ∧ place_body s e (transport_of s w (order_of s)).2 (app_state now) = Some (x, app_state db) ∧
    action_idempotency db = <[sb_key s := "submit_po"%string]> (action_idempotency now).

Lemma execute_runs s e seen2 now h : ¬ recorded seen2 (sb_key s) → ¬ recorded now (sb_key s) →
  _execute_governed (place_call s e h) true seen2 now (sb_key s).1 (sb_key s).2 =
  match h (app_state now) with
  | None => raise HandlerError
  | Some (x, app') =>
      db ← _audit_execution (su_env e) (GovDb (<[sb_key s := "submit_po"%string]> (action_idempotency now))
             (mark_executed (sb_namespace_id s) "submit_po" (sb_key s).2 <$> action_approval_queue now) (audit now) app')
             (sb_namespace_id s) (sb_key s).2 "submit_po";
      Ok (db, ExecutedNow x (sb_key s).2)
  end.
Proof.
  intros H2 Hn. unfold _execute_governed. cbn [ensure mbind result_bind].
  assert (_idempotency_key_exists seen2 (sb_key s).1 (sb_key s).2 = false) as ->.
  { destruct (_idempotency_key_exists _ _ _) eqn:E; [|done]. by apply idempotency_exists in E. }
  unfold _record_idempotency_key. change ((sb_key s).1, (sb_key s).2) with (sb_key s).
  destruct (action_idempotency now !! sb_key s) as [a|] eqn:E; [by destruct Hn; eexists|]. cbn -[insert].
  destruct (h (app_state now)) as [[x app']|]; done.
Qed.
Lemma audit_execution_ok env db ns key action db' : _audit_execution env db ns key action = Ok db' →
  action_idempotency db' = action_idempotency db ∧ app_state db' = app_state db.
Proof. unfold _audit_execution. destruct (audit_append _ _ _ _ _ _); [by intros [= <-]|done]. Qed.

Lemma place_cases s e w seen1 seen2 now w' r : _governed_place_po s e w seen1 seen2 now = (w', r) →
  (w' = w ∧ ∀ db o, r = Ok (db, o) → refused_by_gate now o db) ∨
  (gate_passed s e seen1 seen2 now ∧ w' = (transport_of s w (order_of s)).1 ∧ ∀ db o, r = Ok (db, o) → executed s e w now o db).
Proof.
  unfold _governed_place_po. fold (transport_of s). unfold executed. destruct (transport_of s w (order_of s)) as [w1 reply] eqn:Et. cbn [fst snd].
  intros [= <- <-]. destruct (gate_cases s e seen1 seen2 now) as [(r & Hr & Hne & Hok)|[Hp Hg]].
  - left. unfold PurchaseOrders.calls_handler. rewrite !Hr. split; [|intros db o E; by apply Hok].
    destruct r as [?|[]]; done.
  - right. unfold PurchaseOrders.calls_handler. rewrite !Hg, !execute_runs by apply Hp. cbn. split; [done|]. split; [done|]. intros db o H.
    destruct (place_body s e reply (app_state now)) as [[x app']|] eqn:Eb; [|done].
    apply bind_Ok in H as (db1 & [H1 H2]%audit_execution_ok & [= <- <-]). exists x. rewrite H1, H2. by split_and!.
Qed.

Lemma decision_same env db ns po decision why db' : _audit_rebate_decision env db ns po decision why = Some db' →
  action_idempotency db' = action_idempotency db ∧ app_state db' = app_state db.
Proof. unfold _audit_rebate_decision. destruct (audit_append _ _ _ _ _ _); [by intros [= <-]|done]. Qed.
Lemma gate_passed_same s e seen1 seen2 now now' : action_idempotency now' = action_idempotency now →
  gate_passed s e seen1 seen2 now' → gate_passed s e seen1 seen2 now.
Proof. intros E [? ? ? ? ? ? ? H]. split; try done. unfold recorded in *. by rewrite <- E. Qed.

Definition submit_refused now (o : submit_outcome) db : Prop :=
  action_idempotency db = action_idempotency now ∧ app_state db = app_state now ∧ ∀ x k, o ≠ Gate (ExecutedNow x k).
Definition submit_executed s e w now (o : submit_outcome) db : Prop := ∃ o', o = Gate o' ∧ executed s e w now o' db.
Lemma gate_result_ok r db o : gate_result r = Ok (db, o) → ∃ o' : outcome submitted, o = Gate o' ∧ r = Ok (db, o').
Proof. destruct r as [[db0 o0]|]; [|done]. intros [= <- <-]. by exists o0. Qed.
Lemma submit_cases s e agr w seen1 seen2 now agr' w' r : do_submit_po s e agr w seen1 seen2 now = (agr', w', r) →
  (w' = w ∧ ∀ db o, r = Ok (db, o) → submit_refused now o db) ∨
  (gate_passed s e seen1 seen2 now ∧
   (sb_rebate_override s = true → compliance_audit (su_modules e) (sb_a2a_client s) agr (sb_po_number s) (sb_supplier_id s)
      (sb_rebate_amount s) (sb_namespace_id s) = (agr', Ok ())) ∧
   w' = (transport_of s w (order_of s)).1 ∧ ∀ db o, r = Ok (db, o) → submit_executed s e w now o db).
Proof.
  assert (∀ now0 w0 r0, _governed_place_po s e w seen1 seen2 now0 = (w0, r0) → action_idempotency now0 = action_idempotency now →
    app_state now0 = app_state now →
    (w0 = w ∧ ∀ db o, gate_result r0 = Ok (db, o) → submit_refused now o db) ∨
    (gate_passed s e seen1 seen2 now ∧ w0 = (transport_of s w (order_of s)).1 ∧
     ∀ db o, gate_result r0 = Ok (db, o) → submit_executed s e w now o db)) as Hgate.
  { intros now0 w0 r0 Hplace E1 E2. apply place_cases in Hplace as [[-> Ho]|(Hp & -> & Ho)].
    - left. split; [done|]. intros db o (o' & -> & H)%gate_result_ok. destruct (Ho _ _ H) as (H1 & H2 & H3).
      split; [congruence|]. split; [congruence|]. intros x k [= ->]. by apply (H3 x k).
    - right. split; [by eapply gate_passed_same|]. split; [done|]. intros db o (o' & -> & H)%gate_result_ok. exists o'. split; [done|].
      destruct (Ho _ _ H) as (x & H1 & H2 & H3). exists x. by rewrite <- E1, <- E2. }
  unfold PurchaseOrders.do_submit_po. destruct (sb_rebate_override s && sb_confirm s) eqn:Eo.
  2:{ destruct (_governed_place_po s e w seen1 seen2 now) as [w0 r0] eqn:Hplace. intros [= <- <- <-].
      destruct (Hgate _ _ _ Hplace eq_refl eq_refl) as [?|(Hp & ? & ?)]; [by left|right]. split; [done|]. split; [|done].
      intros Hov. rewrite Hov, (gp_confirm _ _ _ _ _ Hp) in Eo. done. }
  destruct (compliance_audit _ _ _ _ _ _ _) as [agr1 checked].
  destruct checked as [[]|x]; [destruct (_audit_rebate_decision _ _ _ _ _ _) as [now1|] eqn:Ed|].
  - apply decision_same in Ed as [Ed1 Ed2]. destruct (_governed_place_po s e w seen1 seen2 now1) as [w0 r0] eqn:Hplace. intros [= <- <- <-].
    destruct (Hgate _ _ _ Hplace Ed1 Ed2) as [?|(Hp & ? & ?)]; [by left|by right].
  - intros [= <- <- <-]. left. split; [done|]. intros db o H. destruct (_audit_rebate_decision (su_env'' e) _ _ _ _ _) as [db1|] eqn:Ed2; [|done].
    injection H as <- <-. apply decision_same in Ed2 as [? ?]. by split_and!.
  - intros [= <- <- <-]. left. split; [done|]. intros db o H. destruct (_audit_rebate_decision (su_env'' e) _ _ _ _ _) as [db1|] eqn:Ed2; [|done].
    injection H as <- <-. apply decision_same in Ed2 as [? ?]. by split_and!.
Qed.

Lemma audit_exported s e agr agr' : su_modules e = Exported →
  compliance_audit (su_modules e) (sb_a2a_client s) agr (sb_po_number s) (sb_supplier_id s) (sb_rebate_amount s) (sb_namespace_id s) = (agr', Ok ()) →
  do_run_compliance_audit agr (sb_namespace_id s) (JStr (sb_po_number s)) (JStr (sb_supplier_id s)) (sb_rebate_amount s) = Some (agr', true).
Proof.
  intros ->. unfold _call_agreements_compliance_audit. destruct (do_run_compliance_audit _ _ _ _ _) as [[agr1 ok]|]; [|done].
  intros [= <- H%ensure_Ok]. by subst ok.
Qed.

(** What the agreements' client answered approves the rebate: a dictionary, or text
    that parses to one, whose ["approved"] is truthy. *)
Definition client_approves (reply : json) : Prop := ∃ l,
  (reply = JObj l ∨ ∃ t, reply = JStr t ∧ json_loads t = Some (JObj l)) ∧
  json_truthy (default JNull (json_get "approved" l)) = true.
Lemma approves_ok r u : approves r = Ok u → ∃ l, r = JObj l ∧ json_truthy (default JNull (json_get "approved" l)) = true.
Proof. unfold approves. destruct r; try done. intros H%ensure_Ok. by eexists. Qed.
Lemma audit_asked s e agr agr' : su_modules e = NoModules →
  compliance_audit (su_modules e) (sb_a2a_client s) agr (sb_po_number s) (sb_supplier_id s) (sb_rebate_amount s) (sb_namespace_id s) = (agr', Ok ()) →
  ∃ reply, sb_a2a_client s = Some (Some reply) ∧ client_approves reply.
Proof.
  intros ->. unfold _call_agreements_compliance_audit. intros [= _ H]. destruct (sb_a2a_client s) as [[r|]|]; [|done..].
  exists r. split; [done|]. destruct r as [| | | |t| |l]; try done.
  - destruct (json_loads t) as [r'|] eqn:E; [|done]. apply approves_ok in H as (l & -> & ?). exists l. split; [right; eauto|done].
  - apply approves_ok in H as (? & [= <-] & ?). exists l. by split; [left|].
Qed.

(** C3: No order leaves without consent.  Whatever a submission returns, either the
    supplier's side is untouched, and of the database at most the approval queue and
    the audit trail change; or the transport was called once, with this order, and
    then the caller confirmed, the key is not blank and in no state that was read, the
    kill switch is clear, the value the caller states is within the ceiling, and for
    a rebate override the audit of the agreements approved this order's rebate: the
    engine's exported function answered approved, or, without the engine's modules,
    the client's reply carries a truthy ["approved"]. *)
Theorem order_needs_consent s e agr w seen1 seen2 now agr' w' r :
  do_submit_po s e agr w seen1 seen2 now = (agr', w', r) →
  (w' = w ∧ ∀ db o, r = Ok (db, o) → submit_refused now o db) ∨
  (w' = (transport_of s w (order_of s)).1 ∧ gate_passed s e seen1 seen2 now ∧
   (sb_rebate_override s = true → su_modules e = Exported →
     do_run_compliance_audit agr (sb_namespace_id s) (JStr (sb_po_number s)) (JStr (sb_supplier_id s)) (sb_rebate_amount s) = Some (agr', true)) ∧
   (sb_rebate_override s = true → su_modules e = NoModules →
     ∃ reply, sb_a2a_client s = Some (Some reply) ∧ client_approves reply) ∧
   (sb_rebate_override s = true → su_modules e = Exported ∨ su_modules e = NoModules)).
Proof.
  intros [?|(Hp & Ha & -> & _)]%submit_cases; [by left|right]. split; [done|]. split; [done|]. split_and!; intros Hov; specialize (Ha Hov).
  - intros Hm. by apply (audit_exported s e).
  - intros Hm. by apply (audit_asked s e agr agr').
  - unfold _call_agreements_compliance_audit in Ha. destruct (su_modules e); auto; done.
Qed.

(** C20: A confirmed submission orders every line.  When it executes and nothing else
    commits to the order meanwhile, the supplier accepted the order; every line of the
    purchase order is [ORDERED], and was [DRAFT] or [ORDERED] before, or was drafted
    from the items because the order had no lines; the answer lists each line once;
    one event per line is published if the event is consumed; and no other order's
    line changes. *)
Theorem submit_orders_every_line s e agr w seen1 seen2 now agr' w' db x key :
  do_submit_po s e agr w seen1 seen2 now = (agr', w', Ok (db, Gate (ExecutedNow x key))) → su_between e = (λ _, id) →
  let ns := sb_namespace_id s in let po := sb_po_number s in
  let refs := v_line_ref <$> sd_ordered_lines x in
  let d := app_state now in let d' := app_state db in
  transport_of s w (order_of s) = (w', Some (sd_transport_result x)) ∧
  (∀ k, k.1 ≠ (ns, po) → po_lines d' !! k = po_lines d !! k) ∧
  (∀ ref, is_Some (po_lines d !! (ns, po, ref)) → is_Some (po_lines d' !! (ns, po, ref))) ∧
  (∀ ref l', po_lines d' !! (ns, po, ref) = Some l' → l_status l' = ORDERED ∧
     match po_lines d !! (ns, po, ref) with
     | Some l => orderable (l_status l)
     | None => lines_of collate ns po d = [] ∧ sb_line_items s ≠ []
     end) ∧
  NoDup refs ∧ (∀ ref, ref ∈ refs ↔ is_Some (po_lines d' !! (ns, po, ref))) ∧
  ∃ evs, po_outbox d' = po_outbox d ++ evs ∧
    (λ ev, (ob_namespace_id ev, ob_aggregate_id ev, ob_event_type ev)) <$> evs =
    if consumes OUTBOX_HANDLERS d ns then (λ ref, (ns, po_line_label po ref, "PO_LINE.status_changed"%string)) <$> refs else [].
Proof.
  intros Hrun Hquiet ns po refs d d'. apply submit_cases in Hrun as [(_ & Hno)|(_ & _ & -> & Hok)].
  { destruct (Hno _ _ eq_refl) as (_ & _ & H). by destruct (H x key). }
  destruct (Hok _ _ eq_refl) as (o' & [= <-] & x' & [= <- _] & Hbody & _). unfold PurchaseOrders.place_body in Hbody. rewrite Hquiet in Hbody.
  destruct (transport_of s w (order_of s)) as [w1 [reply|]]; [|done]. cbn [fst snd] in *.
  destruct (order_lines _ _ _ _ _ _ _ _ _ _ _ _ _ _) as [[d1 vs]|] eqn:El; [|done]. injection Hbody as <- Hd. subst d1.
  split; [done|]. exact (order_lines_effect _ _ _ _ _ _ _ _ _ _ _ _ _ _ _ El).
Qed.
End submit.

(** ** Histories *)
Section history.
Context {Num Agr : Type} (numeric : Z → Z → float → option Num).
Context (OUTBOX_HANDLERS : registry) (gen_random_uuid : nat → string).
Context (collate : string → string → bool) (float_text : string → option float) (float_repr : float → string) (str_of : json → string).
Context `{!AuditLog Log Env}.
Context (PO_CEILING : float) (json_loads : string → option json).
Context (do_run_compliance_audit : Agr → string → json → json → json → option (Agr * bool)).
Abbreviation gdb := (@gov_db Log (po_db Num)).
Abbreviation do_submit_po :=
  (do_submit_po numeric OUTBOX_HANDLERS gen_random_uuid collate float_text float_repr str_of PO_CEILING json_loads do_run_compliance_audit).

(** The supplier's side is the list of orders it received; a stub sends nothing. *)
Definition records (t : @PoTransport (list order)) : Prop := ∀ w o, (t w o).1 = o :: w ∨ (t w o).1 = w.
Definition sent (w w' : list order) : list order := take (length w' - length w) w'.
Definition order_key (o : order) : string * string := (o_namespace_id o, strip (o_idempotency_key o)).
Definition orders_with (k : string * string) (w : list order) : nat := length (List.filter (λ o, bool_decide (order_key o = k)) w).

(** Committed states, newest first; the orders the supplier received; and those of
    them whose transaction failed afterwards.  Reads may be outdated, writes apply to
    the newest state; other actions may record keys, never remove them. *)
Inductive submissions : list gdb → list order → list order → Prop :=
  | sub_init db : action_idempotency db = ∅ → submissions [db] [] []
  | sub_call s e agr seen1 seen2 now h w lost agr' w' r :
      submissions (now :: h) w lost → seen1 ∈ now :: h → seen2 ∈ now :: h → records (transport_of s) →
      do_submit_po s e agr w seen1 seen2 now = (agr', w', r) →
      submissions (match r with Ok (db, _) => db :: now :: h | Err _ => now :: h end) w'
                  (match r with Ok _ => lost | Err _ => sent w w' ++ lost end)
  | sub_other db now h w lost :
      submissions (now :: h) w lost → action_idempotency now ⊆ action_idempotency db → submissions (db :: now :: h) w lost.

Definition is_recorded (db : gdb) (k : string * string) : bool := bool_decide (is_Some (action_idempotency db !! k)).
Lemma orders_cons k o w : orders_with k (o :: w) = ((if bool_decide (order_key o = k) then 1 else 0) + orders_with k w)%nat.
Proof. unfold orders_with. cbn. by destruct (bool_decide _). Qed.
Lemma sent_none w : sent w w = [].
Proof. unfold sent. by rewrite Nat.sub_diag. Qed.
Lemma sent_one w o : sent w (o :: w) = [o].
Proof. unfold sent. cbn [length]. by rewrite Nat.sub_succ_l, Nat.sub_diag. Qed.
Lemma key_of_order {World} (s : submission World) : order_key (order_of s) = sb_key s.
Proof. done. Qed.

Lemma orders_bounded h w lost k : submissions h w lost →
  ∃ db h', h = db :: h' ∧ (orders_with k w ≤ orders_with k lost + if is_recorded db k then 1 else 0)%nat.
Proof.
  induction 1 as [db Hi|s e agr seen1 seen2 now h w lost agr' w' r _ IH _ _ Hrec Hrun|db now h w lost _ IH Hsub].
  - exists db, []. by split; [|cbn; lia].
  - destruct IH as (db0 & h0 & [= <- <-] & IH). destruct (submit_cases _ _ _ _ _ _ _ _ _ _ _ _ _ _ _ _ _ _ _ _ Hrun) as [[-> Hno]|(Hp & _ & -> & Hok)].
    + destruct r as [[db o]|]; [|exists now, h; rewrite sent_none; by split].
      exists db, (now :: h). split; [done|]. destruct (Hno _ _ eq_refl) as (Hi & _). unfold is_recorded in *. by rewrite Hi.
    + destruct (Hrec w (order_of s)) as [-> | ->].
      * rewrite orders_cons, key_of_order. pose proof (gp_now _ _ _ _ _ _ Hp) as Hnew. unfold recorded in Hnew. unfold is_recorded in *.
        destruct r as [[db o]|]; [exists db, (now :: h)|exists now, h]; (split; [done|]).
        -- destruct (Hok _ _ eq_refl) as (o' & _ & x & _ & _ & Hi). rewrite Hi.
           destruct (decide (sb_key s = k)) as [<-|Hne].
           ++ rewrite lookup_insert_eq. rewrite (bool_decide_false _ Hnew) in IH. rewrite !bool_decide_true by eauto. lia.
           ++ rewrite lookup_insert_ne, (bool_decide_false (sb_key s = k)) by done. lia.
        -- rewrite sent_one. cbn [app]. rewrite orders_cons, key_of_order. lia.
      * destruct r as [[db o]|]; [|exists now, h; rewrite sent_none; by split].
        exists db, (now :: h). split; [done|]. destruct (Hok _ _ eq_refl) as (o' & _ & x & _ & _ & Hi). unfold is_recorded in *. rewrite Hi.
        destruct (decide (sb_key s = k)) as [<-|Hne]; [rewrite lookup_insert_eq, (bool_decide_true (is_Some (Some _))) by eauto|by rewrite lookup_insert_ne].
        destruct (bool_decide _); lia.
  - destruct IH as (db0 & h0 & [= <- <-] & IH). exists db, (now :: h). split; [done|]. unfold is_recorded in *.
    destruct (action_idempotency now !! k) as [a|] eqn:E.
    + rewrite (lookup_weaken _ _ _ _ E Hsub). exact IH.
    + cbn in IH. destruct (bool_decide _); lia.
Qed.

(** C4: An order is placed at most once per key, unless its transaction fails
    afterwards.  Under any retries, races and outdated reads, the supplier receives at
    most one order per namespace and idempotency key beyond those whose transaction
    rolled back after the transport had answered; and once a key is recorded, no
    submission with it reaches the supplier again. *)
Theorem order_placed_once db h w lost k : submissions (db :: h) w lost →
  (orders_with k w ≤ orders_with k lost + 1)%nat ∧
  (is_Some (action_idempotency db !! k) → ∀ (s : submission (list order)) e agr seen1 seen2 agr' w' r,
     sb_key s = k → do_submit_po s e agr w seen1 seen2 db = (agr', w', r) → w' = w).
Proof.
  intros Hsub. split.
  - destruct (orders_bounded _ _ _ k Hsub) as (db' & h' & [= <- <-] & H). destruct (is_recorded db k); lia.
  - intros Hk s e agr seen1 seen2 agr' w' r <- Hrun.
    destruct (submit_cases _ _ _ _ _ _ _ _ _ _ _ _ _ _ _ _ _ _ _ _ Hrun) as [[-> _]|(Hp & _)]; [done|].
    by destruct (gp_now _ _ _ _ _ _ Hp).
Qed.
End history.

(** ** Concrete orders *)
#[local] Existing Instance list_audit.
Definition demo_handlers : registry := {[ "PO_LINE.status_changed"%string := ["project"%string] ]}.
Definition recorder : @PoTransport (list order) := λ w o, (o :: w, Some (JStr "placed")).
Definition demo_line (st : POLineStatus) : line float := Line None (Some "BOM-1"%string) None (of_Z 2) (Some (of_Z 500000)) None st.
Definition demo_po (lines : list (string * POLineStatus)) : po_db float :=
  PoDb (list_to_map ((λ l, (("ns", "PO-1", l.1)%string, demo_line l.2)) <$> lines))
    {[ ("ns", "PO_LINE", None)%string := "procurement"%string ]} ∅ ∅ [] [] 0%nat.
Definition demo_gov (d : po_db float) : @gov_db (list (string * string * string * jobject)) (po_db float) := GovDb ∅ [] [] d.
Definition demo_submission (key : string) (override : bool) : submission (list order) :=
  Submission "ns" key true "PO-1" "998877665" [] (of_Z 0) override (JFloat "5000.0") (Some ("recorder"%string, recorder)) None None.
Definition demo_around : @surroundings float unit :=
  Surroundings true Exported tt tt tt "q1" 7 (λ _, id) (λ x, match x with RejectedOverride => "rejected rebate override" | _ => "down" end).
Abbreviation demo_submit approve s e w now :=
  (do_submit_po (λ _ _ x, Some x) demo_handlers (λ n, "event"%string) String.leb (λ _, Some (of_Z 0)) (λ _, "1.0"%string) json_dumps (of_Z 0) (λ _, None)
     (λ (a : unit) _ _ _ _, Some (a, approve)) s e tt w now now now).
Definition demo_two : @gov_db (list (string * string * string * jobject)) (po_db float) := demo_gov (demo_po [("2", DRAFT); ("1", ORDERED)]%string).
Definition run_state (now : @gov_db (list (string * string * string * jobject)) (po_db float)) (r : unit * list order * result submit_error (gov_db * submit_outcome)) :=
  match r.2 with Ok (db, _) => db | Err _ => now end.
Definition run_views (r : unit * list order * result submit_error (@gov_db (list (string * string * string * jobject)) (po_db float) * submit_outcome)) : list line_view :=
  match r.2 with Ok (_, Gate (ExecutedNow x _)) => sd_ordered_lines x | _ => [] end.
Definition demo_run := demo_submit true (demo_submission " k1 " true) demo_around [] demo_two.
Definition demo_db := Eval vm_compute in run_state demo_two demo_run.
Definition demo_views := Eval vm_compute in run_views demo_run.
Lemma demo_executed : demo_run = (tt, [order_of (demo_submission " k1 " true)],
  Ok (demo_db, Gate (ExecutedNow (Submitted "PO-1" "998877665" (JStr "placed") demo_views) "k1"))).
Proof. vm_compute. reflexivity. Qed.

Lemma order_needs_consent_witness :
  ∃ agr' w' r, demo_run = (agr', w', r) ∧ w' = [order_of (demo_submission " k1 " true)] ∧
    gate_passed (Num:=float) (of_Z 0) (demo_submission " k1 " true) demo_around demo_two demo_two demo_two.
Proof.
  exists tt, [order_of (demo_submission " k1 " true)]. eexists. split; [exact demo_executed|]. split; [reflexivity|].
  destruct (order_needs_consent _ _ _ _ _ _ _ _ _ _ _ _ _ _ _ _ _ _ _ _ demo_executed) as [[H _]|(_ & H & _)]; [discriminate H|exact H].
Defined.

Lemma submit_orders_every_line_witness : demo_run.2 = Ok (demo_db, Gate (ExecutedNow (Submitted "PO-1" "998877665" (JStr "placed") demo_views) "k1")) ∧
  (v_line_ref <$> demo_views) = ["1"; "2"]%string ∧
  ∀ ref l', po_lines (app_state demo_db) !! ("ns", "PO-1", ref)%string = Some l' → l_status l' = ORDERED.
Proof.
  split; [by rewrite demo_executed|]. split; [reflexivity|].
  pose proof (submit_orders_every_line _ _ _ _ _ _ _ _ _ _ _ _ _ _ _ _ _ _ _ _ _ _ demo_executed eq_refl) as (_ & _ & _ & H & _).
  intros ref l' Hl. by apply (H ref l').
Defined.

(** Line 1 is submitted while another caller receives line 2, claiming it ordered. *)
Abbreviation demo_receive := (update_po_line_status demo_handlers (λ _, "event"%string) (λ _, "1.0"%string) id 7 "ns" "PO-1" "2" (Text "received") (Some (Member ORDERED)) None None None).
Definition demo_between (d : po_db float) : po_db float := match demo_receive d with Ok (d', _) => d' | Err _ => d end.
Abbreviation demo_order := (update_po_line_status demo_handlers (λ _, "event"%string) (λ _, "1.0"%string) demo_between 7 "ns" "PO-1" "1" (Member ORDERED) None None None None).
Abbreviation demo_line_run := (line_run (λ _ _ x, Some x) demo_handlers (λ _, "event"%string) String.leb (λ _, Some (of_Z 0)) (λ _, "1.0"%string) json_dumps [ORDERED]).
Lemma demo_between_run d : demo_line_run d (demo_between d).
Proof.
  unfold demo_between. destruct (demo_receive d) as [[d1 v1]|] eqn:E; [|apply lr_refl].
  eapply (lr_update _ _ _ _ _ _ _ _ id); [|apply lr_refl|exact E]. intros c s [= <-] [= <-]. by left.
Qed.
Lemma demo_order_run d d' v : demo_order d = Ok (d', v) → demo_line_run d d'.
Proof. intros H. eapply lr_update; [|apply demo_between_run|exact H]. done. Qed.

Lemma order_history : submissions (λ _ _ x, Some x) demo_handlers (λ n, "event"%string) String.leb (λ _, Some (of_Z 0)) (λ _, "1.0"%string) json_dumps (of_Z 0) (λ _, None)
  (λ (a : unit) _ _ _ _, Some (a, true)) [demo_db; demo_two] [order_of (demo_submission " k1 " true)] [].
Proof.
  refine (sub_call _ _ _ _ _ _ _ _ _ _ _ _ tt demo_two demo_two demo_two [] [] [] _ _ _ (sub_init _ _ _ _ _ _ _ _ _ _ demo_two _) _ _ _ demo_executed).
  - reflexivity.
  - left.
  - left.
  - intros w o. by left.
Qed.
Lemma order_placed_once_witness :
  let k := ("ns", "k1")%string in
  is_Some (action_idempotency demo_db !! k) ∧ orders_with k [order_of (demo_submission " k1 " true)] = 1%nat ∧
  (demo_submit true (demo_submission "k1" false) demo_around [order_of (demo_submission " k1 " true)] demo_db).1.2 = [order_of (demo_submission " k1 " true)].
Proof.
  assert (is_Some (action_idempotency demo_db !! ("ns", "k1")%string)) as Hk by (vm_compute; by eexists).
  split; [exact Hk|]. split; [reflexivity|].
  destruct (order_placed_once _ _ _ _ _ _ _ _ _ _ _ _ _ _ ("ns", "k1")%string order_history) as [_ H].
  destruct (demo_submit _ _ _ _ _) as [[agr' w'] r] eqn:E. 
  exact (H Hk (demo_submission "k1" false) _ _ _ _ _ _ _ eq_refl E).
Defined.

(** A line that was received or cancelled makes the submission fail after the order
    has left: the key is rolled back with the lines, and the retry orders again. *)
Definition demo_cancelled := demo_gov (demo_po [("1", DRAFT); ("2", CANCELLED)]%string).
Example retry_orders_again :
  let '(_, w, r) := demo_submit true (demo_submission "k1" false) demo_around [] demo_cancelled in
  let '(_, w', r') := demo_submit true (demo_submission "k1" false) demo_around w demo_cancelled in
  r = Err (GateError HandlerError) ∧ r' = r ∧ orders_with ("ns", "k1")%string w' = 2%nat.
Proof. vm_compute. by split_and!. Qed.
(** An order that was placed is placed again under another key: [ORDERED] lines are
    accepted as they are. *)
Example second_key_orders_again :
  let '(_, w', r) := demo_submit true (demo_submission "k2" false) demo_around [order_of (demo_submission "k1" false)] demo_db in
  length w' = 2%nat ∧ length (run_views (tt, w', r)) = 2%nat.
Proof. vm_compute. by split. Qed.
(** The ceiling is compared with the value the caller states, zero when it states
    none: two units of 500000 pass a ceiling of zero. *)
Example unstated_value_passes : (l_unit_price (demo_line DRAFT), sb_po_value (demo_submission "k1" false)) = (Some (of_Z 500000), of_Z 0) ∧
  length (demo_submit true (demo_submission "k1" false) demo_around [] demo_two).1.2 = 1%nat.
Proof. vm_compute. by split. Qed.
(** The audit comes before the key: the retry of an executed order is answered
    pending when the audit no longer approves, and nothing waits in the queue. *)
Example executed_answered_pending :
  let '(_, w', r) := demo_submit false (demo_submission "k1" true) demo_around [] demo_db in
  match r with Ok (db, RebateGated decision _) => decision = "rejected"%string ∧ action_approval_queue db = [] | _ => False end.
Proof. vm_compute. by split. Qed.
(** The update does not repeat the status check: a line cancelled meanwhile is
    ordered. *)
Definition demo_update (between : po_db float → po_db float) (lines : list (string * POLineStatus)) :=
  update_po_line_status demo_handlers (λ _, "event"%string) (λ _, "1.0"%string) between 7 "ns" "PO-1" "1" (Member ORDERED) None None None None (demo_po lines).
Example cancelled_line_ordered :
  match demo_update (set_lines (alter (λ _, demo_line CANCELLED) ("ns", "PO-1", "1")%string)) [("1", DRAFT)]%string with
  | Ok (d, _) => l_status <$> po_lines d !! ("ns", "PO-1", "1")%string | Err _ => None end = Some ORDERED.
Proof. vm_compute. reflexivity. Qed.
(** A line that does not exist is announced as ordered. *)
Example missing_line_announced :
  match demo_update id [] with Ok (d, _) => (ob_aggregate_id <$> po_outbox d, map_to_list (po_lines d)) | Err _ => ([], []) end
  = (["PO_LINE:PO-1:1"%string], []).
Proof. vm_compute. reflexivity. Qed.
