(* ===== verification/RebateOrders.v ===== *)
(** * RebateOrders: an order that relies on a rebate, end to end

    Joins the submission of purchase orders with the agreements engine it asks: the
    exported audit is the one of [Rebates], over the agreements of [Agreements]. *)
From S2P Require Import Prelude PyFloat PyDecimal PyText PyStr Txn AuditLog Policy OutboxRelay EventBus Governor Resolver Signing Agreements AgreementsProps Rebates RebatesProps PurchaseOrders PurchaseOrdersProps.
Local Open Scope Z_scope.

Section rebate_orders.
Context (casefold : string → string) (alias_map : string → gmap string string) (similarity : list string → string → float)
  (json_text : json → option string) (py_str : json → string).
Context (float_of_text decimal_of_text : string → number) (float_of_wide : Z → option decimal) (float_json : json → json).
Context (jsonb : json → json) (jsonb_eqb : json → json → bool) (float_repr : float → string) (canonical_json : json → option string)
  (sha256 : string → string) (term_text : json → string).
Context {St : Type} `{SignTransport sha256 St} `{!PreOrder (same_terms jsonb_eqb)}.
Context {Num World : Type} (numeric : Z → Z → float → option Num).
Context (OUTBOX_HANDLERS : registry) (gen_random_uuid : nat → string).
Context (collate : string → string → bool) (float_text : string → option float) (str_of : json → string).
Context `{!AuditLog Log Env}.
Context (PO_CEILING : float) (json_loads : string → option json).

(** The agreements engine, with the graph nodes its vendor lookup reads. *)
Abbreviation agreements := (list kg_vertex * agr_system (St:=St))%type.
Definition exported_audit (agr : agreements) (namespace_id : string) (po_number supplier_id rebate_amount : json) : option (agreements * bool) :=
  match do_run_compliance_audit casefold alias_map similarity json_text py_str float_of_text decimal_of_text float_of_wide float_json
          (Some namespace_id) po_number supplier_id rebate_amount JNull agr.1 (ag_db agr.2) with
  | Ok (db', a) => Some ((agr.1, AgrSystem db' (ag_st agr.2) (ag_endorsed agr.2) (ag_overtaken agr.2)), approved a)
  | Err _ => None
  end.
Abbreviation reachable := (agr_reachable jsonb jsonb_eqb float_repr canonical_json sha256 term_text).
Abbreviation submit := (do_submit_po (World:=World) numeric OUTBOX_HANDLERS gen_random_uuid collate float_text float_repr str_of PO_CEILING json_loads exported_audit).

(** C15: An order that relies on a rebate relies on consent.  When a submission with a
    rebate override reaches the supplier through the exported engine, the review queue
    holds an agreement as [auto_green] (whatever its dates, which nothing reads) that
    governs the supplier and covers the rebate, and a reviewer confirmed its terms, or
    a recorded signature covers them, or they took the place of the signed terms while
    the signature was being recorded, which is excluded if no recording was overtaken;
    and the agreements are again in a state their own calls can reach. *)
Theorem rebate_order_needs_consent (s : submission World) (e : surroundings (Num:=Num) (Env:=Env)) agr w (seen1 seen2 now : gov_db (Log:=Log)) agr' w' r :
  reachable agr.2 → submit s e agr w seen1 seen2 now = (agr', w', r) →
  sb_rebate_override s = true → su_modules e = Exported → w' ≠ w →
  reachable agr'.2 ∧
  ∃ ns po supplier rebate id row,
    readable (Some (sb_namespace_id s)) (JStr (sb_po_number s)) (JStr (sb_supplier_id s)) (sb_rebate_amount s) ns po supplier rebate ∧
    entitled casefold alias_map similarity json_text py_str float_of_text decimal_of_text float_of_wide ns supplier rebate JNull agr.1 (ag_db agr.2) id ∧
    review_queue (ag_db agr.2) !! (ns, id) = Some row ∧ q_status row = AutoGreen ∧
    covered jsonb_eqb canonical_json sha256 agr.2 ns id (q_extracted row) ∧
    ((∀ signed written, (ns, id, signed, written) ∉ ag_overtaken agr.2) →
       ∃ terms, consented canonical_json sha256 agr.2 ns id terms ∧ same_terms jsonb_eqb terms (q_extracted row)).
Proof.
  intros Hr [[-> _]|(_ & Ha & _)]%submit_cases Hov Hm Hw; [done|]. specialize (Ha Hov). apply (audit_exported _ _ s e) in Ha; [|done].
  unfold exported_audit in Ha. destruct (do_run_compliance_audit _ _ _ _ _ _ _ _ _ _ _ _ _ _ _ _) as [[db' a]|] eqn:Eaudit; [|done].
  injection Ha as <- Hyes. pose proof (fun H1 => approval_is_covered _ _ _ _ _ _ _ _ _ jsonb jsonb_eqb float_repr canonical_json _ term_text agr.2 _ _ _ _ _ _ _ _ H1 Eaudit) as Hcov. destruct (Hcov Hr) as [Hr' Hc]; clear Hcov.
  split; [done|]. destruct (Hc Hyes) as (ns & po & supplier & rebate & id & row & ? & ? & Hrow & Hg & Hcov). exists ns, po, supplier, rebate, id, row.
  split_and!; [done..|]. intros Hno. destruct Hcov as [?|(x & y & Hin & _)]; [done|]. by destruct (Hno x y).
Qed.
End rebate_orders.

(** ** The agreement of [AgreementsProps], and an order on it *)
#[local] Existing Instance list_audit.
Definition rebate_submission (amount : string) : submission (list order) :=
  Submission "acme" "k1" true "PO-1" "998877665" [] (of_Z 0) true (JFloat amount) (Some ("recorder"%string, recorder)) None None.
Definition rebate_state : @gov_db (list (string * string * string * jobject)) (po_db float) := demo_gov (demo_po []).
Definition rebate_run (amount : string) :=
  do_submit_po (λ _ _ x, Some x) demo_handlers (λ n, "event"%string) String.leb (λ _, Some (of_Z 0)) (λ _, ""%string) json_dumps (of_Z 0) (λ _, None)
    (exported_audit id (λ _, ∅) rate_similarity (λ _, None) json_dumps no_text no_text (λ _, None) id)
    (rebate_submission amount) demo_around (demo_vendors, demo_steps) [] rebate_state rebate_state rebate_state.
Lemma rebate_order_sent : length (rebate_run "5000.0").1.2 = 1%nat.
Proof. vm_compute. reflexivity. Qed.
(** A rebate beyond the ceiling of the agreement does not leave. *)
Example rebate_too_large : match rebate_run "5000.01" with (_, w, Ok (_, RebateGated decision _)) => (w, decision) = ([], "rejected"%string) | _ => False end.
Proof. vm_compute. reflexivity. Qed.
Lemma rebate_order_needs_consent_witness : ∃ ns id row terms,
  review_queue (ag_db demo_steps) !! (ns, id) = Some row ∧ consented demo_canon demo_sha demo_steps ns id terms ∧
  same_terms json_eqb terms (q_extracted row).
Proof.
  pose proof rebate_order_sent as Hs. destruct (rebate_run "5000.0") as [[agr' w'] r] eqn:E. unfold rebate_run in E.
  destruct (rebate_order_needs_consent _ _ _ _ _ _ _ _ _ _ _ _ _ _ _ _ _ _ _ _ _ _ _ _ _ (demo_vendors, demo_steps) _ _ _ _ _ _ _ demo_reached E eq_refl eq_refl)
    as (_ & ns & po & supplier & rebate & i & row & _ & _ & H1 & _ & _ & H2); [intros ->; discriminate Hs|].
  destruct H2 as (terms & H2 & H3); [by intros ? ? ?%elem_of_nil|]. exists ns, i, row, terms. split; [exact H1|]. split; [exact H2|exact H3].
Defined.
