(* ===== verification/Pricing.v ===== *)
(** * Pricing: which price applies, and exchange rates that are never guessed

    Models [src/nce/pricing/resolver.py] (price tiers and their precedence),
    [src/nce/pricing/dg.py] ([dg_price]), [src/nce/pricing/fx.py] (the feed of exchange
    rates with its cache and its table) and the best bid of
    [src/nce/vertical_modules/procurement/bids.py].

    Parameters: [float] of a JSON value, of a number's text and of a numeric column.
    Rows of equal price come in the order the table holds them, which PostgreSQL leaves
    open.  HTTP, log output and the path gate of the feed, whose path is a constant, are
    not modelled. *)
From S2P Require Import Prelude PyFloat PyText PyStr PyDecimal.
From Stdlib Require Import Ascii.
Local Open Scope Z_scope.

(** ** Price tiers *)
(** [as_of] values: a [datetime], or the text a JSON document carries. *)
Inductive py_time := PyDatetime (d : datetime) | PyTimeText (s : string).
Record PriceTier := Tier { t_cost : float; t_source : string; t_as_of : py_time }.
Record product := Product {
  p_artnr : json; p_sku : json; supplier_list_price : json; supplier_list_as_of : option py_time;
  base_price : json; base_as_of : option py_time
}.
Record customer := Customer { bid_price : json; bid_as_of : option py_time }.
(** A row of [procurement_bid_prices]. *)
Record bid_row := BidRow {
  br_namespace_id : string; br_artnr : string; br_leverandor : string; br_bid_id : string; br_prodid : option string;
  br_pris : option decimal; br_valid_to : option datetime; br_synced_at : datetime
}.
Inductive price_error := PriceValueError (text : string) | PriceTypeError | PriceAttributeError.
Record PriceResult := PriceResult_ { pr_cost : float; pr_source : string; pr_as_of : py_time; pr_stale : bool }.

(** [ORDER BY pris ASC NULLS LAST] *)
Definition pris_leb (a b : bid_row) : bool :=
  match br_pris a, br_pris b with Some x, Some y => dec_leb x y | Some _, None => true | None, Some _ => false | None, None => true end.

Section prices.
Context (float_of_json : json → result price_error float) (float_of_decimal : decimal → float) (py_str : json → string).
Context (NCE_PRICING_MAX_AGE : Z).

Definition _is_stale (now_us : Z) (as_of : datetime) : bool := NCE_PRICING_MAX_AGE * 10 ^ 6 <? now_us - utc_us as_of.
Definition tier_from (price : json) (as_of : option py_time) (source : string) : result price_error (option PriceTier) :=
  match price, as_of with
  | JNull, _ | _, None => Ok None
  | v, Some t => cost ← float_of_json v; Ok (Some (Tier cost source t))
  end.
Definition _build_bid_tier (c : customer) : result price_error (option PriceTier) := tier_from (bid_price c) (bid_as_of c) "bid".
Definition _build_supplier_list_tier (p : product) : result price_error (option PriceTier) :=
  tier_from (supplier_list_price p) (supplier_list_as_of p) "supplier_list".
Definition _build_base_tier (p : product) : result price_error (option PriceTier) := tier_from (base_price p) (base_as_of p) "base".

(** The table as the query finds it; [None]: the query raises. *)
Definition _fetch_bid_tier_from_db (conn : option (list bid_row)) (namespace_id : string) (p : product) : option PriceTier :=
  let artnr := if json_truthy (p_artnr p) then p_artnr p else p_sku p in
  if negb (json_truthy artnr) then None else
  rows ← conn;
  row ← head (sorted_by pris_leb (List.filter (λ r, String.eqb (br_namespace_id r) namespace_id && String.eqb (br_artnr r) (json_str py_str artnr)) rows));
  pris ← br_pris row;
  Some (Tier (float_of_decimal pris) "bid" (PyDatetime (br_synced_at row))).

Definition _select_tier (bid supplier_list base : option PriceTier) : result price_error PriceTier :=
  match bid, supplier_list, base with
  | Some t, _, _ | None, Some t, _ | None, None, Some t => Ok t
  | None, None, None => raise (PriceValueError "resolve_price: no price tier available. At least a base price must be supplied.")
  end.
Definition resolve_price (conn : option (list bid_row)) (namespace_id : string) (p : product) (c : customer) (now_us : Z) :
    result price_error PriceResult :=
  bid ← _build_bid_tier c;
  let bid := match bid with Some b => Some b | None => _fetch_bid_tier_from_db conn namespace_id p end in
  supplier_list ← _build_supplier_list_tier p;
  base ← _build_base_tier p;
  winner ← _select_tier bid supplier_list base;
  match t_as_of winner with
  | PyTimeText _ => raise PriceAttributeError
  | PyDatetime d => Ok (PriceResult_ (t_cost winner) (t_source winner) (t_as_of winner) (_is_stale now_us d))
  end.

(** ** Bids *)
(** [DISTINCT ON (artnr) ... ORDER BY artnr, pris ASC NULLS LAST] *)
Fixpoint distinct_on_artnr (seen : list string) (rows : list bid_row) : list bid_row :=
  match rows with
  | [] => []
  | r :: rows => if bool_decide (br_artnr r ∈ seen) then distinct_on_artnr seen rows else r :: distinct_on_artnr (br_artnr r :: seen) rows
  end.
Definition by_artnr (a b : bid_row) : bool := str_leb (br_artnr a) (br_artnr b).
Record best_bid := BestBid { bb_row : bid_row; bb_stale : bool }.
Definition _fetch_best_bids (rows : list bid_row) (namespace_id : string) (artnrs : list string) (now_us : Z) : list best_bid :=
  (λ r, BestBid r (_is_stale now_us (br_synced_at r) || match br_valid_to r with Some v => utc_us v <? now_us | None => false end)) <$>
  distinct_on_artnr []
    (sorted_by by_artnr (sorted_by pris_leb
       (List.filter (λ r, String.eqb (br_namespace_id r) namespace_id && bool_decide (br_artnr r ∈ artnrs)) rows))).
End prices.

(** ** The sales price *)
Definition dg_price (cost dg_pct : float) : result price_error float :=
  if fltb dg_pct (of_Z 0) || fleb (of_Z 1) dg_pct then raise (PriceValueError "dg_pct must be in [0, 1)")
  else Ok (fdiv cost (fsub (of_Z 1) dg_pct)).

(** ** Exchange rates *)
Definition newline_char (c : ascii) : bool :=
  let n := char_code c in in_range 10 13 c || in_range 28 30 c || (n =? 133)%N.
(** [str.splitlines]: a carriage return and a line feed end one line. *)
Fixpoint splitlines_from (s acc : string) : list string :=
  match s with
  | EmptyString => if String.eqb acc "" then [] else [string_rev acc ""]
  | String c s =>
      if newline_char c then
        string_rev acc "" ::
        match s with
        | String d s' => if (char_code c =? 13)%N && (char_code d =? 10)%N then splitlines_from s' "" else splitlines_from s ""
        | EmptyString => splitlines_from s ""
        end
      else splitlines_from s (String c acc)
  end.
Definition splitlines (s : string) : list string := splitlines_from s "".
(** [str.split] at one character. *)
Fixpoint split_at (sep : ascii) (s acc : string) : list string :=
  match s with
  | EmptyString => [string_rev acc ""]
  | String c s => if Ascii.eqb c sep then string_rev acc "" :: split_at sep s "" else split_at sep s (String c acc)
  end.
Definition split (sep : ascii) (s : string) : list string := split_at sep s "".
(** [positions.get(name)]: the last column of a name. *)
Fixpoint position_from (i : nat) (name : string) (columns : list string) (found : option nat) : option nat :=
  match columns with
  | [] => found
  | c :: columns => position_from (S i) name columns (if String.eqb c name then Some i else found)
  end.
Definition position (name : string) (columns : list string) : option nat := position_from 0 name columns None.

Section feed.
Context (float_of_text : string → option float) (NCE_FX_TTL : Z).

Abbreviation rate_map := (list (string * float)).
Definition fx_row (cur_pos value_pos : nat) (date_pos : option nat) (acc : rate_map * option string) (row : string) : rate_map * option string :=
  let '(rates, rate_date) := acc in
  let cells := split ";" row in
  match cells !! cur_pos, cells !! value_pos with
  | Some cur, Some text =>
      let currency := upper (strip cur) in
      match float_of_text (replace_char "," "." (strip text)) with
      | None => acc
      | Some value =>
          if String.eqb currency "" || fleb value (of_Z 0) then acc else
          (dict_set currency value rates,
           match date_pos ≫= λ i, cells !! i with
           | Some d => if String.eqb (strip d) "" then rate_date else Some (strip d)
           | None => rate_date
           end)
      end
  | _, _ => acc
  end.
(** Nothing: [{}]. *)
Definition parse_csv (text : string) : option (rate_map * option string) :=
  match List.filter (λ line, negb (String.eqb (strip line) "")) (splitlines text) with
  | header :: ((_ :: _) as data) =>
      let columns := strip <$> split ";" header in
      match position "BASE_CUR" columns, position "OBS_VALUE" columns with
      | Some cur_pos, Some value_pos =>
          let '(rates, rate_date) := foldl (fx_row cur_pos value_pos (position "TIME_PERIOD" columns)) ([], None) data in
          if rates is [] then None else Some (rates, rate_date)
      | _, _ => None
      end
  | _ => None
  end.
(** What the source answers: a status and a text, or an exception. *)
Definition fetch_rates (response : option (Z * string)) : option (rate_map * option string) :=
  match response with Some (status, text) => if status =? 200 then parse_csv text else None | None => None end.

Record fx_contract := Contract { fx_rates : rate_map; fx_date : option string; fx_fetchedAt : string; fx_stale : bool }.
Record stored_rate := StoredRate { sr_rate : float; sr_date : string; sr_fetched_at : Z }.
(** The process's cache, and the table of last-good rates. *)
Record fx_state := FxState { cache_data : option fx_contract; cache_fetched_at : Z; pricing_fx_rates : gmap string stored_rate }.
(** How a call to the database goes: it is done, it fails with an error the code
    catches, or it raises another. *)
Inductive db_outcome := DbDone | DbCaught | DbRaised.

Definition _persist_last_good (w : db_outcome) (db_now : Z) (rates : rate_map) (rate_date : option string) (st : fx_state) : fx_state * bool :=
  match rates, rate_date with
  | [], _ | _, None => (st, true)
  | _, Some d =>
      if String.eqb d "" then (st, true) else
      match w with
      | DbDone => (FxState (cache_data st) (cache_fetched_at st)
                     (foldl (λ t cv, <[cv.1 := StoredRate cv.2 d db_now]> t) (pricing_fx_rates st) rates), true)
      | DbCaught => (st, true)
      | DbRaised => (st, false)
      end
  end.
(** [max] of dates, as their text. *)
Definition latest (l : list string) : string := foldr (λ a b, if str_leb a b then b else a) "" l.
(** [inr]: the contract, if there are rows; [inl]: an exception. *)
Definition _load_last_good (r : db_outcome) `{iter : PyIter} (st : fx_state) : () + option fx_contract :=
  match r with
  | DbRaised => inl ()
  | DbCaught => inr None
  | DbDone =>
      let rows := dict_iter (pricing_fx_rates st) in
      if rows is [] then inr None
      else inr (Some (Contract ((λ kv, (kv.1, sr_rate kv.2)) <$> rows) (Some (latest ((λ kv, sr_date kv.2) <$> rows)))
                        (isoformat_utc (foldr Z.max 0 ((λ kv, sr_fetched_at kv.2) <$> rows))) true))
  end.
Definition as_stale (c : fx_contract) : fx_contract := Contract (fx_rates c) (fx_date c) (fx_fetchedAt c) true.

(** A fresh answer is kept in memory, then in the table. *)
Definition keep_fresh (clock' now_us : Z) (w : db_outcome) (rates : rate_map) (rate_date : option string) (st : fx_state) : fx_state * option fx_contract :=
  let data := Contract rates rate_date (isoformat_utc now_us) false in
  let '(st', ok) := _persist_last_good w now_us rates rate_date (FxState (Some data) clock' (pricing_fx_rates st)) in
  (st', if ok : bool then Some data else None).
(** The clock is read when the cache is asked and again when a fetch is kept.  [None]:
    an exception of the database. *)
Definition get_rates `{iter : PyIter} (force : bool) (clock clock' now_us : Z) (response : option (Z * string)) (w r : db_outcome) (st : fx_state) :
    fx_state * option fx_contract :=
  match cache_data st with
  | Some c => if negb force && (clock - cache_fetched_at st <? NCE_FX_TTL) then (st, Some c) else
      match fetch_rates response with
      | Some (rates, date) => keep_fresh clock' now_us w rates date st
      | None => (st, Some (as_stale c))
      end
  | None =>
      match fetch_rates response with
      | Some (rates, date) => keep_fresh clock' now_us w rates date st
      | None =>
          match _load_last_good r st with
          | inl _ => (st, None)
          | inr (Some c) => (FxState (Some c) (cache_fetched_at st) (pricing_fx_rates st), Some c)
          | inr None => (st, Some (Contract [] None (isoformat_utc now_us) true))
          end
      end
  end.
Definition convert_to_nok (amount : float) (currency : string) (rates : rate_map) : option float :=
  rate ← dict_get (upper currency) rates; Some (fmul amount rate).
End feed.

(** ** What the feed answers *)
Section feed_facts.
Context (float_of_text : string → option float) (NCE_FX_TTL : Z) `{iter : PyIter}.
Abbreviation get := (get_rates float_of_text NCE_FX_TTL).
Implicit Types (st : fx_state) (c : fx_contract).

(** The log holds what the source answered, and when. *)
Abbreviation fx_log := (list (Z * fx_contract)).
Definition logged (clock' now_us : Z) (response : option (Z * string)) (asked : bool) (log : fx_log) : fx_log :=
  match fetch_rates float_of_text response with
  | Some (rates, date) => if asked then (clock', Contract rates date (isoformat_utc now_us) false) :: log else log
  | None => log
  end.
(** The source is asked unless the cache answers. *)
Definition asked (force : bool) (clock : Z) st : bool :=
  match cache_data st with Some _ => negb (negb force && (clock - cache_fetched_at st <? NCE_FX_TTL)) | None => true end.
Inductive fx_run (table : gmap string stored_rate) : fx_log → fx_state → Prop :=
  | fx_start : fx_run table [] (FxState None 0 table)
  | fx_get log st force clock clock' now_us response w r : fx_run table log st →
      fx_run table (logged clock' now_us response (asked force clock st) log) (get force clock clock' now_us response w r st).1
  | fx_restart log st : fx_run table log st → fx_run table log (FxState None 0 (pricing_fx_rates st)).

(** A rate the source gave, or that the table held from the start. *)
Definition from_source (table : gmap string stored_rate) (log : fx_log) (cv : string * float) : Prop :=
  (∃ τ c, (τ, c) ∈ log ∧ cv ∈ fx_rates c) ∨ (∃ s, table !! cv.1 = Some s ∧ sr_rate s = cv.2).
Definition sound (table : gmap string stored_rate) (log : fx_log) st : Prop :=
  (∀ cur s, pricing_fx_rates st !! cur = Some s → from_source table log (cur, sr_rate s)) ∧
  (∀ c, cache_data st = Some c → (∀ cv, cv ∈ fx_rates c → from_source table log cv) ∧ (fx_stale c = false → (cache_fetched_at st, c) ∈ log)).
Lemma from_source_weaken table log x cv : from_source table log cv → from_source table (x :: log) cv.
Proof. intros [(τ & c & Hin & Hc)|Ht]; [left; exists τ, c; split; [by right|done]|by right]. Qed.

Lemma persisted_rates (d : string) db_now (rates : list (string * float)) (t : gmap string stored_rate) cur s :
  foldl (λ t cv, <[cv.1 := StoredRate cv.2 d db_now]> t) t rates !! cur = Some s →
  t !! cur = Some s ∨ (cur, sr_rate s) ∈ rates.
Proof.
  revert t. induction rates as [|[k v] rates IH]; intros t H; [by left|]. cbn [foldl fst snd] in H.
  destruct (IH _ H) as [Hk|Hk]; [|right; by right].
  apply lookup_insert_Some in Hk as [[-> <-]|[_ Hk]]; [right; left|by left].
Qed.
Lemma keep_fresh_sound table log st w clock' now_us rates date st' o :
  let data := Contract rates date (isoformat_utc now_us) false in
  sound table log st → (clock', data) ∈ log → keep_fresh clock' now_us w rates date st = (st', o) →
  sound table log st' ∧ (o = Some data ∨ o = None ∧ w = DbRaised).
Proof.
  intros data [Ht _] Hin Hk. unfold keep_fresh in Hk. fold data in Hk.
  assert (sound table log (FxState (Some data) clock' (pricing_fx_rates st))) as Hs.
  { split; [exact Ht|]. intros c' [= <-]. split; [|done]. intros cv Hcv. left. by exists clock', data. }
  unfold _persist_last_good in Hk. destruct rates as [|cv0 rates0] eqn:Er; [injection Hk as <- <-; by auto|].
  destruct date as [d|]; [|injection Hk as <- <-; by auto]. destruct (String.eqb d ""); [injection Hk as <- <-; by auto|].
  destruct w; injection Hk as <- <-; [|split; [exact Hs|by auto]..]. split; [|by left]. split; [|exact (proj2 Hs)]. cbn [pricing_fx_rates].
  intros cur s Hc. destruct (persisted_rates d now_us (cv0 :: rates0) _ _ _ Hc) as [Hc'|Hc']; [by apply Ht|]. left. by exists clock', data.
Qed.
Lemma sound_weaken table log x st : sound table log st → sound table (x :: log) st.
Proof.
  intros [H1 H2]. split; [intros; by eapply from_source_weaken, H1|]. intros c Hc. destruct (H2 c Hc) as [H3 H4].
  split; [intros; by apply from_source_weaken, H3|]. intros Hs. right. by apply H4.
Qed.
Lemma load_sound table log st r c : sound table log st → _load_last_good r st = inr (Some c) →
  fx_stale c = true ∧ ∀ cv, cv ∈ fx_rates c → from_source table log cv.
Proof.
  intros [Ht _] H. unfold _load_last_good in H. destruct r; try done. cbv zeta in H.
  destruct (dict_iter (pricing_fx_rates st)) as [|x l] eqn:E; [done|]. rewrite <- E in H. injection H as <-. split; [done|].
  cbn [fx_rates]. intros cv ([cur s] & -> & Hin)%list_elem_of_fmap. apply elem_of_dict_iter in Hin. by apply Ht.
Qed.

(** One call: what it answers, and that the state stays sound. *)
Definition answered_well table (log : fx_log) (clock clock' : Z) (w r : db_outcome) (o : option fx_contract) : Prop :=
  match o with
  | Some c => (∀ cv, cv ∈ fx_rates c → from_source table log cv) ∧
      (fx_stale c = false → ∃ τ, (τ, c) ∈ log ∧ (clock - τ < NCE_FX_TTL ∨ τ = clock'))
  | None => w = DbRaised ∨ r = DbRaised
  end.
Lemma get_sound table log st force clock clock' now_us response w r :
  let log' := logged clock' now_us response (asked force clock st) log in
  let '(st', o) := get force clock clock' now_us response w r st in
  sound table log st → sound table log' st' ∧ answered_well table log' clock clock' w r o.
Proof.
  cbv zeta. unfold logged, asked, get_rates. destruct (cache_data st) as [c|] eqn:Ec.
  - destruct (negb force && _) eqn:Ettl; cbn [negb].
    + intros Hs. assert ((match fetch_rates float_of_text response with Some (_, _) => log | None => log end) = log) as -> by (destruct (fetch_rates _ _) as [[]|]; done).
      split; [done|]. destruct (proj2 Hs c Ec) as [H1 H2]. split; [done|]. intros Hf. exists (cache_fetched_at st). split; [by apply H2|].
      left. apply andb_true_iff in Ettl as [_ Ettl]. by apply Z.ltb_lt in Ettl.
    + destruct (fetch_rates float_of_text response) as [[rates date]|].
      * destruct (keep_fresh _ _ _ _ _ _) as [st' o] eqn:Ek. intros Hs%(sound_weaken _ _ (clock', Contract rates date (isoformat_utc now_us) false)).
        destruct (keep_fresh_sound _ _ _ _ _ _ _ _ _ _ Hs ltac:(left) Ek) as [Hs' [->|[-> ->]]]; (split; [done|]); [|by left].
        split; [intros cv Hcv; left; eexists _, _; split; [left|done]|]. intros _. exists clock'. split; [left|by right].
      * intros Hs. split; [done|]. split; [exact (proj1 (proj2 Hs c Ec))|done].
  - destruct (fetch_rates float_of_text response) as [[rates date]|].
    + destruct (keep_fresh _ _ _ _ _ _) as [st' o] eqn:Ek. intros Hs%(sound_weaken _ _ (clock', Contract rates date (isoformat_utc now_us) false)).
      destruct (keep_fresh_sound _ _ _ _ _ _ _ _ _ _ Hs ltac:(left) Ek) as [Hs' [->|[-> ->]]]; (split; [done|]); [|by left].
      split; [intros cv Hcv; left; eexists _, _; split; [left|done]|]. intros _. exists clock'. split; [left|by right].
    + destruct (_load_last_good r st) as [[]|[c|]] eqn:El; intros Hs.
      * split; [done|]. unfold _load_last_good in El. destruct r; [cbv zeta in El; destruct (dict_iter _); done|done|by right].
      * destruct (load_sound _ _ _ _ _ Hs El) as [Hst Hc]. split; [|split; [exact Hc|congruence]].
        split; [exact (proj1 Hs)|]. intros c' [= <-]. split; [exact Hc|congruence].
      * split; [done|]. split; [by intros cv ?%elem_of_nil|done].
Qed.
Lemma run_sound table log st : fx_run table log st → sound table log st.
Proof.
  induction 1 as [|log st force clock clock' now_us response w r _ IH|log st _ IH].
  - split; [intros cur s H; right; by exists s|done].
  - pose proof (get_sound table log st force clock clock' now_us response w r) as H. cbv zeta in H.
    destruct (get _ _ _ _ _ _ _ _) as [st' o]. exact (proj1 (H IH)).
  - split; [exact (proj1 IH)|done].
Qed.

(** Exchange rates are never guessed.  Whatever the source and the database answer, and
    through restarts, every rate in an answer was in an answer of the source or in the
    table from the start; an answer not marked stale is one the source gave within the
    cache's time to live.  A call fails only if the database raises an error that is not
    its own or the network's. *)
Theorem fx_never_guesses table log st force clock clock' now_us response w r :
  fx_run table log st →
  answered_well table (logged clock' now_us response (asked force clock st) log) clock clock' w r (get force clock clock' now_us response w r st).2.
Proof.
  intros Hrun%run_sound. pose proof (get_sound table log st force clock clock' now_us response w r) as H. cbv zeta in H.
  destruct (get _ _ _ _ _ _ _ _) as [st' o]. exact (proj2 (H Hrun)).
Qed.
End feed_facts.

(** ** Which price applies *)
Section price_facts.
Context (float_of_json : json → result price_error float) (float_of_decimal : decimal → float) (py_str : json → string) (NCE_PRICING_MAX_AGE : Z).
Lemma pris_leb_total a b : pris_leb a b = true ∨ pris_leb b a = true.
Proof. unfold pris_leb. destruct (br_pris a), (br_pris b); auto using dec_leb_total. Qed.
Lemma pris_leb_trans a b c : pris_leb a b = true → pris_leb b c = true → pris_leb a c = true.
Proof. unfold pris_leb. destruct (br_pris a), (br_pris b), (br_pris c); try done. apply dec_leb_trans. Qed.
(** The first row in the order of prices precedes every other. *)
Lemma head_cheapest l r : head (sorted_by pris_leb l) = Some r → r ∈ l ∧ ∀ r', r' ∈ l → pris_leb r r' = true.
Proof.
  intros Hh. pose proof (sorted_by_sorted pris_leb l pris_leb_total) as Hs. apply Sorted_StronglySorted in Hs; [|intros x y z; apply pris_leb_trans].
  destruct (sorted_by pris_leb l) as [|r0 l'] eqn:E; [done|]. injection Hh as ->.
  assert (∀ x, x ∈ l ↔ x ∈ r :: l') as Hin by (intros x; by rewrite <- E, elem_of_sorted_by).
  split; [apply Hin; left|]. intros r' [->|Hr']%Hin%elem_of_cons; [by destruct (pris_leb_total r r)|].
  apply StronglySorted_inv in Hs as [_ Hs]. rewrite Forall_forall in Hs. by apply Hs.
Qed.

Definition offers (rows : list bid_row) (ns : string) (p : product) (r : bid_row) : Prop :=
  let artnr := if json_truthy (p_artnr p) then p_artnr p else p_sku p in
  r ∈ rows ∧ br_namespace_id r = ns ∧ json_truthy artnr = true ∧ br_artnr r = json_str py_str artnr.
(** The cheapest priced bid of the tenant for the article. *)
Definition cheapest_bid rows ns p (t : PriceTier) : Prop :=
  ∃ r x, offers rows ns p r ∧ br_pris r = Some x ∧ t = Tier (float_of_decimal x) "bid" (PyDatetime (br_synced_at r)) ∧
    ∀ r' y, offers rows ns p r' → br_pris r' = Some y → dec_leb x y = true.
Lemma fetch_bid_cheapest rows ns p :
  match _fetch_bid_tier_from_db float_of_decimal py_str (Some rows) ns p with
  | Some t => cheapest_bid rows ns p t
  | None => ∀ r, offers rows ns p r → br_pris r = None
  end.
Proof.
  unfold _fetch_bid_tier_from_db, cheapest_bid, offers. set (artnr := if json_truthy (p_artnr p) then _ else _).
  destruct (json_truthy artnr); cbn [negb]; [|by intros r (_ & _ & ? & _)].
  cbn [mbind option_bind]. set (mine := List.filter _ rows).
  assert (∀ r, r ∈ mine ↔ r ∈ rows ∧ br_namespace_id r = ns ∧ true = true ∧ br_artnr r = json_str py_str artnr) as Hmine.
  { intros r. unfold mine. rewrite elem_of_filter_b, andb_true_iff, !String.eqb_eq. naive_solver. }
  destruct (head (sorted_by pris_leb mine)) as [r|] eqn:Eh; cbn [mbind option_bind].
  - apply head_cheapest in Eh as [Hr Hmin]. destruct (br_pris r) as [x|] eqn:Ex; cbn [mbind option_bind].
    + exists r, x. split; [apply Hmine; exact Hr|]. split; [exact Ex|]. split; [done|]. intros r' y Hr'%Hmine Hy. specialize (Hmin _ Hr'). unfold pris_leb in Hmin. by rewrite Ex, Hy in Hmin.
    + intros r' Hr'%Hmine. specialize (Hmin _ Hr'). unfold pris_leb in Hmin. rewrite Ex in Hmin. by destruct (br_pris r').
  - intros r Hr%Hmine. rewrite <- (elem_of_sorted_by pris_leb) in Hr. destruct (sorted_by pris_leb mine); [by apply elem_of_nil in Hr|done].
Qed.

(** The price of a product.  A customer's own bid, else the tenant's cheapest priced bid
    for the article, else the supplier's list price, else the base price; it is answered
    however old, and marked stale exactly when it is older than the configured age. *)
Theorem price_resolved rows ns p c now r :
  resolve_price float_of_json float_of_decimal py_str NCE_PRICING_MAX_AGE (Some rows) ns p c now = Ok r →
  ∃ t d, t_as_of t = PyDatetime d ∧ r = PriceResult_ (t_cost t) (t_source t) (PyDatetime d) (NCE_PRICING_MAX_AGE * 10 ^ 6 <? now - utc_us d) ∧
    (_build_bid_tier float_of_json c = Ok (Some t) ∨
     _build_bid_tier float_of_json c = Ok None ∧
     (cheapest_bid rows ns p t ∨
      (∀ r, offers rows ns p r → br_pris r = None) ∧
      (_build_supplier_list_tier float_of_json p = Ok (Some t) ∨
       _build_supplier_list_tier float_of_json p = Ok None ∧ _build_base_tier float_of_json p = Ok (Some t)))).
Proof.
  unfold resolve_price. intros (own & Eown & H)%bind_Ok. cbv zeta in H. apply bind_Ok in H as (lst & Elst & H). apply bind_Ok in H as (base & Ebase & H).
  apply bind_Ok in H as (t & Et & H). destruct (t_as_of t) as [d|] eqn:Ed; [|done]. injection H as <-. rewrite Eown, Elst, Ebase.
  exists t, d. split; [done|]. split; [reflexivity|]. unfold _select_tier in Et.
  destruct own as [t0|]; [injection Et as ->; by left|]. right. split; [done|].
  pose proof (fetch_bid_cheapest rows ns p) as Hb. destruct (_fetch_bid_tier_from_db _ _ _ _ _) as [t0|]; [injection Et as ->; by left|].
  right. split; [exact Hb|]. destruct lst as [t0|]; [injection Et as ->; by left|]. right. split; [done|]. destruct base as [t0|]; [|done]. injection Et as ->. done.
Qed.
End price_facts.

(** ** Concrete prices and rates *)
Definition demo_float (v : json) : result price_error float := match v with JInt z => Ok (of_Z z) | _ => raise PriceTypeError end.
Definition demo_decimal (d : decimal) : float := of_ratio (coef d) (10 ^ (- dexp d)).
Definition day : Z := 86400 * 10 ^ 6.
Definition at_us (us : Z) : datetime := Datetime us (Some 0).
Definition demo_product : product := Product (JStr "A-1") JNull (JInt 90) (Some (PyDatetime (at_us 0))) JNull None.
Definition demo_bid (bid_id : string) (cents : Z) (valid_to : option datetime) : bid_row :=
  BidRow "ns" "A-1" "vendor" bid_id None (Some (Dec cents (-2))) valid_to (at_us (9 * day)).
Definition demo_price (rows : list bid_row) (p : product) : result price_error PriceResult :=
  resolve_price demo_float demo_decimal json_dumps 86400 (Some rows) "ns" p (Customer JNull None) (10 * day).
Lemma price_resolved_witness : ∃ t, demo_price [demo_bid "b1" 8150 None; demo_bid "b2" 7900 None] demo_product =
    Ok (PriceResult_ (t_cost t) (t_source t) (t_as_of t) false) ∧ t_cost t = of_Z 79 ∧
  cheapest_bid demo_decimal json_dumps [demo_bid "b1" 8150 None; demo_bid "b2" 7900 None] "ns" demo_product t.
Proof.
  destruct (price_resolved demo_float demo_decimal json_dumps 86400 [demo_bid "b1" 8150 None; demo_bid "b2" 7900 None] "ns" demo_product (Customer JNull None) (10 * day)
    (PriceResult_ (of_Z 79) "bid" (PyDatetime (at_us (9 * day))) false)) as (t & d & Hd & Hr & Ht); [vm_compute; reflexivity|].
  exists t. injection Hr as Hc Hs Hda Hst. rewrite Hd, <- Hda, <- Hc, <- Hs. split; [vm_compute; reflexivity|]. split; [reflexivity|].
  destruct Ht as [Ht|[_ [Ht|[_ Ht]]]]; [discriminate Ht|exact Ht|]. destruct Ht as [Ht|[Ht _]]; vm_compute in Ht; [injection Ht as <-; discriminate Hs|discriminate Ht].
Defined.

Definition demo_text (s : string) : option float :=
  if String.eqb s "11.5" then Some (of_ratio 115 10) else if String.eqb s "nan" then Some S754_nan else None.
Definition nl : string := String (ascii_of_N 10) "".
Definition demo_csv (value : string) : string := ("TIME_PERIOD;BASE_CUR;OBS_VALUE" +:+ nl +:+ "2026-09-18;EUR;" +:+ value +:+ nl)%string.
Definition no_rates : fx_state := FxState None 0 ∅.
Definition demo_get (clock : Z) (response : option (Z * string)) (st : fx_state) : fx_state * option fx_contract :=
  @get_rates demo_text 21600 canonical_iter false clock clock 0 response DbDone DbDone st.
Example rates_read : parse_csv demo_text (demo_csv "11,5") = Some ([("EUR"%string, of_ratio 115 10)], Some "2026-09-18"%string).
Proof. vm_compute. reflexivity. Qed.
Lemma fx_never_guesses_witness : match (demo_get 50 None (demo_get 40 (Some (200, demo_csv "11,5")) no_rates).1).2 with
  | Some c => fx_stale c = false ∧ ∃ τ, 50 - τ < 21600 ∨ τ = 50 | None => False end.
Proof.
  assert (∀ log st c, @fx_run demo_text 21600 canonical_iter ∅ log st → (demo_get 50 None st).2 = Some c → fx_stale c = false → ∃ τ, 50 - τ < 21600 ∨ τ = 50) as H.
  { intros log st c Hrun E Hc. pose proof (@fx_never_guesses demo_text 21600 canonical_iter ∅ log st false 50 50 0 None DbDone DbDone Hrun) as H.
    unfold demo_get in E. rewrite E in H. destruct H as [_ H]. destruct (H Hc) as (τ & _ & Hτ). exists τ. exact Hτ. }
  pose proof (@fx_get demo_text 21600 canonical_iter ∅ _ _ false 40 40 0 (Some (200, demo_csv "11,5")) DbDone DbDone (@fx_start demo_text 21600 canonical_iter ∅)) as Hrun.
  destruct (demo_get 50 None _).2 as [c|] eqn:E; [|vm_compute in E; discriminate E].
  assert (fx_stale c = false) as Hc by (vm_compute in E; injection E as <-; reflexivity). split; [exact Hc|]. exact (H _ _ c Hrun E Hc).
Defined.

(** A time that came as text, as the tool documents it, cannot be used. *)
Example json_times_refused :
  demo_price [] (Product (JStr "A-1") JNull (JInt 90) (Some (PyTimeText "2026-09-18T00:00:00+00:00")) JNull None) = Err PriceAttributeError.
Proof. vm_compute. reflexivity. Qed.
(** An expired bid is the price while it is the cheapest. *)
Example expired_bid_wins :
  match demo_price [demo_bid "b1" 8150 None; demo_bid "b2" 100 (Some (at_us 0))] demo_product with
  | Ok r => pr_cost r = of_Z 1 ∧ pr_stale r = false | Err _ => False end.
Proof. vm_compute. done. Qed.
(** What is no number passes as a rate. *)
Example nan_rate_accepted : parse_csv demo_text (demo_csv "nan") = Some ([("EUR"%string, S754_nan)], Some "2026-09-18"%string).
Proof. vm_compute. reflexivity. Qed.
(** Last-good rates loaded while the machine's clock is below the time to live are
    answered without asking the source again. *)
Definition table_only : fx_state := FxState None 0 {["EUR"%string := StoredRate (of_Z 11) "2026-09-01" 0]}.
Example last_good_not_retried :
  let st := (demo_get 40 None table_only).1 in
  match (demo_get 50 (Some (200, demo_csv "11,5")) st).2 with Some c => fx_stale c = true | None => False end.
Proof. vm_compute. reflexivity. Qed.
