(* ===== verification/TrustDial.v ===== *)
(** * TrustDial: autonomy tiers proposed from recorded decisions

    Models [src/nce/trust_dial.py] (the configured tier, the metrics, the proposal, the
    status and its tools), [src/nce/decision_feedback.py] (recording a human's decision)
    and [src/nce/degradation.py] (the register of degraded answers).

    Parameters: what [jsonb] keeps of a value, [str] of a JSON value, [float] of text and
    of a number's text, [int] of what is no integer, the C library's square and the
    format [.1f].  The weights of graph edges that a decision reinforces and the wording of the
    status are not modelled. *)
From S2P Require Import Prelude PyFloat PyText PyStr.
From stdpp Require Import pretty.
Local Open Scope Z_scope.

(** ** The degradation register *)
Record DegradationRecord := Degradation {
  dg_namespace_id : string; dg_engine : string; dg_code : string; dg_count : Z;
  dg_first_seen_at : string; dg_last_seen_at : string; dg_detail : string; dg_onboarding_hint : string
}.
(** [_records]: namespace, then code. *)
Abbreviation register := (list (string * list (string * DegradationRecord))).

Definition record (now_iso : string) (namespace_id : option string) (engine code detail onboarding_hint : string) (r : register) : register :=
  let ns_key := match namespace_id with Some ns => strip ns | None => "system"%string end in
  let ns_dict := default [] (dict_get ns_key r) in
  let rec := match dict_get code ns_dict with
    | Some rec =>
        Degradation (dg_namespace_id rec) (dg_engine rec) (dg_code rec) (dg_count rec + 1) (dg_first_seen_at rec) now_iso
          (if String.eqb detail "" then dg_detail rec else detail)
          (if String.eqb onboarding_hint "" then dg_onboarding_hint rec else onboarding_hint)
    | None => Degradation ns_key (strip engine) (strip code) 1 now_iso now_iso (strip detail) (strip onboarding_hint)
    end in
  dict_set ns_key (dict_set code rec ns_dict) r.
Definition get_degradations (namespace_id : option string) (r : register) : list DegradationRecord :=
  match namespace_id with
  | Some ns => (default [] (dict_get (strip ns) r)).*2
  | None => concat ((λ kv, kv.2.*2) <$> r)
  end.
Definition counts (l : list DegradationRecord) : Z := foldr Z.add 0 (dg_count <$> l).
Definition total_count (namespace_id : option string) (r : register) : Z := counts (get_degradations namespace_id r).
Record degradation_summary := Summary {
  total_events : Z; unique_codes : gset string; by_engine : list (string * Z); by_namespace : list (string * Z)
}.
Definition add_count (k : string) (n : Z) (l : list (string * Z)) : list (string * Z) := dict_set k (default 0 (dict_get k l) + n) l.
Definition summary_step (s : degradation_summary) (x : string * string * DegradationRecord) : degradation_summary :=
  let '(ns_key, code, rec) := x in
  Summary (total_events s + dg_count rec) ({[code]} ∪ unique_codes s)
    (add_count (dg_engine rec) (dg_count rec) (by_engine s)) (add_count ns_key (dg_count rec) (by_namespace s)).
Definition items (r : register) : list (string * string * DegradationRecord) :=
  concat ((λ kv : string * list (string * DegradationRecord), (λ cr : string * DegradationRecord, (kv.1, cr.1, cr.2)) <$> kv.2) <$> r).
Definition get_summary (r : register) : degradation_summary := foldl summary_step (Summary 0 ∅ [] []) (items r).
Definition clear (namespace_id : option string) (r : register) : register :=
  match namespace_id with Some ns => List.filter (λ kv, negb (String.eqb kv.1 (strip ns))) r | None => [] end.

(** ** Recorded decisions *)
Record feedback := Feedback {
  fb_engine : string; fb_context_id : option string; fb_proposal : json; fb_decision : string; fb_delta : json; fb_actor : string
}.
(** The metadata of each namespace, and its [decision_feedback] rows. *)
Record trust_db := TrustDb { namespaces : gmap string json; decision_feedback : gmap string (list feedback) }.
Inductive trust_error := ValueError (text : string) | AttributeError | TypeError | OverflowError | ForeignKeyViolation.

Section trust.
Context (jsonb : json → json) (py_str : json → string) (float_of_text : string → option float) (float_of_repr : string → float).
Context (int_of : json → option Z) (square : float → float) (fixed1 : float → string).

(** [x or d], as text. *)
Definition text_or (d : string) (v : option json) : string :=
  match v with Some v => if json_truthy v then json_str py_str v else d | None => d end.
Definition given (v : option json) : option json := match v with Some JNull => None | _ => v end.

Definition record_decision_feedback (ns engine : string) (proposal : json) (decision : string) (delta : json) (actor : string)
    (context_id : option string) (db : trust_db) : result trust_error trust_db :=
  _ ← ensure (negb (String.eqb engine "")) (ValueError "engine");
  _ ← ensure (negb (String.eqb decision "")) (ValueError "decision");
  _ ← ensure (bool_decide (is_Some (namespaces db !! ns))) ForeignKeyViolation;
  let or_empty v := if json_truthy v then v else JObj [] in
  let row := Feedback (strip engine) (strip <$> context_id) (jsonb (or_empty proposal)) (strip decision) (jsonb (or_empty delta))
               (strip (if String.eqb actor "" then "human" else actor)) in
  Ok (TrustDb (namespaces db) (<[ns := default [] (decision_feedback db !! ns) ++ [row]]> (decision_feedback db))).

Definition require_namespace_id (arguments : list (string * json)) : result trust_error string :=
  match given (json_get "namespace_id" arguments) with
  | None => raise (ValueError "namespace_id is required")
  | Some v => match UUID (json_str py_str v) with Some u => Ok u | None => raise (ValueError "Invalid namespace_id") end
  end.
Definition object_or_absent (v : option json) : bool := match given v with None | Some (JObj _) => true | _ => false end.
Definition handle_record_decision_feedback (arguments : list (string * json)) (db : trust_db) : result trust_error trust_db :=
  namespace_id ← require_namespace_id arguments;
  let engine_name := strip (text_or "" (json_get "engine" arguments)) in
  _ ← ensure (negb (String.eqb engine_name "")) (ValueError "engine");
  let decision := strip (text_or "" (json_get "decision" arguments)) in
  _ ← ensure (negb (String.eqb decision "")) (ValueError "decision");
  let proposal := given (json_get "proposal" arguments) in
  _ ← ensure (object_or_absent proposal) (ValueError "proposal");
  let delta := given (json_get "delta" arguments) in
  _ ← ensure (object_or_absent delta) (ValueError "delta");
  let actor := strip (text_or "human" (json_get "actor" arguments)) in
  let context_id := (λ v, strip (json_str py_str v)) <$> given (json_get "context_id" arguments) in
  record_decision_feedback namespace_id engine_name (default JNull proposal) decision (default JNull delta) actor context_id db.

(** ** The configured tier *)
(** [tier_val in (1, 2, 3, 4)], and [int(tier_val)]. *)
Definition as_tier (v : json) : option Z :=
  match v with
  | JInt z => if bool_decide (z ∈ [1; 2; 3; 4]) then Some z else None
  | JBool true => Some 1
  | JFloat r => list_find (λ z, feqb (float_of_repr r) (of_Z z) = true) [1; 2; 3; 4] ≫= λ iz, Some iz.2
  | _ => None
  end.
Definition obj (v : json) : result trust_error (list (string * json)) := match v with JObj l => Ok l | _ => raise AttributeError end.
Definition engine_key (engine : option string) : string :=
  match engine with Some e => if String.eqb e "" then "global" else strip e | None => "global" end.
(** [trust_dial_meta.get(key, {}).get("tier")] *)
Definition tier_entry (key : string) (trust_dial_meta : list (string * json)) : result trust_error (option json) :=
  entry ← obj (default (JObj []) (json_get key trust_dial_meta)); Ok (given (json_get "tier" entry)).
Definition get_tenant_configured_tier (ns : string) (engine : option string) (db : trust_db) : result trust_error Z :=
  match namespaces db !! ns with
  | None => Ok 3
  | Some meta =>
      meta ← obj meta;
      trust_dial_meta ← obj (default (JObj []) (json_get "trust_dial" meta));
      let key := engine_key engine in
      tier_val ← tier_entry key trust_dial_meta;
      tier_val ← (if tier_val is None then if String.eqb key "global" then Ok None else tier_entry "global" trust_dial_meta else Ok tier_val);
      Ok (default 3 (tier_val ≫= as_tier))
  end.

Definition TIER_LABELS (tier : Z) : string :=
  match tier with
  | 1 => "Tier 1 (Autonomous)" | 2 => "Tier 2 (Actor/Confirm)" | 3 => "Tier 3 (Advisor + PL Review)" | 4 => "Tier 4 (Advisor Only)"
  | _ => "Tier " +:+ pretty tier
  end.
Definition set_tenant_autonomy_tier (ns : string) (tier : Z) (engine : option string) (actor now_iso : string) (db : trust_db) :
    result trust_error trust_db :=
  _ ← ensure (bool_decide (tier ∈ [1; 2; 3; 4])) (ValueError "tier must be an integer between 1 and 4");
  meta ← obj (default (JObj []) (namespaces db !! ns));
  trust_dial_meta ← (match default (JObj []) (json_get "trust_dial" meta) with JObj l => Ok l | _ => raise TypeError end);
  let entry := JObj [("tier", JInt tier); ("tier_label", JStr (TIER_LABELS tier)); ("updated_at", JStr now_iso); ("updated_by", JStr actor)]%string in
  let meta := dict_set "trust_dial" (JObj (dict_set (engine_key engine) entry trust_dial_meta)) meta in
  Ok (TrustDb (alter (λ _, jsonb (JObj meta)) ns (namespaces db)) (decision_feedback db)).
Definition handle_trust_dial_set_tier (arguments : list (string * json)) (now_iso : string) (db : trust_db) : result trust_error trust_db :=
  namespace_id ← require_namespace_id arguments;
  match given (json_get "tier" arguments) with
  | None => raise (ValueError "Field 'tier' is required (integer 1-4)")
  | Some tier_raw =>
      match (match tier_raw with JInt z => Some z | v => int_of v end) with
      | None => raise (ValueError "Field 'tier' must be an integer between 1 and 4")
      | Some tier =>
          let engine_filter := (λ v, strip (json_str py_str v)) <$> given (json_get "engine" arguments) in
          set_tenant_autonomy_tier namespace_id tier engine_filter (strip (text_or "admin" (json_get "actor" arguments))) now_iso db
      end
  end.

(** ** What was measured *)
Definition POSITIVE_DECISIONS : list string := ["accept"; "accepted"; "held"; "succeeded"; "confirm"; "confirmed"; "approved"]%string.
Definition NEGATIVE_DECISIONS : list string := ["override"; "overridden"; "deviated"; "rework"; "reject"; "rejected"]%string.
Definition MIN_SAMPLE_SIZE : Z := 5.
Definition normal (decision : string) : string := lower (strip decision).
Definition positive (r : feedback) : bool := bool_decide (normal (fb_decision r) ∈ POSITIVE_DECISIONS).
Definition negative (r : feedback) : bool := bool_decide (normal (fb_decision r) ∈ NEGATIVE_DECISIONS).

(** [round(x, 4)], for magnitudes below [2^39]. *)
Definition div_half_even (n d : Z) : Z :=
  let q := n / d in
  match (2 * (n mod d)) ?= d with Lt => q | Gt => q + 1 | Eq => if Z.even q then q else q + 1 end.
Definition round4 (x : float) : float :=
  match x with
  | S754_finite s m e =>
      let n := Zpos m * 10 ^ 4 in
      let k := if 0 <=? e then n * 2 ^ e else div_half_even n (2 ^ (- e)) in
      let r := of_ratio k (10 ^ 4) in if s then fneg r else r
  | x => x
  end.

(** [float(raw_conf)], or nothing where the row is passed over. *)
Definition confidence (v : json) : result trust_error (option float) :=
  match v with
  | JBool b => Ok (Some (of_Z (if b then 1 else 0)))
  | JInt z => match of_Z z with S754_infinity _ => raise OverflowError | f => Ok (Some f) end
  | JFloat r => Ok (Some (float_of_repr r))
  | JStr s => Ok (float_of_text s)
  | _ => Ok None
  end.
Definition calibration_pair (r : feedback) : result trust_error (option (float * float)) :=
  if negb (positive r || negative r) then Ok None else
  prop ← obj (fb_proposal r);
  match given (json_get "confidence" prop) with
  | None => Ok None
  | Some raw_conf =>
      conf ← confidence raw_conf;
      Ok (conf ≫= λ c, if fleb (of_Z 0) c && fleb c (of_Z 1) then Some (c, of_Z (if positive r then 1 else 0)) else None)
  end.
Definition compute_brier_calibration (rows : list feedback) : result trust_error (option (float * float)) :=
  pairs ← mapM calibration_pair rows;
  let pairs := omap id pairs in
  if bool_decide (length pairs = 0%nat) then Ok None else
  let mean (f : float → float) := round4 (fdiv (py_sum ((λ cy : float * float, f (fsub cy.1 cy.2)) <$> pairs)) (of_Z (Z.of_nat (length pairs)))) in
  Ok (Some (mean square, mean SFabs)).

Record TrustMetrics := Metrics {
  sample_size : Z; accepted_count : Z; override_count : Z; precision_rate : float; calibration : option (float * float)
}.
Definition selected (engine : option string) (r : feedback) : bool :=
  match engine with Some e => String.eqb e "" || String.eqb (fb_engine r) (strip e) | None => true end.
Definition compute_trust_metrics (ns : string) (engine : option string) (db : trust_db) : result trust_error TrustMetrics :=
  let rows := List.filter (selected engine) (default [] (decision_feedback db !! ns)) in
  let total_samples := Z.of_nat (length rows) in
  let accepted := Z.of_nat (length (List.filter positive rows)) in
  calib ← compute_brier_calibration rows;
  Ok (Metrics total_samples accepted (Z.of_nat (length (List.filter negative rows)))
        (if 0 <? total_samples then round4 (of_ratio accepted total_samples) else of_Z 0) calib).

(** ** The proposal *)
Inductive proposal_status := insufficient_signal | promotion_proposed | demoted_due_to_degradation | tier_confirmed.
Record proposal := Proposal { proposed_tier : Z; effective_tier : Z; pr_status : proposal_status; escalation_required : bool }.
Definition candidate (sample : Z) (precision : float) : Z :=
  if fleb (of_ratio 95 100) precision && (10 <=? sample) then 1
  else if fleb (of_ratio 80 100) precision then 2
  else if fleb (of_ratio 60 100) precision then 3
  else 4.
Definition evaluate_tier_proposal (current_tier sample : Z) (precision : float) : proposal :=
  if sample <? MIN_SAMPLE_SIZE then Proposal current_tier current_tier insufficient_signal false else
  let candidate_tier := candidate sample precision in
  if candidate_tier <? current_tier then Proposal candidate_tier current_tier promotion_proposed true
  else if current_tier <? candidate_tier then Proposal candidate_tier candidate_tier demoted_due_to_degradation false
  else Proposal current_tier current_tier tier_confirmed false.

Record trust_status := TrustStatus {
  ts_current_tier : Z; ts_proposal : proposal; ts_metrics : TrustMetrics;
  ts_transparency_high : bool; ts_human_in_the_loop : bool; ts_override_history_verified : bool
}.
Definition get_trust_dial_status (ns : string) (engine : option string) (now_iso : string) (db : trust_db) (r : register) :
    result trust_error (trust_status * register) :=
  current_tier ← get_tenant_configured_tier ns engine db;
  metrics ← compute_trust_metrics ns engine db;
  let p := evaluate_tier_proposal current_tier (sample_size metrics) (precision_rate metrics) in
  let name := match engine with Some e => if String.eqb e "" then "trust_dial"%string else e | None => "trust_dial"%string end in
  let r := match pr_status p with
    | insufficient_signal =>
        record now_iso (Some ns) name "insufficient_decision_feedback"
          ("Only " +:+ pretty (sample_size metrics) +:+ " feedback decisions recorded; minimum " +:+ pretty MIN_SAMPLE_SIZE +:+ " needed.")
          ("Record " +:+ pretty (MIN_SAMPLE_SIZE - sample_size metrics) +:+ " more human decisions to unlock autonomy proposals.") r
    | demoted_due_to_degradation =>
        record now_iso (Some ns) name "autonomy_tier_demoted"
          ("Autonomy demoted to Tier " +:+ pretty (effective_tier p) +:+ " due to precision drop (" +:+
           fixed1 (fmul (precision_rate metrics) (of_Z 100)) +:+ "%).")
          "Review recent override decisions to identify error patterns." r
    | _ => r
    end%string in
  Ok (TrustStatus current_tier p metrics (if pr_status p is insufficient_signal then false else true)
        (1 <? effective_tier p) (0 <? sample_size metrics), r).
Definition handle_trust_dial_get_status (arguments : list (string * json)) (now_iso : string) (db : trust_db) (r : register) :
    result trust_error (trust_status * register) :=
  namespace_id ← require_namespace_id arguments;
  let engine_filter := (λ v, strip (json_str py_str v)) <$> given (json_get "engine" arguments) in
  get_trust_dial_status namespace_id engine_filter now_iso db r.
End trust.
