(* ===== verification/TrustDialProps.v ===== *)
(** * TrustDialProps: autonomy is raised by people, and degraded answers are counted *)
From S2P Require Import Prelude PyFloat PyText PyStr TrustDial.
Local Open Scope Z_scope.

(** ** Sums *)
Definition sum_by {A} (f : A → Z) (l : list A) : Z := foldr Z.add 0 (f <$> l).
Lemma sum_by_cons {A} (f : A → Z) x l : sum_by f (x :: l) = f x + sum_by f l.
Proof. done. Qed.
Lemma sum_by_app {A} (f : A → Z) l k : sum_by f (l ++ k) = sum_by f l + sum_by f k.
Proof. unfold sum_by. rewrite fmap_app. induction (f <$> l) as [|x l' IH]; cbn; lia. Qed.
Lemma sum_by_concat {A} (f : A → Z) l : sum_by f (concat l) = sum_by (sum_by f) l.
Proof. induction l as [|x l IH]; [done|]. cbn [concat]. rewrite sum_by_app, IH. done. Qed.
(** Setting a key replaces what it counted for. *)
Lemma sum_dict_set {A} (f : A → Z) k v l : sum_by f (dict_set k v l).*2 = sum_by f l.*2 + f v - from_option f 0 (dict_get k l).
Proof.
  unfold sum_by, dict_get. induction l as [|[k1 v1] l IH]; cbn; [lia|].
  destruct (String.eqb_spec k1 k) as [->|]; cbn; [lia|]. rewrite IH. cbn. lia.
Qed.

(** ** The register *)
Record degradation_call := Call {
  dc_now : string; dc_namespace_id : option string; dc_engine : string; dc_code : string; dc_detail : string; dc_hint : string
}.
Definition call_key (c : degradation_call) : string := match dc_namespace_id c with Some ns => strip ns | None => "system" end.
Definition recorded (r : register) (c : degradation_call) : register :=
  record (dc_now c) (dc_namespace_id c) (dc_engine c) (dc_code c) (dc_detail c) (dc_hint c) r.
Definition count_in (ns_key : string) (r : register) : Z := sum_by dg_count (default [] (dict_get ns_key r)).*2.
Lemma counts_sum l : counts l = sum_by dg_count l.
Proof. done. Qed.
Lemma total_count_all r : total_count None r = sum_by (λ d : list (string * DegradationRecord), sum_by dg_count d.*2) r.*2.
Proof.
  unfold total_count. rewrite counts_sum. cbn [get_degradations]. rewrite sum_by_concat. unfold sum_by at 1 3.
  f_equal. rewrite <- !list_fmap_compose. done.
Qed.
Lemma record_count c r ns_key : count_in ns_key (recorded r c) = count_in ns_key r + (if String.eqb (call_key c) ns_key then 1 else 0).
Proof.
  unfold count_in, recorded, record. fold (call_key c). cbv zeta. rewrite dict_get_set.
  destruct (String.eqb_spec (call_key c) ns_key) as [->|]; [|lia]. cbn [from_option]. unfold id at 1. rewrite sum_dict_set.
  destruct (dict_get (dc_code c) _) as [rec|]; cbn; lia.
Qed.
Lemma record_total c r : total_count None (recorded r c) = total_count None r + 1.
Proof.
  rewrite !total_count_all. unfold recorded, record. fold (call_key c). cbv zeta. rewrite sum_dict_set. cbv beta. rewrite sum_dict_set.
  destruct (dict_get (call_key c) r) as [d|]; cbn [from_option]; unfold id; [|cbn; lia].
  destruct (dict_get (dc_code c) d) as [rec|]; cbn [from_option dg_count]; lia.
Qed.
Lemma summary_sums s l : let s' := foldl summary_step s l in let n := sum_by (λ x : string * string * DegradationRecord, dg_count x.2) l in
  total_events s' = total_events s + n ∧ sum_by id (by_engine s').*2 = sum_by id (by_engine s).*2 + n ∧
  sum_by id (by_namespace s').*2 = sum_by id (by_namespace s).*2 + n.
Proof.
  revert s. induction l as [|[[ns code] rec] l IH]; intros s; cbn [foldl]; [cbn; lia|].
  destruct (IH (summary_step s (ns, code, rec))) as (H1 & H2 & H3). cbv zeta. rewrite H1, H2, H3. cbn [summary_step total_events by_engine by_namespace].
  unfold add_count. rewrite !sum_dict_set, sum_by_cons.
  destruct (dict_get (dg_engine rec) _), (dict_get ns _); cbn [from_option snd]; unfold id; lia.
Qed.

(** Every degraded answer is counted once.  After any calls, the register's total is
    their number, a namespace's total is the number of calls for it, and the summary's
    total, its counts by engine and its counts by namespace each add up to all calls. *)
Theorem register_counts_every_call (calls : list degradation_call) :
  let r := foldl recorded [] calls in
  let s := get_summary r in
  total_count None r = Z.of_nat (length calls) ∧
  (∀ ns, total_count (Some ns) r = Z.of_nat (length (List.filter (λ c, String.eqb (call_key c) (strip ns)) calls))) ∧
  total_events s = Z.of_nat (length calls) ∧
  sum_by id (by_engine s).*2 = Z.of_nat (length calls) ∧ sum_by id (by_namespace s).*2 = Z.of_nat (length calls).
Proof.
  cbv zeta. assert (total_count None (foldl recorded [] calls) = Z.of_nat (length calls)) as Ht.
  { induction calls as [|c calls IH] using rev_ind; [done|]. rewrite foldl_snoc, record_total, IH, length_app. cbn. lia. }
  split; [done|]. split.
  { intros ns. change (total_count (Some ns) (foldl recorded [] calls)) with (count_in (strip ns) (foldl recorded [] calls)).
    clear Ht. induction calls as [|c calls IH] using rev_ind; [done|]. rewrite foldl_snoc, record_count, IH, List.filter_app, length_app.
    cbn. destruct (String.eqb (call_key c) (strip ns)); cbn; lia. }
  destruct (summary_sums (Summary 0 ∅ [] []) (items (foldl recorded [] calls))) as (H1 & H2 & H3). unfold get_summary. rewrite H1, H2, H3.
  assert (sum_by (λ x : string * string * DegradationRecord, dg_count x.2) (items (foldl recorded [] calls)) = Z.of_nat (length calls)) as ->.
  { rewrite <- Ht, total_count_all. unfold items. rewrite sum_by_concat. unfold sum_by at 1 3. f_equal. rewrite <- !list_fmap_compose.
    apply list_fmap_ext. intros _ [ns d] _. cbn. unfold sum_by. f_equal. rewrite <- !list_fmap_compose. done. }
  cbn. lia.
Qed.

(** ** Tiers *)
(** What [jsonb] keeps: an object's entries, what is no object, null, and whether a value
    equals one of the tiers. *)
Class JsonbColumn (jsonb : json → json) (float_of_repr : string → float) := {
  jsonb_object l : ∃ l', jsonb (JObj l) = JObj l' ∧ ∀ k, json_get k l' = jsonb <$> json_get k l;
  jsonb_null v : jsonb v = JNull → v = JNull;
  jsonb_tier v : as_tier float_of_repr (jsonb v) = as_tier float_of_repr v
}.

Section tiers.
Context (jsonb : json → json) (py_str : json → string) (float_of_text : string → option float) (float_of_repr : string → float).
Context (square : float → float) (fixed1 : float → string) `{!JsonbColumn jsonb float_of_repr}.
Abbreviation configured := (get_tenant_configured_tier float_of_repr).
Abbreviation status := (get_trust_dial_status float_of_text float_of_repr square fixed1).

(** What happens to the tables: a person records a decision or sets a tier.  The log
    holds the tiers that people set. *)
Inductive trust_run (db0 : trust_db) : list (string * string * Z) → trust_db → Prop :=
  | run_start : trust_run db0 [] db0
  | run_feedback log db db' arguments :
      trust_run db0 log db → handle_record_decision_feedback jsonb py_str arguments db = Ok db' → trust_run db0 log db'
  | run_set log db db' ns tier engine actor now :
      trust_run db0 log db → set_tenant_autonomy_tier jsonb ns tier engine actor now db = Ok db' →
      trust_run db0 ((ns, engine_key engine, tier) :: log) db'.

Definition last_set (log : list (string * string * Z)) (ns key : string) : option Z :=
  (λ x, x.2) <$> List.find (λ x, String.eqb x.1.1 ns && String.eqb x.1.2 key) log.
Definition expected (log : list (string * string * Z)) (ns key : string) : Z :=
  match last_set log ns key with Some t => t | None => default 3 (last_set log ns "global") end.

(** A namespace's metadata shows exactly what was set. *)
Definition entry_of (t : Z) (v : json) : Prop := ∃ e v', v = JObj e ∧ json_get "tier" e = Some v' ∧ v' ≠ JNull ∧ as_tier float_of_repr v' = Some t.
Definition shows (log : list (string * string * Z)) (ns : string) (v : option json) : Prop :=
  ∃ meta td, v = Some (JObj meta) ∧ default (JObj []) (json_get "trust_dial" meta) = JObj td ∧
    ∀ key, match last_set log ns key with Some t => ∃ x, json_get key td = Some x ∧ entry_of t x | None => json_get key td = None end.

Lemma jsonb_entry t v : entry_of t v → entry_of t (jsonb v).
Proof.
  intros (e & v' & -> & Hv & Hn & Ht). destruct (jsonb_object e) as (e' & -> & He). exists e', (jsonb v').
  split_and!; [done|by rewrite He, Hv|by intros ?%jsonb_null|by rewrite jsonb_tier].
Qed.
Lemma set_shows log ns v tier engine actor now :
  tier ∈ [1; 2; 3; 4] → shows log ns v → ∀ db db', namespaces db !! ns = v → set_tenant_autonomy_tier jsonb ns tier engine actor now db = Ok db' →
  shows ((ns, engine_key engine, tier) :: log) ns (namespaces db' !! ns).
Proof.
  intros Htier (meta & td & -> & Htd & Hlog) db db' Hns. unfold set_tenant_autonomy_tier. rewrite Hns.
  intros [_ H]%ensure_bind. change (default (JObj []) (Some (JObj meta))) with (JObj meta) in H. apply bind_Ok in H as (m & [= <-] & H). cbv zeta in H.
  rewrite Htd in H. apply bind_Ok in H as (td' & [= <-] & [= <-]). cbn [namespaces].
  rewrite lookup_alter_eq, Hns. cbn [fmap option_map option_fmap].
  set (meta1 := dict_set _ _ _). set (entry := JObj [_; _; _; _]) in meta1. destruct (jsonb_object meta1) as (meta' & -> & Hm).
  destruct (jsonb_object (dict_set (engine_key engine) entry td)) as (td' & Htd' & Hd).
  exists meta', td'. split; [done|]. split.
  - rewrite Hm. unfold meta1. rewrite json_get_set, String.eqb_refl. cbn. by rewrite Htd'.
  - intros key. unfold last_set. cbn [List.find fst snd]. rewrite String.eqb_refl. cbn [andb]. rewrite Hd, json_get_set.
    destruct (String.eqb_spec (engine_key engine) key) as [<-|Hk]; cbn.
    + eexists. split; [reflexivity|]. apply jsonb_entry. exists [("tier", JInt tier); ("tier_label", JStr (TIER_LABELS tier)); ("updated_at", JStr now); ("updated_by", JStr actor)]%string, (JInt tier).
      split_and!; [done|done|done|]. cbn. by rewrite bool_decide_eq_true_2.
    + specialize (Hlog key). unfold last_set in Hlog. destruct (List.find _ log) as [x|]; cbn in *.
      * destruct Hlog as (y & -> & Hy). eexists. split; [reflexivity|]. by apply jsonb_entry.
      * by rewrite Hlog.
Qed.
Lemma shows_configured log ns engine db : shows log ns (namespaces db !! ns) →
  configured ns engine db = Ok (expected log ns (engine_key engine)).
Proof.
  intros (meta & td & Hns & Htd & Hlog). unfold get_tenant_configured_tier. rewrite Hns. cbn [obj mbind result_bind]. rewrite Htd.
  cbn [obj mbind result_bind]. unfold expected.
  assert (∀ key, tier_entry key td = Ok (last_set log ns key ≫= λ _, json_get key td ≫= λ x, match x with JObj e => json_get "tier" e | _ => None end) ∧
    match last_set log ns key with Some t => ∃ v, tier_entry key td = Ok (Some v) ∧ as_tier float_of_repr v = Some t | None => tier_entry key td = Ok None end) as He.
  { intros key. specialize (Hlog key). unfold tier_entry. destruct (last_set log ns key) as [t|].
    - destruct Hlog as (x & -> & e & v & -> & Hv & Hn & Ht). cbn. rewrite Hv. destruct v; try done; (split; [done|]; eexists; split; [reflexivity|done]).
    - by rewrite Hlog. }
  destruct (He (engine_key engine)) as [_ H1]. destruct (last_set log ns (engine_key engine)) as [t|] eqn:E1.
  - destruct H1 as (v & -> & Hv). cbn [mbind result_bind option_bind]. by rewrite Hv.
  - rewrite H1. cbn [mbind result_bind]. destruct (String.eqb_spec (engine_key engine) "global") as [Hg|Hg].
    + rewrite Hg in E1. by rewrite E1.
    + destruct (He "global"%string) as [_ H2]. destruct (last_set log ns "global") as [t|].
      * destruct H2 as (v & -> & Hv). cbn [mbind result_bind option_bind]. by rewrite Hv.
      * by rewrite H2.
Qed.

Lemma mapM_Err {A B} (f : A → result trust_error B) l e : mapM f l = Err e → ∃ x, x ∈ l ∧ f x = Err e.
Proof.
  induction l as [|x l IH]; [done|]. cbn [mapM]. unfold mbind, result_bind at 1. destruct (f x) as [y|e'] eqn:E.
  - destruct (mapM f l) as [k|e'']; [done|]. cbn. intros [= ->]. destruct (IH eq_refl) as (z & Hz & Ez). exists z. by split; [right|].
  - intros [= ->]. exists x. by split; [left|].
Qed.
Definition objects (l : list feedback) : Prop := ∀ r, r ∈ l → ∃ fields, fb_proposal r = JObj fields.
Lemma metrics_outcome ns engine db : objects (default [] (decision_feedback db !! ns)) →
  match compute_trust_metrics float_of_text float_of_repr square ns engine db with Ok _ => True | Err e => e = OverflowError end.
Proof.
  intros Hobj. unfold compute_trust_metrics. cbv zeta. destruct (compute_brier_calibration _ _ _ _) as [c|e] eqn:E; [done|]. cbn.
  unfold compute_brier_calibration in E. destruct (mapM _ _) as [l|e'] eqn:Em; cbn in E; [case_bool_decide; discriminate E|].
  injection E as <-. apply mapM_Err in Em as (r & Hr & Er). apply elem_of_filter_b in Hr as [Hr _].
  destruct (Hobj r Hr) as [fields Hf]. unfold calibration_pair in Er. destruct (negb _); [done|]. rewrite Hf in Er. cbn [obj mbind result_bind] in Er.
  destruct (given _) as [v|]; [|done]. unfold confidence in Er. destruct v as [|b|z|s|s|l|l]; try discriminate Er. destruct (of_Z z); cbn in Er; congruence.
Qed.
Lemma status_bounds current sample precision : current ∈ [1; 2; 3; 4] →
  let p := evaluate_tier_proposal current sample precision in
  current ≤ effective_tier p ∧ proposed_tier p ∈ [1; 2; 3; 4] ∧
  (escalation_required p = true ↔ proposed_tier p < current) ∧ (proposed_tier p < current → effective_tier p = current).
Proof.
  intros Hc. unfold evaluate_tier_proposal. destruct (Z.ltb_spec sample MIN_SAMPLE_SIZE); cbn; [split_and!; naive_solver lia|].
  assert (candidate sample precision ∈ [1; 2; 3; 4]) as Hk by (unfold candidate; repeat case_match; rewrite !elem_of_cons; auto).
  destruct (Z.ltb_spec (candidate sample precision) current); cbn; [split_and!; naive_solver lia|].
  destruct (Z.ltb_spec current (candidate sample precision)); cbn; split_and!; naive_solver lia.
Qed.
Lemma last_set_in log ns key t : last_set log ns key = Some t → ∃ x, x ∈ log ∧ x.2 = t.
Proof. unfold last_set. destruct (List.find _ log) as [x|] eqn:E; [|done]. intros [= <-]. exists x. split; [|done]. apply List.find_some in E as [E _]. by apply list_elem_of_In. Qed.
Lemma last_set_other log ns ns' key key' t : ns' ≠ ns → last_set ((ns', key', t) :: log) ns key = last_set log ns key.
Proof. intros Hn. unfold last_set. cbn. by destruct (String.eqb_spec ns' ns). Qed.
Lemma feedback_run db db' arguments : handle_record_decision_feedback jsonb py_str arguments db = Ok db' →
  ∃ ns row, namespaces db' = namespaces db ∧ decision_feedback db' = <[ns := default [] (decision_feedback db !! ns) ++ [row]]> (decision_feedback db) ∧
    ∃ l, fb_proposal row = JObj l.
Proof.
  unfold handle_record_decision_feedback. intros (ns & _ & H)%bind_Ok. cbv zeta in H.
  apply ensure_bind in H as [_ H]. apply ensure_bind in H as [_ H]. apply ensure_bind in H as [Hp H]. apply ensure_bind in H as [_ H].
  unfold record_decision_feedback in H. apply ensure_bind in H as [_ H]. apply ensure_bind in H as [_ H]. apply ensure_bind in H as [_ H].
  cbv zeta in H. injection H as <-. exists ns. eexists. split; [done|]. split; [reflexivity|]. cbn [fb_proposal].
  set (v := given (json_get "proposal" arguments)) in *.
  assert (∃ l, (if json_truthy (default JNull v) then default JNull v else JObj []) = JObj l) as [l ->].
  { clearbody v. destruct v as [[]|]; cbn in *; try done; [by exists []| |by exists []]. case_match; eauto. }
  destruct (jsonb_object l) as (l' & -> & _). by exists l'.
Qed.
Lemma run_keeps db0 log db ns meta : trust_run db0 log db →
  namespaces db0 !! ns = Some (JObj meta) → json_get "trust_dial" meta = None → decision_feedback db0 !! ns = None →
  (∀ x, x ∈ log → x.2 ∈ [1; 2; 3; 4]) ∧ shows log ns (namespaces db !! ns) ∧ objects (default [] (decision_feedback db !! ns)).
Proof.
  intros Hrun Hns Hmeta Hfb. induction Hrun as [|log db db' arguments _ IH H|log db db' ns' tier engine actor now _ IH H].
  - split_and!; [by intros x ?%elem_of_nil| |rewrite Hfb; by intros r ?%elem_of_nil]. exists meta, []. split; [done|]. by rewrite Hmeta.
  - destruct IH as (Hlog & Hshow & Hobj). apply feedback_run in H as (ns' & row & Hn & Hd & l & Hl). rewrite Hn, Hd. split_and!; [done..|].
    destruct (decide (ns' = ns)) as [->|]; [rewrite lookup_insert_eq|by rewrite lookup_insert_ne].
    cbn [from_option]. unfold id at 1. intros r [Hr|Hr%list_elem_of_singleton]%elem_of_app; [by apply Hobj|subst r; by exists l].
  - destruct IH as (Hlog & Hshow & Hobj). pose proof H as H'. unfold set_tenant_autonomy_tier in H'. apply ensure_bind in H' as [Ht%bool_decide_eq_true H'].
    apply bind_Ok in H' as (m & _ & H'). apply bind_Ok in H' as (td & _ & H'). injection H' as H'.
    split_and!; [intros x [->|Hx]%elem_of_cons; [exact Ht|by apply Hlog]| |by rewrite <- H'].
    destruct (decide (ns' = ns)) as [->|Hne]; [exact (set_shows _ _ _ _ _ _ _ Ht Hshow _ _ eq_refl H)|].
    rewrite <- H'. cbn [namespaces]. rewrite lookup_alter_ne by done.
    destruct Hshow as (m0 & td0 & H1 & H2 & H3). exists m0, td0. split_and!; [done..|]. intros key. rewrite last_set_other by done. apply H3.
Qed.

(** C16: Autonomy is raised by people.  Whatever decisions are recorded and tiers set, the
    tier in force for an engine is the one last set for it, else the one last set for
    the tenant, else 3.  A status never grants more than that tier, however good the
    measured precision: a better one is only proposed, with escalation, and the
    status acts at the configured tier.  It answers unless a recorded confidence does
    not fit a float. *)
Theorem tier_raised_by_people db0 log db ns meta engine now r :
  trust_run db0 log db →
  namespaces db0 !! ns = Some (JObj meta) → json_get "trust_dial" meta = None → decision_feedback db0 !! ns = None →
  let t := expected log ns (engine_key engine) in
  configured ns engine db = Ok t ∧
  match status ns engine now db r with
  | Ok (st, _) => let p := ts_proposal st in
      ts_current_tier st = t ∧ t ≤ effective_tier p ∧ (escalation_required p = true ↔ proposed_tier p < t) ∧
      (proposed_tier p < t → effective_tier p = t)
  | Err e => e = OverflowError
  end.
Proof.
  intros Hrun Hns Hmeta Hfb t. destruct (run_keeps _ _ _ _ _ Hrun Hns Hmeta Hfb) as (Hlog & Hshow & Hobj).
  pose proof (shows_configured _ _ engine _ Hshow) as Hc. fold t in Hc. split; [done|].
  assert (t ∈ [1; 2; 3; 4]) as Ht.
  { unfold t, expected. destruct (last_set log ns (engine_key engine)) eqn:E1; [apply last_set_in in E1 as (x & Hx & <-); auto|].
    destruct (last_set log ns "global") eqn:E2; [apply last_set_in in E2 as (x & Hx & <-); by apply Hlog|]. cbn. set_solver. }
  unfold get_trust_dial_status. rewrite Hc. cbn [mbind result_bind]. pose proof (metrics_outcome ns engine db Hobj) as Hm.
  destruct (compute_trust_metrics _ _ _ _ _ _) as [m|e]; cbn [mbind result_bind]; [|done]. cbv zeta. cbn [ts_current_tier ts_proposal].
  destruct (status_bounds t (sample_size m) (precision_rate m) Ht) as (H1 & _ & H2 & H3). done.
Qed.
End tiers.

(** ** Concrete tenants *)
Definition demo_ns : string := "00112233-4455-6677-8899-aabbccddeeff".
Definition no_text (_ : string) : option float := None.
Definition one_float (_ : string) : float := of_Z 1.
Definition demo_square (x : float) : float := fmul x x.
#[local] Instance demo_jsonb : JsonbColumn id one_float.
Proof. split; [intros l; exists l; split; [done|]; intros k; by destruct (json_get k l)|done|done]. Qed.
Definition demo_start : trust_db := TrustDb {[demo_ns := JObj [("region", JStr "north")]%string]} ∅.
Definition demo_decision (decision : string) : list (string * json) :=
  [("namespace_id", JStr demo_ns); ("engine", JStr "economy"); ("decision", JStr decision); ("proposal", JObj [("confidence", JInt 1)])]%string.
Definition decided (decision : string) (db : trust_db) : trust_db :=
  match handle_record_decision_feedback id json_dumps (demo_decision decision) db with Ok db' => db' | Err _ => db end.
Definition demo_set (tier : Z) (db : trust_db) : trust_db :=
  match set_tenant_autonomy_tier id demo_ns tier (Some "economy"%string) "kari" "2026" db with Ok db' => db' | Err _ => db end.
Definition demo_status (db : trust_db) : result trust_error (trust_status * register) :=
  get_trust_dial_status no_text one_float demo_square (λ _, "0.0"%string) demo_ns (Some "economy"%string) "2026" db [].
Definition after_ten : trust_db := Nat.iter 10 (decided "accepted") (demo_set 2 demo_start).

Lemma after_ten_run : trust_run id json_dumps demo_start [(demo_ns, "economy"%string, 2)] after_ten.
Proof.
  unfold after_ten. assert (∀ log n db, trust_run id json_dumps demo_start log db → trust_run id json_dumps demo_start log (Nat.iter n (decided "accepted") db)) as H.
  { intros log n db Hdb. induction n as [|n IH]; [done|]. cbn [Nat.iter nat_rect]. unfold decided.
    destruct (handle_record_decision_feedback _ _ _ _) as [db'|] eqn:E; [exact (run_feedback _ _ _ _ _ _ _ IH E)|exact IH]. }
  apply H. unfold demo_set. destruct (set_tenant_autonomy_tier _ _ _ _ _ _ _) as [db'|] eqn:E; [|vm_compute in E; discriminate E].
  exact (run_set id json_dumps _ _ _ _ _ _ _ _ _ (run_start _ _ _) E).
Qed.
Definition demo_answer : result trust_error (trust_status * register) := Eval vm_compute in demo_status after_ten.
Lemma demo_answer_is : demo_status after_ten = demo_answer.
Proof. vm_compute. reflexivity. Qed.
Lemma tier_raised_by_people_witness :
  match demo_status after_ten with
  | Ok (st, _) => proposed_tier (ts_proposal st) = 1 ∧ ts_current_tier st = 2 ∧ effective_tier (ts_proposal st) = 2
  | Err _ => False
  end.
Proof.
  assert (∀ db st r, trust_run id json_dumps demo_start [(demo_ns, "economy"%string, 2)] db → demo_status db = Ok (st, r) →
    ts_current_tier st = 2 ∧ (proposed_tier (ts_proposal st) < 2 → effective_tier (ts_proposal st) = 2)) as H.
  { intros db st r Hrun E. destruct (tier_raised_by_people id json_dumps no_text one_float demo_square (λ _, "0.0"%string) demo_start _ db demo_ns
      [("region", JStr "north")]%string (Some "economy"%string) "2026" [] Hrun eq_refl eq_refl eq_refl) as [_ H].
    unfold demo_status in E. rewrite E in H. destruct H as (H1 & _ & _ & H2). split; [exact H1|exact H2]. }
  specialize (H after_ten). rewrite demo_answer_is in H |- *. destruct (H _ _ after_ten_run eq_refl) as [H1 H2].
  split; [reflexivity|]. split; [exact H1|]. apply H2. reflexivity.
Defined.

(** A demotion is in the answer only: the tier in force stays. *)
Definition after_rejections : trust_db := Nat.iter 6 (decided "rejected") (demo_set 1 demo_start).
Example demotion_not_in_force :
  (λ x, effective_tier (ts_proposal x.1)) <$> demo_status after_rejections = Ok 4 ∧
  get_tenant_configured_tier one_float demo_ns (Some "economy"%string) after_rejections = Ok 1.
Proof. vm_compute. done. Qed.
(** A confidence that fits no float makes every later status fail. *)
Example wide_confidence_blocks_status :
  match handle_record_decision_feedback id json_dumps
      [("namespace_id", JStr demo_ns); ("engine", JStr "economy"); ("decision", JStr "accepted"); ("proposal", JObj [("confidence", JInt (10 ^ 400))])]%string after_ten with
  | Ok db => demo_status db = Err OverflowError | Err _ => False end.
Proof. vm_compute. reflexivity. Qed.
(** Rounding to four digits carries 968 of 1019, less than 95 percent, over the threshold. *)
Example rounded_over_the_threshold : 100 * 968 < 95 * 1019 ∧ candidate 1019 (round4 (of_ratio 968 1019)) = 1.
Proof. vm_compute. done. Qed.
(** Setting the tier of a tenant that does not exist is answered as done. *)
Example unknown_tenant_answered : set_tenant_autonomy_tier id "ghost" 1 None "kari" "2026" demo_start = Ok demo_start.
Proof. vm_compute. reflexivity. Qed.
(** Two engines with one code: both are counted for the first. *)
Example code_counted_for_first_engine :
  by_engine (get_summary (record "t2" (Some "ns"%string) "sales" "thin" "" "" (record "t1" (Some "ns"%string) "economy" "thin" "" "" []))) = [("economy"%string, 2)].
Proof. vm_compute. reflexivity. Qed.
