(* ===== verification/Identity.v ===== *)
(** * Identity: tokens, callers and what they are bound to

    Models [src/nce/jwt_auth.py] (the choice of the key, [decode_agent_token], the
    middleware), [NamespaceContext] and [validate_agent_id] of [src/nce/auth.py],
    [src/nce/principal_bindings/service.py] (the bindings in process memory and in the
    table, and how a request's principal is resolved) and the two endpoints of
    [src/nce/me_app.py] that read and write the caller's binding.

    Parameters: PyJWT's [decode], with the claims it is asked to require; the file
    system of key files; [jsonb] and which values a column accepts; [str] of a JSON value.  Time stamps of
    bindings and log output are not modelled. *)
From S2P Require Import Prelude PyText PyStr Locks.
From Stdlib Require Import Ascii.
Local Open Scope Z_scope.

(** ** Callers *)
(** [or] on optional text: the empty text is false. *)
Definition truthy_text (o : option string) : option string :=
  match o with Some s => if String.eqb s "" then None else Some s | None => None end.
Definition or_text (a b : option string) : option string := match truthy_text a with Some s => Some s | None => b end.

Record NamespaceContext := NsContext {
  nc_namespace_id : option string;
  nc_agent_id : string;
  nc_principal_kind : string;
  nc_external_scope_id : option string;
  nc_principal_id : option string
}.
Definition validate_agent_id (agent_id : string) : string :=
  let cleaned := String.substring 0 128 (strip agent_id) in if String.eqb cleaned "" then "default" else cleaned.
Definition principal_kinds : list string := ["employee"; "contractor"; "external-customer"]%string.
Definition validate_principal_kind (v : string) : string :=
  let val := lower (strip (if String.eqb v "" then "employee" else v)) in
  if bool_decide (val ∈ principal_kinds) then val else "employee".
(** The model's constructor, with its validators. *)
Definition make_context (namespace_id : option string) (agent_id kind : string) (scope principal : option string) : NamespaceContext :=
  NsContext namespace_id (validate_agent_id agent_id) (validate_principal_kind kind) scope principal.

(** ** Tokens *)
Record jwt_config := JwtConfig {
  NCE_JWT_PUBLIC_KEY : string; NCE_JWT_SECRET : string; NCE_JWT_ALGORITHM : string; NCE_JWT_AUDIENCE : string; NCE_JWT_ISSUER : string;
  NCE_JWT_LEEWAY_SECONDS : Z; IS_PROD : bool; NCE_JWT_KEY_DIR : string
}.
Inductive jwt_code := JwtInvalid | JwtMissingClaim | JwtBadClaim.
Definition jwt_code_number (c : jwt_code) : Z := match c with JwtInvalid => -32005 | JwtMissingClaim => -32006 | JwtBadClaim => -32007 end.
Record JWTDecodeError := JwtError { je_code : jwt_code; je_reason : string }.
(** What [jwt.decode] raises. *)
Inductive InvalidTokenError := ExpiredSignature | MissingRequiredClaim (text : string) | InvalidAudience | InvalidIssuer | DecodeError_ | InvalidToken.
(** What [jwt.decode] is asked: algorithms, required claims, leeway, issuer, audience. *)
Record decode_request := DecodeRequest {
  dr_algorithms : list string; dr_require : list string; dr_leeway : Z; dr_issuer : option string; dr_audience : option string
}.

(** The file system, as far as key files need it: [Path.resolve] to the parts of an
    absolute path, and the text of a file, which is taken to be readable. *)
Record key_files := KeyFiles {
  resolve : string → list string; exists_path : list string → bool; is_file : list string → bool; read_text : list string → string
}.

Definition _ASYMMETRIC_ALGORITHMS : list string := ["RS256"; "RS384"; "RS512"; "ES256"; "ES384"; "ES512"; "PS256"; "PS384"; "PS512"]%string.
Definition _HMAC_ALGORITHMS : list string := ["HS256"; "HS384"; "HS512"]%string.

Section identity.
Context (jwt_decode : string → string → decode_request → result InvalidTokenError (list (string * json))).
Context (fs : key_files) (py_str : json → string).
Context (cfg : jwt_config).

Definition starts (p s : string) : bool := String.prefix p s.
(** [Path.is_relative_to] *)
Fixpoint is_relative_to (path base : list string) : bool :=
  match base, path with [], _ => true | b :: base, p :: path => String.eqb b p && is_relative_to path base | _ :: _, [] => false end.
(** [None]: [RuntimeError] or [DeploymentConfigurationError]. *)
Definition _load_public_key (raw : string) : option string :=
  let stripped := strip raw in
  if starts "-----" stripped then Some stripped
  else if starts "file://" stripped then
    let key_path := resolve fs (String.substring 7 (String.length stripped) stripped) in
    let allowed_base := resolve fs (NCE_JWT_KEY_DIR cfg) in
    if negb (exists_path fs allowed_base) then None
    else if negb (is_relative_to key_path allowed_base) then None
    else if negb (is_file fs key_path) then None
    else Some (strip (read_text fs key_path))
  else None.
Definition _build_jwt_key (algorithm : string) : option string :=
  if negb (String.eqb (NCE_JWT_PUBLIC_KEY cfg) "") then
    if bool_decide (algorithm ∈ _ASYMMETRIC_ALGORITHMS) then _load_public_key (NCE_JWT_PUBLIC_KEY cfg) else None
  else if bool_decide (algorithm ∈ _ASYMMETRIC_ALGORITHMS) then None
  else if negb (bool_decide (algorithm ∈ _HMAC_ALGORITHMS)) then None
  else if negb (String.eqb (NCE_JWT_SECRET cfg) "") then Some (NCE_JWT_SECRET cfg) else None.

Definition jwt_reason (e : InvalidTokenError) : string :=
  match e with
  | ExpiredSignature => "jwt_expired"
  | MissingRequiredClaim t => "jwt_missing_standard_claim:" +:+ t
  | InvalidAudience => "jwt_audience_mismatch"
  | InvalidIssuer => "jwt_issuer_mismatch"
  | DecodeError_ => "jwt_decode_error"
  | InvalidToken => "jwt_invalid"
  end.
Definition claim (k : string) (payload : list (string * json)) : json := default JNull (json_get k payload).
Definition nil_uuid : string := "00000000-0000-0000-0000-000000000000".
(** [str(v or d)] *)
Definition str_or (d : string) (v : json) : string := if json_truthy v then json_str py_str v else d.

Definition decode_request_for (audience : option string) : decode_request :=
  let resolved_audience := match audience with Some a => Some a | None => truthy_text (Some (NCE_JWT_AUDIENCE cfg)) end in
  let resolved_issuer := truthy_text (Some (NCE_JWT_ISSUER cfg)) in
  DecodeRequest [NCE_JWT_ALGORITHM cfg]
    (["exp"%string] ++ (if resolved_issuer is Some _ then ["iss"%string] else []) ++ (if truthy_text resolved_audience is Some _ then ["aud"%string] else []) ++
     (if IS_PROD cfg then ["iat"; "nbf"]%string else []))
    (NCE_JWT_LEEWAY_SECONDS cfg) resolved_issuer (truthy_text resolved_audience).

(** From the claims to the context. *)
Definition context_of_claims (payload : list (string * json)) : result JWTDecodeError NamespaceContext :=
  let raw_ns := claim "namespace_id" payload in
  if negb (json_truthy raw_ns) then raise (JwtError JwtMissingClaim "missing_claim:namespace_id") else
  match UUID (strip (json_str py_str raw_ns)) with
  | None => raise (JwtError JwtBadClaim "invalid_claim:namespace_id")
  | Some namespace_id =>
      let agent_id := validate_agent_id (str_or "default" (claim "agent_id" payload)) in
      let kind := lower (strip (str_or "employee" (claim "principal_kind" payload))) in
      let principal_kind := if bool_decide (kind ∈ principal_kinds) then kind else "employee"%string in
      let raw_scope := claim "external_scope_id" payload in
      let external_scope_id :=
        if bool_decide (principal_kind ∈ ["contractor"; "external-customer"]%string) && json_truthy raw_scope then
          match UUID (strip (json_str py_str raw_scope)) with
          | Some u => if String.eqb u nil_uuid then None else Some u
          | None => None
          end
        else None in
      let raw_principal := if json_truthy (claim "principal_id" payload) then claim "principal_id" payload else claim "sub" payload in
      let principal_id_claim := if json_truthy raw_principal then Some (strip (json_str py_str raw_principal)) else None in
      Ok (make_context (Some namespace_id) agent_id principal_kind external_scope_id principal_id_claim)
  end.

Definition decode_agent_token (token : string) (audience : option string) : result JWTDecodeError NamespaceContext :=
  match _build_jwt_key (NCE_JWT_ALGORITHM cfg) with
  | None => raise (JwtError JwtInvalid "jwt_server_misconfigured")
  | Some key =>
      match jwt_decode token key (decode_request_for audience) with
      | Err e => raise (JwtError JwtInvalid (jwt_reason e))
      | Ok payload => context_of_claims payload
      end
  end.

(** ** Bindings *)
Record PrincipalBinding := Binding {
  b_id : string; b_namespace_id : string; b_principal_id : string; b_tier : string;
  b_employee_id : json; b_customer_id : json; b_contractor_id : json; b_roles : list json; b_metadata : json
}.
Record PrincipalContext := Principal {
  pc_principal_id : string; pc_tier : string; pc_employee_id : json; pc_customer_id : json; pc_contractor_id : json;
  pc_roles : list json; pc_metadata : json; pc_namespace_id : option string; pc_is_bound : bool
}.
Abbreviation bindings := (gmap (string * string) PrincipalBinding).
(** One process's [_IN_MEMORY_BINDINGS], and the table. *)
Record identity_state := IdState { _IN_MEMORY_BINDINGS : bindings; principal_bindings : bindings }.
Definition remember (b : PrincipalBinding) (st : identity_state) : identity_state :=
  IdState (<[(b_namespace_id b, b_principal_id b) := b]> (_IN_MEMORY_BINDINGS st)) (principal_bindings st).

Context (accepted : PrincipalBinding → bool) (jsonb : json → json).
(** What the table keeps of a binding. *)
Definition stored_row (b : PrincipalBinding) : PrincipalBinding :=
  Binding (b_id b) (b_namespace_id b) (b_principal_id b) (b_tier b) (b_employee_id b) (b_customer_id b) (b_contractor_id b)
    (jsonb <$> b_roles b) (jsonb (b_metadata b)).

(** The connection is absent, or a call on it has an outcome. *)
Definition upsert_principal_binding (conn : option call) (row_id fresh_id namespace_id principal_id tier : string)
    (employee_id customer_id contractor_id : json) (roles : list json) (metadata : json) (st : identity_state) : identity_state * PrincipalBinding :=
  let meta_dict := if json_truthy metadata then metadata else JObj [] in
  let key := (namespace_id, principal_id) in
  let id := match principal_bindings st !! key with Some r => b_id r | None => row_id end in
  let made id := Binding id namespace_id principal_id tier employee_id customer_id contractor_id roles meta_dict in
  let stored := IdState (_IN_MEMORY_BINDINGS st) (<[key := stored_row (made id)]> (principal_bindings st)) in
  let fallback st := (remember (made fresh_id) st, made fresh_id) in
  match conn with
  | None | Some NotSent => fallback st
  | Some Answered => if accepted (made id) then (remember (made id) stored, made id) else fallback st
  | Some ReplyLost => fallback (if accepted (made id) then stored else st)
  end.

Definition get_principal_binding (conn : option call) (namespace_id principal_id : string) (st : identity_state) : option PrincipalBinding :=
  match _IN_MEMORY_BINDINGS st !! (namespace_id, principal_id) with
  | Some b => Some b
  | None =>
      match conn with
      | Some Answered =>
          (λ r, Binding (b_id r) (b_namespace_id r) (b_principal_id r) (if String.eqb (b_tier r) "" then "employee" else b_tier r)
                  (b_employee_id r) (b_customer_id r) (b_contractor_id r) (b_roles r) (b_metadata r))
          <$> principal_bindings st !! (namespace_id, principal_id)
      | _ => None
      end
  end.

Definition delete_principal_binding (conn : option call) (namespace_id principal_id : string) (st : identity_state) : identity_state * bool :=
  let key := (namespace_id, principal_id) in
  let memory := delete key (_IN_MEMORY_BINDINGS st) in
  match conn with
  | None => (IdState memory (principal_bindings st), true)
  | Some NotSent => (IdState memory (principal_bindings st), false)
  | Some ReplyLost => (IdState memory (delete key (principal_bindings st)), false)
  | Some Answered => (IdState memory (delete key (principal_bindings st)), bool_decide (is_Some (principal_bindings st !! key)))
  end.

(** ** Requests *)
Record request := Request {
  rq_path : string;
  rq_authorization : string;
  rq_namespace_ctx : option NamespaceContext;            (* [request.state] *)
  rq_principal_ctx : option PrincipalContext;            (* [request.state] *)
  rq_ns_header : option string; rq_ns_query : option string;
  rq_principal_header : option string; rq_principal_header' : option string; rq_principal_query : option string
}.
Definition with_namespace (c : NamespaceContext) (r : request) : request :=
  Request (rq_path r) (rq_authorization r) (Some c) (rq_principal_ctx r) (rq_ns_header r) (rq_ns_query r)
    (rq_principal_header r) (rq_principal_header' r) (rq_principal_query r).
Definition with_principal (c : PrincipalContext) (r : request) : request :=
  Request (rq_path r) (rq_authorization r) (rq_namespace_ctx r) (Some c) (rq_ns_header r) (rq_ns_query r)
    (rq_principal_header r) (rq_principal_header' r) (rq_principal_query r).

(** The middleware: the application is called with the request, or the caller is
    answered 401. *)
Inductive dispatched := CallNext (r : request) | Unauthorized (code : jwt_code) (reason : string).
Fixpoint partition_space (s : string) : string * string :=
  match s with
  | EmptyString => (EmptyString, EmptyString)
  | String c s => if Ascii.eqb c " " then (EmptyString, s) else let '(a, b) := partition_space s in (String c a, b)
  end.
Definition dispatch (protected_prefix : string) (expected_audience : option string) (r : request) : dispatched :=
  if negb (starts protected_prefix (rq_path r)) then CallNext r else
  let auth_header := strip (rq_authorization r) in
  if String.eqb auth_header "" then Unauthorized JwtInvalid "missing_authorization_header" else
  let '(scheme, token_value) := partition_space auth_header in
  if negb (String.eqb (lower scheme) "bearer") || String.eqb (strip token_value) "" then Unauthorized JwtInvalid "invalid_authorization_scheme" else
  if 8192 <? Z.of_nat (String.length (strip token_value)) then Unauthorized JwtInvalid "jwt_too_large" else
  match decode_agent_token (strip token_value) expected_audience with
  | Err e => Unauthorized (je_code e) (je_reason e)
  | Ok c => CallNext (with_namespace c r)
  end.

(** ** Principals *)
Definition extract_principal_identity (r : request) : option string * option string * string :=
  let ns := rq_namespace_ctx r ≫= nc_namespace_id in
  let principal := rq_namespace_ctx r ≫= λ c, or_text (nc_principal_id c) (Some (nc_agent_id c)) in
  let tier := match rq_namespace_ctx r with Some c => default "employee"%string (truthy_text (Some (nc_principal_kind c))) | None => "employee"%string end in
  (match ns with
   | Some ns => Some ns
   | None => truthy_text (or_text (rq_ns_header r) (rq_ns_query r)) ≫= λ raw, UUID (strip raw)
   end,
   match truthy_text principal with
   | Some p => Some p
   | None => or_text (rq_principal_header r) (or_text (rq_principal_header' r) (rq_principal_query r))
   end, tier).

Definition unbound (principal_id tier : string) (ns : option string) : PrincipalContext :=
  Principal principal_id tier JNull JNull JNull [] (JObj []) ns false.
Definition bound (ns : string) (b : PrincipalBinding) : PrincipalContext :=
  Principal (b_principal_id b) (b_tier b) (b_employee_id b) (b_customer_id b) (b_contractor_id b) (b_roles b) (b_metadata b) (Some ns) true.
Definition remembering (c : PrincipalContext) (r : request) : PrincipalContext * request := (c, with_principal c r).

Definition resolve_principal_context_sync (st : identity_state) (r : request) : PrincipalContext * request :=
  match rq_principal_ctx r with
  | Some c => (c, r)
  | None =>
      let '(ns, principal, tier) := extract_principal_identity r in
      match truthy_text principal with
      | None => remembering (unbound "anonymous" tier ns) r
      | Some p =>
          match (ns' ← ns; b ← _IN_MEMORY_BINDINGS st !! (ns', p); Some (bound ns' b)) with
          | Some c => remembering c r
          | None => remembering (unbound p tier ns) r
          end
      end
  end.
(** [pool]: none, or the outcome of a query on it. *)
Definition resolve_principal_context_async (pool : option call) (st : identity_state) (r : request) : PrincipalContext * request :=
  match rq_principal_ctx r with
  | Some c => (c, r)
  | None =>
      let '(ns, principal, tier) := extract_principal_identity r in
      match truthy_text principal with
      | None => remembering (unbound "anonymous" tier ns) r
      | Some p =>
          match (ns' ← ns; b ← _IN_MEMORY_BINDINGS st !! (ns', p); Some (bound ns' b)) with
          | Some c => remembering c r
          | None =>
              match (ns' ← ns; _ ← pool; b ← get_principal_binding pool ns' p st; Some (bound ns' b)) with
              | Some c => remembering c r
              | None => remembering (unbound p tier ns) r
              end
          end
      end
  end.
(** [await current_principal(request)]: the wrapper resolves when it is made, and
    again when it is awaited. *)
Definition current_principal (pool : option call) (st : identity_state) (r : request) : PrincipalContext * request :=
  let '(_, r) := resolve_principal_context_sync st r in
  resolve_principal_context_async pool st r.

(** ** [/api/me/context] *)
Inductive me_response := MeUnauthorized | MeMissingPrincipal | MeRaised | MeOk (c : PrincipalContext).
Definition get_me_context (pool : option call) (st : identity_state) (r : request) : me_response :=
  match rq_namespace_ctx r ≫= nc_namespace_id with
  | None => MeUnauthorized
  | Some _ => MeOk (current_principal pool st r).1
  end.
(** [list(roles)] *)
Definition list_of (v : json) : option (list json) :=
  match v with
  | JArr l => Some l
  | JStr s => Some ((λ c, JStr (String c EmptyString)) <$> String.list_ascii_of_string s)
  | JObj l => Some (JStr <$> l.*1)
  | _ => None
  end.
Definition put_me_context (pool : option call) (row_id fresh_id : string) (body : option json) (r : request) (st : identity_state) :
    identity_state * me_response :=
  match rq_namespace_ctx r with
  | Some c =>
      match nc_namespace_id c with
      | None => (st, MeUnauthorized)
      | Some ns =>
          match truthy_text (or_text (nc_principal_id c) (Some (nc_agent_id c))), default (JObj []) body with
          | None, _ => (st, MeMissingPrincipal)
          | Some p, JObj body =>
              let get k := default JNull (json_get k body) in
              match list_of (default (JArr []) (json_get "roles" body)) with
              | None => (st, MeRaised)
              | Some roles =>
                  let '(st, b) := upsert_principal_binding pool row_id fresh_id ns p (nc_principal_kind c)
                                    (get "employee_id") (get "customer_id") (get "contractor_id") roles
                                    (default (JObj []) (json_get "metadata" body)) st in
                  (st, MeOk (bound ns b))
              end
          | Some _, _ => (st, MeRaised)
          end
      end
  | None => (st, MeUnauthorized)
  end%string.
End identity.
