(* ===== verification/IdentityProps.v ===== *)
(** * IdentityProps: who a request acts for *)
From S2P Require Import Prelude PyText PyStr Locks Identity.
Local Open Scope Z_scope.

(** What PyJWT promises: a payload it returns was signed with one of the algorithms it
    was given, under the key it was given, and has the claims it was asked to
    require. *)
Class JwtLibrary (jwt_decode : string → string → decode_request → result InvalidTokenError (list (string * json)))
    (signed : string → string → string → list (string * json) → Prop) := {
  decode_signed token key dr payload : jwt_decode token key dr = Ok payload →
    (∃ alg, alg ∈ dr_algorithms dr ∧ signed alg key token payload) ∧ ∀ k, k ∈ dr_require dr → is_Some (json_get k payload)
}.

Lemma agent_id_not_empty s : validate_agent_id s ≠ "".
Proof. unfold validate_agent_id. cbv zeta. destruct (String.eqb_spec (String.substring 0 128 (strip s)) ""); [done|congruence]. Qed.
Lemma kind_known v : validate_principal_kind v ∈ principal_kinds.
Proof. unfold validate_principal_kind. cbv zeta. case_bool_decide; [done|left]. Qed.

Section identity.
Context (jwt_decode : string → string → decode_request → result InvalidTokenError (list (string * json))).
Context (signed : string → string → string → list (string * json) → Prop) `{!JwtLibrary jwt_decode signed}.
Context (fs : key_files) (py_str : json → string) (cfg : jwt_config).
Context (accepted : PrincipalBinding → bool) (jsonb : json → json).
Implicit Types (st : identity_state) (r : request).

(** ** Authentication *)
(** A public key is configured, or read from a file under the key directory. *)
Definition public_key (key : string) : Prop :=
  let raw := strip (NCE_JWT_PUBLIC_KEY cfg) in
  (starts "-----" raw = true ∧ key = raw) ∨
  (∃ rest, resolve fs (String.substring 7 (String.length raw) raw) = (resolve fs (NCE_JWT_KEY_DIR cfg) ++ rest)%list ∧
     key = strip (read_text fs (resolve fs (NCE_JWT_KEY_DIR cfg) ++ rest)%list)).
Lemma is_relative_to_app base path : is_relative_to path base = true → ∃ rest, path = (base ++ rest)%list.
Proof.
  revert path. induction base as [|b base IH]; intros [|p path]; cbn; [by exists []|by exists (p :: path)|done|].
  intros [->%String.eqb_eq H]%andb_true_iff. destruct (IH _ H) as [rest ->]. by exists rest.
Qed.
Lemma load_public_key_inside key : _load_public_key fs cfg (NCE_JWT_PUBLIC_KEY cfg) = Some key → public_key key.
Proof.
  unfold _load_public_key, public_key. cbv zeta. destruct (starts "-----" _); [intros [= <-]; by left|].
  destruct (starts "file://" _); [|done]. destruct (exists_path _ _); [|done].
  destruct (is_relative_to _ _) eqn:E; [|done]. destruct (is_file _ _); [|done]. intros [= <-].
  apply is_relative_to_app in E as [rest E]. right. exists rest. by rewrite E.
Qed.
(** The key fits the algorithm: never a public key as a shared secret. *)
Definition configured_key (alg key : string) : Prop :=
  (alg ∈ _ASYMMETRIC_ALGORITHMS ∧ NCE_JWT_PUBLIC_KEY cfg ≠ "" ∧ public_key key) ∨
  (alg ∈ _HMAC_ALGORITHMS ∧ NCE_JWT_PUBLIC_KEY cfg = "" ∧ key = NCE_JWT_SECRET cfg ∧ key ≠ "").
Lemma build_key_configured alg key : _build_jwt_key fs cfg alg = Some key → configured_key alg key.
Proof.
  unfold _build_jwt_key, configured_key. destruct (String.eqb_spec (NCE_JWT_PUBLIC_KEY cfg) "") as [Hp|Hp]; cbn [negb].
  - repeat case_bool_decide; cbn [negb]; try done. destruct (String.eqb_spec (NCE_JWT_SECRET cfg) "") as [Hs|Hs]; [done|].
    intros [= <-]. right. by split_and!.
  - case_bool_decide; [|done]. intros Hin%load_public_key_inside. left. by split_and!.
Qed.

Record context_ok (payload : list (string * json)) (c : NamespaceContext) : Prop := {
  ck_namespace : ∃ ns, nc_namespace_id c = Some ns ∧ UUID (strip (json_str py_str (claim "namespace_id" payload))) = Some ns;
  ck_agent : nc_agent_id c ≠ "";
  ck_kind : nc_principal_kind c ∈ principal_kinds;
  ck_scope s : nc_external_scope_id c = Some s →
    nc_principal_kind c ≠ "employee" ∧ s ≠ nil_uuid ∧ UUID (strip (json_str py_str (claim "external_scope_id" payload))) = Some s;
  ck_principal p : nc_principal_id c = Some p → ∃ v, v ∈ [claim "principal_id" payload; claim "sub" payload] ∧ p = strip (json_str py_str v)
}.
Lemma kind_stays k : k ∈ principal_kinds → validate_principal_kind k = k.
Proof. intros Hk. unfold principal_kinds in Hk. rewrite !elem_of_cons, elem_of_nil in Hk. destruct Hk as [->|[->|[->|[]]]]; reflexivity. Qed.
Lemma context_of_claims_ok payload c : context_of_claims py_str payload = Ok c → context_ok payload c.
Proof.
  unfold context_of_claims. destruct (negb (json_truthy (claim "namespace_id" payload))); [done|].
  destruct (UUID _) as [ns|] eqn:Ens; [|done]. cbv zeta. intros [= <-]. set (kind := lower (strip (str_or py_str "employee" (claim "principal_kind" payload)))).
  set (k := if bool_decide (kind ∈ principal_kinds) then kind else "employee"%string).
  assert (k ∈ principal_kinds) as Hk by (unfold k; case_bool_decide; [done|left]).
  split; cbn [make_context nc_namespace_id nc_agent_id nc_principal_kind nc_external_scope_id nc_principal_id].
  - by exists ns.
  - apply agent_id_not_empty.
  - apply kind_known.
  - intros s. rewrite kind_stays by done. case_bool_decide as Hout; cbn [andb]; [|done].
    destruct (json_truthy (claim "external_scope_id" payload)); [|done].
    destruct (UUID (strip (json_str py_str (claim "external_scope_id" payload)))) as [u|] eqn:Eu; [|done].
    destruct (String.eqb_spec u nil_uuid); [done|]. intros [= <-]. split_and!; [|done|done]. intros Hemp. rewrite Hemp in Hout.
    rewrite !elem_of_cons, elem_of_nil in Hout. naive_solver.
  - intros p. destruct (json_truthy (claim "principal_id" payload)) eqn:E1; rewrite ?E1.
    + intros [= <-]. eexists. split; [left|done].
    + destruct (json_truthy (claim "sub" payload)); [|done]. intros [= <-]. eexists. split; [right; left|done].
Qed.

(** What a request under the protected prefix has shown. *)
Definition authenticated (expected_audience : option string) (r : request) (c : NamespaceContext) : Prop :=
  ∃ scheme token key payload,
    partition_space (strip (rq_authorization r)) = (scheme, token) ∧ lower scheme = "bearer" ∧
    Z.of_nat (String.length (strip token)) <= 8192 ∧
    configured_key (NCE_JWT_ALGORITHM cfg) key ∧ signed (NCE_JWT_ALGORITHM cfg) key (strip token) payload ∧
    (∀ k, k ∈ dr_require (decode_request_for cfg expected_audience) → is_Some (json_get k payload)) ∧ context_ok payload c.

(** C17: The application sees only authenticated callers.  A request under the protected
    prefix is passed on only when it carries a bearer token that PyJWT accepts
    under the configured key and that names a tenant; the token is signed with the
    configured algorithm and a key of its kind, has every required claim, and the
    context the application reads is the token's: its tenant, its principal, an agent
    that is not empty, a known tier, and an external scope only for outsiders.  Every
    other request is answered, and does not reach the application. *)
Theorem requests_are_authenticated protected_prefix expected_audience r :
  match dispatch jwt_decode fs py_str cfg protected_prefix expected_audience r with
  | CallNext r' => (starts protected_prefix (rq_path r) = false ∧ r' = r) ∨
      (starts protected_prefix (rq_path r) = true ∧ ∃ c, r' = with_namespace c r ∧ authenticated expected_audience r c)
  | Unauthorized code reason => starts protected_prefix (rq_path r) = true ∧ code ∈ [JwtInvalid; JwtMissingClaim; JwtBadClaim]
  end.
Proof.
  unfold dispatch. destruct (starts protected_prefix (rq_path r)); cbn [negb]; [|by left].
  destruct (String.eqb _ ""); [by split; [|left]|]. destruct (partition_space _) as [scheme token] eqn:Ep.
  destruct (negb (String.eqb (lower scheme) "bearer") || _) eqn:Eb; [by split; [|left]|].
  destruct (Z.ltb_spec 8192 (Z.of_nat (String.length (strip token)))); [by split; [|left]|].
  destruct (decode_agent_token _ _ _ _ _ _) as [c|e] eqn:Ed; [|split; [done|]; destruct (je_code e); rewrite !elem_of_cons; auto].
  right. split; [done|]. exists c. split; [done|]. unfold decode_agent_token in Ed.
  destruct (_build_jwt_key _ _ _) as [key|] eqn:Ek; [|done]. destruct (jwt_decode _ _ _) as [payload|] eqn:Ej; [|done].
  apply decode_signed in Ej as [(alg & Halg & Hs) Hreq]. cbn in Halg. apply list_elem_of_singleton in Halg as ->.
  apply orb_false_iff in Eb as [Eb%negb_false_iff%String.eqb_eq _].
  exists scheme, token, key, payload. split_and!; [done|done|done|by apply build_key_configured|done|done|by apply context_of_claims_ok].
Qed.

(** ** Principals *)
Abbreviation sync := (resolve_principal_context_sync).
Lemma async_cached pool st r c : rq_principal_ctx r = Some c → resolve_principal_context_async pool st r = (c, r).
Proof. unfold resolve_principal_context_async. by intros ->. Qed.
Lemma sync_remembers st r : rq_principal_ctx (sync st r).2 = Some (sync st r).1.
Proof.
  unfold resolve_principal_context_sync. destruct (rq_principal_ctx r) eqn:E; [done|].
  destruct (extract_principal_identity r) as [[ns p] tier]. destruct (truthy_text p); [|done]. by destruct (_ ≫= _).
Qed.
Lemma current_is_sync pool st r : current_principal pool st r = sync st r.
Proof.
  unfold current_principal. pose proof (sync_remembers st r) as Hs. destruct (sync st r) as [c r'] eqn:E. by apply async_cached.
Qed.

(** Every binding in memory is under its own key. *)
Definition keyed st : Prop := ∀ ns p b, _IN_MEMORY_BINDINGS st !! (ns, p) = Some b → b_namespace_id b = ns ∧ b_principal_id b = p.
Definition nobody (c : PrincipalContext) : Prop :=
  pc_employee_id c = JNull ∧ pc_customer_id c = JNull ∧ pc_contractor_id c = JNull ∧ pc_roles c = [] ∧ pc_metadata c = JObj [].

Lemma sync_cases st r : rq_principal_ctx r = None →
  (pc_is_bound (sync st r).1 = false ∧ nobody (sync st r).1) ∨
  ∃ ns p tier b, extract_principal_identity r = (Some ns, Some p, tier) ∧ p ≠ "" ∧ _IN_MEMORY_BINDINGS st !! (ns, p) = Some b ∧
    (sync st r).1 = bound ns b.
Proof.
  intros Hn. unfold resolve_principal_context_sync. rewrite Hn. destruct (extract_principal_identity r) as [[ns p] tier].
  destruct (truthy_text p) as [p'|] eqn:Ep; [|by left]. destruct ns as [ns|]; [|by left]. cbn [mbind option_bind].
  destruct (_IN_MEMORY_BINDINGS st !! (ns, p')) as [b|] eqn:Eb; cbn [mbind option_bind]; [|by left].
  right. unfold truthy_text in Ep. destruct p as [p|]; [|done]. destruct (String.eqb_spec p ""); [done|]. injection Ep as <-.
  by exists ns, p, tier, b.
Qed.

(** A principal is the token's.  For an authenticated request the principal is
    bound only to the binding registered under the token's tenant and principal (its
    agent, when the token names none), whatever the headers say; and without one it
    carries no employee, customer, contractor, role or metadata. *)
Theorem principal_is_the_tokens pool st r c ns : keyed st → rq_principal_ctx r = None →
  rq_namespace_ctx r = Some c → nc_namespace_id c = Some ns → nc_agent_id c ≠ "" →
  let p := (current_principal pool st r).1 in
  let name := default (nc_agent_id c) (truthy_text (nc_principal_id c)) in
  (pc_is_bound p = false ∧ nobody p) ∨
  (∃ b, _IN_MEMORY_BINDINGS st !! (ns, name) = Some b ∧ p = bound ns b ∧ b_namespace_id b = ns ∧ b_principal_id b = name).
Proof.
  intros Hk Hn Hc Hns Ha p name. unfold p. rewrite current_is_sync.
  destruct (sync_cases st r Hn) as [?|(ns' & q & tier & b & Hex & _ & Hb & E)]; [by left|right].
  assert (ns' = ns ∧ q = name) as [-> ->].
  { unfold extract_principal_identity in Hex. rewrite Hc in Hex. cbn [mbind option_bind] in Hex. rewrite Hns in Hex. injection Hex as <- Hq _.
    split; [done|]. unfold name, or_text in *. destruct (truthy_text (nc_principal_id c)) as [s|] eqn:Es.
    - assert (truthy_text (Some s) = Some s) as E1.
      { unfold truthy_text in *. destruct (nc_principal_id c) as [t|]; [|done]. destruct (String.eqb_spec t ""); [done|]. injection Es as <-. by destruct (String.eqb_spec t ""). }
      rewrite E1 in Hq. by injection Hq.
    - assert (truthy_text (Some (nc_agent_id c)) = Some (nc_agent_id c)) as E1 by (unfold truthy_text; by destruct (String.eqb_spec (nc_agent_id c) "")).
      rewrite E1 in Hq. by injection Hq. }
  exists b. destruct (Hk _ _ _ Hb). by split_and!.
Qed.

(** ** Bindings in memory and in the table *)
Definition proposed (id ns p tier : string) (e c k : json) (roles : list json) (meta : json) : PrincipalBinding :=
  Binding id ns p tier e c k roles (if json_truthy meta then meta else JObj []).
(** The calls of one process, with a database that answers and accepts what it is
    given; a restart empties the memory.  A step names the binding it writes. *)
Inductive step : option (string * string) → identity_state → identity_state → Prop :=
  | step_upsert row_id fresh ns p tier e c k roles meta st :
      (∀ id, accepted (proposed id ns p tier e c k roles meta) = true) →
      step (Some (ns, p)) st (upsert_principal_binding accepted jsonb (Some Answered) row_id fresh ns p tier e c k roles meta st).1
  | step_delete ns p st : step None st (delete_principal_binding (Some Answered) ns p st).1
  | step_restart st : step None st (IdState ∅ (principal_bindings st)).
Definition any_step st st' : Prop := ∃ w, step w st st'.
Definition step_without (key : string * string) st st' : Prop := ∃ w, w ≠ Some key ∧ step w st st'.
(** What a request's principal is resolved to, synchronously or awaited. *)
Definition resolves st r c : Prop :=
  c = (sync st r).1 ∨ ∃ pool, c = (current_principal pool st r).1.
Definition agrees st : Prop := keyed st ∧ ∀ k b, _IN_MEMORY_BINDINGS st !! k = Some b → principal_bindings st !! k = Some (stored_row jsonb b).

Lemma upsert_answered row_id fresh ns p tier e c k roles meta st :
  (∀ id, accepted (proposed id ns p tier e c k roles meta) = true) →
  ∃ id, upsert_principal_binding accepted jsonb (Some Answered) row_id fresh ns p tier e c k roles meta st =
    (IdState (<[(ns, p) := proposed id ns p tier e c k roles meta]> (_IN_MEMORY_BINDINGS st))
             (<[(ns, p) := stored_row jsonb (proposed id ns p tier e c k roles meta)]> (principal_bindings st)),
     proposed id ns p tier e c k roles meta).
Proof.
  intros Hacc. unfold upsert_principal_binding. cbv zeta. eexists. unfold proposed in *. by rewrite Hacc.
Qed.
Lemma step_agrees w st st' : step w st st' → agrees st → agrees st'.
Proof.
  intros Hs [Hk Ha]. destruct Hs as [row_id fresh ns p tier e c k roles meta st Hacc|ns p st|st].
  - destruct (upsert_answered row_id fresh ns p tier e c k roles meta st Hacc) as [id ->]. split.
    + intros ns' p' b. cbn. destruct (decide ((ns', p') = (ns, p))) as [[= -> ->]|Hne]; [rewrite lookup_insert_eq; by intros [= <-]|].
      rewrite lookup_insert_ne by done. apply Hk.
    + intros key b. cbn. destruct (decide (key = (ns, p))) as [->|Hne]; [rewrite !lookup_insert_eq; by intros [= <-]|].
      rewrite !lookup_insert_ne by done. apply Ha.
  - split; cbn -[delete].
    + intros ns' p' b. cbn -[delete]. rewrite lookup_delete_Some. intros [_ ?]. by apply Hk.
    + intros key b. rewrite lookup_delete_Some. intros [Hne ?]. rewrite lookup_delete_ne by done. by apply Ha.
  - split; [intros ns p b H|intros k b H]; cbn -[lookup] in H; by rewrite lookup_empty in H.
Qed.

Lemma resolves_sync st r c : resolves st r c → c = (sync st r).1.
Proof. intros [?|[pool ->]]; [done|]. by rewrite current_is_sync. Qed.
Lemma step_without_forgets key st st' : step_without key st st' → _IN_MEMORY_BINDINGS st !! key = None → _IN_MEMORY_BINDINGS st' !! key = None.
Proof.
  intros (w & Hw & Hs) Hk. destruct Hs as [row_id fresh ns p tier e c k roles meta st Hacc|ns p st|st].
  - destruct (upsert_answered row_id fresh ns p tier e c k roles meta st Hacc) as [id ->]. cbn -[insert lookup].
    rewrite lookup_insert_ne by congruence. done.
  - cbn -[delete lookup]. by apply lookup_delete_None; right.
  - cbn -[lookup]. apply lookup_empty.
Qed.
Lemma runs_agree table st : rtc any_step (IdState ∅ table) st → agrees st.
Proof.
  remember (IdState ∅ table) as s0 eqn:E0. intros Hr.
  assert (agrees s0) as H0 by (subst s0; split; [intros ns p b H|intros k b H]; cbn -[lookup] in H; by rewrite lookup_empty in H).
  clear E0. induction Hr as [|? ? ? [w Hs] _ IH]; [done|]. apply IH. by eapply step_agrees.
Qed.


(** What a caller puts, it gets.  When [PUT /api/me/context] answers with a
    principal, the next [GET] of the same caller in this process answers with the same
    one, whatever happened to the database call. *)
Theorem put_then_get pool pool' row_id fresh body r r' st st' c :
  put_me_context accepted jsonb pool row_id fresh body r st = (st', MeOk c) →
  rq_principal_ctx r' = None → rq_namespace_ctx r' = rq_namespace_ctx r →
  get_me_context pool' st' r' = MeOk c.
Proof.
  intros Hput Hn Hc. unfold put_me_context in Hput. unfold get_me_context. rewrite Hc, current_is_sync.
  destruct (rq_namespace_ctx r) as [nc|] eqn:Enc; [|done]. destruct (nc_namespace_id nc) as [ns|] eqn:Ens; [|done].
  destruct (truthy_text (or_text (nc_principal_id nc) (Some (nc_agent_id nc)))) as [p|] eqn:Ep; [|done].
  destruct (default (JObj []) body) as [| | | | | |fields]; try done. cbv zeta in Hput.
  destruct (list_of _) as [roles|]; [|done].
  destruct (upsert_principal_binding _ _ _ _ _ _ _ _ _ _ _ _ _ _) as [st1 b] eqn:Eu. injection Hput as <- <-.
  assert (_IN_MEMORY_BINDINGS st1 !! (ns, p) = Some b) as Hm.
  { unfold upsert_principal_binding in Eu. cbv zeta in Eu. repeat case_match; injection Eu as <- <-; cbn; apply lookup_insert_eq. }
  cbn [mbind option_bind]. rewrite Ens. unfold resolve_principal_context_sync. rewrite Hn.
  assert (extract_principal_identity r' = (Some ns, Some p, default "employee"%string (truthy_text (Some (nc_principal_kind nc))))) as ->.
  { unfold extract_principal_identity. rewrite Hc. cbn [mbind option_bind]. by rewrite Ens, Ep. }
  assert (truthy_text (Some p) = Some p) as ->.
  { unfold truthy_text in *. destruct (or_text _ _) as [q|]; [|done]. destruct (String.eqb_spec q ""); [done|]. injection Ep as <-. by destruct (String.eqb_spec q ""). }
  cbn [mbind option_bind]. by rewrite Hm.
Qed.
End identity.

(** ** Concrete callers *)
Definition no_files : key_files := KeyFiles (λ s, [s]) (λ _, false) (λ _, false) (λ _, ""%string).
Definition demo_cfg (public secret alg : string) : jwt_config := JwtConfig public secret alg "" "nce" 30 false "/keys".
Definition demo_ns : string := "00112233-4455-6677-8899-aabbccddeeff".
Definition demo_claims : list (string * json) :=
  [("exp", JInt 99); ("iss", JStr "nce"); ("namespace_id", JStr demo_ns); ("sub", JStr "kari"); ("principal_kind", JStr "External-Customer")]%string.
Definition demo_decode (token key : string) (dr : decode_request) : result InvalidTokenError (list (string * json)) :=
  if String.eqb token "good" && String.eqb key "s3cret" && bool_decide ("HS256"%string ∈ dr_algorithms dr) &&
     forallb (λ k, match json_get k demo_claims with Some _ => true | None => false end) (dr_require dr)
  then Ok demo_claims else Err InvalidToken.
Definition demo_signed (alg key token : string) (payload : list (string * json)) : Prop :=
  (alg, key, token, payload) = ("HS256"%string, "s3cret"%string, "good"%string, demo_claims).
#[local] Instance demo_library : JwtLibrary demo_decode demo_signed.
Proof.
  split. intros token key dr payload. unfold demo_decode. destruct (_ && _) eqn:E; [|done]. intros [= <-].
  apply andb_true_iff in E as [[[E1%String.eqb_eq E2%String.eqb_eq]%andb_true_iff E3%bool_decide_eq_true]%andb_true_iff E4]. subst. split.
  - by exists "HS256"%string.
  - intros k Hk. rewrite forallb_forall in E4. specialize (E4 k (proj1 (list_elem_of_In _ _) Hk)). by destruct (json_get k demo_claims).
Qed.
Definition demo_request (authorization : string) (ctx : option NamespaceContext) : request :=
  Request "/api/me/context" authorization ctx None None None None None None.
Definition demo_dispatch (cfg : jwt_config) (authorization : string) : dispatched :=
  dispatch demo_decode no_files json_dumps cfg "/api/me" None (demo_request authorization None).
Definition demo_context : NamespaceContext := NsContext (Some demo_ns) "default" "external-customer" None (Some "kari"%string).

Example dispatch_answers :
  demo_dispatch (demo_cfg "" "s3cret" "HS256") "Bearer  good" = CallNext (demo_request "Bearer  good" (Some demo_context)) ∧
  demo_dispatch (demo_cfg "" "s3cret" "HS256") "Basic good" = Unauthorized JwtInvalid "invalid_authorization_scheme" ∧
  demo_dispatch (demo_cfg "" "s3cret" "none") "Bearer good" = Unauthorized JwtInvalid "jwt_server_misconfigured" ∧
  demo_dispatch (demo_cfg "-----KEY" "s3cret" "HS256") "Bearer good" = Unauthorized JwtInvalid "jwt_server_misconfigured" ∧
  demo_dispatch (demo_cfg "" "s3cret" "HS256") "Bearer forged" = Unauthorized JwtInvalid "jwt_invalid".
Proof. vm_compute. by split_and!. Qed.
Lemma requests_are_authenticated_witness : ∃ c,
  demo_dispatch (demo_cfg "" "s3cret" "HS256") "Bearer good" = CallNext (with_namespace c (demo_request "Bearer good" None)) ∧
  authenticated demo_signed no_files json_dumps (demo_cfg "" "s3cret" "HS256") None (demo_request "Bearer good" None) c.
Proof.
  pose proof (requests_are_authenticated demo_decode demo_signed no_files json_dumps (demo_cfg "" "s3cret" "HS256") "/api/me" None (demo_request "Bearer good" None)) as H.
  assert (demo_dispatch (demo_cfg "" "s3cret" "HS256") "Bearer good" = CallNext (with_namespace demo_context (demo_request "Bearer good" None))) as E
    by (vm_compute; reflexivity).
  fold (demo_dispatch (demo_cfg "" "s3cret" "HS256") "Bearer good") in H. rewrite E in H.
  destruct H as [[H _]|(_ & c & Hc & Ha)]; [discriminate H|]. exists c. split; [rewrite <- Hc; exact E|exact Ha].
Defined.

Definition demo_binding (id name tier : string) (roles : list json) : PrincipalBinding := Binding id demo_ns name tier (JStr "E-7") JNull JNull roles (JObj []).
Definition demo_put (pool : option call) (st : identity_state) : identity_state * me_response :=
  put_me_context (λ _, true) id pool "row" "fresh" (Some (JObj [("employee_id", JStr "E-7"); ("roles", JArr [JStr "admin"])]%string))
    (demo_request "" (Some demo_context)) st.
Definition no_bindings : identity_state := IdState ∅ ∅.
Definition demo_known : identity_state := (demo_put (Some Answered) no_bindings).1.
Lemma principal_is_the_tokens_witness :
  let p := (current_principal None demo_known (demo_request "" (Some demo_context))).1 in
  (pc_is_bound p = false ∧ nobody p) ∨
  (∃ b, _IN_MEMORY_BINDINGS demo_known !! (demo_ns, "kari"%string) = Some b ∧ p = bound demo_ns b ∧ b_namespace_id b = demo_ns ∧ b_principal_id b = "kari"%string).
Proof.
  apply (principal_is_the_tokens None demo_known (demo_request "" (Some demo_context)) demo_context demo_ns); [|reflexivity|reflexivity|reflexivity|discriminate].
  intros ns p b H. change (_IN_MEMORY_BINDINGS demo_known) with ({[(demo_ns, "kari"%string) := demo_binding "row" "kari" "external-customer" [JStr "admin"%string]]} : gmap (string * string) PrincipalBinding) in H.
  apply lookup_singleton_Some in H as [[= <- <-] <-]. split; reflexivity.
Defined.
Lemma demo_known_step : step (λ _, true) id (Some (demo_ns, "kari"%string)) no_bindings demo_known.
Proof. by apply (step_upsert (λ _, true) id "row" "fresh" demo_ns "kari" "external-customer" (JStr "E-7") JNull JNull [JStr "admin"%string] (JObj []) no_bindings). Qed.
Definition demo_deleted : identity_state := (delete_principal_binding (Some Answered) demo_ns "kari" demo_known).1.
Lemma put_then_get_witness : ∃ st' c, demo_put (Some NotSent) no_bindings = (st', MeOk c) ∧
  get_me_context (Some Answered) st' (demo_request "" (Some demo_context)) = MeOk c.
Proof.
  destruct (demo_put (Some NotSent) no_bindings) as [st' resp] eqn:E.
  destruct resp as [| | |c]; [vm_compute in E; discriminate E..|]. exists st', c. split; [reflexivity|].
  eapply put_then_get; [exact E|reflexivity|reflexivity].
Defined.

(** The table is not asked: after a restart the caller is nobody, although its row is
    there and a first resolution that could ask would find it. *)
Definition after_restart : identity_state := IdState ∅ (principal_bindings demo_known).
Example database_ignored :
  pc_is_bound (current_principal (Some Answered) after_restart (demo_request "" (Some demo_context))).1 = false ∧
  pc_is_bound (resolve_principal_context_async (Some Answered) after_restart (demo_request "" (Some demo_context))).1 = true.
Proof. vm_compute. by split. Qed.
(** A caller names its own employee and roles: here an outside customer. *)
Example roles_self_assigned :
  match (demo_put (Some Answered) no_bindings).2 with
  | MeOk c => (pc_tier c, pc_employee_id c, pc_roles c) = ("external-customer"%string, JStr "E-7", [JStr "admin"%string]) | _ => False
  end.
Proof. vm_compute. reflexivity. Qed.
(** A write the database never saw is answered as done. *)
Example lost_write_answered : let '(st, resp) := demo_put (Some NotSent) no_bindings in
  principal_bindings st = ∅ ∧ match resp with MeOk c => pc_is_bound c = true | _ => False end.
Proof. vm_compute. by split. Qed.
(** What one process deletes, another keeps honouring. *)
Example other_process_keeps_binding :
  let table := principal_bindings (delete_principal_binding (Some Answered) demo_ns "kari" demo_known).1 in
  table = ∅ ∧ pc_is_bound (current_principal (Some Answered) (IdState (_IN_MEMORY_BINDINGS demo_known) table) (demo_request "" (Some demo_context))).1 = true.
Proof. vm_compute. by split. Qed.
(** Without a token's context, headers name the tenant and the principal. *)
Example headers_name_the_principal :
  let r := Request "/admin" "" None None (Some demo_ns) None (Some "kari"%string) None None in
  pc_roles (current_principal None demo_known r).1 = [JStr "admin"%string].
Proof. vm_compute. reflexivity. Qed.
